(** * Hours-of-Service engine of the truck log backend

    A shallow embedding of [eld_logs/models.py] and [eld_logs/services.py]
    (class [HOSService]) together with the properties of the duty timeline,
    the cycle window calculator, the violation detector, the duty record
    mutator and the trip schedule simulator.

    Conventions of the embedding.
    - A [datetime] is a number of microseconds on the UTC clock, a
      [timedelta] a number of microseconds, a [date] a number of days;
      all three are integers, as in Python.
    - A Python [float] is the rational number it holds ([Q]).  Where the
      service adds floats up and compares the total with a limit (the
      checks of the detector, the driving hours of the status report),
      every operation is rounded as binary64 rounds it ([Float64]); the
      hours of a single duration and the arithmetic of the simulator on
      the trip hours are taken exactly.
      [timedelta(minutes=x)] rounds to the nearest microsecond, ties to even.
    - The database is an explicit store threaded through a state and
      exception monad; model instances are records, [save()] writes the
      row with the same primary key.
    - The store carries the reading of the clock for the call that runs
      on it; a later call runs on a store with a later reading. *)

From Stdlib Require Import ZArith QArith Qround List String Bool Lia Lqa.
From Stdlib Require Import Permutation Sorted DecimalString Qpower.
Import ListNotations.

Local Open Scope string_scope.
Local Open Scope list_scope.
Local Open Scope Z_scope.

(* ================================================================== *)
(** * Rationals used for Python floats *)

Definition Qltb (a b : Q) : bool :=
  match Qcompare a b with Lt => true | _ => false end.

Definition Qgtb (a b : Q) : bool := Qltb b a.

(** Python's [min(a, b)]: the first argument unless the second is smaller. *)
Definition py_min (a b : Q) : Q := if Qltb b a then b else a.

(** Python's [max(a, b)]: the first argument unless the second is larger. *)
Definition py_max (a b : Q) : Q := if Qltb a b then b else a.

(** [a >= b] on floats. *)
Definition Qgeb (a b : Q) : bool := negb (Qltb a b).

(** Python's [int(x)] on a float: truncation toward zero. *)
Definition py_int (x : Q) : Z := Z.quot (Qnum x) (Zpos (Qden x)).

(** Sum of a list of floats, as the builtin [sum] and the [+=] loops. *)
Definition Qsum (l : list Q) : Q := fold_left Qplus l 0%Q.

(* ================================================================== *)
(** * datetime, timedelta, date *)

Module Time.

Definition datetime := Z.
Definition timedelta := Z.
Definition date := Z.

Definition us_per_minute : Z := 60000000.
Definition us_per_hour : Z := 3600000000.
Definition us_per_day : Z := 86400000000.

(** [td.total_seconds()] *)
Definition total_seconds (d : timedelta) : Q := inject_Z d / 1000000.

(** [td.total_seconds() / 3600] *)
Definition hours (d : timedelta) : Q := total_seconds d / 3600.

(** Rounding to the nearest integer, ties to the even one: how the
    [timedelta] constructor turns a fractional argument into microseconds. *)
Definition round_half_even (q : Q) : Z :=
  let f := Qfloor q in
  match Qcompare (q - inject_Z f) (1 # 2) with
  | Lt => f
  | Gt => f + 1
  | Eq => if Z.even f then f else f + 1
  end.

(** [timedelta(minutes=m)] *)
Definition minutes (m : Q) : timedelta :=
  round_half_even (m * inject_Z us_per_minute).

(** [timedelta(days=n)] applied to a [date] moves it by [n]. *)
Definition days (n : Z) : Z := n.

(** [timezone.make_aware(datetime.combine(d, time(h, 0)))], UTC. *)
Definition combine (d : date) (h : Z) : datetime :=
  d * us_per_day + h * us_per_hour.

(** [dt.date()] *)
Definition date_of (t : datetime) : date := t / us_per_day.

End Time.

(* ================================================================== *)
(** * Sums of Python floats

    Where the service adds floats up and compares the total with a
    limit, every operation is rounded as binary64 does: a float is the
    exact rational value of the double, and an operation is the exact
    operation followed by rounding to the nearest double, ties to the
    even mantissa.  The exponent range of binary64 is not modelled; the
    hours and seconds of a log are far from its ends. *)

Module Float64.

(** The exponent of a positive rational: the [e] with
    [2^e <= x < 2^(e+1)]. *)
Definition exponent (x : Q) : Z :=
  let e0 := Z.log2 (Qnum x) - Z.log2 (Zpos (Qden x)) in
  if Qle_bool (2 ^ e0) x then e0 else e0 - 1.

(** The nearest double of a positive rational: 53 bits of mantissa. *)
Definition round_pos (x : Q) : Q :=
  let ulp := (2 ^ (exponent x - 52))%Q in
  (inject_Z (Time.round_half_even (x / ulp)) * ulp)%Q.

(** The nearest double of a rational. *)
Definition round (x : Q) : Q :=
  match Qcompare x 0 with
  | Eq => 0%Q
  | Gt => round_pos x
  | Lt => (- round_pos (- x))%Q
  end.

(** [a + b], [a - b] and [a / b] on floats. *)
Definition add (a b : Q) : Q := round (a + b).
Definition sub (a b : Q) : Q := round (a - b).
Definition div (a b : Q) : Q := round (a / b).

(** [td.total_seconds()]: the microseconds divided by [10**6], an
    integer division that Python rounds correctly. *)
Definition total_seconds (d : Time.timedelta) : Q :=
  round (inject_Z d / 1000000).

(** [td.total_seconds() / 3600] *)
Definition hours (d : Time.timedelta) : Q := div (total_seconds d) 3600.

(** The builtin [sum] of floats and a [+=] loop from 0: the terms are
    added from the left, each addition rounded (CPython up to 3.11;
    later versions compensate the error in [sum]). *)
Definition sum (l : list Q) : Q := fold_left add l 0%Q.

End Float64.

(* ================================================================== *)
(** * Models ([trips/models.py], [routes/models.py], [eld_logs/models.py]) *)

Module Driver.
Record t := mk {
  id : Z;
  name : string;
  cycle_type : string
}.
End Driver.

Module RouteCalculation.
Record t := mk {
  total_distance_miles : Q;
  estimated_duration_hours : Q
}.
End RouteCalculation.

Module Trip.
Record t := mk {
  id : Z;
  driver : Driver.t;
  current_location : string;
  pickup_location : string;
  dropoff_location : string;
  planned_start_time : option Time.datetime;
  (** the reverse one-to-one accessor [trip.route]; [None] when no
      [RouteCalculation] row points to the trip *)
  route : option RouteCalculation.t
}.
End Trip.

(** Of each model the fields that the service reads or writes are kept;
    bookkeeping columns ([created_at], [updated_at], [is_edited],
    [edit_reason], the odometer bounds and notes of a log, the
    certification time) play no part in it. *)

Module DutyStatusRecord.
Record t := mk {
  id : Z;
  eld_log : Z;                       (* foreign key: [ELDLog.id] *)
  duty_status : string;
  start_time : Time.datetime;
  end_time : option Time.datetime;
  location : string;
  latitude : option Q;
  longitude : option Q;
  odometer : option Z;
  notes : string;
  is_automatic : bool
}.

Definition with_end_time (r : t) (e : option Time.datetime) : t :=
  mk (id r) (eld_log r) (duty_status r) (start_time r) e (location r)
     (latitude r) (longitude r) (odometer r) (notes r) (is_automatic r).

(** The [duration] property. *)
Definition duration (self : t) : Time.timedelta :=
  match end_time self with
  | Some e => e - start_time self
  | None => 0
  end.
End DutyStatusRecord.

Module ELDLog.
Record t := mk {
  id : Z;
  driver : Driver.t;
  trip : option Z;                   (* foreign key: [Trip.id] *)
  log_date : Time.date;
  vehicle_id : string;
  total_drive_time : Time.timedelta;
  total_duty_time : Time.timedelta;
  total_off_duty_time : Time.timedelta;
  total_sleeper_time : Time.timedelta;
  has_driving_violation : bool;
  has_duty_violation : bool;
  is_certified : bool
}.

Definition with_trip (l : t) (tr : option Z) : t :=
  mk (id l) (driver l) tr (log_date l) (vehicle_id l)
     (total_drive_time l) (total_duty_time l) (total_off_duty_time l)
     (total_sleeper_time l) (has_driving_violation l)
     (has_duty_violation l) (is_certified l).

Definition with_totals (l : t) (dr du off sl : Time.timedelta) : t :=
  mk (id l) (driver l) (trip l) (log_date l) (vehicle_id l)
     dr du off sl (has_driving_violation l)
     (has_duty_violation l) (is_certified l).

Definition with_flags (l : t) (hd hu : bool) : t :=
  mk (id l) (driver l) (trip l) (log_date l) (vehicle_id l)
     (total_drive_time l) (total_duty_time l) (total_off_duty_time l)
     (total_sleeper_time l) hd hu (is_certified l).
End ELDLog.

Module HOSViolation.
(** The free-text [description] is not kept: no property reads it. *)
Record t := mk {
  id : Z;
  eld_log : Z;
  violation_type : string;
  severity : string;
  actual_value : Q;
  limit_value : Q;
  violation_time : Time.datetime
}.
End HOSViolation.

(** The dictionary that [HOSService.calculate_available_hours] returns,
    one field per key. *)
Module HOSStatus.
Record t := mk {
  daily_driving_used : Q;
  daily_driving_available : Q;
  daily_duty_used : Q;
  daily_duty_available : Q;
  cycle_used : Q;
  cycle_available : Q;
  cycle_limit : Q;
  needs_break_soon : bool;
  needs_daily_rest : bool
}.
End HOSStatus.

(* ================================================================== *)
(** * QuerySet ordering *)

Section OrderBy.
Context {A : Type} (leb : A -> A -> bool).

Fixpoint insert_sorted (x : A) (l : list A) : list A :=
  match l with
  | [] => [x]
  | y :: l' => if leb x y then x :: l else y :: insert_sorted x l'
  end.

(** [qs.order_by(key)]: rows with equal keys stay in table order. *)
Definition order_by (l : list A) : list A :=
  fold_right insert_sorted [] l.
End OrderBy.

(** [qs.first()] and [qs.last()] of an ordered QuerySet. *)
Definition qs_first {A} (l : list A) : option A := hd_error l.

Definition qs_last {A} (l : list A) : option A := hd_error (rev l).

(* ================================================================== *)
(** * The store and the monad of the service code *)

Inductive exn : Type :=
| ValueError (msg : string)
| RelatedObjectDoesNotExist
| AttributeError
| InvalidTransition.   (* named by the design document; no code raises it *)

Inductive outcome (A : Type) : Type :=
| Ok (a : A)
| Raise (e : exn).
Arguments Ok {A} a.
Arguments Raise {A} e.

Module Store.

Record DB := mk {
  eld_logs : list ELDLog.t;
  duty_records : list DutyStatusRecord.t;
  violations : list HOSViolation.t;
  (** [timezone.now()] during the call that runs on the store *)
  now : Time.datetime;
  (** how the backend orders NULL: above every value (PostgreSQL)
      or below every value (SQLite, MySQL) *)
  nulls_high : bool
}.

Definition empty (clock : Time.datetime) (nh : bool) : DB :=
  mk [] [] [] clock nh.

Definition max_id (l : list Z) : Z := fold_right Z.max 0 l.

(** [uuid.uuid4()]: a primary key that no row holds or refers to. *)
Definition uuid4 (db : DB) : Z :=
  1 + max_id (map ELDLog.id (eld_logs db)
              ++ map DutyStatusRecord.id (duty_records db)
              ++ map DutyStatusRecord.eld_log (duty_records db)
              ++ map HOSViolation.id (violations db)
              ++ map HOSViolation.eld_log (violations db)).

Definition M (A : Type) : Type := DB -> outcome A * DB.

Definition ret {A} (a : A) : M A := fun db => (Ok a, db).

Definition bind {A B} (m : M A) (k : A -> M B) : M B :=
  fun db =>
    match m db with
    | (Ok a, db') => k a db'
    | (Raise e, db') => (Raise e, db')
    end.

Definition raise {A} (e : exn) : M A := fun db => (Raise e, db).

Definition gets {A} (f : DB -> A) : M A := fun db => (Ok (f db), db).

Definition modify (f : DB -> DB) : M unit := fun db => (Ok tt, f db).

(** [eld_log.save()] *)
Definition save_log (l : ELDLog.t) : M unit :=
  modify (fun db =>
    let same (x : ELDLog.t) := ELDLog.id x =? ELDLog.id l in
    mk (if existsb same (eld_logs db)
        then map (fun x => if same x then l else x) (eld_logs db)
        else eld_logs db ++ [l])
       (duty_records db) (violations db) (now db) (nulls_high db)).

(** [record.save()] *)
Definition save_record (r : DutyStatusRecord.t) : M unit :=
  modify (fun db =>
    let same (x : DutyStatusRecord.t) :=
      DutyStatusRecord.id x =? DutyStatusRecord.id r in
    mk (eld_logs db)
       (if existsb same (duty_records db)
        then map (fun x => if same x then r else x) (duty_records db)
        else duty_records db ++ [r])
       (violations db) (now db) (nulls_high db)).

(** [DutyStatusRecord.objects.create(...)] *)
Definition create_record (log : ELDLog.t) (status : string)
    (start : Time.datetime) (e : option Time.datetime) (loc : string)
    (lat lng : option Q) (odo : option Z) (notes : string) (auto : bool)
  : M DutyStatusRecord.t :=
  fun db =>
    let r := DutyStatusRecord.mk (uuid4 db) (ELDLog.id log) status start e
               loc lat lng odo notes auto in
    (Ok r, mk (eld_logs db) (duty_records db ++ [r]) (violations db)
              (now db) (nulls_high db)).

(** [HOSViolation.objects.create(...)] *)
Definition create_violation (log : ELDLog.t) (vtype sev : string)
    (actual limit : Q) (at_time : Time.datetime) : M HOSViolation.t :=
  fun db =>
    let v := HOSViolation.mk (uuid4 db) (ELDLog.id log) vtype sev
               actual limit at_time in
    (Ok v, mk (eld_logs db) (duty_records db) (violations db ++ [v])
              (now db) (nulls_high db)).

Definition start_leb (a b : DutyStatusRecord.t) : bool :=
  DutyStatusRecord.start_time a <=? DutyStatusRecord.start_time b.

(** [eld_log.duty_records]: the rows of the log in the model's default
    ordering, [Meta.ordering = ['eld_log', 'start_time']]. *)
Definition duty_records_of (db : DB) (log : ELDLog.t)
  : list DutyStatusRecord.t :=
  order_by start_leb
    (filter (fun r => DutyStatusRecord.eld_log r =? ELDLog.id log)
            (duty_records db)).

(** Ascending comparison of a nullable column. *)
Definition null_leb (nh : bool) (a b : option Z) : bool :=
  match a, b with
  | None, None => true
  | None, Some _ => negb nh
  | Some _, None => nh
  | Some x, Some y => x <=? y
  end.

(** Comparison used by [order_by('-end_time')]. *)
Definition end_desc_leb (nh : bool) (a b : DutyStatusRecord.t) : bool :=
  null_leb nh (DutyStatusRecord.end_time b) (DutyStatusRecord.end_time a).

Definition same_driver (d : Driver.t) (l : ELDLog.t) : bool :=
  Driver.id (ELDLog.driver l) =? Driver.id d.

(** [ELDLog.objects.get(driver=d, log_date=day)]; [None] stands for
    [DoesNotExist].  [unique_together = ['driver', 'log_date']] leaves
    at most one such row. *)
Definition get_log (db : DB) (d : Driver.t) (day : Time.date)
  : option ELDLog.t :=
  find (fun l => same_driver d l && (ELDLog.log_date l =? day))
       (eld_logs db).

Definition date_desc_leb (a b : ELDLog.t) : bool :=
  ELDLog.log_date b <=? ELDLog.log_date a.

(** [ELDLog.objects.filter(driver=d, log_date__gte=lo, log_date__lte=hi)]
    in the default ordering [['-log_date']]. *)
Definition filter_logs (db : DB) (d : Driver.t) (lo hi : Time.date)
  : list ELDLog.t :=
  order_by date_desc_leb
    (filter (fun l => same_driver d l && (lo <=? ELDLog.log_date l)
                      && (ELDLog.log_date l <=? hi))
            (eld_logs db)).

End Store.

Declare Scope hos_scope.
Delimit Scope hos_scope with hos.
Notation "x <- c1 ;; c2" := (Store.bind c1 (fun x => c2))
  (at level 61, c1 at next level, right associativity) : hos_scope.
Notation "c1 ;;; c2" := (Store.bind c1 (fun _ => c2))
  (at level 61, right associativity) : hos_scope.

(* ================================================================== *)
(** * [class HOSService] ([eld_logs/services.py]) *)

(** The constructor of the class only fills the [DutyStatus] lookup table,
    which no method reads; the methods below are those of the cycle
    calculator, the detector, the mutator and the simulator. *)
Module HOSService.
Import Store.
Local Open Scope hos_scope.

(** Federal HOS limits *)
Definition DAILY_DRIVING_LIMIT : Q := 11.
Definition DAILY_DUTY_LIMIT : Q := 14.
Definition CYCLE_70_8_LIMIT : Q := 70.
Definition CYCLE_60_7_LIMIT : Q := 60.
Definition DAILY_OFF_DUTY_MINIMUM : Q := 10.
Definition BREAK_REQUIREMENT_HOURS : Q := 8.
Definition BREAK_MINIMUM_MINUTES : Z := 30.

Definition has_status (s : string) (r : DutyStatusRecord.t) : bool :=
  String.eqb (DutyStatusRecord.duty_status r) s.

(** [duty_status__in=['driving', 'on_duty_not_driving']] *)
Definition is_duty (r : DutyStatusRecord.t) : bool :=
  existsb (String.eqb (DutyStatusRecord.duty_status r))
          ["driving"; "on_duty_not_driving"].

(** Body of the inner loop of [get_current_cycle_hours]. *)
Definition add_record_hours (total_hours : Q) (record : DutyStatusRecord.t)
  : Q :=
  match DutyStatusRecord.end_time record with
  | Some e =>
      let duration := e - DutyStatusRecord.start_time record in
      (total_hours + Time.total_seconds duration / 3600)%Q
  | None => total_hours
  end.

(** Calculate current cycle hours for driver: the total with every
    addition taken exactly.  The float that the interpreter returns is
    [get_current_cycle_hours_float] below. *)
Definition get_current_cycle_hours (db : DB) (driver : Driver.t)
    (date : option Time.date) : Q :=
  let date := match date with
              | Some d => d
              | None => Time.date_of (now db)
              end in
  let days_back :=
    if String.eqb (Driver.cycle_type driver) "70_8" then 8 else 7 in
  let start_date := date - Time.days (days_back - 1) in
  let logs := filter_logs db driver start_date date in
  fold_left
    (fun total_hours log =>
       let duty_records := filter is_duty (duty_records_of db log) in
       fold_left add_record_hours duty_records total_hours)
    logs 0%Q.

(** The body of the inner loop of [get_current_cycle_hours] on floats:
    the division by [10**6], the division by 3600 and the addition are
    each rounded. *)
Definition add_record_hours_float (total_hours : Q)
    (record : DutyStatusRecord.t) : Q :=
  match DutyStatusRecord.end_time record with
  | Some e =>
      let duration := e - DutyStatusRecord.start_time record in
      Float64.add total_hours
        (Float64.div (Float64.total_seconds duration) 3600)
  | None => total_hours
  end.

(** [get_current_cycle_hours] as the interpreter runs it: the same
    loops over the same rows, every [+=] rounded.  The cycle check
    compares this float with the limit. *)
Definition get_current_cycle_hours_float (db : DB) (driver : Driver.t)
    (date : option Time.date) : Q :=
  let date := match date with
              | Some d => d
              | None => Time.date_of (now db)
              end in
  let days_back :=
    if String.eqb (Driver.cycle_type driver) "70_8" then 8 else 7 in
  let start_date := date - Time.days (days_back - 1) in
  let logs := filter_logs db driver start_date date in
  fold_left
    (fun total_hours log =>
       let duty_records := filter is_duty (duty_records_of db log) in
       fold_left add_record_hours_float duty_records total_hours)
    logs 0%Q.

Definition _check_daily_driving_limit (eld_log : ELDLog.t)
  : M (option HOSViolation.t) :=
  driving_records <-
    gets (fun db => filter (has_status "driving")
                           (duty_records_of db eld_log)) ;;
  let total_driving_seconds :=
    Float64.sum
      (flat_map
         (fun record =>
            match DutyStatusRecord.end_time record with
            | Some e =>
                [Float64.total_seconds
                   (e - DutyStatusRecord.start_time record)]
            | None => []
            end)
         driving_records) in
  let total_driving_hours := Float64.div total_driving_seconds 3600 in
  if Qgtb total_driving_hours DAILY_DRIVING_LIMIT then
    match qs_last driving_records with
    | None => raise AttributeError
    | Some last_record =>
        clock <- gets now ;;
        v <- create_violation eld_log "drive_11h" "violation"
               total_driving_hours DAILY_DRIVING_LIMIT
               (match DutyStatusRecord.end_time last_record with
                | Some e => e
                | None => clock
                end) ;;
        ret (Some v)
    end
  else ret None.

Definition _check_daily_duty_limit (eld_log : ELDLog.t)
  : M (option HOSViolation.t) :=
  duty_records <-
    gets (fun db => order_by start_leb
                      (filter is_duty (duty_records_of db eld_log))) ;;
  match qs_first duty_records, qs_last duty_records with
  | Some first_duty, Some last_duty =>
      match DutyStatusRecord.end_time last_duty with
      | Some last_end =>
          let total_duty_window :=
            last_end - DutyStatusRecord.start_time first_duty in
          let total_duty_hours :=
            (Time.total_seconds total_duty_window / 3600)%Q in
          if Qgtb total_duty_hours DAILY_DUTY_LIMIT then
            v <- create_violation eld_log "duty_14h" "violation"
                   total_duty_hours DAILY_DUTY_LIMIT last_end ;;
            ret (Some v)
          else ret None
      | None => ret None
      end
  | _, _ => ret None
  end.

Definition _check_cycle_limit (eld_log : ELDLog.t)
  : M (option HOSViolation.t) :=
  current_cycle_hours <-
    gets (fun db => get_current_cycle_hours_float db
                      (ELDLog.driver eld_log)
                      (Some (ELDLog.log_date eld_log))) ;;
  let '(limit, violation_type) :=
    if String.eqb (Driver.cycle_type (ELDLog.driver eld_log)) "70_8"
    then (CYCLE_70_8_LIMIT, "cycle_70h")
    else (CYCLE_60_7_LIMIT, "cycle_60h") in
  if Qgtb current_cycle_hours limit then
    clock <- gets now ;;
    v <- create_violation eld_log violation_type "critical"
           current_cycle_hours limit clock ;;
    ret (Some v)
  else ret None.

(** The loop of [_check_break_requirement]; it stops at the first record
    that takes the running total above eight hours and yields that total
    with the record's end.  The running total is a float: the hours of a
    record and each [+=] are rounded. *)
Fixpoint break_loop (driving_records : list DutyStatusRecord.t)
    (continuous_driving : Q) (last_break_time : option Time.datetime)
  : option (Q * Time.datetime) :=
  match driving_records with
  | [] => None
  | record :: rest =>
      match DutyStatusRecord.end_time record with
      | Some e =>
          let continuous_driving :=
            match last_break_time with
            | Some lb =>
                if Time.minutes 30
                   <=? DutyStatusRecord.start_time record - lb
                then 0%Q else continuous_driving
            | None => continuous_driving
            end in
          let duration := e - DutyStatusRecord.start_time record in
          let driving_duration :=
            Float64.div (Float64.total_seconds duration) 3600 in
          let continuous_driving :=
            Float64.add continuous_driving driving_duration in
          if Qgtb continuous_driving BREAK_REQUIREMENT_HOURS
          then Some (continuous_driving, e)
          else break_loop rest continuous_driving (Some e)
      | None => break_loop rest continuous_driving last_break_time
      end
  end.

Definition _check_break_requirement (eld_log : ELDLog.t)
  : M (option HOSViolation.t) :=
  driving_records <-
    gets (fun db => order_by start_leb
                      (filter (has_status "driving")
                              (duty_records_of db eld_log))) ;;
  match break_loop driving_records 0%Q None with
  | Some (continuous_driving, at_time) =>
      v <- create_violation eld_log "rest_break" "violation"
             continuous_driving BREAK_REQUIREMENT_HOURS at_time ;;
      ret (Some v)
  | None => ret None
  end.

Definition _check_daily_rest_requirement (eld_log : ELDLog.t)
  : M (option HOSViolation.t) :=
  let previous_date := ELDLog.log_date eld_log - Time.days 1 in
  previous <-
    gets (fun db => get_log db (ELDLog.driver eld_log) previous_date) ;;
  match previous with
  | None => ret None
  | Some previous_log =>
      last_duty_previous <-
        gets (fun db =>
                qs_first (order_by (end_desc_leb (nulls_high db))
                            (filter is_duty
                               (duty_records_of db previous_log)))) ;;
      first_duty_current <-
        gets (fun db =>
                qs_first (order_by start_leb
                            (filter is_duty
                               (duty_records_of db eld_log)))) ;;
      match last_duty_previous, first_duty_current with
      | Some lp, Some fc =>
          match DutyStatusRecord.end_time lp with
          | Some prev_end =>
              let rest_duration :=
                DutyStatusRecord.start_time fc - prev_end in
              let rest_hours :=
                (Time.total_seconds rest_duration / 3600)%Q in
              if Qltb rest_hours DAILY_OFF_DUTY_MINIMUM then
                v <- create_violation eld_log "daily_rest" "violation"
                       rest_hours DAILY_OFF_DUTY_MINIMUM
                       (DutyStatusRecord.start_time fc) ;;
                ret (Some v)
              else ret None
          | None => ret None
          end
      | _, _ => ret None
      end
  end.

(** [violations.append(v)] when the check returned a violation. *)
Definition append_if {A} (l : list A) (o : option A) : list A :=
  match o with Some v => l ++ [v] | None => l end.

Definition check_hos_violations (eld_log : ELDLog.t)
  : M (list HOSViolation.t) :=
  let violations := [] in
  driving_violation <- _check_daily_driving_limit eld_log ;;
  let violations := append_if violations driving_violation in
  duty_violation <- _check_daily_duty_limit eld_log ;;
  let violations := append_if violations duty_violation in
  cycle_violation <- _check_cycle_limit eld_log ;;
  let violations := append_if violations cycle_violation in
  break_violation <- _check_break_requirement eld_log ;;
  let violations := append_if violations break_violation in
  rest_violation <- _check_daily_rest_requirement eld_log ;;
  let violations := append_if violations rest_violation in
  ret violations.

(** Calculate available driving and duty hours for driver.  The method
    only reads the store.  The driving hours of the day are a sum of
    floats, one term per record, and the hours left of each limit a
    float subtraction; the duty window is a single duration and the
    cycle hours those of [get_current_cycle_hours]. *)
Definition calculate_available_hours (db : DB) (driver : Driver.t)
    (current_time : option Time.datetime) : HOSStatus.t :=
  let current_time :=
    match current_time with Some t => t | None => now db end in
  let current_date := Time.date_of current_time in
  let current_log := get_log db driver current_date in
  let current_cycle :=
    get_current_cycle_hours db driver (Some current_date) in
  let '(daily_driving, daily_duty) :=
    match current_log with
    | Some current_log =>
        let driving_records :=
          filter (has_status "driving") (duty_records_of db current_log) in
        let duty_records :=
          filter is_duty (duty_records_of db current_log) in
        let daily_driving :=
          Float64.sum
            (flat_map
               (fun record =>
                  match DutyStatusRecord.end_time record with
                  | Some e =>
                      [Float64.div
                         (Float64.total_seconds
                            (e - DutyStatusRecord.start_time record))
                         3600]
                  | None => []
                  end)
               driving_records) in
        let daily_duty :=
          match duty_records with
          | [] => 0%Q
          | _ :: _ =>
              match qs_first (order_by start_leb duty_records),
                    qs_first (order_by (end_desc_leb (nulls_high db))
                                duty_records) with
              | Some first_duty, Some last_duty =>
                  match DutyStatusRecord.end_time last_duty with
                  | Some last_end =>
                      let duty_window :=
                        last_end - DutyStatusRecord.start_time first_duty in
                      (Time.total_seconds duty_window / 3600)%Q
                  | None => 0%Q
                  end
              | _, _ => 0%Q
              end
          end in
        (daily_driving, daily_duty)
    | None => (0%Q, 0%Q)
    end in
  let cycle_limit :=
    if String.eqb (Driver.cycle_type driver) "70_8"
    then CYCLE_70_8_LIMIT else CYCLE_60_7_LIMIT in
  HOSStatus.mk
    daily_driving
    (py_max 0 (Float64.sub DAILY_DRIVING_LIMIT daily_driving))
    daily_duty
    (py_max 0 (Float64.sub DAILY_DUTY_LIMIT daily_duty))
    current_cycle
    (py_max 0 (Float64.sub cycle_limit current_cycle))
    cycle_limit
    (Qgeb daily_driving (BREAK_REQUIREMENT_HOURS - 1))
    (Qgeb daily_duty (DAILY_DUTY_LIMIT - 1)).

(** Body of the loop of [_update_eld_log_totals]; the state is
    [(total_drive, total_duty, total_off_duty, total_sleeper)]. *)
Definition add_to_totals
    (acc : Time.timedelta * Time.timedelta * Time.timedelta * Time.timedelta)
    (record : DutyStatusRecord.t) :=
  let '(total_drive, total_duty, total_off_duty, total_sleeper) := acc in
  match DutyStatusRecord.end_time record with
  | Some e =>
      let duration := e - DutyStatusRecord.start_time record in
      if has_status "driving" record then
        (total_drive + duration, total_duty + duration,
         total_off_duty, total_sleeper)
      else if has_status "on_duty_not_driving" record then
        (total_drive, total_duty + duration, total_off_duty, total_sleeper)
      else if has_status "off_duty" record then
        (total_drive, total_duty, total_off_duty + duration, total_sleeper)
      else if has_status "sleeper_berth" record then
        (total_drive, total_duty, total_off_duty, total_sleeper + duration)
      else acc
  | None => acc
  end.

(** Returns the log object as the method leaves it. *)
Definition _update_eld_log_totals (eld_log : ELDLog.t) : M ELDLog.t :=
  records <- gets (fun db => duty_records_of db eld_log) ;;
  let '(total_drive, total_duty, total_off_duty, total_sleeper) :=
    fold_left add_to_totals records (0, 0, 0, 0) in
  let eld_log :=
    ELDLog.with_totals eld_log total_drive total_duty
                       total_off_duty total_sleeper in
  save_log eld_log ;;;
  ret eld_log.

(** Returns the new record and the log object as the method leaves it. *)
Definition create_duty_status_record (eld_log : ELDLog.t)
    (duty_status : string) (start_time : Time.datetime) (location : string)
    (latitude longitude : option Q) (notes : string) (odometer : option Z)
  : M (DutyStatusRecord.t * ELDLog.t) :=
  previous_record <-
    gets (fun db =>
            qs_last (filter
                       (fun r => match DutyStatusRecord.end_time r with
                                 | None => true
                                 | Some _ => false
                                 end)
                       (duty_records_of db eld_log))) ;;
  match previous_record with
  | Some previous_record =>
      save_record
        (DutyStatusRecord.with_end_time previous_record (Some start_time))
  | None => ret tt
  end ;;;
  record <- create_record eld_log duty_status start_time None location
              latitude longitude odometer notes false ;;
  eld_log <- _update_eld_log_totals eld_log ;;
  violations <- check_hos_violations eld_log ;;
  eld_log <-
    match violations with
    | [] => ret eld_log
    | _ :: _ =>
        let eld_log :=
          ELDLog.with_flags eld_log
            (existsb (fun v => String.eqb (HOSViolation.violation_type v)
                                          "drive_11h") violations)
            (existsb (fun v => String.eqb (HOSViolation.violation_type v)
                                          "duty_14h") violations) in
        save_log eld_log ;;;
        ret eld_log
    end ;;
  ret (record, eld_log).

(** [ELDLog.objects.get_or_create(driver=..., log_date=...,
    defaults={'trip': ..., 'vehicle_id': ..., 'is_certified': False})] *)
Definition get_or_create_log (driver : Driver.t) (log_date : Time.date)
    (trip : Trip.t) (vehicle_id : string) : M (ELDLog.t * bool) :=
  fun db =>
    match get_log db driver log_date with
    | Some l => (Ok (l, false), db)
    | None =>
        let l := ELDLog.mk (uuid4 db) driver (Some (Trip.id trip)) log_date
                   vehicle_id 0 0 0 0 false false false in
        (Ok (l, true),
         Store.mk (eld_logs db ++ [l]) (duty_records db) (violations db)
                  (now db) (nulls_high db))
    end.

(** Add a duty status record and return the end time. *)
Definition _add_duty_record (eld_log : ELDLog.t) (duty_status : string)
    (start_time : Time.datetime) (duration_minutes : Q)
    (notes location : string) : M Time.datetime :=
  let end_time := start_time + Time.minutes duration_minutes in
  create_record eld_log duty_status start_time (Some end_time) location
    None None None notes true ;;;
  ret end_time.

(** Generate duty status records for a single day. *)
Definition _generate_daily_duty_records (eld_log : ELDLog.t)
    (trip : Trip.t) (day_number : Z) (total_trip_hours : Q) : M unit :=
  let start_time := Time.combine (ELDLog.log_date eld_log) 6 in
  let current_time := start_time in
  current_time <-
    _add_duty_record eld_log "on_duty_not_driving" current_time 15
      "Pre-trip inspection" (Trip.current_location trip) ;;
  let remaining_hours :=
    py_min 11 (total_trip_hours - inject_Z day_number * 11) in
  current_time <-
    (if Qgtb remaining_hours 0 then
       st <-
         (if day_number =? 0 then
            current_time <-
              _add_duty_record eld_log "on_duty_not_driving" current_time
                60 "Pickup operations" (Trip.pickup_location trip) ;;
            ret (current_time, (remaining_hours - 1)%Q)
          else ret (current_time, remaining_hours)) ;;
       let '(current_time, remaining_hours) := st in
       let max_driving := (if day_number >? 0 then 8 else 7)%Q in
       let driving_time := py_min max_driving remaining_hours in
       current_time <-
         _add_duty_record eld_log "driving" current_time
           (driving_time * 60) "Driving" "En route" ;;
       let remaining_hours := (remaining_hours - driving_time)%Q in
       if Qgtb remaining_hours 0 then
         current_time <-
           _add_duty_record eld_log "off_duty" current_time 30
             "Meal break" "Rest area" ;;
         let is_final_day :=
           day_number =? py_int (total_trip_hours / 11) in
         let max_additional_driving :=
           py_min 3 (remaining_hours - (if is_final_day then 1 else 0)) in
         current_time <-
           (if Qgtb max_additional_driving 0 then
              _add_duty_record eld_log "driving" current_time
                (max_additional_driving * 60) "Driving" "En route"
            else ret current_time) ;;
         if is_final_day then
           _add_duty_record eld_log "on_duty_not_driving" current_time 60
             "Dropoff operations" (Trip.dropoff_location trip)
         else ret current_time
       else ret current_time
     else ret current_time) ;;
  current_time <-
    _add_duty_record eld_log "on_duty_not_driving" current_time 15
      "Post-trip inspection" (Trip.dropoff_location trip) ;;
  let end_of_day :=
    Time.combine (ELDLog.log_date eld_log + Time.days 1) 0 in
  if current_time <? end_of_day then
    let left := end_of_day - current_time in
    _add_duty_record eld_log "off_duty" current_time
      (Time.total_seconds left / 60) "Off duty rest" "Truck stop" ;;;
    ret tt
  else ret tt.

Definition fk_eqb (a b : option Z) : bool :=
  match a, b with
  | Some x, Some y => x =? y
  | None, None => true
  | _, _ => false
  end.

(** The body of [for day in range(days_needed)], over the days left. *)
Fixpoint generate_days (trip : Trip.t) (total_hours : Q)
    (start_date : Time.date) (days : list Z) (logs : list ELDLog.t)
  : M (list ELDLog.t) :=
  match days with
  | [] => ret logs
  | day :: rest =>
      let log_date := start_date + Time.days day in
      got <-
        get_or_create_log (Trip.driver trip) log_date trip
          (String.append "TRUCK-"
             (NilZero.string_of_int
                (Z.to_int (Driver.id (Trip.driver trip))))) ;;
      let '(eld_log, created) := got in
      eld_log <-
        (if negb created
            && negb (fk_eqb (ELDLog.trip eld_log) (Some (Trip.id trip)))
         then
           let eld_log := ELDLog.with_trip eld_log (Some (Trip.id trip)) in
           save_log eld_log ;;;
           ret eld_log
         else ret eld_log) ;;
      (if created
       then _generate_daily_duty_records eld_log trip day total_hours
       else ret tt) ;;;
      generate_days trip total_hours start_date rest (logs ++ [eld_log])
  end.

(** [range(n)] *)
Definition py_range (n : Z) : list Z :=
  map Z.of_nat (seq 0 (Z.to_nat n)).

(** Generate ELD logs for a planned trip.  Reading [trip.route] of a trip
    without a route raises in the accessor, before the guard is reached;
    a route object is never falsy. *)
Definition generate_trip_eld_logs (trip : Trip.t) : M (list ELDLog.t) :=
  match Trip.route trip with
  | None => raise RelatedObjectDoesNotExist
  | Some route =>
      let total_hours := RouteCalculation.estimated_duration_hours route in
      let driving_hours_per_day := 11%Q in
      let days_needed :=
        Z.max 1 (py_int (total_hours / driving_hours_per_day) + 1) in
      start_date <-
        gets (fun db =>
                match Trip.planned_start_time trip with
                | Some t => Time.date_of t
                | None => Time.date_of (now db)
                end) ;;
      generate_days trip total_hours start_date (py_range days_needed) []
  end.

End HOSService.

(* ================================================================== *)
(** * Notions of the design document

    These definitions follow the wording of the specification; the
    theorems below compare them with the code above. *)

Module Spec.

Definition is_open (r : DutyStatusRecord.t) : bool :=
  match DutyStatusRecord.end_time r with
  | None => true
  | Some _ => false
  end.

Definition is_closed (r : DutyStatusRecord.t) : bool := negb (is_open r).

Definition Zsum (l : list Z) : Z := fold_right Z.add 0 l.

(** The intervals of a DailyLog, in table order. *)
Definition intervals (db : Store.DB) (log : ELDLog.t)
  : list DutyStatusRecord.t :=
  filter (fun r => DutyStatusRecord.eld_log r =? ELDLog.id log)
         (Store.duty_records db).

Definition open_intervals (db : Store.DB) (log : ELDLog.t)
  : list DutyStatusRecord.t :=
  filter is_open (intervals db log).

(** At most one interval of the log has a null end. *)
Definition at_most_one_open (db : Store.DB) (log : ELDLog.t) : Prop :=
  (List.length (open_intervals db log) <= 1)%nat.

(** A total computed through the [duration] property. *)
Definition total_duration (rs : list DutyStatusRecord.t) : Z :=
  Zsum (map DutyStatusRecord.duration rs).

(** Sum of [end - start] over the closed intervals whose status
    satisfies [p]. *)
Definition closed_total (p : string -> bool)
    (rs : list DutyStatusRecord.t) : Z :=
  Zsum (flat_map
          (fun r =>
             match DutyStatusRecord.end_time r with
             | Some e =>
                 if p (DutyStatusRecord.duty_status r)
                 then [e - DutyStatusRecord.start_time r] else []
             | None => []
             end) rs).

Definition driving (s : string) : bool := String.eqb s "driving".
Definition on_duty (s : string) : bool :=
  String.eqb s "driving" || String.eqb s "on_duty_not_driving".
Definition off_duty (s : string) : bool := String.eqb s "off_duty".
Definition sleeper (s : string) : bool := String.eqb s "sleeper_berth".

(** The four cached aggregates agree with the closed intervals. *)
Definition cache_consistent (db : Store.DB) (log : ELDLog.t) : Prop :=
  let rs := intervals db log in
  ELDLog.total_drive_time log = closed_total driving rs
  /\ ELDLog.total_duty_time log = closed_total on_duty rs
  /\ ELDLog.total_off_duty_time log = closed_total off_duty rs
  /\ ELDLog.total_sleeper_time log = closed_total sleeper rs.

(** The row of the store that holds the log. *)
Definition stored (db : Store.DB) (log : ELDLog.t) : Prop :=
  In log (Store.eld_logs db)
  /\ forall row, In row (Store.eld_logs db) ->
                 ELDLog.id row = ELDLog.id log -> row = log.

(** ** Cycle window *)

(** Window length in days: 8 for the 70-hour/8-day cycle, else 7. *)
Definition window (d : Driver.t) : Z :=
  if String.eqb (Driver.cycle_type d) "70_8" then 8 else 7.

(** [day] lies in [[as_of - (window - 1), as_of]]. *)
Definition in_window (d : Driver.t) (as_of day : Time.date) : bool :=
  (as_of - (window d - 1) <=? day) && (day <=? as_of).


(** Hours of one closed interval if it is driving or on duty. *)
Definition duty_contribution (r : DutyStatusRecord.t) : list Q :=
  match DutyStatusRecord.end_time r with
  | Some e =>
      if on_duty (DutyStatusRecord.duty_status r)
      then [Time.hours (e - DutyStatusRecord.start_time r)] else []
  | None => []
  end.

(** Hours of the closed driving and on-duty intervals of a log. *)
Definition duty_hours (db : Store.DB) (log : ELDLog.t) : Q :=
  Qsum (flat_map duty_contribution (intervals db log)).

(** Sum over the driver's logs dated in the window. *)
Definition cycle_hours_used (db : Store.DB) (d : Driver.t)
    (as_of : Time.date) : Q :=
  Qsum (map (duty_hours db)
            (filter (fun l => Store.same_driver d l
                              && in_window d as_of (ELDLog.log_date l))
                    (Store.eld_logs db))).


(** ** Detector *)

(** Sum of the durations of the closed driving intervals, in hours. *)
Definition driving_hours (db : Store.DB) (log : ELDLog.t) : Q :=
  Time.hours (closed_total driving (intervals db log)).

(** The driving and on-duty intervals of a log. *)
Definition duties (db : Store.DB) (log : ELDLog.t)
  : list DutyStatusRecord.t :=
  filter (fun r => on_duty (DutyStatusRecord.duty_status r))
         (intervals db log).

(** [p] is a last driving/on-duty interval of the log: none ends later,
    in the backend's ordering of the nullable [end_time]. *)
Definition last_duty (db : Store.DB) (log : ELDLog.t)
    (p : DutyStatusRecord.t) : Prop :=
  In p (duties db log)
  /\ forall q, In q (duties db log) ->
       Store.null_leb (Store.nulls_high db)
         (DutyStatusRecord.end_time q) (DutyStatusRecord.end_time p) = true.

(** [c] is a first driving/on-duty interval of the log. *)
Definition first_duty (db : Store.DB) (log : ELDLog.t)
    (c : DutyStatusRecord.t) : Prop :=
  In c (duties db log)
  /\ forall q, In q (duties db log) ->
       DutyStatusRecord.start_time c <= DutyStatusRecord.start_time q.

(** [g] is the gap between the end of the previous day's last duty
    interval and the start of this day's first duty interval. *)
Definition rest_gap (db : Store.DB) (log : ELDLog.t) (g : Time.timedelta)
  : Prop :=
  exists prev p c e,
    Store.get_log db (ELDLog.driver log)
      (ELDLog.log_date log - 1) = Some prev
    /\ last_duty db prev p
    /\ DutyStatusRecord.end_time p = Some e
    /\ first_duty db log c
    /\ g = DutyStatusRecord.start_time c - e.

(** ** Coverage of the day *)

(** The intervals [rs], in order, tile the span from [s] to [e]: the
first starts at [s], each is closed and starts where the one before
ends, none ends before it starts, and the last ends at [e]. *)
Fixpoint tiles (s e : Time.datetime) (rs : list DutyStatusRecord.t)
  : Prop :=
  match rs with
  | [] => s = e
  | r :: rest =>
      DutyStatusRecord.start_time r = s
      /\ exists e', DutyStatusRecord.end_time r = Some e'
                    /\ s <= e' /\ tiles e' e rest
  end.

(** An earlier interval of the list ends before a later one starts. *)
Definition non_overlapping (rs : list DutyStatusRecord.t) : Prop :=
  ForallOrdPairs
    (fun a b => exists ea, DutyStatusRecord.end_time a = Some ea
                           /\ ea <= DutyStatusRecord.start_time b) rs.

End Spec.

(** The store with further violation rows; the other tables are kept. *)
Definition with_violations (db : Store.DB) (vs : list HOSViolation.t)
  : Store.DB :=
  Store.mk (Store.eld_logs db) (Store.duty_records db)
           (Store.violations db ++ vs) (Store.now db) (Store.nulls_high db).

(** The violation is of the daily driving kind. *)
Definition is_drive_11h (v : HOSViolation.t) : bool :=
  String.eqb (HOSViolation.violation_type v) "drive_11h".

Definition opt_list {A} (o : option A) : list A :=
  match o with Some v => [v] | None => [] end.

(** The store with further duty status rows. *)
Definition with_records (db : Store.DB) (rs : list DutyStatusRecord.t)
  : Store.DB :=
  Store.mk (Store.eld_logs db) (Store.duty_records db ++ rs)
           (Store.violations db) (Store.now db) (Store.nulls_high db).

(** The store when the clock reads [t]: between two calls of the service
    the clock moves on, and the tables stay. *)
Definition at_clock (db : Store.DB) (t : Time.datetime) : Store.DB :=
  Store.mk (Store.eld_logs db) (Store.duty_records db)
           (Store.violations db) t (Store.nulls_high db).

(** The steps of the mutator, named for the statements below. *)
Module Mutator.

(** The store once the open record of the log, if any, is closed. *)
Definition close_open (db : Store.DB) (log : ELDLog.t)
    (start : Time.datetime) : Store.DB :=
  match qs_last (filter Spec.is_open (Store.duty_records_of db log)) with
  | Some p =>
      snd (Store.save_record
             (DutyStatusRecord.with_end_time p (Some start)) db)
  | None => db
  end.

(** The record the mutator creates. *)
Definition new_record (db : Store.DB) (log : ELDLog.t) (status : string)
    (start : Time.datetime) (loc : string) (lat lng : option Q)
    (notes : string) (odo : option Z) : DutyStatusRecord.t :=
  DutyStatusRecord.mk (Store.uuid4 (close_open db log start))
    (ELDLog.id log) status start None loc lat lng odo notes false.

End Mutator.

(** Concrete stores used by the examples. *)
Module Examples.

Definition ann : Driver.t := Driver.mk 1 "Ann" "70_8".

(** A clock time on day 19000. *)
Definition at_ (h m : Z) : Time.datetime :=
  Time.combine 19000 h + m * Time.us_per_minute.

Definition log_a : ELDLog.t :=
  ELDLog.mk 10 ann None 19000 "TRUCK-1" 0 0 0 0 false false false.

Definition interval (id : Z) (log : Z) (status : string)
    (s : Time.datetime) (e : option Time.datetime) : DutyStatusRecord.t :=
  DutyStatusRecord.mk id log status s e "" None None None "" false.

(** One closed driving interval, 08:00 to 09:00. *)
Definition db_closed : Store.DB :=
  Store.mk [log_a]
    [interval 11 10 "driving" (at_ 8 0) (Some (at_ 9 0))]
    [] (at_ 12 0) false.

(** A closed interval followed by an open one that starts at 09:00. *)
Definition db_open : Store.DB :=
  Store.mk [log_a]
    [interval 11 10 "driving" (at_ 8 0) (Some (at_ 9 0));
     interval 12 10 "on_duty_not_driving" (at_ 9 0) None]
    [] (at_ 12 0) false.

End Examples.

Module DetectorExamples.
Import Examples.

(** Driving 06:00-12:00 and 12:30-18:00: eleven and a half hours. *)
Definition db_long_drive : Store.DB :=
  Store.mk [log_a]
    [interval 11 10 "driving" (at_ 6 0) (Some (at_ 12 0));
     interval 12 10 "off_duty" (at_ 12 0) (Some (at_ 12 30));
     interval 13 10 "driving" (at_ 12 30) (Some (at_ 18 0))]
    [] (at_ 19 0) false.

Definition log_prev : ELDLog.t :=
  ELDLog.mk 9 ann None 18999 "TRUCK-1" 0 0 0 0 false false false.

(** The previous day's last duty interval ends at 21:00 (three hours
    before day 19000 begins); the day's first one starts at 05:00. *)
Definition db_short_rest (nh : bool) : Store.DB :=
  Store.mk [log_prev; log_a]
    [interval 11 9 "driving" (at_ (-8) 0) (Some (at_ (-3) 0));
     interval 12 9 "off_duty" (at_ (-3) 0) (Some (at_ 0 0));
     interval 13 10 "off_duty" (at_ 0 0) (Some (at_ 5 0));
     interval 14 10 "on_duty_not_driving" (at_ 5 0) (Some (at_ 6 0))]
    [] (at_ 7 0) nh.
End DetectorExamples.

(** The schedule of one simulated day as data: the calls of
    [_add_duty_record] that [_generate_daily_duty_records] makes, in
    order, and the rows they leave in the store. *)
Module Simulator.

Record segment := seg {
  seg_status : string;
  seg_minutes : Q;
  seg_notes : string;
  seg_location : string
}.

(** The segments emitted before the closing off-duty rest. *)
Definition day_segments (trip : Trip.t) (day_number : Z)
    (total_trip_hours : Q) : list segment :=
  let remaining_hours :=
    py_min 11 (total_trip_hours - inject_Z day_number * 11) in
  [seg "on_duty_not_driving" 15 "Pre-trip inspection"
       (Trip.current_location trip)]
  ++ (if Qgtb remaining_hours 0 then
        let remaining_hours1 :=
          if day_number =? 0 then (remaining_hours - 1)%Q
          else remaining_hours in
        let max_driving := (if day_number >? 0 then 8 else 7)%Q in
        let driving_time := py_min max_driving remaining_hours1 in
        let remaining_hours2 := (remaining_hours1 - driving_time)%Q in
        (if day_number =? 0
         then [seg "on_duty_not_driving" 60 "Pickup operations"
                   (Trip.pickup_location trip)]
         else [])
        ++ [seg "driving" (driving_time * 60) "Driving" "En route"]
        ++ (if Qgtb remaining_hours2 0 then
              let is_final_day :=
                day_number =? py_int (total_trip_hours / 11) in
              let max_additional_driving :=
                py_min 3 (remaining_hours2
                          - (if is_final_day then 1 else 0)) in
              [seg "off_duty" 30 "Meal break" "Rest area"]
              ++ (if Qgtb max_additional_driving 0
                  then [seg "driving" (max_additional_driving * 60)
                            "Driving" "En route"]
                  else [])
              ++ (if is_final_day
                  then [seg "on_duty_not_driving" 60 "Dropoff operations"
                            (Trip.dropoff_location trip)]
                  else [])
            else [])
      else [])
  ++ [seg "on_duty_not_driving" 15 "Post-trip inspection"
          (Trip.dropoff_location trip)].

(** The time reached after the segments, starting at [t]. *)
Definition end_of (t : Time.datetime) (segs : list segment)
  : Time.datetime :=
  fold_left (fun t s => t + Time.minutes (seg_minutes s)) segs t.

(** The closing off-duty rest, when the day is not yet over. *)
Definition fill (t end_of_day : Time.datetime) : list segment :=
  if t <? end_of_day
  then [seg "off_duty" (Time.total_seconds (end_of_day - t) / 60)
            "Off duty rest" "Truck stop"]
  else [].

(** All segments of the day of a log. *)
Definition full_day (log : ELDLog.t) (trip : Trip.t) (day_number : Z)
    (total_trip_hours : Q) : list segment :=
  let segs := day_segments trip day_number total_trip_hours in
  segs ++ fill (end_of (Time.combine (ELDLog.log_date log) 6) segs)
               (Time.combine (ELDLog.log_date log + 1) 0).

(** The rows created for the segments: consecutive primary keys from
    [id0], each row starting where the one before ends. *)
Fixpoint layout (id0 log : Z) (t : Time.datetime) (segs : list segment)
  : list DutyStatusRecord.t :=
  match segs with
  | [] => []
  | s :: rest =>
      let e := t + Time.minutes (seg_minutes s) in
      DutyStatusRecord.mk id0 log (seg_status s) t (Some e)
        (seg_location s) None None None (seg_notes s) true
      :: layout (id0 + 1) log e rest
  end.

(** The rows of a generated day. *)
Definition day_records (db : Store.DB) (log : ELDLog.t) (trip : Trip.t)
    (day_number : Z) (total_trip_hours : Q) : list DutyStatusRecord.t :=
  layout (Store.uuid4 db) (ELDLog.id log)
    (Time.combine (ELDLog.log_date log) 6)
    (full_day log trip day_number total_trip_hours).

(** One call of [_add_duty_record] per segment. *)
Fixpoint emit (log : ELDLog.t) (segs : list segment) (t : Time.datetime)
  : Store.M Time.datetime :=
  match segs with
  | [] => Store.ret t
  | s :: rest =>
      Store.bind
        (HOSService._add_duty_record log (seg_status s) t (seg_minutes s)
           (seg_notes s) (seg_location s))
        (emit log rest)
  end.

(** The store with one more log row. *)
Definition with_log (db : Store.DB) (l : ELDLog.t) : Store.DB :=
  Store.mk (Store.eld_logs db ++ [l]) (Store.duty_records db)
           (Store.violations db) (Store.now db) (Store.nulls_high db).

(** The log row that [get_or_create] creates for a day of the trip. *)
Definition new_log (db : Store.DB) (trip : Trip.t) (log_date : Time.date)
  : ELDLog.t :=
  ELDLog.mk (Store.uuid4 db) (Trip.driver trip) (Some (Trip.id trip))
    log_date
    (String.append "TRUCK-"
       (NilZero.string_of_int (Z.to_int (Driver.id (Trip.driver trip)))))
    0 0 0 0 false false false.

(** The intervals of the log are the rows of its generated day. *)
Definition generated (db : Store.DB) (log : ELDLog.t) (trip : Trip.t)
    (day_number : Z) (total_trip_hours : Q) : Prop :=
  exists id0,
    Spec.intervals db log
    = layout id0 (ELDLog.id log) (Time.combine (ELDLog.log_date log) 6)
        (full_day log trip day_number total_trip_hours).

(** Laid out from offset [acc], every segment starts at an offset that is
not negative and ends at an offset of at most [hi]. *)
Fixpoint within (hi acc : Z) (segs : list segment) : Prop :=
  match segs with
  | [] => True
  | s :: rest =>
      0 <= acc /\ acc + Time.minutes (seg_minutes s) <= hi
      /\ within hi (acc + Time.minutes (seg_minutes s)) rest
  end.

(** Microseconds of the segments whose status satisfies [p]. *)
Definition minutes_of (p : string -> bool) (segs : list segment) : Z :=
  Spec.Zsum (map (fun s => Time.minutes (seg_minutes s))
                 (filter (fun s => p (seg_status s)) segs)).

(** The kinds of segment of a simulated day. *)
Definition pre_trip (trip : Trip.t) : segment :=
  seg "on_duty_not_driving" 15 "Pre-trip inspection"
      (Trip.current_location trip).
Definition pickup (trip : Trip.t) : segment :=
  seg "on_duty_not_driving" 60 "Pickup operations"
      (Trip.pickup_location trip).
Definition drive (m : Q) : segment := seg "driving" m "Driving" "En route".
Definition meal_break : segment :=
  seg "off_duty" 30 "Meal break" "Rest area".
Definition dropoff (trip : Trip.t) : segment :=
  seg "on_duty_not_driving" 60 "Dropoff operations"
      (Trip.dropoff_location trip).
Definition post_trip (trip : Trip.t) : segment :=
  seg "on_duty_not_driving" 15 "Post-trip inspection"
      (Trip.dropoff_location trip).

(** The day is not day 0 of a trip of less than one hour, the one case in
which the pickup hour exceeds the hours left and the driving block gets
a negative length. *)
Definition first_hour_covered (day_number : Z) (total_trip_hours : Q)
  : Prop :=
  day_number = 0 -> (0 < total_trip_hours)%Q -> (1 <= total_trip_hours)%Q.

(** The driving rows of a day: none, one block of at most eight hours,
    or such a block and, thirty minutes after it, one of at most three. *)
Definition driving_rows_ok (rows : list DutyStatusRecord.t) : Prop :=
  rows = []
  \/ (exists d1 e1,
        rows = [d1] /\ DutyStatusRecord.end_time d1 = Some e1
        /\ e1 - DutyStatusRecord.start_time d1 <= 480 * Time.us_per_minute)
  \/ (exists d1 d2 e1 e2,
        rows = [d1; d2]
        /\ DutyStatusRecord.end_time d1 = Some e1
        /\ 0 <= e1 - DutyStatusRecord.start_time d1
             <= 480 * Time.us_per_minute
        /\ DutyStatusRecord.start_time d2 = e1 + 30 * Time.us_per_minute
        /\ DutyStatusRecord.end_time d2 = Some e2
        /\ e2 - DutyStatusRecord.start_time d2 <= 180 * Time.us_per_minute).

(** The log created for a day of the trip and the store once the day is
generated. *)
Definition next_day (db : Store.DB) (trip : Trip.t) (log_date : Time.date)
    (day_number : Z) (total_trip_hours : Q) : ELDLog.t * Store.DB :=
  let l := new_log db trip log_date in
  let db1 := with_log db l in
  (l, with_records db1 (day_records db1 l trip day_number total_trip_hours)).

(** The driver has no log in the store. *)
Definition no_log_of (db : Store.DB) (d : Driver.t) : Prop :=
  forall l, In l (Store.eld_logs db) -> Store.same_driver d l = false.

(** One iteration of the loop of [generate_trip_eld_logs]: the log it
appends for the day and the store it leaves.  A log found for the date is
kept, with its trip reference redirected if it names another trip; a
missing one is created and its day generated. *)
Definition day_step (db : Store.DB) (trip : Trip.t) (sd : Time.date)
    (day_number : Z) (total_trip_hours : Q) : ELDLog.t * Store.DB :=
  match Store.get_log db (Trip.driver trip) (sd + day_number) with
  | Some l =>
      if HOSService.fk_eqb (ELDLog.trip l) (Some (Trip.id trip))
      then (l, db)
      else
        let l' := ELDLog.with_trip l (Some (Trip.id trip)) in
        (l', snd (Store.save_log l' db))
  | None => next_day db trip (sd + day_number) day_number total_trip_hours
  end.

(** The logs appended for the days, and the store left, by the steps of
the loop in turn. *)
Fixpoint run_days (db : Store.DB) (trip : Trip.t) (sd : Time.date)
    (total_trip_hours : Q) (days : list Z) : list ELDLog.t * Store.DB :=
  match days with
  | [] => ([], db)
  | day :: rest =>
      let s := day_step db trip sd day total_trip_hours in
      let r := run_days (snd s) trip sd total_trip_hours rest in
      (fst s :: fst r, snd r)
  end.

(** The primary keys of the logs are distinct. *)
Definition unique_ids (db : Store.DB) : Prop :=
  NoDup (map ELDLog.id (Store.eld_logs db)).

(** The calendar date the trip starts on. *)
Definition start_date (db : Store.DB) (trip : Trip.t) : Time.date :=
  match Trip.planned_start_time trip with
  | Some t => Time.date_of t
  | None => Time.date_of (Store.now db)
  end.

(** What the schedule shows of the intervals of a day: status, offset of
the start from 06:00 and length, in microseconds. *)
Fixpoint views (acc : Z) (segs : list segment)
  : list (string * Z * Z) :=
  match segs with
  | [] => []
  | s :: rest =>
      (seg_status s, acc, Time.minutes (seg_minutes s))
      :: views (acc + Time.minutes (seg_minutes s)) rest
  end.

(** The same of a stored interval of the log. *)
Definition view (log : ELDLog.t) (r : DutyStatusRecord.t)
  : string * Z * Z :=
  (DutyStatusRecord.duty_status r,
   DutyStatusRecord.start_time r - Time.combine (ELDLog.log_date log) 6,
   DutyStatusRecord.duration r).

(** An entry of a day's schedule, offset and length in minutes. *)
Definition entry (status : string) (offset_min length_min : Z)
  : string * Z * Z :=
  (status, offset_min * Time.us_per_minute, length_min * Time.us_per_minute).

End Simulator.

Module SimulatorExamples.
Import Examples.

Definition trip_of (hours : Q) : Trip.t :=
  Trip.mk 5 ann "Depot" "Warehouse" "Harbour" (Some (at_ 3 0))
    (Some (RouteCalculation.mk 275 hours)).

(** The same trip without a planned start: it starts on the day the
    planner is called. *)
Definition trip_unplanned (hours : Q) : Trip.t :=
  Trip.mk 5 ann "Depot" "Warehouse" "Harbour" None
    (Some (RouteCalculation.mk 275 hours)).

(** A store that holds the log of day 19000 and no interval yet. *)
Definition db_fresh : Store.DB := Store.mk [log_a] [] [] (at_ 1 0) false.

(** A store without any row. *)
Definition db_empty : Store.DB := Store.empty (at_ 1 0) false.

End SimulatorExamples.

(* ================================================================== *)
(** * Further notions about the timeline and the detector *)

Module Timeline.

(** [p] is a driving/on-duty interval of the log that no other one
    starts after. *)
Definition latest_start (db : Store.DB) (log : ELDLog.t)
    (p : DutyStatusRecord.t) : Prop :=
  In p (Spec.duties db log)
  /\ forall q, In q (Spec.duties db log) ->
       DutyStatusRecord.start_time q <= DutyStatusRecord.start_time p.

(** No closed interval of the log ends before it starts. *)
Definition forward (db : Store.DB) (log : ELDLog.t) : Prop :=
  forall r e, In r (Spec.intervals db log) ->
    DutyStatusRecord.end_time r = Some e ->
    DutyStatusRecord.start_time r <= e.

(** What a violation row reports of the log: every column but the
    primary key and the time stamp.  The stamp of a cycle violation, and
    of a driving violation whose last driving interval is open, is the
    reading of the clock when the check runs. *)
Definition finding (v : HOSViolation.t) : Z * string * string * Q * Q :=
  (HOSViolation.eld_log v, HOSViolation.violation_type v,
   HOSViolation.severity v, HOSViolation.actual_value v,
   HOSViolation.limit_value v).

(** What a check reports, if anything. *)
Definition finding_of (o : option HOSViolation.t) :=
  option_map finding o.

(** Each interval of the list but the last is closed and ends at least
    thirty minutes before the next one starts. *)
Fixpoint rested (rs : list DutyStatusRecord.t) : Prop :=
  match rs with
  | a :: (b :: _) as rest =>
      (exists ea, DutyStatusRecord.end_time a = Some ea
                  /\ ea + 30 * Time.us_per_minute
                     <= DutyStatusRecord.start_time b)
      /\ rested rest
  | _ => True
  end.

(** The closed driving intervals of a log, in the log's order. *)
Definition driving_blocks (db : Store.DB) (log : ELDLog.t)
  : list DutyStatusRecord.t :=
  filter Spec.is_closed
    (filter (fun r => Spec.driving (DutyStatusRecord.duty_status r))
            (Store.duty_records_of db log)).

(** The closed driving and on-duty intervals of a log, in the log's
    order. *)
Definition duty_blocks (db : Store.DB) (log : ELDLog.t)
  : list DutyStatusRecord.t :=
  filter Spec.is_closed
    (filter (fun r => Spec.on_duty (DutyStatusRecord.duty_status r))
            (Store.duty_records_of db log)).

(** ** Totals as the floats add up *)

(** The day's driving hours as [_check_daily_driving_limit] gets them:
    the seconds of the closed driving intervals, added in the log's
    order with every addition rounded, then divided by 3600. *)
Definition driving_hours_float (db : Store.DB) (log : ELDLog.t) : Q :=
  Float64.div
    (Float64.sum
       (map (fun r => Float64.total_seconds (DutyStatusRecord.duration r))
            (driving_blocks db log)))
    3600.

(** The day's driving hours as [calculate_available_hours] gets them:
    the hours of each closed driving interval, added in the log's order
    with every addition rounded. *)
Definition driving_hours_added (db : Store.DB) (log : ELDLog.t) : Q :=
  Float64.sum
    (map (fun r => Float64.hours (DutyStatusRecord.duration r))
         (driving_blocks db log)).

(** The hours of the cycle window as the loops of
    [get_current_cycle_hours] add them: the driver's logs dated in the
    window, latest first, each with the hours of its closed driving and
    on-duty intervals in the log's order; every addition is rounded. *)
Definition cycle_hours_float (db : Store.DB) (d : Driver.t)
    (as_of : Time.date) : Q :=
  Float64.sum
    (flat_map
       (fun l => map (fun r => Float64.hours (DutyStatusRecord.duration r))
                     (duty_blocks db l))
       (Store.filter_logs db d (as_of - (Spec.window d - 1)) as_of)).

(** ** Durations on a grid *)

(** The number of steps of [unit] microseconds that hold a duration; a
    negative duration needs none. *)
Definition steps_up (unit : Z) (d : Time.timedelta) : Z :=
  Z.max 0 ((d + unit - 1) / unit).

Definition us_per_second : Z := 1000000.
Definition us_per_quarter : Z := 900000000.

(** The closed intervals whose status satisfies [p], each rounded up to
    whole steps of [unit] microseconds: the number of steps in all. *)
Definition closed_total_up (unit : Z) (p : string -> bool)
    (rs : list DutyStatusRecord.t) : Z :=
  Spec.Zsum
    (flat_map
       (fun r =>
          match DutyStatusRecord.end_time r with
          | Some e =>
              if p (DutyStatusRecord.duty_status r)
              then [steps_up unit (e - DutyStatusRecord.start_time r)]
              else []
          | None => []
          end) rs).

(** The whole seconds of the day's closed driving intervals, each
    rounded up. *)
Definition driving_seconds_up (db : Store.DB) (log : ELDLog.t) : Z :=
  closed_total_up us_per_second Spec.driving (Spec.intervals db log).

(** The quarter hours of the day's closed driving intervals, each
    rounded up. *)
Definition driving_quarters_up (db : Store.DB) (log : ELDLog.t) : Z :=
  closed_total_up us_per_quarter Spec.driving (Spec.intervals db log).

(** The quarter hours of the day's closed driving and on-duty intervals,
    each rounded up. *)
Definition duty_quarters_up (db : Store.DB) (log : ELDLog.t) : Z :=
  closed_total_up us_per_quarter Spec.on_duty (Spec.intervals db log).

(** The same over the driver's logs dated in the cycle window. *)
Definition cycle_quarters_up (db : Store.DB) (d : Driver.t)
    (as_of : Time.date) : Z :=
  Spec.Zsum
    (map (duty_quarters_up db)
         (filter (fun l => Store.same_driver d l
                           && Spec.in_window d as_of (ELDLog.log_date l))
                 (Store.eld_logs db))).

(** The interval lasts a whole number of steps of [unit] microseconds,
    none of them backwards. *)
Definition on_grid (unit : Z) (r : DutyStatusRecord.t) : Prop :=
  exists k, 0 <= k /\ DutyStatusRecord.duration r = k * unit.

(** Every closed driving interval of the log lasts a whole number of
    seconds, and together they last less than [2^53] seconds. *)
Definition whole_seconds (db : Store.DB) (log : ELDLog.t) : Prop :=
  Forall (on_grid us_per_second) (driving_blocks db log)
  /\ driving_seconds_up db log < 2 ^ 53.

(** Every closed driving interval of the log lasts a whole number of
    quarter hours, and together they last less than [2^43] quarter
    hours. *)
Definition driving_on_quarters (db : Store.DB) (log : ELDLog.t) : Prop :=
  Forall (on_grid us_per_quarter) (driving_blocks db log)
  /\ driving_quarters_up db log < 2 ^ 43.

(** Every closed driving or on-duty interval of the driver's logs dated
    in the cycle window lasts a whole number of quarter hours, and
    together they last less than [2^43] quarter hours. *)
Definition cycle_on_quarters (db : Store.DB) (d : Driver.t)
    (as_of : Time.date) : Prop :=
  (forall l, In l (Store.eld_logs db) ->
     Store.same_driver d l = true ->
     Spec.in_window d as_of (ELDLog.log_date l) = true ->
     Forall (on_grid us_per_quarter) (duty_blocks db l))
  /\ cycle_quarters_up db d as_of < 2 ^ 43.

(** The cycle limit of a driver: 70 hours on the 70/8 cycle, else 60. *)
Definition cycle_limit (d : Driver.t) : Q :=
  if String.eqb (Driver.cycle_type d) "70_8" then 70 else 60.

(** The violation type that goes with the driver's cycle. *)
Definition cycle_violation_type (d : Driver.t) : string :=
  if String.eqb (Driver.cycle_type d) "70_8" then "cycle_70h"
  else "cycle_60h".

End Timeline.

Module BreakExamples.
Import Examples.

(** Driving 06:00-11:00, loading on duty 11:00-12:00, driving
    12:00-17:00: ten hours at the wheel and no time off duty. *)
Definition db_loading : Store.DB :=
  Store.mk [log_a]
    [interval 11 10 "driving" (at_ 6 0) (Some (at_ 11 0));
     interval 12 10 "on_duty_not_driving" (at_ 11 0) (Some (at_ 12 0));
     interval 13 10 "driving" (at_ 12 0) (Some (at_ 17 0))]
    [] (at_ 18 0) false.

End BreakExamples.

(** Logs whose hours sit exactly on a limit, with intervals that are
    not whole quarter hours. *)
Module RoundingExamples.
Import Examples.

(** Intervals of the given lengths in microseconds, one after the other
    from [t], with primary keys from [id0]. *)
Fixpoint back_to_back (id0 log : Z) (status : string) (t : Time.datetime)
    (lengths : list Z) : list DutyStatusRecord.t :=
  match lengths with
  | [] => []
  | d :: rest =>
      interval id0 log status t (Some (t + d))
      :: back_to_back (id0 + 1) log status (t + d) rest
  end.

(** Driving from 06:00 for 34509.262777 s, 3123.226234 s and
    1967.510989 s: eleven hours to the microsecond. *)
Definition db_eleven : Store.DB :=
  Store.mk [log_a]
    (back_to_back 11 10 "driving" (at_ 6 0)
       [34509262777; 3123226234; 1967510989])
    [] (at_ 19 0) false.

(** Driving from 06:00 for 35866.887430 s, 2512.874165 s and
    1220.238405 s: eleven hours to the microsecond. *)
Definition db_eleven_added : Store.DB :=
  Store.mk [log_a]
    (back_to_back 11 10 "driving" (at_ 6 0)
       [35866887430; 2512874165; 1220238405])
    [] (at_ 19 0) false.

(** Driving from 06:00 for 16386.4 s, 5400.9 s and 7012.7 s without a
    gap: eight hours to the microsecond. *)
Definition db_eight : Store.DB :=
  Store.mk [log_a]
    (back_to_back 11 10 "driving" (at_ 6 0)
       [16386400000; 5400900000; 7012700000])
    [] (at_ 19 0) false.

(** The log of day [19000 - i]. *)
Definition log_back (i : Z) : ELDLog.t :=
  ELDLog.mk (10 + i) ann None (19000 - i) "TRUCK-1" 0 0 0 0
    false false false.

(** One on-duty interval from 06:00 of day [19000 - i]. *)
Definition on_duty_back (i seconds : Z) : DutyStatusRecord.t :=
  interval (20 + i) (10 + i) "on_duty_not_driving"
    (at_ 6 0 - i * Time.us_per_day)
    (Some (at_ 6 0 - i * Time.us_per_day + seconds * 1000000)).

(** Seven days on duty for whole seconds, seventy hours in all. *)
Definition db_seventy : Store.DB :=
  Store.mk (map log_back [0; 1; 2; 3; 4; 5; 6])
    [on_duty_back 0 33409; on_duty_back 1 29096; on_duty_back 2 31371;
     on_duty_back 3 32090; on_duty_back 4 42849; on_duty_back 5 34169;
     on_duty_back 6 49016]
    [] (at_ 23 0) false.

End RoundingExamples.

(** Notions about the logs of a planned trip. *)
Module Plan.

(** What is known of a day the simulator generated for the trip: the
    log's rows are those of the generated day, the log is in the store
    under its driver and date, and its cached totals are the zero
    defaults it was created with. *)
Definition fresh_day (db' : Store.DB) (trip : Trip.t) (sd : Time.date)
    (h : Q) (day : Z) (l : ELDLog.t) : Prop :=
  Simulator.generated db' l trip day h
  /\ In l (Store.eld_logs db')
  /\ Store.get_log db' (Trip.driver trip) (sd + day) = Some l
  /\ ELDLog.driver l = Trip.driver trip
  /\ ELDLog.log_date l = sd + day
  /\ ELDLog.total_drive_time l = 0
  /\ ELDLog.total_duty_time l = 0
  /\ ELDLog.total_off_duty_time l = 0
  /\ ELDLog.total_sleeper_time l = 0.

(** The four daily checks of the detector find nothing on the log. *)
Definition passes_daily_checks (db : Store.DB) (l : ELDLog.t) : Prop :=
  HOSService._check_daily_driving_limit l db = (Ok None, db)
  /\ HOSService._check_daily_duty_limit l db = (Ok None, db)
  /\ HOSService._check_break_requirement l db = (Ok None, db)
  /\ HOSService._check_daily_rest_requirement l db = (Ok None, db).

End Plan.

(* ================================================================== *)
(** * Arithmetic of the rationals standing for floats *)

Lemma Qltb_lt (a b : Q) : Qltb a b = true <-> (a < b)%Q.
Proof.
  unfold Qltb. rewrite Qlt_alt.
  destruct (a ?= b)%Q; split; congruence.
Qed.

Lemma Qltb_ge (a b : Q) : Qltb a b = false <-> (b <= a)%Q.
Proof.
  split; intro H.
  - apply Qnot_lt_le. intro Hlt. apply Qltb_lt in Hlt. congruence.
  - destruct (Qltb a b) eqn:E; [|reflexivity].
    apply Qltb_lt in E. exfalso. apply (Qlt_not_le _ _ E H).
Qed.

Lemma Qgtb_gt (a b : Q) : Qgtb a b = true <-> (b < a)%Q.
Proof. apply Qltb_lt. Qed.

Lemma Qgtb_le (a b : Q) : Qgtb a b = false <-> (a <= b)%Q.
Proof. apply Qltb_ge. Qed.

Lemma py_min_le_l (a b : Q) : (py_min a b <= a)%Q.
Proof.
  unfold py_min. destruct (Qltb b a) eqn:E.
  - apply Qltb_lt in E. lra.
  - lra.
Qed.

Lemma py_min_le_r (a b : Q) : (py_min a b <= b)%Q.
Proof.
  unfold py_min. destruct (Qltb b a) eqn:E.
  - lra.
  - apply Qltb_ge in E. lra.
Qed.

Lemma py_min_cases (a b : Q) :
  (py_min a b = b /\ (b < a)%Q) \/ (py_min a b = a /\ (a <= b)%Q).
Proof.
  unfold py_min. destruct (Qltb b a) eqn:E.
  - left. split; [reflexivity | now apply Qltb_lt].
  - right. split; [reflexivity | now apply Qltb_ge].
Qed.

Lemma py_min_spec (a b : Q) :
  (py_min a b <= a)%Q /\ (py_min a b <= b)%Q
  /\ ((py_min a b == a)%Q \/ (py_min a b == b)%Q).
Proof.
  destruct (py_min_cases a b) as [[E L]|[E L]]; rewrite E.
  - split; [lra|]. split; [lra|]. right. reflexivity.
  - split; [lra|]. split; [lra|]. left. reflexivity.
Qed.

Lemma Qsum_acc (l : list Q) (a : Q) :
  (fold_left Qplus l a == a + Qsum l)%Q.
Proof.
  unfold Qsum. revert a.
  induction l as [|x l IH]; intro a; simpl.
  - lra.
  - rewrite (IH (a + x)%Q), (IH (0 + x)%Q). lra.
Qed.

Lemma Qsum_cons (x : Q) (l : list Q) : (Qsum (x :: l) == x + Qsum l)%Q.
Proof.
  unfold Qsum at 1. simpl. rewrite Qsum_acc. lra.
Qed.

Lemma Qsum_app (l1 l2 : list Q) : (Qsum (l1 ++ l2) == Qsum l1 + Qsum l2)%Q.
Proof.
  induction l1 as [|x l1 IH]; simpl.
  - unfold Qsum at 2. simpl. lra.
  - rewrite !Qsum_cons, IH. lra.
Qed.

Lemma Qsum_perm (l1 l2 : list Q) :
  Permutation l1 l2 -> (Qsum l1 == Qsum l2)%Q.
Proof.
  induction 1.
  - reflexivity.
  - rewrite !Qsum_cons, IHPermutation. reflexivity.
  - rewrite !Qsum_cons. lra.
  - etransitivity; eassumption.
Qed.

(* ================================================================== *)
(** * Rounding of [timedelta] arguments *)

Lemma round_half_even_comp (q q' : Q) :
  (q == q')%Q -> Time.round_half_even q = Time.round_half_even q'.
Proof.
  intro H. unfold Time.round_half_even.
  rewrite (Qfloor_comp _ _ H).
  assert (E : ((q - inject_Z (Qfloor q') ?= 1 # 2)
               = (q' - inject_Z (Qfloor q') ?= 1 # 2))%Q).
  { apply Qcompare_comp; [rewrite H|]; reflexivity. }
  rewrite E. reflexivity.
Qed.

Lemma round_half_even_Z (n : Z) : Time.round_half_even (inject_Z n) = n.
Proof.
  unfold Time.round_half_even. rewrite Qfloor_Z.
  assert (E : ((inject_Z n - inject_Z n ?= 1 # 2) = Lt)%Q).
  { apply Qlt_alt.
    assert (Z0 : (inject_Z n - inject_Z n == 0)%Q) by ring.
    rewrite Z0. reflexivity. }
  rewrite E. reflexivity.
Qed.

Lemma round_half_even_bounds (q : Q) :
  Qfloor q <= Time.round_half_even q <= Qfloor q + 1.
Proof.
  unfold Time.round_half_even.
  destruct (q - inject_Z (Qfloor q) ?= 1 # 2)%Q; try lia.
  destruct (Z.even (Qfloor q)); lia.
Qed.

Lemma round_half_even_mono (q1 q2 : Q) :
  (q1 <= q2)%Q -> Time.round_half_even q1 <= Time.round_half_even q2.
Proof.
  intro H.
  pose proof (Qfloor_resp_le _ _ H) as Hf.
  destruct (Z.eq_dec (Qfloor q1) (Qfloor q2)) as [E|NE].
  - unfold Time.round_half_even. rewrite E.
    destruct (Qcompare_spec (q1 - inject_Z (Qfloor q2)) (1 # 2)) as [A|A|A];
    destruct (Qcompare_spec (q2 - inject_Z (Qfloor q2)) (1 # 2)) as [B|B|B];
      try lia; try (exfalso; lra);
      destruct (Z.even (Qfloor q2)); lia.
  - pose proof (round_half_even_bounds q1).
    pose proof (round_half_even_bounds q2). lia.
Qed.

Lemma minutes_Z (k : Z) :
  Time.minutes (inject_Z k) = k * Time.us_per_minute.
Proof.
  unfold Time.minutes.
  rewrite (round_half_even_comp _ (inject_Z (k * Time.us_per_minute))).
  - apply round_half_even_Z.
  - rewrite inject_Z_mult. reflexivity.
Qed.

Lemma minutes_mono (a b : Q) :
  (a <= b)%Q -> Time.minutes a <= Time.minutes b.
Proof.
  intro H. apply round_half_even_mono.
  apply Qmult_le_compat_r; [assumption|]. vm_compute. discriminate.
Qed.

(** [timedelta(minutes=td.total_seconds() / 60)] gives [td] back. *)
Lemma minutes_total_seconds (d : Time.timedelta) :
  Time.minutes (Time.total_seconds d / 60) = d.
Proof.
  unfold Time.minutes, Time.total_seconds.
  rewrite (round_half_even_comp _ (inject_Z d)).
  - apply round_half_even_Z.
  - unfold Time.us_per_minute. field.
Qed.

Ltac hours_arith :=
  unfold Time.hours, Time.total_seconds, Time.us_per_hour,
    Time.us_per_minute in *;
  unfold Qlt, Qle, Qeq, Qdiv, Qmult, Qinv, inject_Z in *; cbn in *; lia.

Lemma hours_le_iff (d : Time.timedelta) (k : Z) :
  (Time.hours d <= inject_Z k)%Q <-> d <= k * Time.us_per_hour.
Proof. hours_arith. Qed.

Lemma hours_lt_iff (d : Time.timedelta) (k : Z) :
  (Time.hours d < inject_Z k)%Q <-> d < k * Time.us_per_hour.
Proof. hours_arith. Qed.

Lemma hours_gt_iff (d : Time.timedelta) (k : Z) :
  (inject_Z k < Time.hours d)%Q <-> k * Time.us_per_hour < d.
Proof. hours_arith. Qed.

Lemma hours_plus (a b : Time.timedelta) :
  (Time.hours (a + b)%Z == Time.hours a + Time.hours b)%Q.
Proof. hours_arith. Qed.

Lemma hours_0 : (Time.hours 0%Z == 0)%Q.
Proof. reflexivity. Qed.

(* ================================================================== *)
(** * Ordered QuerySets *)

Section OrderByFacts.
Context {A : Type} (leb : A -> A -> bool).

Let R (x y : A) : Prop := leb x y = true.

Lemma insert_sorted_perm (x : A) (l : list A) :
  Permutation (insert_sorted leb x l) (x :: l).
Proof.
  induction l as [|y l IH]; simpl.
  - apply Permutation_refl.
  - destruct (leb x y).
    + apply Permutation_refl.
    + eapply perm_trans; [apply perm_skip, IH | apply perm_swap].
Qed.

Lemma order_by_perm (l : list A) : Permutation (order_by leb l) l.
Proof.
  induction l as [|x l IH]; simpl.
  - apply perm_nil.
  - eapply perm_trans; [apply insert_sorted_perm | apply perm_skip, IH].
Qed.

Lemma order_by_In (x : A) (l : list A) :
  In x (order_by leb l) <-> In x l.
Proof.
  split; apply Permutation_in;
    [apply order_by_perm | apply Permutation_sym, order_by_perm].
Qed.

Lemma order_by_nil (l : list A) : order_by leb l = [] -> l = [].
Proof.
  intro H. pose proof (order_by_perm l) as P. rewrite H in P.
  apply Permutation_nil, P.
Qed.

Lemma order_by_sorted_id (l : list A) :
  Sorted.StronglySorted R l -> order_by leb l = l.
Proof.
  induction 1 as [|x l Hs IH Hx]; simpl; [reflexivity|].
  rewrite IH. destruct l as [|y l']; simpl; [reflexivity|].
  inversion Hx as [|? ? Hxy _]; subst. unfold R in Hxy.
  rewrite Hxy. reflexivity.
Qed.

Hypothesis leb_total : forall x y, leb x y = true \/ leb y x = true.
Hypothesis leb_trans :
  forall x y z, leb x y = true -> leb y z = true -> leb x z = true.

Lemma insert_sorted_sorted (x : A) (l : list A) :
  Sorted.StronglySorted R l ->
  Sorted.StronglySorted R (insert_sorted leb x l).
Proof.
  induction 1 as [|y l Hs IH Hy]; simpl.
  - constructor; constructor.
  - destruct (leb x y) eqn:E.
    + constructor; [constructor; assumption|].
      constructor; [exact E|].
      eapply Forall_impl; [|exact Hy].
      intros z Hz. exact (leb_trans _ _ _ E Hz).
    + constructor; [exact IH|].
      assert (Hyx : R y x).
      { destruct (leb_total x y) as [H|H]; [congruence | exact H]. }
      eapply Permutation_Forall;
        [apply Permutation_sym, insert_sorted_perm|].
      constructor; assumption.
Qed.

Lemma order_by_sorted (l : list A) :
  Sorted.StronglySorted R (order_by leb l).
Proof.
  induction l as [|x l IH]; simpl.
  - constructor.
  - apply insert_sorted_sorted, IH.
Qed.

Lemma sorted_first_min (l : list A) (x : A) :
  Sorted.StronglySorted R l -> qs_first l = Some x ->
  forall y, In y l -> leb x y = true.
Proof.
  intros Hs Hx y Hy. destruct l as [|a l]; [discriminate|].
  simpl in Hx. injection Hx as ->.
  inversion Hs as [|? ? _ Hall]; subst.
  destruct Hy as [->|Hy].
  - destruct (leb_total y y); assumption.
  - rewrite Forall_forall in Hall. apply Hall, Hy.
Qed.

Lemma sorted_last_max (l : list A) (x : A) :
  Sorted.StronglySorted R l -> qs_last l = Some x ->
  In x l /\ forall y, In y l -> leb y x = true.
Proof.
  unfold qs_last. induction 1 as [|a l Hs IH Ha]; [discriminate|].
  simpl. destruct (rev l) as [|b t] eqn:E.
  - simpl. intro Hx. injection Hx as ->.
    assert (l = []) as ->.
    { rewrite <- (rev_involutive l), E. reflexivity. }
    split; [now left|].
    intros y [->|[]]. destruct (leb_total y y); assumption.
  - simpl. intro Hx. injection Hx as ->.
    destruct (IH eq_refl) as [Hin Hmax].
    split; [now right|].
    intros y [->|Hy]; [|apply Hmax, Hy].
    rewrite Forall_forall in Ha. apply Ha, Hin.
Qed.

Lemma qs_first_order_by (l : list A) (x : A) :
  qs_first (order_by leb l) = Some x ->
  In x l /\ forall y, In y l -> leb x y = true.
Proof.
  intro H. split.
  - apply order_by_In. destruct (order_by leb l); [discriminate|].
    simpl in H. injection H as ->. now left.
  - intros y Hy.
    apply (sorted_first_min _ _ (order_by_sorted l) H), order_by_In, Hy.
Qed.

Lemma qs_last_order_by (l : list A) (x : A) :
  qs_last (order_by leb l) = Some x ->
  In x l /\ forall y, In y l -> leb y x = true.
Proof.
  intro H.
  destruct (sorted_last_max _ _ (order_by_sorted l) H) as [Hin Hmax].
  split; [apply order_by_In, Hin|].
  intros y Hy. apply Hmax, order_by_In, Hy.
Qed.
End OrderByFacts.

Lemma qs_first_none {A} (l : list A) : qs_first l = None -> l = [].
Proof. destruct l; [reflexivity | discriminate]. Qed.

Lemma qs_last_none {A} (l : list A) : qs_last l = None -> l = [].
Proof.
  unfold qs_last. intro H.
  rewrite <- (rev_involutive l).
  destruct (rev l); [reflexivity | discriminate].
Qed.

Lemma qs_last_In {A} (l : list A) (x : A) : qs_last l = Some x -> In x l.
Proof.
  unfold qs_last. intro H. apply in_rev.
  destruct (rev l); [discriminate|].
  simpl in H. injection H as ->. now left.
Qed.

Lemma qs_first_In {A} (l : list A) (x : A) : qs_first l = Some x -> In x l.
Proof.
  destruct l; [discriminate|]. simpl. intro H. injection H as ->. now left.
Qed.

Lemma start_leb_total (x y : DutyStatusRecord.t) :
  Store.start_leb x y = true \/ Store.start_leb y x = true.
Proof. unfold Store.start_leb. lia. Qed.

Lemma start_leb_trans (x y z : DutyStatusRecord.t) :
  Store.start_leb x y = true -> Store.start_leb y z = true ->
  Store.start_leb x z = true.
Proof. unfold Store.start_leb. lia. Qed.

Lemma null_leb_total (nh : bool) (a b : option Z) :
  Store.null_leb nh a b = true \/ Store.null_leb nh b a = true.
Proof. destruct a, b, nh; simpl; lia. Qed.

Lemma null_leb_trans (nh : bool) (a b c : option Z) :
  Store.null_leb nh a b = true -> Store.null_leb nh b c = true ->
  Store.null_leb nh a c = true.
Proof. destruct a, b, c, nh; simpl; try lia; try discriminate. Qed.

Lemma null_leb_antisym (nh : bool) (a b : option Z) :
  Store.null_leb nh a b = true -> Store.null_leb nh b a = true -> a = b.
Proof.
  destruct a, b, nh; simpl; try discriminate; try reflexivity.
  - intros. f_equal. lia.
  - intros. f_equal. lia.
Qed.

Lemma end_desc_leb_total (nh : bool) (x y : DutyStatusRecord.t) :
  Store.end_desc_leb nh x y = true \/ Store.end_desc_leb nh y x = true.
Proof. unfold Store.end_desc_leb. apply null_leb_total. Qed.

Lemma end_desc_leb_trans (nh : bool) (x y z : DutyStatusRecord.t) :
  Store.end_desc_leb nh x y = true -> Store.end_desc_leb nh y z = true ->
  Store.end_desc_leb nh x z = true.
Proof.
  unfold Store.end_desc_leb. intros H1 H2.
  exact (null_leb_trans _ _ _ _ H2 H1).
Qed.

(* ================================================================== *)
(** * Rounding to binary64 *)

Lemma pow2_pos (z : Z) : (0 < 2 ^ z)%Q.
Proof. apply Qpower_0_lt. reflexivity. Qed.

Lemma pow2_succ (z : Z) : (2 ^ (z + 1) == 2 * 2 ^ z)%Q.
Proof.
  rewrite Qpower_plus by discriminate. rewrite Qpower_1_r. ring.
Qed.

Lemma pow2_le (a b : Z) : a <= b -> (2 ^ a <= 2 ^ b)%Q.
Proof. intro H. apply Qpower_le_compat_l; [exact H | discriminate]. Qed.

Lemma pow2_lt (a b : Z) : a < b -> (2 ^ a < 2 ^ b)%Q.
Proof. intro H. apply Qpower_lt_compat_l; [exact H | reflexivity]. Qed.

Lemma pow2_inject (n : Z) : 0 <= n -> (2 ^ n == inject_Z (2 ^ n))%Q.
Proof. intro H. rewrite Zpower_Qpower by exact H. reflexivity. Qed.

(** At most one exponent fits. *)
Lemma exponent_unique_bounds (x : Q) (a b : Z) :
  (2 ^ a <= x)%Q -> (x < 2 ^ (a + 1))%Q ->
  (2 ^ b <= x)%Q -> (x < 2 ^ (b + 1))%Q -> a = b.
Proof.
  intros A1 A2 B1 B2.
  assert (L1 : a < b + 1).
  { apply (Qpower_lt_compat_l_inv 2); [|reflexivity]. lra. }
  assert (L2 : b < a + 1).
  { apply (Qpower_lt_compat_l_inv 2); [|reflexivity]. lra. }
  lia.
Qed.

Lemma exponent_spec (x : Q) :
  (0 < x)%Q ->
  (2 ^ Float64.exponent x <= x)%Q /\ (x < 2 ^ (Float64.exponent x + 1))%Q.
Proof.
  intro H. destruct x as [n d]. unfold Float64.exponent. cbn [Qnum Qden].
  assert (Hn : 0 < n) by (unfold Qlt in H; cbn in H; lia).
  set (ln := Z.log2 n). set (ld := Z.log2 (Z.pos d)).
  destruct (Z.log2_spec n Hn) as [N1 N2]. fold ln in N1, N2.
  destruct (Z.log2_spec (Z.pos d) eq_refl) as [D1 D2]. fold ld in D1, D2.
  assert (Ln : 0 <= ln) by apply Z.log2_nonneg.
  assert (Ld : 0 <= ld) by apply Z.log2_nonneg.
  assert (X : (n # d == inject_Z n / inject_Z (Z.pos d))%Q)
    by apply Qmake_Qdiv.
  assert (Pd : (0 < inject_Z (Z.pos d))%Q) by reflexivity.
  assert (Q1 : (2 ^ ln <= inject_Z n)%Q).
  { rewrite pow2_inject by exact Ln. rewrite <- Zle_Qle. exact N1. }
  assert (Q2 : (inject_Z n < 2 ^ (ln + 1))%Q).
  { rewrite pow2_inject by lia. rewrite <- Zlt_Qlt.
    replace (ln + 1) with (Z.succ ln) by lia. exact N2. }
  assert (Q3 : (2 ^ ld <= inject_Z (Z.pos d))%Q).
  { rewrite pow2_inject by exact Ld. rewrite <- Zle_Qle. exact D1. }
  assert (Q4 : (inject_Z (Z.pos d) < 2 ^ (ld + 1))%Q).
  { rewrite pow2_inject by lia. rewrite <- Zlt_Qlt.
    replace (ld + 1) with (Z.succ ld) by lia. exact D2. }
  (* x lies between 2^(ln - ld - 1) and 2^(ln - ld + 1) *)
  assert (U : (n # d < 2 ^ (ln - ld + 1))%Q).
  { rewrite X. apply Qlt_shift_div_r; [exact Pd|].
    replace (ln - ld + 1) with ((ln + 1) - ld) by lia.
    rewrite Qpower_minus by discriminate.
    pose proof (pow2_pos ld) as P. pose proof (pow2_pos (ln + 1)) as P'.
    apply Qlt_le_trans with (2 ^ (ln + 1))%Q; [exact Q2|].
    setoid_replace (2 ^ (ln + 1) / 2 ^ ld * inject_Z (Z.pos d))%Q
      with (2 ^ (ln + 1) * (inject_Z (Z.pos d) / 2 ^ ld))%Q
      by (field; lra).
    setoid_replace (2 ^ (ln + 1))%Q with (2 ^ (ln + 1) * 1)%Q at 1 by ring.
    apply Qmult_le_l; [exact P'|].
    apply Qle_shift_div_l; [exact P | lra]. }
  assert (L : (2 ^ (ln - ld - 1) <= n # d)%Q).
  { rewrite X. apply Qle_shift_div_l; [exact Pd|].
    replace (ln - ld - 1) with (ln - (ld + 1)) by lia.
    rewrite Qpower_minus by discriminate.
    pose proof (pow2_pos (ld + 1)) as P. pose proof (pow2_pos ln) as P'.
    apply Qle_trans with (2 ^ ln)%Q; [|exact Q1].
    setoid_replace (2 ^ ln / 2 ^ (ld + 1) * inject_Z (Z.pos d))%Q
      with (2 ^ ln * (inject_Z (Z.pos d) / 2 ^ (ld + 1)))%Q
      by (field; lra).
    setoid_replace (2 ^ ln)%Q with (2 ^ ln * 1)%Q at 2 by ring.
    apply Qmult_le_l; [exact P'|].
    apply Qle_shift_div_r; [exact P | lra]. }
  destruct (Qle_bool (2 ^ (ln - ld)) (n # d)) eqn:C.
  - apply Qle_bool_iff in C. split; [exact C | exact U].
  - assert (C' : ~ (2 ^ (ln - ld) <= n # d)%Q).
    { intro K. apply Qle_bool_iff in K. congruence. }
    apply Qnot_le_lt in C'. split; [exact L|].
    replace (ln - ld - 1 + 1) with (ln - ld) by lia. exact C'.
Qed.

Lemma exponent_unique (x : Q) (k : Z) :
  (2 ^ k <= x)%Q -> (x < 2 ^ (k + 1))%Q -> Float64.exponent x = k.
Proof.
  intros A B.
  assert (P : (0 < x)%Q) by (pose proof (pow2_pos k); lra).
  destruct (exponent_spec x P) as [E1 E2].
  exact (exponent_unique_bounds x _ _ E1 E2 A B).
Qed.

Lemma exponent_comp (x y : Q) :
  (0 < x)%Q -> (x == y)%Q -> Float64.exponent x = Float64.exponent y.
Proof.
  intros P E. destruct (exponent_spec x P) as [E1 E2].
  symmetry. apply exponent_unique; rewrite <- E; assumption.
Qed.

Lemma exponent_mono (x y : Q) :
  (0 < x)%Q -> (x <= y)%Q -> Float64.exponent x <= Float64.exponent y.
Proof.
  intros P L.
  destruct (exponent_spec x P) as [X1 _].
  destruct (exponent_spec y) as [_ Y2]; [lra|].
  assert (Float64.exponent x < Float64.exponent y + 1); [|lia].
  apply (Qpower_lt_compat_l_inv 2); [|reflexivity]. lra.
Qed.

Lemma mantissa_bounds (x : Q) :
  (0 < x)%Q ->
  let u := (2 ^ (Float64.exponent x - 52))%Q in
  (inject_Z (2 ^ 52) <= x / u)%Q /\ (x / u < inject_Z (2 ^ 53))%Q.
Proof.
  intros P u. destruct (exponent_spec x P) as [E1 E2].
  set (e := Float64.exponent x) in *.
  pose proof (pow2_pos (e - 52)) as Pu. fold u in Pu.
  assert (A : (2 ^ e == inject_Z (2 ^ 52) * u)%Q).
  { unfold u. rewrite <- (pow2_inject 52) by lia.
    rewrite <- Qpower_plus by discriminate.
    replace (52 + (e - 52)) with e by lia. reflexivity. }
  assert (B : (2 ^ (e + 1) == inject_Z (2 ^ 53) * u)%Q).
  { unfold u. rewrite <- (pow2_inject 53) by lia.
    rewrite <- Qpower_plus by discriminate.
    replace (53 + (e - 52)) with (e + 1) by lia. reflexivity. }
  split.
  - apply Qle_shift_div_l; [exact Pu|]. rewrite <- A. exact E1.
  - apply Qlt_shift_div_r; [exact Pu|]. rewrite <- B. exact E2.
Qed.

Lemma round_pos_bounds (x : Q) :
  (0 < x)%Q ->
  (2 ^ Float64.exponent x <= Float64.round_pos x)%Q
  /\ (Float64.round_pos x <= 2 ^ (Float64.exponent x + 1))%Q.
Proof.
  intro P. destruct (mantissa_bounds x P) as [M1 M2]. cbv zeta in M1, M2.
  unfold Float64.round_pos.
  set (e := Float64.exponent x) in *.
  set (u := (2 ^ (e - 52))%Q) in *.
  pose proof (pow2_pos (e - 52)) as Pu. fold u in Pu.
  set (m := Time.round_half_even (x / u)).
  assert (L : 2 ^ 52 <= m).
  { unfold m. rewrite <- (round_half_even_Z (2 ^ 52)).
    apply round_half_even_mono. exact M1. }
  assert (U : m <= 2 ^ 53).
  { unfold m. rewrite <- (round_half_even_Z (2 ^ 53)).
    apply round_half_even_mono. lra. }
  assert (A : (2 ^ e == inject_Z (2 ^ 52) * u)%Q).
  { unfold u. rewrite <- (pow2_inject 52) by lia.
    rewrite <- Qpower_plus by discriminate.
    replace (52 + (e - 52)) with e by lia. reflexivity. }
  assert (B : (2 ^ (e + 1) == inject_Z (2 ^ 53) * u)%Q).
  { unfold u. rewrite <- (pow2_inject 53) by lia.
    rewrite <- Qpower_plus by discriminate.
    replace (53 + (e - 52)) with (e + 1) by lia. reflexivity. }
  rewrite A, B. rewrite Zle_Qle in L, U.
  split; apply Qmult_le_compat_r; lra.
Qed.

Lemma round_pos_positive (x : Q) : (0 < x)%Q -> (0 < Float64.round_pos x)%Q.
Proof.
  intro P. destruct (round_pos_bounds x P) as [L _].
  pose proof (pow2_pos (Float64.exponent x)). lra.
Qed.

Lemma round_pos_comp (x y : Q) :
  (0 < x)%Q -> (x == y)%Q -> (Float64.round_pos x == Float64.round_pos y)%Q.
Proof.
  intros P E. unfold Float64.round_pos.
  rewrite <- (exponent_comp x y P E).
  set (u := (2 ^ (Float64.exponent x - 52))%Q).
  assert (R : Time.round_half_even (x / u) = Time.round_half_even (y / u)).
  { apply round_half_even_comp. rewrite E. reflexivity. }
  rewrite R. reflexivity.
Qed.

Lemma round_pos_mono (x y : Q) :
  (0 < x)%Q -> (x <= y)%Q -> (Float64.round_pos x <= Float64.round_pos y)%Q.
Proof.
  intros P L.
  assert (Py : (0 < y)%Q) by lra.
  pose proof (exponent_mono x y P L) as E.
  destruct (Z.eq_dec (Float64.exponent x) (Float64.exponent y)) as [Eq|Ne].
  - unfold Float64.round_pos. rewrite Eq.
    pose proof (pow2_pos (Float64.exponent y - 52)) as Pu.
    apply Qmult_le_compat_r; [|lra].
    rewrite <- Zle_Qle. apply round_half_even_mono.
    apply Qmult_le_compat_r; [exact L|].
    apply Qlt_le_weak, Qinv_lt_0_compat. exact Pu.
  - destruct (round_pos_bounds x P) as [_ U].
    destruct (round_pos_bounds y Py) as [Ly _].
    assert (K : (2 ^ (Float64.exponent x + 1) <= 2 ^ Float64.exponent y)%Q)
      by (apply pow2_le; lia).
    lra.
Qed.

(** A rational with a mantissa of at most 53 bits is a double. *)
Lemma round_pos_exact (x : Q) (k j : Z) :
  0 < k < 2 ^ 53 -> (x == inject_Z k * 2 ^ j)%Q ->
  (Float64.round_pos x == x)%Q.
Proof.
  intros [K0 K1] E.
  set (b := Z.log2 k).
  destruct (Z.log2_spec k K0) as [B1 B2]. fold b in B1, B2.
  assert (Hb : 0 <= b) by apply Z.log2_nonneg.
  assert (Hb52 : b <= 52).
  { destruct (Z_le_gt_dec b 52) as [Le|Gt]; [exact Le|]. exfalso.
    assert (2 ^ 53 <= 2 ^ b) by (apply Z.pow_le_mono_r; lia). lia. }
  pose proof (pow2_pos j) as Pj.
  assert (Ex : Float64.exponent x = b + j).
  { apply exponent_unique; rewrite E.
    - rewrite Qpower_plus by discriminate.
      apply Qmult_le_compat_r; [|lra].
      rewrite pow2_inject by exact Hb. rewrite <- Zle_Qle. exact B1.
    - replace (b + j + 1) with ((b + 1) + j) by lia.
      rewrite Qpower_plus by discriminate.
      apply Qmult_lt_compat_r; [exact Pj|].
      rewrite pow2_inject by lia. rewrite <- Zlt_Qlt.
      replace (b + 1) with (Z.succ b) by lia. exact B2. }
  unfold Float64.round_pos. rewrite Ex.
  set (u := (2 ^ (b + j - 52))%Q).
  pose proof (pow2_pos (b + j - 52)) as Pu. fold u in Pu.
  assert (S : (2 ^ j == inject_Z (2 ^ (52 - b)) * u)%Q).
  { unfold u. rewrite <- pow2_inject by lia.
    rewrite <- Qpower_plus by discriminate.
    replace (52 - b + (b + j - 52)) with j by lia. reflexivity. }
  assert (D : (x / u == inject_Z (k * 2 ^ (52 - b)))%Q).
  { rewrite E, S, inject_Z_mult. field. lra. }
  rewrite (round_half_even_comp _ _ D), round_half_even_Z.
  rewrite E, S, inject_Z_mult. ring.
Qed.

(** ** The rounding of any rational *)

Lemma round_0 : Float64.round 0 = 0%Q.
Proof. reflexivity. Qed.

Lemma round_of_pos (x : Q) :
  (0 < x)%Q -> Float64.round x = Float64.round_pos x.
Proof.
  intro P. unfold Float64.round.
  rewrite (proj1 (Qgt_alt x 0) P). reflexivity.
Qed.

Lemma round_of_neg (x : Q) :
  (x < 0)%Q -> Float64.round x = (- Float64.round_pos (- x))%Q.
Proof.
  intro P. unfold Float64.round.
  rewrite (proj1 (Qlt_alt x 0) P). reflexivity.
Qed.

Lemma round_of_zero (x : Q) : (x == 0)%Q -> Float64.round x = 0%Q.
Proof.
  intro P. unfold Float64.round.
  rewrite (proj1 (Qeq_alt x 0) P). reflexivity.
Qed.

Lemma round_cases (x : Q) :
  ((x < 0)%Q /\ Float64.round x = (- Float64.round_pos (- x))%Q)
  \/ ((x == 0)%Q /\ Float64.round x = 0%Q)
  \/ ((0 < x)%Q /\ Float64.round x = Float64.round_pos x).
Proof.
  destruct (Q_dec x 0) as [[L|G]|E].
  - left. split; [exact L | apply round_of_neg; exact L].
  - right. right. split; [exact G | apply round_of_pos; exact G].
  - right. left. split; [exact E | apply round_of_zero; exact E].
Qed.

Lemma round_comp (x y : Q) :
  (x == y)%Q -> (Float64.round x == Float64.round y)%Q.
Proof.
  intro E.
  destruct (round_cases x) as [[Sx ->] | [[Sx ->] | [Sx ->]]].
  - rewrite (round_of_neg y) by lra.
    rewrite (round_pos_comp (- x) (- y)); [reflexivity | lra | lra].
  - rewrite (round_of_zero y) by lra. reflexivity.
  - rewrite (round_of_pos y) by lra.
    apply round_pos_comp; assumption.
Qed.

Lemma round_sign (x : Q) :
  ((0 < x)%Q -> (0 < Float64.round x)%Q)
  /\ ((x < 0)%Q -> (Float64.round x < 0)%Q)
  /\ ((0 <= x)%Q -> (0 <= Float64.round x)%Q)
  /\ ((x <= 0)%Q -> (Float64.round x <= 0)%Q).
Proof.
  destruct (round_cases x) as [[Sx ->] | [[Sx ->] | [Sx ->]]].
  - assert (0 < Float64.round_pos (- x))%Q by (apply round_pos_positive; lra).
    repeat split; intro; lra.
  - repeat split; intro; lra.
  - assert (0 < Float64.round_pos x)%Q by (apply round_pos_positive; lra).
    repeat split; intro; lra.
Qed.

Lemma round_mono (x y : Q) :
  (x <= y)%Q -> (Float64.round x <= Float64.round y)%Q.
Proof.
  intro L.
  destruct (round_sign x) as (X1 & X2 & X3 & X4).
  destruct (round_sign y) as (Y1 & Y2 & Y3 & Y4).
  destruct (round_cases x) as [[Sx Ex] | [[Sx Ex] | [Sx Ex]]];
    destruct (round_cases y) as [[Sy Ey] | [[Sy Ey] | [Sy Ey]]];
    try (exfalso; lra).
  - rewrite Ex, Ey.
    assert ((Float64.round_pos (- y) <= Float64.round_pos (- x))%Q)
      by (apply round_pos_mono; lra).
    lra.
  - specialize (X2 Sx). rewrite Ey. lra.
  - specialize (X2 Sx). specialize (Y1 Sy). lra.
  - rewrite Ex, Ey. lra.
  - specialize (Y1 Sy). rewrite Ex. lra.
  - rewrite Ex, Ey. apply round_pos_mono; assumption.
Qed.

(** A rational [k * 2^j] with [|k| < 2^53] is a double. *)
Lemma round_exact (x : Q) (k j : Z) :
  - 2 ^ 53 < k < 2 ^ 53 -> (x == inject_Z k * 2 ^ j)%Q ->
  (Float64.round x == x)%Q.
Proof.
  intros K E. pose proof (pow2_pos j) as Pj.
  destruct (Z.lt_trichotomy k 0) as [N | [Z0 | P]].
  - assert (Sx : (x < 0)%Q).
    { rewrite E. rewrite Zlt_Qlt in N. change (inject_Z 0) with 0%Q in N.
      setoid_replace 0%Q with (0 * 2 ^ j)%Q by ring.
      apply Qmult_lt_compat_r; assumption. }
    rewrite (round_of_neg x Sx).
    rewrite (round_pos_exact (- x) (- k) j).
    + ring.
    + lia.
    + rewrite E, inject_Z_opp. ring.
  - subst k. assert (Sx : (x == 0)%Q) by (rewrite E; ring).
    rewrite (round_of_zero x Sx). symmetry. exact Sx.
  - assert (Sx : (0 < x)%Q).
    { rewrite E. rewrite Zlt_Qlt in P. change (inject_Z 0) with 0%Q in P.
      setoid_replace 0%Q with (0 * 2 ^ j)%Q by ring.
      apply Qmult_lt_compat_r; assumption. }
    rewrite (round_of_pos x Sx).
    apply (round_pos_exact x k j); [lia | exact E].
Qed.

Lemma round_int (n : Z) :
  - 2 ^ 53 < n < 2 ^ 53 ->
  (Float64.round (inject_Z n) == inject_Z n)%Q.
Proof.
  intro H. apply (round_exact _ n 0); [exact H|].
  rewrite Qpower_0_r. ring.
Qed.

(** A multiple of a quarter is a double. *)
Lemma round_quarters (n : Z) :
  - 2 ^ 53 < n < 2 ^ 53 ->
  (Float64.round (inject_Z n / 4) == inject_Z n / 4)%Q.
Proof.
  intro H. apply (round_exact _ n (-2)); [exact H|].
  change (2 ^ (-2))%Q with (/ (2 ^ 2))%Q.
  change (2 ^ 2)%Q with 4%Q. reflexivity.
Qed.

(** What rounding returns is a double. *)
Lemma round_pos_round (x : Q) :
  (0 < x)%Q ->
  (Float64.round_pos (Float64.round_pos x) == Float64.round_pos x)%Q.
Proof.
  intro P. destruct (mantissa_bounds x P) as [M1 M2]. cbv zeta in M1, M2.
  set (e := Float64.exponent x) in *.
  set (u := (2 ^ (e - 52))%Q) in *.
  set (m := Time.round_half_even (x / u)).
  assert (L : 2 ^ 52 <= m).
  { unfold m. rewrite <- (round_half_even_Z (2 ^ 52)).
    apply round_half_even_mono. exact M1. }
  assert (U : m <= 2 ^ 53).
  { unfold m. rewrite <- (round_half_even_Z (2 ^ 53)).
    apply round_half_even_mono. lra. }
  assert (R : (Float64.round_pos x == inject_Z m * 2 ^ (e - 52))%Q)
    by reflexivity.
  destruct (Z.eq_dec m (2 ^ 53)) as [Eq|Ne].
  - apply (round_pos_exact _ 1 (e + 1)); [lia|].
    rewrite R, Eq. replace (e + 1) with (53 + (e - 52)) by lia.
    rewrite Qpower_plus by discriminate.
    rewrite <- (pow2_inject 53) by lia. ring.
  - apply (round_pos_exact _ m (e - 52)); [lia | exact R].
Qed.

Lemma round_round (x : Q) :
  (Float64.round (Float64.round x) == Float64.round x)%Q.
Proof.
  destruct (round_cases x) as [[Sx Ex] | [[Sx Ex] | [Sx Ex]]].
  - rewrite Ex.
    assert (P : (0 < Float64.round_pos (- x))%Q)
      by (apply round_pos_positive; lra).
    rewrite round_of_neg by lra.
    rewrite (round_pos_comp (- - Float64.round_pos (- x))
               (Float64.round_pos (- x))); [|lra | ring].
    rewrite round_pos_round by lra. reflexivity.
  - rewrite Ex. reflexivity.
  - rewrite Ex.
    assert (P : (0 < Float64.round_pos x)%Q)
      by (apply round_pos_positive; lra).
    rewrite round_of_pos by exact P. apply round_pos_round. exact Sx.
Qed.

(* ================================================================== *)
(** * Float operations: order and exact cases *)

(** Linear arithmetic with quarters and with seconds per hour. *)
Ltac lra_div :=
  unfold Qdiv in *;
  try change (/ 4)%Q with (1 # 4)%Q in *;
  try change (/ 3600)%Q with (1 # 3600)%Q in *;
  lra.

Lemma add_mono (a a' b b' : Q) :
  (a <= a')%Q -> (b <= b')%Q -> (Float64.add a b <= Float64.add a' b')%Q.
Proof. intros A B. apply round_mono. lra. Qed.

Lemma add_nonneg (a b : Q) :
  (0 <= a)%Q -> (0 <= b)%Q -> (0 <= Float64.add a b)%Q.
Proof. intros A B. apply (round_sign (a + b)). lra. Qed.

Lemma add_comp (a a' b b' : Q) :
  (a == a')%Q -> (b == b')%Q -> (Float64.add a b == Float64.add a' b')%Q.
Proof. intros A B. apply round_comp. rewrite A, B. reflexivity. Qed.

Lemma sub_comp (a a' b b' : Q) :
  (a == a')%Q -> (b == b')%Q -> (Float64.sub a b == Float64.sub a' b')%Q.
Proof. intros A B. apply round_comp. rewrite A, B. reflexivity. Qed.

Lemma div_mono (a a' c : Q) :
  (0 < c)%Q -> (a <= a')%Q -> (Float64.div a c <= Float64.div a' c)%Q.
Proof.
  intros C A. apply round_mono. unfold Qdiv.
  apply Qmult_le_compat_r; [exact A|].
  apply Qlt_le_weak, Qinv_lt_0_compat, C.
Qed.

Lemma div_comp (a a' c : Q) :
  (a == a')%Q -> (Float64.div a c == Float64.div a' c)%Q.
Proof. intro A. apply round_comp. rewrite A. reflexivity. Qed.

Lemma div_nonneg (a c : Q) :
  (0 < c)%Q -> (0 <= a)%Q -> (0 <= Float64.div a c)%Q.
Proof.
  intros C A. apply (round_sign (a / c)). unfold Qdiv.
  apply Qmult_le_0_compat; [exact A|].
  apply Qlt_le_weak, Qinv_lt_0_compat, C.
Qed.

Lemma total_seconds_mono (d d' : Time.timedelta) :
  d <= d' -> (Float64.total_seconds d <= Float64.total_seconds d')%Q.
Proof.
  intro H. apply round_mono. unfold Qdiv.
  apply Qmult_le_compat_r; [rewrite <- Zle_Qle; exact H | discriminate].
Qed.

Lemma total_seconds_nonneg (d : Time.timedelta) :
  0 <= d -> (0 <= Float64.total_seconds d)%Q.
Proof.
  intro H. apply (round_sign (inject_Z d / 1000000)). unfold Qdiv.
  apply Qmult_le_0_compat; [|discriminate].
  change 0%Q with (inject_Z 0). rewrite <- Zle_Qle. exact H.
Qed.

(** A whole number of seconds is a float. *)
Lemma total_seconds_whole (k : Z) :
  - 2 ^ 53 < k < 2 ^ 53 ->
  (Float64.total_seconds (k * 1000000)%Z == inject_Z k)%Q.
Proof.
  intro H. unfold Float64.total_seconds.
  transitivity (Float64.round (inject_Z k)); [|apply round_int, H].
  apply round_comp. rewrite inject_Z_mult. field.
Qed.

Lemma hours_mono (d d' : Time.timedelta) :
  d <= d' -> (Float64.hours d <= Float64.hours d')%Q.
Proof.
  intro H. apply div_mono; [reflexivity|]. apply total_seconds_mono, H.
Qed.

Lemma hours_nonneg (d : Time.timedelta) :
  0 <= d -> (0 <= Float64.hours d)%Q.
Proof.
  intro H. apply div_nonneg; [reflexivity|]. apply total_seconds_nonneg, H.
Qed.

(** A whole number of quarter hours is a float. *)
Lemma hours_quarters (k : Z) :
  - 2 ^ 43 < k < 2 ^ 43 ->
  (Float64.hours (k * 900000000)%Z == inject_Z k / 4)%Q.
Proof.
  intro H. unfold Float64.hours.
  assert (S : (Float64.total_seconds (k * 900000000)%Z
               == inject_Z (k * 900))%Q).
  { replace (k * 900000000) with (k * 900 * 1000000) by lia.
    apply total_seconds_whole. lia. }
  transitivity (Float64.round (inject_Z k / 4));
    [|apply round_quarters; lia].
  apply round_comp. rewrite S, inject_Z_mult. field.
Qed.

(** What is at most a whole number of hours stays so when rounded. *)
Lemma round_le_int (x : Q) (n : Z) :
  - 2 ^ 53 < n < 2 ^ 53 -> (x <= inject_Z n)%Q ->
  (Float64.round x <= inject_Z n)%Q.
Proof.
  intros N H. rewrite <- (round_int n N). apply round_mono, H.
Qed.

Lemma hours_le_int (d : Time.timedelta) (n : Z) :
  0 <= n < 2 ^ 40 -> d <= n * Time.us_per_hour ->
  (Float64.hours d <= inject_Z n)%Q.
Proof.
  intros N H.
  assert (E : (Float64.hours (4 * n * 900000000)%Z == inject_Z n)%Q).
  { rewrite hours_quarters by lia. rewrite inject_Z_mult.
    change (inject_Z 4) with 4%Q. field. }
  rewrite <- E. apply hours_mono. unfold Time.us_per_hour in H. lia.
Qed.

(* ================================================================== *)
(** * Sums of floats against sums on a grid

    Numbers [c * 2^j] with [|c| < 2^53] are floats, so a float sum whose
    terms lie below such numbers stays below their sum, and a float sum
    of such numbers is exact. *)

Lemma Zsum_nonneg (cs : list Z) :
  Forall (fun c => 0 <= c) cs -> 0 <= Spec.Zsum cs.
Proof.
  induction 1 as [|c cs C F IH]; cbn [Spec.Zsum fold_right]; [lia|].
  fold (Spec.Zsum cs). lia.
Qed.

Lemma fold_add_le (j : Z) (xs : list Q) (cs : list Z) :
  Forall2 (fun x c => (x <= inject_Z c * 2 ^ j)%Q /\ 0 <= c) xs cs ->
  forall (acc : Q) (C : Z),
    (acc <= inject_Z C * 2 ^ j)%Q -> 0 <= C ->
    C + Spec.Zsum cs < 2 ^ 53 ->
    (fold_left Float64.add xs acc <= inject_Z (C + Spec.Zsum cs) * 2 ^ j)%Q.
Proof.
  induction 1 as [|x c xs cs [Hx Hc] F IH]; intros acc C A C0 B.
  - cbn [fold_left Spec.Zsum fold_right]. rewrite Z.add_0_r. exact A.
  - cbn [fold_left]. cbn [Spec.Zsum fold_right] in *. fold (Spec.Zsum cs) in *.
    assert (N : 0 <= Spec.Zsum cs).
    { apply Zsum_nonneg. clear - F.
      induction F as [|? ? ? ? [_ ?] ? ?]; [constructor|].
      constructor; assumption. }
    replace (C + (c + Spec.Zsum cs)) with ((C + c) + Spec.Zsum cs) by lia.
    apply IH; [|lia|lia].
    unfold Float64.add.
    rewrite <- (round_exact (inject_Z (C + c) * 2 ^ j) (C + c) j);
      [|lia|reflexivity].
    apply round_mono. rewrite inject_Z_plus. lra.
Qed.

Lemma fold_add_exact (j : Z) (xs : list Q) (cs : list Z) :
  Forall2 (fun x c => (x == inject_Z c * 2 ^ j)%Q /\ 0 <= c) xs cs ->
  forall (acc : Q) (C : Z),
    (acc == inject_Z C * 2 ^ j)%Q -> 0 <= C ->
    C + Spec.Zsum cs < 2 ^ 53 ->
    (fold_left Float64.add xs acc == inject_Z (C + Spec.Zsum cs) * 2 ^ j)%Q.
Proof.
  induction 1 as [|x c xs cs [Hx Hc] F IH]; intros acc C A C0 B.
  - cbn [fold_left Spec.Zsum fold_right]. rewrite Z.add_0_r. exact A.
  - cbn [fold_left]. cbn [Spec.Zsum fold_right] in *. fold (Spec.Zsum cs) in *.
    assert (N : 0 <= Spec.Zsum cs).
    { apply Zsum_nonneg. clear - F.
      induction F as [|? ? ? ? [_ ?] ? ?]; [constructor|].
      constructor; assumption. }
    replace (C + (c + Spec.Zsum cs)) with ((C + c) + Spec.Zsum cs) by lia.
    apply IH; [|lia|lia].
    unfold Float64.add.
    transitivity (Float64.round (inject_Z (C + c) * 2 ^ j));
      [|apply (round_exact _ (C + c) j); [lia | reflexivity]].
    apply round_comp. rewrite inject_Z_plus, A, Hx. ring.
Qed.

(** A sum of floats that lie below whole numbers. *)
Lemma sum_le_int (xs : list Q) (cs : list Z) :
  Forall2 (fun x c => (x <= inject_Z c)%Q /\ 0 <= c) xs cs ->
  Spec.Zsum cs < 2 ^ 53 ->
  (Float64.sum xs <= inject_Z (Spec.Zsum cs))%Q.
Proof.
  intros F B. unfold Float64.sum.
  pose proof (fold_add_le 0 xs cs) as L.
  assert (F' : Forall2 (fun x c => (x <= inject_Z c * 2 ^ 0)%Q /\ 0 <= c)
                       xs cs).
  { revert F. apply Forall2_impl. intros x c [X C1]. split; [|exact C1].
    rewrite Qpower_0_r. lra. }
  specialize (L F' 0%Q 0 ltac:(rewrite Qpower_0_r; discriminate)
                ltac:(lia) ltac:(lia)).
  rewrite Qpower_0_r in L. cbn [Z.add] in L. lra.
Qed.

Lemma sum_exact_int (xs : list Q) (cs : list Z) :
  Forall2 (fun x c => (x == inject_Z c)%Q /\ 0 <= c) xs cs ->
  Spec.Zsum cs < 2 ^ 53 ->
  (Float64.sum xs == inject_Z (Spec.Zsum cs))%Q.
Proof.
  intros F B. unfold Float64.sum.
  pose proof (fold_add_exact 0 xs cs) as L.
  assert (F' : Forall2 (fun x c => (x == inject_Z c * 2 ^ 0)%Q /\ 0 <= c)
                       xs cs).
  { revert F. apply Forall2_impl. intros x c [X C1]. split; [|exact C1].
    rewrite Qpower_0_r. lra. }
  specialize (L F' 0%Q 0 ltac:(rewrite Qpower_0_r; reflexivity)
                ltac:(lia) ltac:(lia)).
  rewrite Qpower_0_r in L. cbn [Z.add] in L. lra.
Qed.

Lemma quarter_pow : (2 ^ (-2) == 1 # 4)%Q.
Proof. reflexivity. Qed.

(** A sum of floats that lie below whole numbers of quarters. *)
Lemma fold_add_le_quarters (xs : list Q) (cs : list Z) (acc : Q) (C : Z) :
  Forall2 (fun x c => (x <= inject_Z c / 4)%Q /\ 0 <= c) xs cs ->
  (acc <= inject_Z C / 4)%Q -> 0 <= C ->
  C + Spec.Zsum cs < 2 ^ 53 ->
  (fold_left Float64.add xs acc <= inject_Z (C + Spec.Zsum cs) / 4)%Q.
Proof.
  intros F A C0 B.
  pose proof (fold_add_le (-2) xs cs) as L.
  assert (F' : Forall2 (fun x c => (x <= inject_Z c * 2 ^ (-2))%Q /\ 0 <= c)
                       xs cs).
  { revert F. apply Forall2_impl. intros x c [X C1]. split; [|exact C1].
    exact X. }
  exact (L F' acc C A C0 B).
Qed.

Lemma fold_add_exact_quarters (xs : list Q) (cs : list Z) (acc : Q) (C : Z) :
  Forall2 (fun x c => (x == inject_Z c / 4)%Q /\ 0 <= c) xs cs ->
  (acc == inject_Z C / 4)%Q -> 0 <= C ->
  C + Spec.Zsum cs < 2 ^ 53 ->
  (fold_left Float64.add xs acc == inject_Z (C + Spec.Zsum cs) / 4)%Q.
Proof.
  intros F A C0 B.
  pose proof (fold_add_exact (-2) xs cs) as L.
  assert (F' : Forall2 (fun x c => (x == inject_Z c * 2 ^ (-2))%Q /\ 0 <= c)
                       xs cs).
  { revert F. apply Forall2_impl. intros x c [X C1]. split; [|exact C1].
    exact X. }
  exact (L F' acc C A C0 B).
Qed.

Lemma sum_le_quarters (xs : list Q) (cs : list Z) :
  Forall2 (fun x c => (x <= inject_Z c / 4)%Q /\ 0 <= c) xs cs ->
  Spec.Zsum cs < 2 ^ 53 ->
  (Float64.sum xs <= inject_Z (Spec.Zsum cs) / 4)%Q.
Proof.
  intros F B.
  exact (fold_add_le_quarters xs cs 0 0 F ltac:(discriminate) ltac:(lia) B).
Qed.

Lemma sum_exact_quarters (xs : list Q) (cs : list Z) :
  Forall2 (fun x c => (x == inject_Z c / 4)%Q /\ 0 <= c) xs cs ->
  Spec.Zsum cs < 2 ^ 53 ->
  (Float64.sum xs == inject_Z (Spec.Zsum cs) / 4)%Q.
Proof.
  intros F B.
  exact (fold_add_exact_quarters xs cs 0 0 F ltac:(reflexivity) ltac:(lia) B).
Qed.

Lemma sum_nonneg (xs : list Q) :
  Forall (fun x => (0 <= x)%Q) xs -> (0 <= Float64.sum xs)%Q.
Proof.
  unfold Float64.sum. intro F.
  assert (G : forall acc, (0 <= acc)%Q ->
                          (0 <= fold_left Float64.add xs acc)%Q).
  { induction F as [|x xs X F IH]; intros acc A; cbn [fold_left];
      [exact A|]. apply IH, add_nonneg; assumption. }
  apply G. discriminate.
Qed.

(* ================================================================== *)
(** * Durations on a grid *)

Lemma steps_up_nonneg (unit : Z) (d : Time.timedelta) :
  0 <= Timeline.steps_up unit d.
Proof. unfold Timeline.steps_up. lia. Qed.

Lemma steps_up_covers (unit : Z) (d : Time.timedelta) :
  0 < unit -> d <= Timeline.steps_up unit d * unit.
Proof.
  intro U. unfold Timeline.steps_up.
  pose proof (Z.div_mod (d + unit - 1) unit ltac:(lia)) as E.
  pose proof (Z.mod_pos_bound (d + unit - 1) unit U) as M.
  nia.
Qed.

Lemma steps_up_le (unit : Z) (d : Time.timedelta) (k : Z) :
  0 < unit -> 0 <= k -> d <= k * unit -> Timeline.steps_up unit d <= k.
Proof.
  intros U K H. unfold Timeline.steps_up.
  apply Z.max_lub; [exact K|].
  apply Z.lt_succ_r. apply Z.div_lt_upper_bound; [exact U|]. nia.
Qed.

Lemma steps_up_whole (unit : Z) (k : Z) :
  0 < unit -> 0 <= k -> Timeline.steps_up unit (k * unit) = k.
Proof.
  intros U K. unfold Timeline.steps_up.
  replace (k * unit + unit - 1) with ((unit - 1) + k * unit) by lia.
  rewrite Z.div_add by lia. rewrite Z.div_small by lia. lia.
Qed.

(* ================================================================== *)
(** * The detector only adds violation rows *)

Ltac run_monad :=
  unfold Store.bind, Store.gets, Store.ret, Store.raise, Store.modify,
    Store.create_violation, Store.create_record.

Lemma with_violations_nil (db : Store.DB) : with_violations db [] = db.
Proof.
  destruct db. unfold with_violations. simpl. rewrite app_nil_r. reflexivity.
Qed.

Lemma with_violations_app (db : Store.DB) (a b : list HOSViolation.t) :
  with_violations (with_violations db a) b = with_violations db (a ++ b).
Proof.
  unfold with_violations. simpl. rewrite app_assoc. reflexivity.
Qed.

Lemma duty_records_of_with_violations db vs l :
  Store.duty_records_of (with_violations db vs) l = Store.duty_records_of db l.
Proof. reflexivity. Qed.

Lemma float_nil_not_gt (lim : Q) :
  (0 <= lim)%Q -> Qgtb (Float64.div (Float64.sum []) 3600) lim = false.
Proof.
  intro H. apply Qgtb_le.
  change (Float64.div (Float64.sum []) 3600) with 0%Q. exact H.
Qed.

Lemma check_driving_shape (l : ELDLog.t) (db : Store.DB) :
  exists o,
    HOSService._check_daily_driving_limit l db
    = (Ok o, with_violations db (opt_list o))
    /\ forall v, o = Some v ->
         HOSViolation.violation_type v = "drive_11h"
         /\ HOSViolation.eld_log v = ELDLog.id l.
Proof.
  unfold HOSService._check_daily_driving_limit. run_monad.
  set (recs := filter (HOSService.has_status "driving")
                      (Store.duty_records_of db l)).
  destruct (Qgtb _ HOSService.DAILY_DRIVING_LIMIT) eqn:E.
  - destruct (qs_last recs) as [lr|] eqn:L.
    + eexists (Some _). split; [reflexivity|].
      intros v Hv. injection Hv as <-. split; reflexivity.
    + apply qs_last_none in L. rewrite L in E. simpl in E.
      rewrite float_nil_not_gt in E; [discriminate|].
      unfold HOSService.DAILY_DRIVING_LIMIT. lra.
  - exists None. split; [|discriminate].
    simpl. rewrite with_violations_nil. reflexivity.
Qed.

Lemma check_duty_shape (l : ELDLog.t) (db : Store.DB) :
  exists o,
    HOSService._check_daily_duty_limit l db
    = (Ok o, with_violations db (opt_list o))
    /\ forall v, o = Some v ->
         HOSViolation.violation_type v = "duty_14h"
         /\ HOSViolation.eld_log v = ELDLog.id l.
Proof.
  unfold HOSService._check_daily_duty_limit. run_monad.
  destruct (qs_first _) as [fd|]; [destruct (qs_last _) as [ld|]|];
    try (exists None; split; [simpl; rewrite with_violations_nil;
                              reflexivity | discriminate]).
  destruct (DutyStatusRecord.end_time ld) as [e|];
    [|exists None; split; [simpl; rewrite with_violations_nil;
                           reflexivity | discriminate]].
  destruct (Qgtb _ _).
  - eexists (Some _). split; [reflexivity|].
    intros v Hv. injection Hv as <-. split; reflexivity.
  - exists None. split; [simpl; rewrite with_violations_nil;
                         reflexivity | discriminate].
Qed.

Lemma check_cycle_shape (l : ELDLog.t) (db : Store.DB) :
  exists o,
    HOSService._check_cycle_limit l db
    = (Ok o, with_violations db (opt_list o))
    /\ forall v, o = Some v ->
         (HOSViolation.violation_type v = "cycle_70h"
          \/ HOSViolation.violation_type v = "cycle_60h")
         /\ HOSViolation.eld_log v = ELDLog.id l.
Proof.
  unfold HOSService._check_cycle_limit. run_monad.
  destruct (String.eqb _ "70_8"); destruct (Qgtb _ _);
    try (exists None; split; [simpl; rewrite with_violations_nil;
                              reflexivity | discriminate]);
    (eexists (Some _); split; [reflexivity|];
     intros v Hv; injection Hv as <-; split; [|reflexivity]);
    [left | right]; reflexivity.
Qed.

Lemma check_break_shape (l : ELDLog.t) (db : Store.DB) :
  exists o,
    HOSService._check_break_requirement l db
    = (Ok o, with_violations db (opt_list o))
    /\ forall v, o = Some v ->
         HOSViolation.violation_type v = "rest_break"
         /\ HOSViolation.eld_log v = ELDLog.id l.
Proof.
  unfold HOSService._check_break_requirement. run_monad.
  destruct (HOSService.break_loop _ _ _) as [[c t]|].
  - eexists (Some _). split; [reflexivity|].
    intros v Hv. injection Hv as <-. split; reflexivity.
  - exists None. split; [simpl; rewrite with_violations_nil;
                         reflexivity | discriminate].
Qed.

Lemma check_rest_shape (l : ELDLog.t) (db : Store.DB) :
  exists o,
    HOSService._check_daily_rest_requirement l db
    = (Ok o, with_violations db (opt_list o))
    /\ forall v, o = Some v ->
         HOSViolation.violation_type v = "daily_rest"
         /\ HOSViolation.eld_log v = ELDLog.id l.
Proof.
  unfold HOSService._check_daily_rest_requirement. run_monad.
  destruct (Store.get_log _ _ _) as [pl|];
    [|exists None; split; [simpl; rewrite with_violations_nil;
                           reflexivity | discriminate]].
  destruct (qs_first _) as [lp|]; [destruct (qs_first _) as [fc|]|];
    try (exists None; split; [simpl; rewrite with_violations_nil;
                              reflexivity | discriminate]).
  destruct (DutyStatusRecord.end_time lp) as [e|];
    [|exists None; split; [simpl; rewrite with_violations_nil;
                           reflexivity | discriminate]].
  destruct (Qltb _ _).
  - eexists (Some _). split; [reflexivity|].
    intros v Hv. injection Hv as <-. split; reflexivity.
  - exists None. split; [simpl; rewrite with_violations_nil;
                         reflexivity | discriminate].
Qed.

(** The detector never raises; it returns the violations it stored, in the
    order of the five checks. *)
Lemma check_hos_violations_shape (l : ELDLog.t) (db : Store.DB) :
  exists o1 o2 o3 o4 o5,
    HOSService.check_hos_violations l db
    = (Ok (opt_list o1 ++ opt_list o2 ++ opt_list o3 ++ opt_list o4
           ++ opt_list o5),
       with_violations db (opt_list o1 ++ opt_list o2 ++ opt_list o3
                           ++ opt_list o4 ++ opt_list o5))
    /\ HOSService._check_daily_driving_limit l db
       = (Ok o1, with_violations db (opt_list o1))
    /\ (forall v, o2 = Some v -> HOSViolation.violation_type v = "duty_14h")
    /\ (forall v, o3 = Some v ->
          HOSViolation.violation_type v = "cycle_70h"
          \/ HOSViolation.violation_type v = "cycle_60h")
    /\ (forall v, o4 = Some v -> HOSViolation.violation_type v = "rest_break")
    /\ (forall v, o5 = Some v -> HOSViolation.violation_type v = "daily_rest").
Proof.
  destruct (check_driving_shape l db) as (o1 & E1 & T1).
  destruct (check_duty_shape l (with_violations db (opt_list o1)))
    as (o2 & E2 & T2).
  rewrite with_violations_app in E2.
  destruct (check_cycle_shape l
              (with_violations db (opt_list o1 ++ opt_list o2)))
    as (o3 & E3 & T3).
  rewrite with_violations_app in E3.
  destruct (check_break_shape l
              (with_violations db
                 ((opt_list o1 ++ opt_list o2) ++ opt_list o3)))
    as (o4 & E4 & T4).
  rewrite with_violations_app in E4.
  destruct (check_rest_shape l
              (with_violations db
                 (((opt_list o1 ++ opt_list o2) ++ opt_list o3)
                  ++ opt_list o4)))
    as (o5 & E5 & T5).
  rewrite with_violations_app in E5.
  exists o1, o2, o3, o4, o5.
  split.
  - unfold HOSService.check_hos_violations, Store.bind.
    rewrite E1, E2, E3, E4, E5. unfold Store.ret.
    rewrite <- !app_assoc.
    destruct o1, o2, o3, o4, o5; reflexivity.
  - split; [exact E1|].
    repeat split; intros v Hv;
      [apply T2 | apply T3 | apply T4 | apply T5]; exact Hv.
Qed.

(* ================================================================== *)
(** * The duty record mutator *)

Lemma Zsum_app (a b : list Z) : Spec.Zsum (a ++ b) = Spec.Zsum a + Spec.Zsum b.
Proof.
  induction a as [|x a IH]; simpl; [reflexivity|]. rewrite IH. lia.
Qed.

Lemma closed_total_cons p r rs :
  Spec.closed_total p (r :: rs)
  = Spec.closed_total p [r] + Spec.closed_total p rs.
Proof.
  unfold Spec.closed_total. simpl. rewrite app_nil_r. apply Zsum_app.
Qed.

Lemma closed_total_perm p rs rs' :
  Permutation rs rs' -> Spec.closed_total p rs = Spec.closed_total p rs'.
Proof.
  induction 1 as [|x l l' _ IH|x y l|l l' l'' _ IH1 _ IH2].
  - reflexivity.
  - rewrite (closed_total_cons p x l), (closed_total_cons p x l'), IH.
    reflexivity.
  - rewrite (closed_total_cons p y (x :: l)), (closed_total_cons p x l),
      (closed_total_cons p x (y :: l)), (closed_total_cons p y l). lia.
  - congruence.
Qed.

Lemma closed_total_duty_records_of p db l :
  Spec.closed_total p (Store.duty_records_of db l)
  = Spec.closed_total p (Spec.intervals db l).
Proof. apply closed_total_perm, order_by_perm. Qed.

Lemma closed_total_single p r :
  Spec.closed_total p [r]
  = match DutyStatusRecord.end_time r with
    | Some e =>
        if p (DutyStatusRecord.duty_status r)
        then e - DutyStatusRecord.start_time r else 0
    | None => 0
    end.
Proof.
  unfold Spec.closed_total. simpl.
  destruct (DutyStatusRecord.end_time r); [|reflexivity].
  destruct (p _); simpl; lia.
Qed.

Ltac tuple4 :=
  apply (f_equal2 pair);
  [apply (f_equal2 pair); [apply (f_equal2 pair)|]|].

(** The loop of [_update_eld_log_totals] computes the four sums. *)
Lemma add_to_totals_fold rs a b c d :
  fold_left HOSService.add_to_totals rs (a, b, c, d)
  = (a + Spec.closed_total Spec.driving rs,
     b + Spec.closed_total Spec.on_duty rs,
     c + Spec.closed_total Spec.off_duty rs,
     d + Spec.closed_total Spec.sleeper rs).
Proof.
  revert a b c d.
  induction rs as [|r rs IH]; intros a b c d.
  - unfold Spec.closed_total. simpl. tuple4; lia.
  - simpl fold_left.
    rewrite (closed_total_cons Spec.driving), (closed_total_cons Spec.on_duty),
      (closed_total_cons Spec.off_duty), (closed_total_cons Spec.sleeper).
    rewrite !closed_total_single.
    change (Spec.driving (DutyStatusRecord.duty_status r))
      with (String.eqb (DutyStatusRecord.duty_status r) "driving").
    change (Spec.on_duty (DutyStatusRecord.duty_status r))
      with (String.eqb (DutyStatusRecord.duty_status r) "driving"
            || String.eqb (DutyStatusRecord.duty_status r)
                          "on_duty_not_driving").
    change (Spec.off_duty (DutyStatusRecord.duty_status r))
      with (String.eqb (DutyStatusRecord.duty_status r) "off_duty").
    change (Spec.sleeper (DutyStatusRecord.duty_status r))
      with (String.eqb (DutyStatusRecord.duty_status r) "sleeper_berth").
    unfold HOSService.has_status.
    destruct (DutyStatusRecord.end_time r) as [e|].
    + destruct (String.eqb (DutyStatusRecord.duty_status r) "driving") eqn:E1.
      { apply String.eqb_eq in E1. rewrite E1. simpl. rewrite IH.
        tuple4; lia. }
      destruct (String.eqb (DutyStatusRecord.duty_status r)
                           "on_duty_not_driving") eqn:E2.
      { apply String.eqb_eq in E2. rewrite E2. simpl. rewrite IH.
        tuple4; lia. }
      destruct (String.eqb (DutyStatusRecord.duty_status r) "off_duty") eqn:E3.
      { apply String.eqb_eq in E3. rewrite E3. simpl. rewrite IH.
        tuple4; lia. }
      destruct (String.eqb (DutyStatusRecord.duty_status r)
                           "sleeper_berth") eqn:E4.
      { apply String.eqb_eq in E4. simpl. rewrite IH.
        tuple4; lia. }
      simpl. rewrite IH. tuple4; lia.
    + rewrite IH. tuple4; lia.
Qed.

Lemma save_log_stored (l : ELDLog.t) (db : Store.DB) :
  Spec.stored (snd (Store.save_log l db)) l.
Proof.
  unfold Store.save_log, Store.modify, Spec.stored. simpl.
  destruct (existsb _ (Store.eld_logs db)) eqn:E.
  - split.
    + apply existsb_exists in E. destruct E as (x & Hx & Hs).
      apply in_map_iff. exists x. rewrite Hs. auto.
    + intros row Hrow Hid. apply in_map_iff in Hrow.
      destruct Hrow as (x & Hx & _).
      destruct (ELDLog.id x =? ELDLog.id l) eqn:S; [congruence|].
      subst row. lia.
  - split.
    + apply in_or_app. right. now left.
    + intros row Hrow Hid. apply in_app_or in Hrow.
      destruct Hrow as [Hrow|[<-|[]]]; [|reflexivity].
      assert (F : existsb (fun x => ELDLog.id x =? ELDLog.id l)
                          (Store.eld_logs db) = true).
      { apply existsb_exists. exists row. split; [assumption | lia]. }
      congruence.
Qed.

Lemma stored_with_violations db vs l :
  Spec.stored db l -> Spec.stored (with_violations db vs) l.
Proof. exact (fun H => H). Qed.

(** What one call of the mutator does: it never raises, closes the open
    record, adds the new open row, and writes through the four totals. *)
Lemma create_duty_status_record_run db log status start loc lat lng notes odo :
  let db1 := Mutator.close_open db log start in
  let record := Mutator.new_record db log status start loc lat lng notes odo in
  exists log' db',
    HOSService.create_duty_status_record log status start loc lat lng
      notes odo db = (Ok (record, log'), db')
    /\ Store.duty_records db' = Store.duty_records db1 ++ [record]
    /\ ELDLog.id log' = ELDLog.id log
    /\ Spec.stored db' log'
    /\ Spec.cache_consistent db' log'.
Proof.
  intros db1 record.
  unfold HOSService.create_duty_status_record.
  unfold Store.bind at 1. unfold Store.gets at 1.
  unfold Store.bind at 1.
  assert (E1 : (match qs_last
                        (filter
                           (fun r => match DutyStatusRecord.end_time r with
                                     | Some _ => false
                                     | None => true
                                     end) (Store.duty_records_of db log)) with
                | Some p =>
                    Store.save_record
                      (DutyStatusRecord.with_end_time p (Some start))
                | None => Store.ret tt
                end) db = (Ok tt, db1)).
  { unfold db1, Mutator.close_open.
    change (fun r => match DutyStatusRecord.end_time r with
                     | Some _ => false
                     | None => true
                     end) with Spec.is_open.
    destruct (qs_last _); reflexivity. }
  rewrite E1. clear E1.
  unfold Store.bind at 1.
  change (Store.create_record log status start None loc lat lng odo notes
            false db1) with (Ok record, with_records db1 [record]).
  cbv beta iota.
  set (db2 := with_records db1 [record]).
  unfold Store.bind at 1.
  unfold HOSService._update_eld_log_totals.
  unfold Store.bind at 1. unfold Store.gets at 1.
  pose proof (add_to_totals_fold (Store.duty_records_of db2 log) 0 0 0 0)
    as F.
  rewrite !closed_total_duty_records_of, !Z.add_0_l in F.
  destruct (fold_left HOSService.add_to_totals _ _) as [[[td tu] tf] ts].
  injection F as -> -> -> ->.
  set (log1 := ELDLog.with_totals log _ _ _ _).
  unfold Store.bind at 1.
  pose proof (save_log_stored log1 db2) as S3.
  destruct (Store.save_log log1 db2) as [u db3] eqn:E3.
  assert (R3 : Store.duty_records db3 = Store.duty_records db2).
  { unfold Store.save_log, Store.modify in E3. injection E3 as _ <-.
    reflexivity. }
  assert (U3 : u = Ok tt).
  { unfold Store.save_log, Store.modify in E3. injection E3 as <- _.
    reflexivity. }
  subst u. simpl in S3. unfold Store.ret at 1.
  unfold Store.bind at 1.
  destruct (check_hos_violations_shape log1 db3)
    as (o1 & o2 & o3 & o4 & o5 & EV & _).
  rewrite EV. set (vs := opt_list o1 ++ _) in *.
  assert (CC : forall dbx logx,
             Store.duty_records dbx = Store.duty_records db2 ->
             ELDLog.id logx = ELDLog.id log ->
             ELDLog.total_drive_time logx = ELDLog.total_drive_time log1 ->
             ELDLog.total_duty_time logx = ELDLog.total_duty_time log1 ->
             ELDLog.total_off_duty_time logx
             = ELDLog.total_off_duty_time log1 ->
             ELDLog.total_sleeper_time logx
             = ELDLog.total_sleeper_time log1 ->
             Spec.cache_consistent dbx logx).
  { intros dbx logx Hr Hi H1 H2 H3 H4. unfold Spec.cache_consistent.
    assert (EI : Spec.intervals dbx logx = Spec.intervals db2 log).
    { unfold Spec.intervals. rewrite Hr, Hi. reflexivity. }
    cbv zeta. rewrite EI, H1, H2, H3, H4. repeat split; reflexivity. }
  unfold Store.bind at 1.
  destruct vs as [|v vs'] eqn:EVS.
  - unfold Store.ret. exists log1, (with_violations db3 []).
    split; [reflexivity|]. split; [exact R3|]. split; [reflexivity|].
    split; [exact S3|]. apply CC; auto.
  - set (log2 := ELDLog.with_flags log1 _ _).
    unfold Store.bind at 1.
    pose proof (save_log_stored log2 (with_violations db3 (v :: vs'))) as S4.
    destruct (Store.save_log log2 (with_violations db3 (v :: vs')))
      as [u db4] eqn:E4.
    unfold Store.save_log, Store.modify in E4.
    injection E4 as <- <-. unfold Store.ret.
    eexists log2, _. split; [reflexivity|].
    split; [exact R3|]. split; [reflexivity|].
    split; [exact S4|]. apply CC; auto.
Qed.

Lemma filter_perm {A} (f : A -> bool) (l l' : list A) :
  Permutation l l' -> Permutation (filter f l) (filter f l').
Proof.
  induction 1 as [|x l l' _ IH|x y l|l l' l'' _ IH1 _ IH2]; simpl.
  - apply perm_nil.
  - destruct (f x); [apply perm_skip|]; exact IH.
  - destruct (f x), (f y);
      try apply Permutation_refl; apply perm_swap.
  - eapply perm_trans; eassumption.
Qed.

Lemma filter_and {A} (f g : A -> bool) (l : list A) :
  filter f (filter g l) = filter (fun x => g x && f x) l.
Proof.
  induction l as [|x l IH]; simpl; [reflexivity|].
  destruct (g x); simpl; [destruct (f x)|]; rewrite IH; reflexivity.
Qed.

Lemma filter_map_shrink {A} (q : A -> bool) (f : A -> A) (l : list A) :
  (forall x, f x = x \/ q (f x) = false) ->
  (List.length (filter q (map f l)) <= List.length (filter q l))%nat.
Proof.
  intro H. induction l as [|x l IH]; simpl; [lia|].
  destruct (H x) as [E|E].
  - rewrite E. destruct (q x); simpl; lia.
  - rewrite E. destruct (q x); simpl; lia.
Qed.

Lemma filter_none {A} (q : A -> bool) (l : list A) :
  (forall x, In x l -> q x = false) -> filter q l = [].
Proof.
  intro H. induction l as [|x l IH]; simpl; [reflexivity|].
  rewrite (H x (or_introl eq_refl)). apply IH.
  intros y Hy. apply H. now right.
Qed.

Lemma open_of_sorted_perm db log :
  Permutation (filter Spec.is_open (Store.duty_records_of db log))
              (Spec.open_intervals db log).
Proof. apply filter_perm, order_by_perm. Qed.

Lemma perm_short {A} (l l' : list A) :
  Permutation l l' -> (List.length l' <= 1)%nat -> l = l'.
Proof.
  intros P H. destruct l' as [|x [|y t]]; simpl in H; try lia.
  - apply Permutation_nil, Permutation_sym, P.
  - apply Permutation_length_1_inv, Permutation_sym, P.
Qed.

(** The first step of the mutator leaves the log without open record. *)
Lemma close_open_closes db log start :
  Spec.at_most_one_open db log ->
  Spec.open_intervals (Mutator.close_open db log start) log = []
  /\ forall p, In p (Spec.open_intervals db log) ->
       In (DutyStatusRecord.with_end_time p (Some start))
          (Spec.intervals (Mutator.close_open db log start) log).
Proof.
  intro H. unfold Mutator.close_open.
  rewrite (perm_short _ _ (open_of_sorted_perm db log) H).
  unfold Spec.at_most_one_open in H.
  destruct (Spec.open_intervals db log) as [|p [|q t]] eqn:E;
    simpl in H; try lia.
  - simpl. split; [exact E | intros p []].
  - unfold qs_last. simpl.
    assert (Hp : In p (Spec.open_intervals db log)) by (rewrite E; now left).
    unfold Spec.open_intervals, Spec.intervals in Hp.
    apply filter_In in Hp. destruct Hp as [Hp Hopen].
    apply filter_In in Hp. destruct Hp as [Hp Hlog].
    assert (Hex : existsb
                    (fun x => DutyStatusRecord.id x =? DutyStatusRecord.id p)
                    (Store.duty_records db) = true).
    { apply existsb_exists. exists p. split; [assumption | lia]. }
    unfold Spec.open_intervals at 1, Spec.intervals. simpl.
    rewrite Hex. split.
    + rewrite filter_and. apply filter_none.
      intros y Hy. apply in_map_iff in Hy. destruct Hy as (x & <- & Hx).
      destruct (DutyStatusRecord.id x =? DutyStatusRecord.id p) eqn:I.
      * simpl. apply andb_false_r.
      * destruct (DutyStatusRecord.eld_log x =? ELDLog.id log) eqn:L;
          [|reflexivity].
        destruct (Spec.is_open x) eqn:O; [|reflexivity].
        assert (Hx' : In x (Spec.open_intervals db log)).
        { unfold Spec.open_intervals, Spec.intervals.
          apply filter_In. split; [|exact O].
          apply filter_In. split; assumption. }
        rewrite E in Hx'. destruct Hx' as [->|[]]. lia.
    + intros p0 [<-|[]]. apply filter_In. split.
      * apply in_map_iff. exists p. rewrite Z.eqb_refl. auto.
      * exact Hlog.
Qed.

(** The first step of the mutator opens nothing in any log. *)
Lemma close_open_shrinks db log start l2 :
  (List.length (Spec.open_intervals (Mutator.close_open db log start) l2)
   <= List.length (Spec.open_intervals db l2))%nat.
Proof.
  unfold Mutator.close_open.
  destruct (qs_last _) as [p|]; [|lia].
  unfold Spec.open_intervals, Spec.intervals. simpl.
  destruct (existsb _ (Store.duty_records db)).
  - rewrite !filter_and. apply filter_map_shrink.
    intro x. destruct (DutyStatusRecord.id x =? DutyStatusRecord.id p).
    + right. simpl. apply andb_false_r.
    + now left.
  - rewrite !filter_app. simpl.
    destruct (_ =? ELDLog.id l2); simpl; rewrite app_nil_r; lia.
Qed.

(* ================================================================== *)
(** * The cycle window calculator *)

Lemma is_duty_on_duty (r : DutyStatusRecord.t) :
  HOSService.is_duty r = Spec.on_duty (DutyStatusRecord.duty_status r).
Proof.
  unfold HOSService.is_duty, Spec.on_duty. simpl.
  rewrite orb_false_r. reflexivity.
Qed.

Lemma Qsum_flat_map_perm {A} (g : A -> list Q) (l l' : list A) :
  Permutation l l' -> (Qsum (flat_map g l) == Qsum (flat_map g l'))%Q.
Proof. intro P. apply Qsum_perm, Permutation_flat_map, P. Qed.



Lemma Qsum_single (x : Q) : (Qsum [x] == x)%Q.
Proof. unfold Qsum. simpl. ring. Qed.

(** The inner loop adds the closed duty hours of the rows it visits. *)
Lemma inner_loop_sum (rs : list DutyStatusRecord.t) (total : Q) :
  (fold_left HOSService.add_record_hours (filter HOSService.is_duty rs) total
   == total + Qsum (flat_map Spec.duty_contribution rs))%Q.
Proof.
  revert total. induction rs as [|r rs IH]; intro total.
  - simpl. change (Qsum []) with 0%Q. ring.
  - simpl filter. simpl flat_map. rewrite Qsum_app.
    unfold Spec.duty_contribution at 1.
    rewrite <- is_duty_on_duty.
    destruct (HOSService.is_duty r).
    + simpl fold_left. rewrite IH. unfold HOSService.add_record_hours.
      destruct (DutyStatusRecord.end_time r).
      * rewrite Qsum_single. unfold Time.hours. ring.
      * change (Qsum []) with 0%Q. ring.
    + rewrite IH. destruct (DutyStatusRecord.end_time r);
        change (Qsum []) with 0%Q; ring.
Qed.

Lemma outer_loop_sum (db : Store.DB) (logs : list ELDLog.t) (total : Q) :
  (fold_left
     (fun total_hours log =>
        fold_left HOSService.add_record_hours
          (filter HOSService.is_duty (Store.duty_records_of db log))
          total_hours) logs total
   == total + Qsum (map (Spec.duty_hours db) logs))%Q.
Proof.
  revert total. induction logs as [|l logs IH]; intro total.
  - simpl. change (Qsum []) with 0%Q. ring.
  - simpl. rewrite IH, inner_loop_sum, Qsum_cons.
    unfold Spec.duty_hours at 2.
    rewrite (Qsum_flat_map_perm _ _ _ (order_by_perm Store.start_leb
                                         (Spec.intervals db l))).
    ring.
Qed.

Lemma get_current_cycle_hours_sum db d as_of :
  (HOSService.get_current_cycle_hours db d (Some as_of)
   == Spec.cycle_hours_used db d as_of)%Q.
Proof.
  unfold HOSService.get_current_cycle_hours.
  rewrite outer_loop_sum. unfold Spec.cycle_hours_used, Store.filter_logs.
  rewrite Qplus_0_l.
  apply Qsum_perm, Permutation_map.
  eapply perm_trans; [apply order_by_perm|].
  unfold Spec.in_window, Spec.window, Time.days.
  rewrite (filter_ext _
             (fun l => Store.same_driver d l
                       && ((as_of
                            - ((if String.eqb (Driver.cycle_type d) "70_8"
                                then 8 else 7) - 1)
                            <=? ELDLog.log_date l)
                           && (ELDLog.log_date l <=? as_of)))).
  - apply Permutation_refl.
  - intro l. rewrite andb_assoc. reflexivity.
Qed.



(* ================================================================== *)
(** * The totals of the detector as the floats add up *)

Lemma Zsum_perm (a b : list Z) :
  Permutation a b -> Spec.Zsum a = Spec.Zsum b.
Proof.
  unfold Spec.Zsum. induction 1; cbn [fold_right]; lia.
Qed.

Lemma Zsum_cons (x : Z) (l : list Z) : Spec.Zsum (x :: l) = x + Spec.Zsum l.
Proof. reflexivity. Qed.

Lemma has_status_driving (r : DutyStatusRecord.t) :
  HOSService.has_status "driving" r
  = Spec.driving (DutyStatusRecord.duty_status r).
Proof. reflexivity. Qed.

(** A generator over the records with an end is a map over the closed
    records. *)
Lemma closed_terms {B} (f : Time.timedelta -> B)
    (rs : list DutyStatusRecord.t) :
  flat_map
    (fun record =>
       match DutyStatusRecord.end_time record with
       | Some e => [f (e - DutyStatusRecord.start_time record)]
       | None => []
       end) rs
  = map (fun r => f (DutyStatusRecord.duration r))
        (filter Spec.is_closed rs).
Proof.
  induction rs as [|r rs IH]; [reflexivity|].
  cbn [flat_map filter]. rewrite IH.
  unfold Spec.is_closed, Spec.is_open, DutyStatusRecord.duration.
  destruct (DutyStatusRecord.end_time r) as [e|] eqn:E; cbn [negb app map].
  - rewrite E. reflexivity.
  - reflexivity.
Qed.

Lemma closed_total_up_blocks (unit : Z) (p : string -> bool)
    (rs : list DutyStatusRecord.t) :
  Timeline.closed_total_up unit p rs
  = Spec.Zsum
      (map (fun r => Timeline.steps_up unit (DutyStatusRecord.duration r))
           (filter Spec.is_closed
              (filter (fun r => p (DutyStatusRecord.duty_status r)) rs))).
Proof.
  unfold Timeline.closed_total_up.
  induction rs as [|r rs IH]; [reflexivity|].
  cbn [flat_map filter]. rewrite Zsum_app, IH. clear IH.
  destruct (p (DutyStatusRecord.duty_status r)); cbn [filter].
  - destruct (Spec.is_closed r) eqn:C;
      unfold Spec.is_closed, Spec.is_open in C;
      destruct (DutyStatusRecord.end_time r) as [e|] eqn:E;
      try discriminate; [|reflexivity].
    cbn [map].
    replace (DutyStatusRecord.duration r)
      with (e - DutyStatusRecord.start_time r)
      by (unfold DutyStatusRecord.duration; rewrite E; reflexivity).
    rewrite !Zsum_cons. cbn [Spec.Zsum fold_right]. lia.
  - destruct (DutyStatusRecord.end_time r); reflexivity.
Qed.

Lemma closed_total_up_perm unit p rs rs' :
  Permutation rs rs' ->
  Timeline.closed_total_up unit p rs = Timeline.closed_total_up unit p rs'.
Proof.
  intro P. unfold Timeline.closed_total_up.
  apply Zsum_perm, Permutation_flat_map, P.
Qed.

(** The rounded-up total of the log is that of its blocks in start
    order. *)
Lemma driving_up_blocks unit db l :
  Timeline.closed_total_up unit Spec.driving (Spec.intervals db l)
  = Spec.Zsum
      (map (fun r => Timeline.steps_up unit (DutyStatusRecord.duration r))
           (Timeline.driving_blocks db l)).
Proof.
  unfold Timeline.driving_blocks, Timeline.duty_blocks.
  rewrite <- closed_total_up_blocks.
  apply closed_total_up_perm, Permutation_sym, order_by_perm.
Qed.

Lemma duty_up_blocks unit db l :
  Timeline.closed_total_up unit Spec.on_duty (Spec.intervals db l)
  = Spec.Zsum
      (map (fun r => Timeline.steps_up unit (DutyStatusRecord.duration r))
           (Timeline.duty_blocks db l)).
Proof.
  unfold Timeline.driving_blocks, Timeline.duty_blocks.
  rewrite <- closed_total_up_blocks.
  apply closed_total_up_perm, Permutation_sym, order_by_perm.
Qed.

Lemma closed_total_blocks (p : string -> bool)
    (rs : list DutyStatusRecord.t) :
  Spec.closed_total p rs
  = Spec.Zsum
      (map DutyStatusRecord.duration
           (filter Spec.is_closed
              (filter (fun r => p (DutyStatusRecord.duty_status r)) rs))).
Proof.
  unfold Spec.closed_total.
  induction rs as [|r rs IH]; [reflexivity|].
  cbn [flat_map filter]. rewrite Zsum_app, IH. clear IH.
  destruct (p (DutyStatusRecord.duty_status r)); cbn [filter].
  - destruct (Spec.is_closed r) eqn:C;
      unfold Spec.is_closed, Spec.is_open in C;
      destruct (DutyStatusRecord.end_time r) as [e|] eqn:E;
      try discriminate; [|reflexivity].
    cbn [map].
    replace (DutyStatusRecord.duration r)
      with (e - DutyStatusRecord.start_time r)
      by (unfold DutyStatusRecord.duration; rewrite E; reflexivity).
    rewrite !Zsum_cons. cbn [Spec.Zsum fold_right]. lia.
  - destruct (DutyStatusRecord.end_time r); reflexivity.
Qed.

Lemma driving_total_blocks db l :
  Spec.closed_total Spec.driving (Spec.intervals db l)
  = Spec.Zsum (map DutyStatusRecord.duration (Timeline.driving_blocks db l)).
Proof.
  unfold Timeline.driving_blocks.
  rewrite <- closed_total_blocks. symmetry.
  apply closed_total_duty_records_of.
Qed.


(** ** Terms and their grid values *)

(** Terms related one by one to grid values, given the relation for
    every value below the bound on their sum. *)
Lemma terms_Forall2 {A} (R : Q -> Z -> Prop) (f : A -> Q) (g : A -> Z)
    (bound : Z) (rs : list A) :
  (forall r, In r rs -> 0 <= g r) ->
  (forall r, In r rs -> g r < bound -> R (f r) (g r)) ->
  Spec.Zsum (map g rs) < bound ->
  Forall2 (fun x c => R x c /\ 0 <= c) (map f rs) (map g rs).
Proof.
  induction rs as [|r rs IH]; intros N H B; [constructor|].
  cbn [map] in *. rewrite Zsum_cons in B.
  assert (N0 : 0 <= g r) by (apply N; left; reflexivity).
  assert (NS : 0 <= Spec.Zsum (map g rs)).
  { apply Zsum_nonneg, Forall_forall. intros c Hc.
    apply in_map_iff in Hc. destruct Hc as (r' & <- & I').
    apply N. right. exact I'. }
  constructor.
  - split; [apply H; [left; reflexivity | lia] | exact N0].
  - apply IH.
    + intros r' I'. apply N. right. exact I'.
    + intros r' I' L. apply H; [right; exact I' | exact L].
    + lia.
Qed.

Lemma seconds_term_le (d : Time.timedelta) :
  Timeline.steps_up Timeline.us_per_second d < 2 ^ 53 ->
  (Float64.total_seconds d
   <= inject_Z (Timeline.steps_up Timeline.us_per_second d))%Q.
Proof.
  intro B. set (c := Timeline.steps_up Timeline.us_per_second d) in *.
  pose proof (steps_up_nonneg Timeline.us_per_second d) as N. fold c in N.
  rewrite <- (total_seconds_whole c) by lia.
  apply total_seconds_mono.
  apply (steps_up_covers Timeline.us_per_second d). reflexivity.
Qed.

Lemma hours_term_le (d : Time.timedelta) :
  Timeline.steps_up Timeline.us_per_quarter d < 2 ^ 43 ->
  (Float64.hours d
   <= inject_Z (Timeline.steps_up Timeline.us_per_quarter d) / 4)%Q.
Proof.
  intro B. set (c := Timeline.steps_up Timeline.us_per_quarter d) in *.
  pose proof (steps_up_nonneg Timeline.us_per_quarter d) as N. fold c in N.
  rewrite <- (hours_quarters c) by lia.
  apply hours_mono.
  apply (steps_up_covers Timeline.us_per_quarter d). reflexivity.
Qed.

Lemma on_grid_steps (unit : Z) (r : DutyStatusRecord.t) :
  0 < unit -> Timeline.on_grid unit r ->
  DutyStatusRecord.duration r
  = Timeline.steps_up unit (DutyStatusRecord.duration r) * unit.
Proof.
  intros U (k & K & E). rewrite E, steps_up_whole by assumption.
  reflexivity.
Qed.

Lemma seconds_term_exact (r : DutyStatusRecord.t) :
  Timeline.on_grid Timeline.us_per_second r ->
  Timeline.steps_up Timeline.us_per_second (DutyStatusRecord.duration r)
  < 2 ^ 53 ->
  (Float64.total_seconds (DutyStatusRecord.duration r)
   == inject_Z (Timeline.steps_up Timeline.us_per_second
                  (DutyStatusRecord.duration r)))%Q.
Proof.
  intros G B.
  pose proof (steps_up_nonneg Timeline.us_per_second
                (DutyStatusRecord.duration r)) as N.
  rewrite (on_grid_steps Timeline.us_per_second r ltac:(reflexivity) G) at 1.
  apply total_seconds_whole. lia.
Qed.

Lemma hours_term_exact (r : DutyStatusRecord.t) :
  Timeline.on_grid Timeline.us_per_quarter r ->
  Timeline.steps_up Timeline.us_per_quarter (DutyStatusRecord.duration r)
  < 2 ^ 43 ->
  (Float64.hours (DutyStatusRecord.duration r)
   == inject_Z (Timeline.steps_up Timeline.us_per_quarter
                  (DutyStatusRecord.duration r)) / 4)%Q.
Proof.
  intros G B.
  pose proof (steps_up_nonneg Timeline.us_per_quarter
                (DutyStatusRecord.duration r)) as N.
  rewrite (on_grid_steps Timeline.us_per_quarter r ltac:(reflexivity) G) at 1.
  apply hours_quarters. lia.
Qed.

(** ** The day's driving *)

(** The total that [_check_daily_driving_limit] compares with the
    limit. *)
Lemma driving_hours_float_code (db : Store.DB) (l : ELDLog.t) :
  Float64.div
    (Float64.sum
       (flat_map
          (fun record =>
             match DutyStatusRecord.end_time record with
             | Some e =>
                 [Float64.total_seconds
                    (e - DutyStatusRecord.start_time record)]
             | None => []
             end)
          (filter (HOSService.has_status "driving")
                  (Store.duty_records_of db l))))
    3600
  = Timeline.driving_hours_float db l.
Proof. rewrite closed_terms. reflexivity. Qed.

(** The total that [calculate_available_hours] reports. *)
Lemma driving_hours_added_code (db : Store.DB) (l : ELDLog.t) :
  Float64.sum
    (flat_map
       (fun record =>
          match DutyStatusRecord.end_time record with
          | Some e =>
              [Float64.div
                 (Float64.total_seconds
                    (e - DutyStatusRecord.start_time record))
                 3600]
          | None => []
          end)
       (filter (HOSService.has_status "driving")
               (Store.duty_records_of db l)))
  = Timeline.driving_hours_added db l.
Proof.
  rewrite (closed_terms (fun d => Float64.div (Float64.total_seconds d) 3600)).
  reflexivity.
Qed.

(** The float seconds stay below the seconds rounded up. *)
Lemma driving_seconds_le (db : Store.DB) (l : ELDLog.t) :
  Timeline.driving_seconds_up db l < 2 ^ 53 ->
  (Float64.sum
     (map (fun r => Float64.total_seconds (DutyStatusRecord.duration r))
          (Timeline.driving_blocks db l))
   <= inject_Z (Timeline.driving_seconds_up db l))%Q.
Proof.
  unfold Timeline.driving_seconds_up. rewrite driving_up_blocks. intro B.
  apply sum_le_int; [|exact B].
  apply (terms_Forall2 (fun x c => (x <= inject_Z c)%Q) _ _ (2 ^ 53));
    [| |exact B].
  - intros r _. apply steps_up_nonneg.
  - intros r _ L. apply seconds_term_le, L.
Qed.

(** On whole seconds the float seconds are the seconds. *)
Lemma driving_seconds_exact (db : Store.DB) (l : ELDLog.t) :
  Timeline.whole_seconds db l ->
  (Float64.sum
     (map (fun r => Float64.total_seconds (DutyStatusRecord.duration r))
          (Timeline.driving_blocks db l))
   == inject_Z (Timeline.driving_seconds_up db l))%Q.
Proof.
  intros [G B]. unfold Timeline.driving_seconds_up in *.
  rewrite driving_up_blocks in *.
  apply sum_exact_int; [|exact B].
  apply (terms_Forall2 (fun x c => (x == inject_Z c)%Q) _ _ (2 ^ 53));
    [| |exact B].
  - intros r _. apply steps_up_nonneg.
  - intros r I L. apply seconds_term_exact; [|exact L].
    rewrite Forall_forall in G. apply G, I.
Qed.

(** On whole seconds the seconds rounded up are the seconds. *)
Lemma whole_seconds_total (db : Store.DB) (l : ELDLog.t) :
  Timeline.whole_seconds db l ->
  Spec.closed_total Spec.driving (Spec.intervals db l)
  = Timeline.driving_seconds_up db l * Timeline.us_per_second.
Proof.
  intros [G _]. unfold Timeline.driving_seconds_up.
  rewrite driving_up_blocks, driving_total_blocks.
  induction (Timeline.driving_blocks db l) as [|r rs IH]; [reflexivity|].
  inversion G as [|? ? G1 G2]; subst.
  cbn [map]. rewrite !Zsum_cons, (IH G2).
  rewrite (on_grid_steps Timeline.us_per_second r ltac:(reflexivity) G1) at 1. lia.
Qed.

Lemma driving_hours_whole_seconds (db : Store.DB) (l : ELDLog.t) :
  Timeline.whole_seconds db l ->
  (Spec.driving_hours db l
   == inject_Z (Timeline.driving_seconds_up db l) / 3600)%Q.
Proof.
  intro W. unfold Spec.driving_hours. rewrite (whole_seconds_total _ _ W).
  unfold Time.hours, Time.total_seconds, Timeline.us_per_second.
  rewrite inject_Z_mult. field.
Qed.

(** On whole seconds the float total is the exact total rounded once. *)
Lemma driving_hours_float_whole (db : Store.DB) (l : ELDLog.t) :
  Timeline.whole_seconds db l ->
  (Timeline.driving_hours_float db l
   == Float64.round (Spec.driving_hours db l))%Q.
Proof.
  intro W. unfold Timeline.driving_hours_float, Float64.div.
  apply round_comp.
  rewrite (driving_seconds_exact _ _ W), (driving_hours_whole_seconds _ _ W).
  reflexivity.
Qed.

(** Rounding keeps a whole number of seconds on its side of eleven
    hours. *)
Lemma round_seconds_over_11 (k : Z) :
  (11 < Float64.round (inject_Z k / 3600))%Q <-> (11 < inject_Z k / 3600)%Q.
Proof.
  assert (E11 : (Float64.round 11 == 11)%Q) by (apply (round_int 11); lia).
  split; intro H.
  - apply Qnot_le_lt. intro L. apply round_mono in L. lra.
  - assert (K : 39600 < k).
    { apply Z.lt_nge. intro L.
      assert (inject_Z k <= inject_Z 39600)%Q by (rewrite <- Zle_Qle; lia).
      change (inject_Z 39600) with 39600%Q in H0. lra_div. }
    set (m := (inject_Z (11 * 2 ^ 40 + 1) * 2 ^ (-40))%Q).
    assert (M : (Float64.round m == m)%Q)
      by (apply (round_exact _ (11 * 2 ^ 40 + 1) (-40)); [lia | reflexivity]).
    assert (L : (m <= inject_Z k / 3600)%Q).
    { assert (inject_Z 39601 <= inject_Z k)%Q by (rewrite <- Zle_Qle; lia).
      change (inject_Z 39601) with 39601%Q in H0.
      assert (m <= 39601 * (1 # 3600))%Q by (vm_compute; discriminate).
      clearbody m. lra_div. }
    apply round_mono in L. rewrite M in L.
    assert (11 < m)%Q by (vm_compute; reflexivity).
    lra.
Qed.

(** Eleven hours of whole seconds rounded up keep the float total at
    eleven. *)
Lemma driving_hours_float_le_11 (db : Store.DB) (l : ELDLog.t) :
  Timeline.driving_seconds_up db l <= 39600 ->
  (Timeline.driving_hours_float db l <= 11)%Q.
Proof.
  intro H. unfold Timeline.driving_hours_float.
  assert (E11 : (Float64.div 39600 3600 == 11)%Q).
  { unfold Float64.div.
    transitivity (Float64.round 11);
      [apply round_comp; reflexivity | apply (round_int 11); lia]. }
  rewrite <- E11. apply div_mono; [reflexivity|].
  pose proof (driving_seconds_le db l ltac:(lia)) as L.
  assert (inject_Z (Timeline.driving_seconds_up db l) <= inject_Z 39600)%Q
    by (rewrite <- Zle_Qle; exact H).
  change (inject_Z 39600) with 39600%Q in H0. lra.
Qed.

(** ** The cycle window *)

Lemma inner_loop_float (rs : list DutyStatusRecord.t) (total : Q) :
  fold_left HOSService.add_record_hours_float
    (filter HOSService.is_duty rs) total
  = fold_left Float64.add
      (map (fun r => Float64.hours (DutyStatusRecord.duration r))
           (filter Spec.is_closed
              (filter (fun r => Spec.on_duty (DutyStatusRecord.duty_status r))
                      rs)))
      total.
Proof.
  rewrite (filter_ext _ _ is_duty_on_duty).
  generalize (filter (fun r => Spec.on_duty (DutyStatusRecord.duty_status r))
                     rs).
  intro ds. revert total.
  induction ds as [|r ds IH]; intro total; [reflexivity|].
  cbn [fold_left filter]. rewrite IH.
  unfold HOSService.add_record_hours_float, Spec.is_closed, Spec.is_open,
    DutyStatusRecord.duration.
  destruct (DutyStatusRecord.end_time r) as [e|] eqn:E; cbn [negb];
    [|reflexivity].
  cbn [map fold_left]. rewrite E. reflexivity.
Qed.

(** The float that [get_current_cycle_hours] returns is the float sum
    over the window. *)
Lemma cycle_hours_float_code (db : Store.DB) (d : Driver.t)
    (as_of : Time.date) :
  HOSService.get_current_cycle_hours_float db d (Some as_of)
  = Timeline.cycle_hours_float db d as_of.
Proof.
  unfold HOSService.get_current_cycle_hours_float,
    Timeline.cycle_hours_float, Float64.sum.
  change (as_of - Time.days
            ((if String.eqb (Driver.cycle_type d) "70_8" then 8 else 7) - 1))
    with (as_of - (Spec.window d - 1)).
  generalize (Store.filter_logs db d (as_of - (Spec.window d - 1)) as_of).
  intro logs. generalize 0%Q.
  induction logs as [|l logs IH]; intro total; [reflexivity|].
  cbn [fold_left flat_map]. rewrite fold_left_app, IH, inner_loop_float.
  reflexivity.
Qed.

Lemma filter_logs_window (db : Store.DB) (d : Driver.t) (as_of : Time.date) :
  Permutation
    (Store.filter_logs db d (as_of - (Spec.window d - 1)) as_of)
    (filter (fun l => Store.same_driver d l
                      && Spec.in_window d as_of (ELDLog.log_date l))
            (Store.eld_logs db)).
Proof.
  unfold Store.filter_logs.
  eapply perm_trans; [apply order_by_perm|].
  rewrite (filter_ext _
             (fun l => Store.same_driver d l
                       && Spec.in_window d as_of (ELDLog.log_date l))).
  - apply Permutation_refl.
  - intro l. unfold Spec.in_window. rewrite andb_assoc. reflexivity.
Qed.

(** The quarter hours of the window, each interval rounded up, log by
    log in the order of the loop. *)
Lemma cycle_quarters_blocks (db : Store.DB) (d : Driver.t)
    (as_of : Time.date) :
  Timeline.cycle_quarters_up db d as_of
  = Spec.Zsum
      (flat_map
         (fun l =>
            map (fun r => Timeline.steps_up Timeline.us_per_quarter
                            (DutyStatusRecord.duration r))
                (Timeline.duty_blocks db l))
         (Store.filter_logs db d (as_of - (Spec.window d - 1)) as_of)).
Proof.
  unfold Timeline.cycle_quarters_up.
  rewrite <- (Zsum_perm _ _
                (Permutation_map _ (filter_logs_window db d as_of))).
  induction (Store.filter_logs db d _ as_of) as [|l logs IH];
    [reflexivity|].
  cbn [map flat_map]. rewrite Zsum_cons, Zsum_app, IH.
  unfold Timeline.duty_quarters_up at 1. rewrite duty_up_blocks.
  reflexivity.
Qed.

Lemma flat_map_map {A B C} (g : A -> list B) (f : B -> C) (l : list A) :
  flat_map (fun a => map f (g a)) l = map f (flat_map g l).
Proof.
  induction l as [|a l IH]; [reflexivity|].
  cbn [flat_map]. rewrite map_app, IH. reflexivity.
Qed.

(** The float hours of the window stay below the quarter hours rounded
    up. *)
Lemma cycle_hours_float_le (db : Store.DB) (d : Driver.t)
    (as_of : Time.date) :
  Timeline.cycle_quarters_up db d as_of < 2 ^ 43 ->
  (Timeline.cycle_hours_float db d as_of
   <= inject_Z (Timeline.cycle_quarters_up db d as_of) / 4)%Q.
Proof.
  rewrite cycle_quarters_blocks. unfold Timeline.cycle_hours_float.
  rewrite !flat_map_map. intro B.
  apply sum_le_quarters; [|lia].
  apply (terms_Forall2 (fun x c => (x <= inject_Z c / 4)%Q) _ _ (2 ^ 43));
    [| |exact B].
  - intros r _. apply steps_up_nonneg.
  - intros r _ L. apply hours_term_le, L.
Qed.

(** ** Intervals on the grid *)

Lemma grid_total (unit : Z) (rs : list DutyStatusRecord.t) :
  0 < unit -> Forall (Timeline.on_grid unit) rs ->
  Spec.Zsum (map DutyStatusRecord.duration rs)
  = Spec.Zsum
      (map (fun r => Timeline.steps_up unit (DutyStatusRecord.duration r))
           rs) * unit.
Proof.
  intros U G. induction G as [|r rs G1 G2 IH]; [reflexivity|].
  cbn [map]. rewrite !Zsum_cons, IH.
  rewrite (on_grid_steps unit r U G1) at 1. lia.
Qed.

Lemma duty_total_blocks db l :
  Spec.closed_total Spec.on_duty (Spec.intervals db l)
  = Spec.Zsum (map DutyStatusRecord.duration (Timeline.duty_blocks db l)).
Proof.
  unfold Timeline.duty_blocks.
  rewrite <- closed_total_blocks. symmetry.
  apply closed_total_duty_records_of.
Qed.

Lemma duty_hours_closed_total (rs : list DutyStatusRecord.t) :
  (Qsum (flat_map Spec.duty_contribution rs)
   == Time.hours (Spec.closed_total Spec.on_duty rs))%Q.
Proof.
  induction rs as [|r rs IH].
  - reflexivity.
  - cbn [flat_map]. rewrite Qsum_app, IH, closed_total_cons, hours_plus,
      closed_total_single.
    unfold Spec.duty_contribution.
    destruct (DutyStatusRecord.end_time r);
      [destruct (Spec.on_duty _)|];
      rewrite ?Qsum_single; try reflexivity;
      change (Qsum []) with 0%Q; rewrite hours_0; reflexivity.
Qed.

Lemma hours_of_quarters (q : Z) :
  (Time.hours (q * Timeline.us_per_quarter)%Z == inject_Z q / 4)%Q.
Proof.
  unfold Time.hours, Time.total_seconds, Timeline.us_per_quarter.
  rewrite inject_Z_mult. field.
Qed.

(** On quarter hours the day's driving hours are the quarters
    counted. *)
Lemma driving_hours_on_quarters (db : Store.DB) (l : ELDLog.t) :
  Timeline.driving_on_quarters db l ->
  (Spec.driving_hours db l
   == inject_Z (Timeline.driving_quarters_up db l) / 4)%Q.
Proof.
  intros [G _]. unfold Spec.driving_hours, Timeline.driving_quarters_up.
  rewrite driving_up_blocks, driving_total_blocks.
  rewrite (grid_total Timeline.us_per_quarter _ ltac:(reflexivity) G).
  apply hours_of_quarters.
Qed.

Lemma driving_hours_added_le (db : Store.DB) (l : ELDLog.t) :
  Timeline.driving_quarters_up db l < 2 ^ 43 ->
  (Timeline.driving_hours_added db l
   <= inject_Z (Timeline.driving_quarters_up db l) / 4)%Q.
Proof.
  unfold Timeline.driving_quarters_up, Timeline.driving_hours_added.
  rewrite driving_up_blocks. intro B.
  apply sum_le_quarters; [|lia].
  apply (terms_Forall2 (fun x c => (x <= inject_Z c / 4)%Q) _ _ (2 ^ 43));
    [| |exact B].
  - intros r _. apply steps_up_nonneg.
  - intros r _ L. apply hours_term_le, L.
Qed.

(** On quarter hours the hours added as floats are the driving
    hours. *)
Lemma driving_hours_added_exact (db : Store.DB) (l : ELDLog.t) :
  Timeline.driving_on_quarters db l ->
  (Timeline.driving_hours_added db l
   == inject_Z (Timeline.driving_quarters_up db l) / 4)%Q.
Proof.
  intros [G B].
  unfold Timeline.driving_quarters_up, Timeline.driving_hours_added in *.
  rewrite driving_up_blocks in *.
  apply sum_exact_quarters; [|lia].
  apply (terms_Forall2 (fun x c => (x == inject_Z c / 4)%Q) _ _ (2 ^ 43));
    [| |exact B].
  - intros r _. apply steps_up_nonneg.
  - intros r I L. apply hours_term_exact; [|exact L].
    rewrite Forall_forall in G. apply G, I.
Qed.

(** Quarter hours are whole seconds. *)
Lemma quarters_whole_seconds (db : Store.DB) (l : ELDLog.t) :
  Timeline.driving_on_quarters db l -> Timeline.whole_seconds db l.
Proof.
  intros [G B].
  assert (G' : Forall (Timeline.on_grid Timeline.us_per_second)
                      (Timeline.driving_blocks db l)).
  { revert G. apply Forall_impl. intros r (k & K & E).
    exists (k * 900). split; [lia|]. rewrite E.
    unfold Timeline.us_per_quarter, Timeline.us_per_second. lia. }
  split; [exact G'|].
  unfold Timeline.driving_quarters_up, Timeline.driving_seconds_up in *.
  rewrite driving_up_blocks in *.
  pose proof (grid_total Timeline.us_per_second _ ltac:(reflexivity) G') as S.
  pose proof (grid_total Timeline.us_per_quarter _ ltac:(reflexivity) G) as Q.
  unfold Timeline.us_per_quarter, Timeline.us_per_second in *. lia.
Qed.

(** On quarter hours the float total of the driving check is the
    driving hours. *)
Lemma driving_hours_float_on_quarters (db : Store.DB) (l : ELDLog.t) :
  Timeline.driving_on_quarters db l ->
  (Timeline.driving_hours_float db l
   == inject_Z (Timeline.driving_quarters_up db l) / 4)%Q.
Proof.
  intro G. destruct G as [G0 B] eqn:EG. clear EG.
  rewrite (driving_hours_float_whole db l
             (quarters_whole_seconds db l (conj G0 B))).
  pose proof (driving_hours_on_quarters db l (conj G0 B)) as E.
  transitivity
    (Float64.round (inject_Z (Timeline.driving_quarters_up db l) / 4)).
  - apply round_comp, E.
  - apply round_quarters.
    assert (0 <= Timeline.driving_quarters_up db l).
    { unfold Timeline.driving_quarters_up. rewrite driving_up_blocks.
      apply Zsum_nonneg, Forall_forall. intros c Hc.
      apply in_map_iff in Hc. destruct Hc as (r & <- & _).
      apply steps_up_nonneg. }
    lia.
Qed.

Lemma duty_quarters_nonneg (db : Store.DB) (l : ELDLog.t) :
  0 <= Timeline.duty_quarters_up db l.
Proof.
  unfold Timeline.duty_quarters_up. rewrite duty_up_blocks.
  apply Zsum_nonneg, Forall_forall. intros c Hc.
  apply in_map_iff in Hc. destruct Hc as (r & <- & _).
  apply steps_up_nonneg.
Qed.

Lemma in_filter_logs (db : Store.DB) (d : Driver.t) (as_of : Time.date)
    (l : ELDLog.t) :
  In l (Store.filter_logs db d (as_of - (Spec.window d - 1)) as_of) ->
  In l (Store.eld_logs db)
  /\ Store.same_driver d l = true
  /\ Spec.in_window d as_of (ELDLog.log_date l) = true.
Proof.
  intro I.
  apply (Permutation_in _ (filter_logs_window db d as_of)) in I.
  apply filter_In in I. destruct I as [I C].
  apply andb_true_iff in C. tauto.
Qed.

(** On quarter hours the float hours of the window are the quarters
    counted. *)
Lemma cycle_hours_float_exact (db : Store.DB) (d : Driver.t)
    (as_of : Time.date) :
  Timeline.cycle_on_quarters db d as_of ->
  (Timeline.cycle_hours_float db d as_of
   == inject_Z (Timeline.cycle_quarters_up db d as_of) / 4)%Q.
Proof.
  intros [G B]. revert B.
  rewrite cycle_quarters_blocks. unfold Timeline.cycle_hours_float.
  rewrite !flat_map_map. intro B.
  apply sum_exact_quarters; [|lia].
  apply (terms_Forall2 (fun x c => (x == inject_Z c / 4)%Q) _ _ (2 ^ 43));
    [| |exact B].
  - intros r _. apply steps_up_nonneg.
  - intros r I L. apply hours_term_exact; [|exact L].
    apply in_flat_map in I. destruct I as (l & Il & Ir).
    destruct (in_filter_logs _ _ _ _ Il) as (I1 & I2 & I3).
    specialize (G l I1 I2 I3). rewrite Forall_forall in G. apply G, Ir.
Qed.

(** On quarter hours the hours of the window are the quarters
    counted. *)
Lemma cycle_hours_used_on_quarters (db : Store.DB) (d : Driver.t)
    (as_of : Time.date) :
  Timeline.cycle_on_quarters db d as_of ->
  (Spec.cycle_hours_used db d as_of
   == inject_Z (Timeline.cycle_quarters_up db d as_of) / 4)%Q.
Proof.
  intros [G _].
  unfold Spec.cycle_hours_used, Timeline.cycle_quarters_up.
  assert (F : forall l,
             In l (filter (fun l => Store.same_driver d l
                                    && Spec.in_window d as_of
                                         (ELDLog.log_date l))
                          (Store.eld_logs db)) ->
             (Spec.duty_hours db l
              == inject_Z (Timeline.duty_quarters_up db l) / 4)%Q).
  { intros l I. apply filter_In in I. destruct I as [I C].
    apply andb_true_iff in C. destruct C as [C1 C2].
    specialize (G l I C1 C2).
    unfold Spec.duty_hours, Timeline.duty_quarters_up.
    rewrite duty_hours_closed_total, duty_up_blocks, duty_total_blocks.
    rewrite (grid_total Timeline.us_per_quarter _ ltac:(reflexivity) G).
    apply hours_of_quarters. }
  revert F.
  generalize (filter (fun l => Store.same_driver d l
                               && Spec.in_window d as_of (ELDLog.log_date l))
                     (Store.eld_logs db)).
  intros logs F. induction logs as [|l logs IH]; [reflexivity|].
  cbn [map]. rewrite Qsum_cons, Zsum_cons, inject_Z_plus.
  rewrite (F l (or_introl eq_refl)), IH.
  - field.
  - intros l' I'. apply F. right. exact I'.
Qed.
(* ================================================================== *)
(** * The violation detector *)

Lemma Qgtb_comp (a a' b : Q) : (a == a')%Q -> Qgtb a b = Qgtb a' b.
Proof.
  intro H. unfold Qgtb, Qltb.
  assert (E : (b ?= a)%Q = (b ?= a')%Q)
    by (apply Qcompare_comp; [reflexivity | exact H]).
  rewrite E. reflexivity.
Qed.

(** The driving-limit check decides by the float total of the closed
    driving intervals. *)
Lemma check_driving_decides (l : ELDLog.t) (db : Store.DB) :
  exists o,
    HOSService._check_daily_driving_limit l db
    = (Ok o, with_violations db (opt_list o))
    /\ ((exists v, o = Some v)
        <-> (11 < Timeline.driving_hours_float db l)%Q)
    /\ forall v, o = Some v ->
         HOSViolation.violation_type v = "drive_11h"
         /\ HOSViolation.eld_log v = ELDLog.id l
         /\ HOSViolation.actual_value v = Timeline.driving_hours_float db l
         /\ HOSViolation.limit_value v = 11%Q.
Proof.
  unfold HOSService._check_daily_driving_limit. run_monad. cbv zeta.
  rewrite driving_hours_float_code.
  set (recs := filter (HOSService.has_status "driving")
                      (Store.duty_records_of db l)) in *.
  destruct (Qgtb (Timeline.driving_hours_float db l)
              HOSService.DAILY_DRIVING_LIMIT) eqn:E.
  - pose proof (proj1 (Qgtb_gt _ _) E) as G.
    destruct (qs_last recs) as [lr|] eqn:L.
    + eexists (Some _). split; [reflexivity|]. split.
      * split; [intros _; exact G | intros _; eexists; reflexivity].
      * intros v Hv. injection Hv as <-. repeat split.
    + exfalso. apply qs_last_none in L.
      rewrite <- driving_hours_float_code in E. fold recs in E.
      rewrite L in E. cbn [flat_map] in E.
      rewrite float_nil_not_gt in E; [discriminate|].
      unfold HOSService.DAILY_DRIVING_LIMIT. lra.
  - exists None. split; [simpl; rewrite with_violations_nil; reflexivity|].
    split; [|discriminate].
    apply Qgtb_le in E.
    split; [intros [v Hv]; discriminate|].
    intro G. exfalso. unfold HOSService.DAILY_DRIVING_LIMIT in E. lra.
Qed.

Lemma filter_opt_list_other (o : option HOSViolation.t) :
  (forall v, o = Some v -> is_drive_11h v = false) ->
  filter is_drive_11h (opt_list o) = [].
Proof.
  intro H. destruct o as [v|]; [|reflexivity].
  simpl. rewrite (H v eq_refl). reflexivity.
Qed.

(** On whole seconds the float total is above eleven exactly when the
    hours of closed driving are. *)
Lemma whole_seconds_over_11 (db : Store.DB) (l : ELDLog.t) :
  Timeline.whole_seconds db l ->
  ((11 < Timeline.driving_hours_float db l)%Q
   <-> (11 < Spec.driving_hours db l)%Q).
Proof.
  intro W.
  pose proof (driving_hours_float_whole db l W) as E.
  pose proof (driving_hours_whole_seconds db l W) as S.
  pose proof (round_comp _ _ S) as R.
  pose proof (round_seconds_over_11 (Timeline.driving_seconds_up db l)) as K.
  rewrite E, R, S. exact K.
Qed.

(** Driving 34509.262777 s, 3123.226234 s and 1967.510989 s is eleven
    hours of driving, not more; the seconds add up to a float above
    39600 and the check creates the violation, reporting more than 11
    hours. *)
Lemma eleven_hours_are_reported :
  let db := RoundingExamples.db_eleven in
  (Spec.driving_hours db Examples.log_a == 11)%Q
  /\ exists v,
       fst (HOSService._check_daily_driving_limit Examples.log_a db)
       = Ok (Some v)
       /\ HOSViolation.violation_type v = "drive_11h"
       /\ (11 < HOSViolation.actual_value v)%Q
       /\ (HOSViolation.actual_value v == 11 + (1 # 2 ^ 49))%Q.
Proof.
  split; [vm_compute; reflexivity|].
  eexists. split; [vm_compute; reflexivity|].
  split; [reflexivity|]. split; vm_compute; reflexivity.
Qed.

(** C7.  The detector creates a [drive_11h] violation exactly when the
    driving total of the log exceeds 11, where the total is the float
    the check computes: the seconds of the closed driving intervals
    added in start order, each addition rounded to a double, divided by
    3600.  The violation carries that float as [actual_value] and 11 as
    [limit_value], and a run of the whole detector reports it once.
    When every closed driving interval lasts a whole number of seconds,
    none backwards and fewer than [2^53] in all, the total is the exact
    sum of the durations in hours, rounded once, and the violation is
    created exactly when that sum exceeds 11 hours.
    A log driven 06:00-12:00 and 12:30-18:00 (11.5 hours) yields exactly
    one [drive_11h] violation, with actual value 11.5 and limit 11. *)
Theorem drive_11h_iff_float_total_over (db : Store.DB) (l : ELDLog.t) :
  let total := Timeline.driving_hours_float db l in
  exists o vs db',
    HOSService._check_daily_driving_limit l db
    = (Ok o, with_violations db (opt_list o))
    /\ ((exists v, o = Some v) <-> (11 < total)%Q)
    /\ (forall v, o = Some v ->
          HOSViolation.violation_type v = "drive_11h"
          /\ HOSViolation.actual_value v = total
          /\ HOSViolation.limit_value v = 11%Q)
    /\ HOSService.check_hos_violations l db = (Ok vs, db')
    /\ filter is_drive_11h vs = opt_list o
    /\ (Timeline.whole_seconds db l ->
        (total == Float64.round (Spec.driving_hours db l))%Q
        /\ ((exists v, o = Some v) <-> (11 < Spec.driving_hours db l)%Q))
    /\ (let run :=
          HOSService.check_hos_violations Examples.log_a
            DetectorExamples.db_long_drive in
        exists found v,
          fst run = Ok found
          /\ filter is_drive_11h found = [v]
          /\ (HOSViolation.actual_value v == 23 # 2)%Q
          /\ (HOSViolation.limit_value v == 11)%Q).
Proof.
  cbv zeta.
  destruct (check_driving_decides l db) as (o & E & D & V).
  destruct (check_hos_violations_shape l db)
    as (o1 & o2 & o3 & o4 & o5 & EV & E1 & T2 & T3 & T4 & T5).
  assert (o1 = o) as -> by congruence.
  exists o. eexists _, _. split; [exact E|]. split; [exact D|].
  split.
  { intros v Hv. destruct (V v Hv) as (V1 & _ & V3 & V4).
    split; [exact V1|]. split; [exact V3 | exact V4]. }
  split; [exact EV|]. split; [|split].
  - rewrite !filter_app.
    rewrite (filter_opt_list_other o2), (filter_opt_list_other o3),
      (filter_opt_list_other o4), (filter_opt_list_other o5).
    + rewrite !app_nil_r. destruct o as [v|]; [|reflexivity].
      simpl. unfold is_drive_11h.
      destruct (V v eq_refl) as (-> & _). reflexivity.
    + intros v Hv. unfold is_drive_11h. rewrite (T5 v Hv). reflexivity.
    + intros v Hv. unfold is_drive_11h. rewrite (T4 v Hv). reflexivity.
    + intros v Hv. unfold is_drive_11h.
      destruct (T3 v Hv) as [-> | ->]; reflexivity.
    + intros v Hv. unfold is_drive_11h. rewrite (T2 v Hv). reflexivity.
  - intro W. split; [exact (driving_hours_float_whole db l W)|].
    pose proof (whole_seconds_over_11 db l W) as K.
    split; intro X.
    + exact (proj1 K (proj1 D X)).
    + exact (proj2 D (proj2 K X)).
  - clear. eexists _, _. split; [vm_compute; reflexivity|].
    split; [vm_compute; reflexivity|].
    split; vm_compute; reflexivity.
Qed.

Lemma drive_11h_iff_float_total_over_witness :
  let db := DetectorExamples.db_long_drive in
  Timeline.whole_seconds db Examples.log_a
  /\ (Timeline.driving_hours_float db Examples.log_a
      == Float64.round (Spec.driving_hours db Examples.log_a))%Q
  /\ exists v,
       fst (HOSService._check_daily_driving_limit Examples.log_a db)
       = Ok (Some v).
Proof.
  assert (W : Timeline.whole_seconds DetectorExamples.db_long_drive
                Examples.log_a).
  { split; [|vm_compute; reflexivity].
    assert (E : Timeline.driving_blocks DetectorExamples.db_long_drive
                  Examples.log_a
                = [Examples.interval 11 10 "driving" (Examples.at_ 6 0)
                     (Some (Examples.at_ 12 0));
                   Examples.interval 13 10 "driving" (Examples.at_ 12 30)
                     (Some (Examples.at_ 18 0))])
      by (vm_compute; reflexivity).
    rewrite E. repeat constructor.
    - exists 21600. split; [lia | vm_compute; reflexivity].
    - exists 19800. split; [lia | vm_compute; reflexivity]. }
  split; [exact W|].
  destruct (drive_11h_iff_float_total_over DetectorExamples.db_long_drive
              Examples.log_a)
    as (o & vs & db' & E & _ & _ & _ & _ & Wc & _).
  destruct (Wc W) as [A B].
  split; [exact A|].
  rewrite E. cbn [fst].
  destruct (proj2 B ltac:(vm_compute; reflexivity)) as [v ->].
  exists v. reflexivity.
Defined.

Lemma In_duties_sorted db l x :
  In x (filter HOSService.is_duty (Store.duty_records_of db l))
  <-> In x (Spec.duties db l).
Proof.
  unfold Spec.duties, Store.duty_records_of.
  rewrite !filter_In, order_by_In, is_duty_on_duty. reflexivity.
Qed.

Lemma code_last_duty db l p :
  qs_first (order_by (Store.end_desc_leb (Store.nulls_high db))
              (filter HOSService.is_duty (Store.duty_records_of db l)))
  = Some p ->
  Spec.last_duty db l p.
Proof.
  intro H.
  apply (qs_first_order_by _ (end_desc_leb_total _)
           (end_desc_leb_trans _)) in H.
  destruct H as [Hin Hmin]. split.
  - apply In_duties_sorted, Hin.
  - intros q Hq. apply In_duties_sorted in Hq.
    exact (Hmin q Hq).
Qed.

Lemma code_first_duty db l c :
  qs_first (order_by Store.start_leb
              (filter HOSService.is_duty (Store.duty_records_of db l)))
  = Some c ->
  Spec.first_duty db l c.
Proof.
  intro H.
  apply (qs_first_order_by _ start_leb_total start_leb_trans) in H.
  destruct H as [Hin Hmin]. split.
  - apply In_duties_sorted, Hin.
  - intros q Hq. apply In_duties_sorted in Hq.
    specialize (Hmin q Hq). unfold Store.start_leb in Hmin. lia.
Qed.

Lemma no_duty_no_first
    (leb : DutyStatusRecord.t -> DutyStatusRecord.t -> bool) db l :
  qs_first (order_by leb
              (filter HOSService.is_duty (Store.duty_records_of db l)))
  = None ->
  Spec.duties db l = [].
Proof.
  intro H. apply qs_first_none, order_by_nil in H.
  destruct (Spec.duties db l) as [|x t] eqn:E; [reflexivity|].
  assert (Hx : In x (Spec.duties db l)) by (rewrite E; now left).
  apply In_duties_sorted in Hx. rewrite H in Hx. destruct Hx.
Qed.

Lemma last_duty_end_unique db l p p' :
  Spec.last_duty db l p -> Spec.last_duty db l p' ->
  DutyStatusRecord.end_time p = DutyStatusRecord.end_time p'.
Proof.
  intros [Hp Mp] [Hp' Mp'].
  apply (null_leb_antisym (Store.nulls_high db)); auto.
Qed.

Lemma first_duty_start_unique db l c c' :
  Spec.first_duty db l c -> Spec.first_duty db l c' ->
  DutyStatusRecord.start_time c = DutyStatusRecord.start_time c'.
Proof.
  intros [Hc Mc] [Hc' Mc'].
  specialize (Mc c' Hc'). specialize (Mc' c Hc). lia.
Qed.

Lemma rest_gap_unique db l g g' :
  Spec.rest_gap db l g -> Spec.rest_gap db l g' -> g = g'.
Proof.
  intros (prev & p & c & e & G & L & E & F & ->)
         (prev' & p' & c' & e' & G' & L' & E' & F' & ->).
  assert (prev' = prev) by congruence. subst prev'.
  pose proof (last_duty_end_unique _ _ _ _ L L') as HE.
  pose proof (first_duty_start_unique _ _ _ _ F F') as HS.
  rewrite E, E' in HE. injection HE as ->. lia.
Qed.

(** The rest check decides by the gap between the two days. *)
Lemma check_rest_decides (l : ELDLog.t) (db : Store.DB) :
  exists o,
    HOSService._check_daily_rest_requirement l db
    = (Ok o, with_violations db (opt_list o))
    /\ ((exists v, o = Some v)
        <-> exists g, Spec.rest_gap db l g /\ (Time.hours g < 10)%Q)
    /\ forall v, o = Some v ->
         HOSViolation.violation_type v = "daily_rest"
         /\ HOSViolation.limit_value v = 10%Q
         /\ exists g, Spec.rest_gap db l g
                      /\ HOSViolation.actual_value v = Time.hours g.
Proof.
  unfold HOSService._check_daily_rest_requirement. run_monad.
  unfold Time.days.
  destruct (Store.get_log db (ELDLog.driver l) (ELDLog.log_date l - 1))
    as [prev|] eqn:G.
  2:{ exists None. split; [simpl; rewrite with_violations_nil; reflexivity|].
      split; [|discriminate].
      split; [intros [v Hv]; discriminate|].
      intros (g & (prev & p & c & e & G' & _) & _). congruence. }
  destruct (qs_first (order_by (Store.end_desc_leb (Store.nulls_high db)) _))
    as [lp|] eqn:LP.
  2:{ exists None. split; [simpl; rewrite with_violations_nil; reflexivity|].
      split; [|discriminate].
      split; [intros [v Hv]; discriminate|].
      intros (g & (prev' & p & c & e & G' & [Hp _] & _) & _).
      assert (prev' = prev) by congruence. subst prev'.
      rewrite (no_duty_no_first _ _ _ LP) in Hp. destruct Hp. }
  apply code_last_duty in LP.
  destruct (qs_first (order_by Store.start_leb _)) as [fc|] eqn:FC.
  2:{ exists None. split; [simpl; rewrite with_violations_nil; reflexivity|].
      split; [|discriminate].
      split; [intros [v Hv]; discriminate|].
      intros (g & (prev' & p & c & e & _ & _ & _ & [Hc _] & _) & _).
      rewrite (no_duty_no_first _ _ _ FC) in Hc. destruct Hc. }
  apply code_first_duty in FC.
  destruct (DutyStatusRecord.end_time lp) as [pe|] eqn:PE.
  2:{ exists None. split; [simpl; rewrite with_violations_nil; reflexivity|].
      split; [|discriminate].
      split; [intros [v Hv]; discriminate|].
      intros (g & (prev' & p & c & e & G' & L' & E' & _) & _).
      assert (prev' = prev) by congruence. subst prev'.
      pose proof (last_duty_end_unique _ _ _ _ LP L'). congruence. }
  assert (RG : Spec.rest_gap db l (DutyStatusRecord.start_time fc - pe)).
  { exists prev, lp, fc, pe. auto. }
  change (Time.total_seconds (DutyStatusRecord.start_time fc - pe)%Z / 3600)%Q
    with (Time.hours (DutyStatusRecord.start_time fc - pe)).
  destruct (Qltb _ HOSService.DAILY_OFF_DUTY_MINIMUM) eqn:Q.
  - apply Qltb_lt in Q. eexists (Some _). split; [reflexivity|]. split.
    + split; [intros _; eexists; split; [exact RG | exact Q]
             | intros _; eexists; reflexivity].
    + intros v Hv. injection Hv as <-. simpl.
      repeat split. eexists. split; [exact RG | reflexivity].
  - apply Qltb_ge in Q.
    exists None. split; [simpl; rewrite with_violations_nil; reflexivity|].
    split; [|discriminate].
    split; [intros [v Hv]; discriminate|].
    intros (g & RG' & Hg).
    rewrite (rest_gap_unique _ _ _ _ RG' RG) in Hg.
    unfold HOSService.DAILY_OFF_DUTY_MINIMUM in Q. lra.
Qed.

(** C8.  The detector creates a [daily_rest] violation exactly when the
    driver has a log for the previous calendar day and the gap between
    the end of that day's last driving/on-duty interval and the start of
    this day's first driving/on-duty interval is below 10 hours; the
    violation carries the gap in hours as [actual_value].  Without a log
    for the previous day there is no violation.  With the previous day
    ending at 21:00 and this day starting at 05:00 the detector reports
    one [daily_rest] violation with actual value 8. *)
Theorem daily_rest_iff_short_gap (db : Store.DB) (l : ELDLog.t) :
  exists o,
    HOSService._check_daily_rest_requirement l db
    = (Ok o, with_violations db (opt_list o))
    /\ ((exists v, o = Some v)
        <-> exists g, Spec.rest_gap db l g /\ (Time.hours g < 10)%Q)
    /\ (forall v, o = Some v ->
          HOSViolation.violation_type v = "daily_rest"
          /\ HOSViolation.limit_value v = 10%Q
          /\ exists g, Spec.rest_gap db l g
                       /\ HOSViolation.actual_value v = Time.hours g)
    /\ (Store.get_log db (ELDLog.driver l) (ELDLog.log_date l - 1) = None ->
        o = None)
    /\ (forall nh,
          let run :=
            HOSService.check_hos_violations Examples.log_a
              (DetectorExamples.db_short_rest nh) in
          exists v,
            fst run = Ok [v]
            /\ HOSViolation.violation_type v = "daily_rest"
            /\ (HOSViolation.actual_value v == 8)%Q).
Proof.
  destruct (check_rest_decides l db) as (o & E & D & V).
  exists o. split; [exact E|]. split; [exact D|]. split; [exact V|].
  split.
  - intro G. destruct o as [v|]; [|reflexivity].
    destruct D as [D _]. destruct (D (ex_intro _ v eq_refl))
      as (g & (prev & p & c & e & G' & _) & _).
    congruence.
  - intros [|]; cbv zeta; eexists;
      (split; [vm_compute; reflexivity|]);
      (split; [reflexivity | vm_compute; reflexivity]).
Qed.

(* ================================================================== *)
(** * The trip schedule simulator: one day *)

Lemma max_id_nonneg (a : list Z) : 0 <= Store.max_id a.
Proof. unfold Store.max_id. induction a; simpl; lia. Qed.

Lemma max_id_app (a b : list Z) :
  Store.max_id (a ++ b) = Z.max (Store.max_id a) (Store.max_id b).
Proof.
  unfold Store.max_id. induction a as [|x a IH]; simpl.
  - assert (0 <= fold_right Z.max 0 b); [|lia].
    induction b; simpl; lia.
  - rewrite IH. lia.
Qed.

Lemma max_id_ge (a : list Z) (x : Z) : In x a -> x <= Store.max_id a.
Proof.
  unfold Store.max_id. induction a as [|y a IH]; simpl; [intros []|].
  intros [->|H]; [lia|]. specialize (IH H). lia.
Qed.

Lemma uuid4_gt_log (db : Store.DB) (l : ELDLog.t) :
  In l (Store.eld_logs db) -> ELDLog.id l < Store.uuid4 db.
Proof.
  intro H. unfold Store.uuid4. rewrite !max_id_app.
  pose proof (max_id_ge _ _ (in_map ELDLog.id _ _ H)). lia.
Qed.

Lemma uuid4_gt_record_log (db : Store.DB) (r : DutyStatusRecord.t) :
  In r (Store.duty_records db) -> DutyStatusRecord.eld_log r < Store.uuid4 db.
Proof.
  intro H. unfold Store.uuid4. rewrite !max_id_app.
  pose proof (max_id_ge _ _ (in_map DutyStatusRecord.eld_log _ _ H)). lia.
Qed.

Lemma uuid4_with_record (db : Store.DB) (r : DutyStatusRecord.t) :
  DutyStatusRecord.id r = Store.uuid4 db ->
  DutyStatusRecord.eld_log r < Store.uuid4 db ->
  Store.uuid4 (with_records db [r]) = Store.uuid4 db + 1.
Proof.
  intros Hid Hlog. unfold Store.uuid4, with_records in *.
  cbn [Store.eld_logs Store.duty_records Store.violations].
  rewrite !map_app, !max_id_app in *. cbn [map].
  change (Store.max_id [DutyStatusRecord.id r])
    with (Z.max (DutyStatusRecord.id r) 0).
  change (Store.max_id [DutyStatusRecord.eld_log r])
    with (Z.max (DutyStatusRecord.eld_log r) 0).
  pose proof (max_id_nonneg (map ELDLog.id (Store.eld_logs db))).
  lia.
Qed.

Lemma uuid4_with_log (db : Store.DB) (l : ELDLog.t) :
  ELDLog.id l = Store.uuid4 db ->
  Store.uuid4 (Simulator.with_log db l) = Store.uuid4 db + 1.
Proof.
  intros Hid. unfold Store.uuid4, Simulator.with_log in *.
  cbn [Store.eld_logs Store.duty_records Store.violations].
  rewrite !map_app, !max_id_app in *. cbn [map].
  change (Store.max_id [ELDLog.id l]) with (Z.max (ELDLog.id l) 0).
  pose proof (max_id_nonneg (map ELDLog.id (Store.eld_logs db))).
  lia.
Qed.

Lemma with_records_nil (db : Store.DB) : with_records db [] = db.
Proof.
  destruct db. unfold with_records. simpl. rewrite app_nil_r. reflexivity.
Qed.

Lemma with_records_app (db : Store.DB) (a b : list DutyStatusRecord.t) :
  with_records (with_records db a) b = with_records db (a ++ b).
Proof.
  unfold with_records. simpl. rewrite app_assoc. reflexivity.
Qed.

(** Emitting segments leaves their rows, and ends where they end. *)
Lemma emit_spec (log : ELDLog.t) (segs : list Simulator.segment)
    (t : Time.datetime) (db : Store.DB) :
  ELDLog.id log < Store.uuid4 db ->
  Simulator.emit log segs t db
  = (Ok (Simulator.end_of t segs),
     with_records db
       (Simulator.layout (Store.uuid4 db) (ELDLog.id log) t segs)).
Proof.
  revert t db. induction segs as [|s segs IH]; intros t db H.
  - simpl. unfold Store.ret. rewrite with_records_nil. reflexivity.
  - simpl Simulator.emit. unfold Store.bind.
    unfold HOSService._add_duty_record at 1.
    unfold Store.bind, Store.create_record, Store.ret.
    set (r := DutyStatusRecord.mk _ _ _ _ _ _ _ _ _ _ _).
    change (Store.mk (Store.eld_logs db) (Store.duty_records db ++ [r])
              (Store.violations db) (Store.now db) (Store.nulls_high db))
      with (with_records db [r]).
    assert (U : Store.uuid4 (with_records db [r]) = Store.uuid4 db + 1)
      by (apply uuid4_with_record; [reflexivity | exact H]).
    rewrite IH by (rewrite U; lia).
    rewrite U, with_records_app. reflexivity.
Qed.

Lemma emit_app (log : ELDLog.t) (a b : list Simulator.segment)
    (t : Time.datetime) (db : Store.DB) :
  Simulator.emit log (a ++ b) t db
  = Store.bind (Simulator.emit log a t) (Simulator.emit log b) db.
Proof.
  revert t db. induction a as [|s a IH]; intros t db.
  - reflexivity.
  - cbn [app Simulator.emit]. unfold Store.bind.
    destruct (HOSService._add_duty_record _ _ _ _ _ _ db) as [[t'|e] db'].
    + rewrite IH. unfold Store.bind. reflexivity.
    + reflexivity.
Qed.

Lemma add_duty_record_returns log status t m notes loc db :
  HOSService._add_duty_record log status t m notes loc db
  = (Ok (t + Time.minutes m),
     snd (HOSService._add_duty_record log status t m notes loc db)).
Proof. reflexivity. Qed.

Ltac step_add_duty_record :=
  match goal with
  | |- context [HOSService._add_duty_record ?l ?s ?t ?m ?n ?loc ?db] =>
      let db' := fresh "db" in
      rewrite (add_duty_record_returns l s t m n loc db);
      set (db' := snd (HOSService._add_duty_record l s t m n loc db)) in *;
      cbv beta iota
  end.

(** [_generate_daily_duty_records] makes the calls of the day's segments
    and then fills the day. *)
Lemma generate_day_as_emit (log : ELDLog.t) (trip : Trip.t) (day : Z)
    (h : Q) (db : Store.DB) :
  HOSService._generate_daily_duty_records log trip day h db
  = Store.bind
      (Simulator.emit log (Simulator.full_day log trip day h)
         (Time.combine (ELDLog.log_date log) 6))
      (fun _ => Store.ret tt) db.
Proof.
  unfold Simulator.full_day.
  unfold Store.bind at 1. rewrite emit_app.
  unfold HOSService._generate_daily_duty_records, Simulator.day_segments,
    Time.days.
  repeat
    (cbv [app Simulator.emit Simulator.seg_status Simulator.seg_minutes
          Simulator.seg_notes Simulator.seg_location Store.bind Store.ret
          Simulator.fill Simulator.end_of fold_left];
     first
       [ step_add_duty_record
       | match goal with
         | H : ?c = _ |- context [if ?c then _ else _] => rewrite H
         | |- context [if Qgtb ?a ?b then _ else _] =>
             destruct (Qgtb a b) eqn:?
         | |- context [if Z.eqb ?a ?b then _ else _] =>
             destruct (Z.eqb a b) eqn:?
         | |- context [if Z.ltb ?a ?b then _ else _] =>
             destruct (Z.ltb a b) eqn:?
         end ]);
    reflexivity.
Qed.

(** A generated day adds exactly the rows of [Simulator.day_records]. *)
Lemma generate_day_run (log : ELDLog.t) (trip : Trip.t) (day : Z) (h : Q)
    (db : Store.DB) :
  ELDLog.id log < Store.uuid4 db ->
  HOSService._generate_daily_duty_records log trip day h db
  = (Ok tt, with_records db (Simulator.day_records db log trip day h)).
Proof.
  intro H. rewrite generate_day_as_emit. unfold Store.bind.
  rewrite emit_spec by exact H. reflexivity.
Qed.

Lemma layout_log id0 log t segs r :
  In r (Simulator.layout id0 log t segs) -> DutyStatusRecord.eld_log r = log.
Proof.
  revert id0 t. induction segs as [|s segs IH]; intros id0 t; simpl.
  - intros [].
  - intros [<-|H]; [reflexivity | exact (IH _ _ H)].
Qed.

Lemma layout_closed id0 log t segs r :
  In r (Simulator.layout id0 log t segs) -> Spec.is_open r = false.
Proof.
  revert id0 t. induction segs as [|s segs IH]; intros id0 t; simpl.
  - intros [].
  - intros [<-|H]; [reflexivity | exact (IH _ _ H)].
Qed.

Lemma filter_all {A} (q : A -> bool) (l : list A) :
  (forall x, In x l -> q x = true) -> filter q l = l.
Proof.
  intro H. induction l as [|x l IH]; simpl; [reflexivity|].
  rewrite (H x (or_introl eq_refl)). f_equal. apply IH.
  intros y Hy. apply H. now right.
Qed.

Lemma intervals_with_records db rs l :
  Spec.intervals (with_records db rs) l
  = Spec.intervals db l
    ++ filter (fun r => DutyStatusRecord.eld_log r =? ELDLog.id l) rs.
Proof. unfold Spec.intervals. simpl. apply filter_app. Qed.

(** The rows of a generated day belong to its log and are closed. *)
Lemma open_intervals_with_layout db id0 log t segs l :
  Spec.open_intervals
    (with_records db (Simulator.layout id0 log t segs)) l
  = Spec.open_intervals db l.
Proof.
  unfold Spec.open_intervals. rewrite intervals_with_records, filter_app.
  rewrite (filter_none Spec.is_open
             (filter _ (Simulator.layout id0 log t segs))).
  - apply app_nil_r.
  - intros r Hr. apply filter_In in Hr. destruct Hr as [Hr _].
    exact (layout_closed _ _ _ _ _ Hr).
Qed.

(** The simulator never raises once the route is there; it returns one
    log per day and leaves the open intervals of every log as they were. *)
Lemma generate_days_frame trip h sd days logs db :
  exists out db',
    HOSService.generate_days trip h sd days logs db = (Ok out, db')
    /\ List.length out = (List.length logs + List.length days)%nat
    /\ forall l, Spec.open_intervals db' l = Spec.open_intervals db l.
Proof.
  revert logs db. induction days as [|day days IH]; intros logs db.
  - exists logs, db. simpl. unfold Store.ret.
    split; [reflexivity|]. split; [lia | reflexivity].
  - cbn [HOSService.generate_days]. unfold Store.bind at 1.
    unfold HOSService.get_or_create_log.
    destruct (Store.get_log db (Trip.driver trip) (sd + Time.days day))
      as [l|] eqn:G.
    + cbn [negb andb]. unfold Store.bind at 1.
      destruct (negb (HOSService.fk_eqb (ELDLog.trip l) (Some (Trip.id trip)))).
      * unfold Store.bind at 1. unfold Store.save_log, Store.modify.
        unfold Store.ret at 1. unfold Store.bind at 1. unfold Store.ret at 1.
        match goal with
        | |- context [HOSService.generate_days _ _ _ _ ?ls ?d] =>
            destruct (IH ls d) as (out & db' & E & L & O)
        end.
        exists out, db'. split; [exact E|]. split.
        -- rewrite L, length_app. simpl. lia.
        -- intro l0. rewrite O. reflexivity.
      * unfold Store.ret at 1. unfold Store.bind at 1. unfold Store.ret at 1.
        destruct (IH (logs ++ [l]) db) as (out & db' & E & L & O).
        exists out, db'. split; [exact E|]. split.
        -- rewrite L, length_app. simpl. lia.
        -- exact O.
    + cbn [negb andb]. unfold Store.bind at 1. unfold Store.ret at 1.
      unfold Store.bind at 1.
      change (Store.mk (Store.eld_logs db ++ [_]) _ _ _ _)
        with (Simulator.with_log db
                (Simulator.new_log db trip (sd + Time.days day))).
      set (l := ELDLog.mk _ _ _ _ _ _ _ _ _ _ _ _).
      change l with (Simulator.new_log db trip (sd + Time.days day)) in *.
      clear l. set (l := Simulator.new_log db trip (sd + Time.days day)).
      rewrite generate_day_run
        by (rewrite uuid4_with_log by reflexivity; simpl; lia).
      match goal with
      | |- context [HOSService.generate_days _ _ _ _ ?ls ?d] =>
          destruct (IH ls d) as (out & db' & E & L & O)
      end.
      exists out, db'. split; [exact E|]. split.
      * rewrite L, length_app. simpl. lia.
      * intro l0. rewrite O. unfold Simulator.day_records.
        rewrite open_intervals_with_layout. reflexivity.
Qed.

Lemma py_range_length (n : Z) : List.length (HOSService.py_range n) = Z.to_nat n.
Proof.
  unfold HOSService.py_range. rewrite length_map, length_seq. reflexivity.
Qed.

(** The number of logs is [max(1, int(h / 11) + 1)]. *)
Lemma generate_trip_frame trip route db :
  Trip.route trip = Some route ->
  let h := RouteCalculation.estimated_duration_hours route in
  exists logs db',
    HOSService.generate_trip_eld_logs trip db = (Ok logs, db')
    /\ Z.of_nat (List.length logs) = Z.max 1 (py_int (h / 11) + 1)
    /\ forall l, Spec.open_intervals db' l = Spec.open_intervals db l.
Proof.
  intros R h. unfold HOSService.generate_trip_eld_logs. rewrite R.
  unfold Store.bind, Store.gets.
  match goal with
  | |- context [HOSService.generate_days ?t ?hh ?sd ?ds ?ls ?d] =>
      destruct (generate_days_frame t hh sd ds ls d) as (out & db' & E & L & O)
  end.
  exists out, db'. split; [exact E|]. split; [|exact O].
  rewrite L, py_range_length. simpl. fold h. lia.
Qed.

(* ================================================================== *)
(** * The rows of a generated day *)

Lemma layout_app id0 log t a b :
  Simulator.layout id0 log t (a ++ b)
  = Simulator.layout id0 log t a
    ++ Simulator.layout (id0 + Z.of_nat (List.length a)) log
         (Simulator.end_of t a) b.
Proof.
  revert id0 t. induction a as [|s a IH]; intros id0 t.
  - simpl. rewrite Z.add_0_r. reflexivity.
  - cbn [app Simulator.layout List.length Simulator.end_of fold_left].
    rewrite IH. unfold Simulator.end_of.
    replace (id0 + 1 + Z.of_nat (List.length a))
      with (id0 + Z.of_nat (S (List.length a))) by lia.
    reflexivity.
Qed.

Lemma end_of_app t a b :
  Simulator.end_of t (a ++ b) = Simulator.end_of (Simulator.end_of t a) b.
Proof. unfold Simulator.end_of. apply fold_left_app. Qed.

Lemma closed_total_layout p id0 log t segs :
  Spec.closed_total p (Simulator.layout id0 log t segs)
  = Simulator.minutes_of p segs.
Proof.
  unfold Simulator.minutes_of.
  revert id0 t. induction segs as [|s segs IH]; intros id0 t.
  - reflexivity.
  - cbn [Simulator.layout]. rewrite closed_total_cons, closed_total_single.
    cbn [DutyStatusRecord.end_time DutyStatusRecord.duty_status
         DutyStatusRecord.start_time filter].
    rewrite IH. destruct (p (Simulator.seg_status s)); simpl; lia.
Qed.

Lemma minutes_of_app p a b :
  Simulator.minutes_of p (a ++ b)
  = Simulator.minutes_of p a + Simulator.minutes_of p b.
Proof.
  unfold Simulator.minutes_of. rewrite filter_app, map_app. apply Zsum_app.
Qed.

Lemma layout_within hi acc id0 log t0 segs r :
  Simulator.within hi acc segs ->
  In r (Simulator.layout id0 log (t0 + acc) segs) ->
  t0 <= DutyStatusRecord.start_time r
  /\ exists e, DutyStatusRecord.end_time r = Some e /\ e <= t0 + hi.
Proof.
  revert acc id0. induction segs as [|s segs IH]; intros acc id0 W Hr.
  - destruct Hr.
  - cbn [Simulator.within] in W. destruct W as (W0 & W1 & W2).
    cbn [Simulator.layout] in Hr. destruct Hr as [<-|Hr].
    + simpl. split; [lia|]. eexists. split; [reflexivity | lia].
    + rewrite <- Z.add_assoc in Hr. exact (IH _ _ W2 Hr).
Qed.

(** With durations that are not negative the rows tile the span they
    cover and are in start order. *)
Lemma layout_tiles id0 log t segs :
  Forall (fun s => 0 <= Time.minutes (Simulator.seg_minutes s)) segs ->
  Spec.tiles t (Simulator.end_of t segs) (Simulator.layout id0 log t segs).
Proof.
  intro F. revert id0 t. induction F as [|s segs Hs F IH]; intros id0 t.
  - reflexivity.
  - cbn [Simulator.layout Spec.tiles DutyStatusRecord.start_time
         DutyStatusRecord.end_time].
    split; [reflexivity|]. eexists. split; [reflexivity|].
    split; [lia|]. apply IH.
Qed.

Lemma tiles_starts_after s e rs r :
  Spec.tiles s e rs -> In r rs -> s <= DutyStatusRecord.start_time r.
Proof.
  revert s. induction rs as [|x rs IH]; intros s T Hr; [destruct Hr|].
  cbn [Spec.tiles] in T. destruct T as (S0 & e' & _ & L & T).
  destruct Hr as [<-|Hr]; [lia|].
  specialize (IH _ T Hr). lia.
Qed.

Lemma tiles_sorted s e rs :
  Spec.tiles s e rs ->
  StronglySorted (fun x y => Store.start_leb x y = true) rs.
Proof.
  revert s. induction rs as [|x rs IH]; intros s T; [constructor|].
  cbn [Spec.tiles] in T. destruct T as (S0 & e' & _ & L & T).
  constructor; [exact (IH _ T)|].
  apply Forall_forall. intros y Hy.
  pose proof (tiles_starts_after _ _ _ _ T Hy).
  unfold Store.start_leb. lia.
Qed.

Lemma tiles_non_overlapping s e rs :
  Spec.tiles s e rs -> Spec.non_overlapping rs.
Proof.
  unfold Spec.non_overlapping.
  revert s. induction rs as [|x rs IH]; intros s T; [constructor|].
  cbn [Spec.tiles] in T. destruct T as (S0 & e' & E & L & T).
  constructor; [|exact (IH _ T)].
  apply Forall_forall. intros y Hy. exists e'. split; [exact E|].
  exact (tiles_starts_after _ _ _ _ T Hy).
Qed.

(* ================================================================== *)
(** * The shape of a simulated day *)

Lemma minutes_le_Z (q : Q) (k : Z) :
  (q <= inject_Z k)%Q -> Time.minutes q <= k * Time.us_per_minute.
Proof.
  intro H. rewrite <- minutes_Z. apply minutes_mono, H.
Qed.

Lemma minutes_ge_Z (q : Q) (k : Z) :
  (inject_Z k <= q)%Q -> k * Time.us_per_minute <= Time.minutes q.
Proof.
  intro H. rewrite <- minutes_Z. apply minutes_mono, H.
Qed.

(** The segments of a day: inspection, pickup on day 0, a driving block,
    possibly a meal break followed by an optional second driving block
    and an optional dropoff, inspection; with the bounds on the two
    driving blocks. *)
Lemma day_segments_shape (trip : Trip.t) (day : Z) (h : Q) :
  Simulator.day_segments trip day h
  = [Simulator.pre_trip trip; Simulator.post_trip trip]
  \/ exists (a : Q) (tail : list Simulator.segment),
       Simulator.day_segments trip day h
       = [Simulator.pre_trip trip]
         ++ (if day =? 0 then [Simulator.pickup trip] else [])
         ++ [Simulator.drive a] ++ tail ++ [Simulator.post_trip trip]
       /\ Time.minutes a
          <= (if day =? 0 then 420 else 480) * Time.us_per_minute
       /\ (if day =? 0 then -60 else 0) * Time.us_per_minute
          <= Time.minutes a
       /\ (Simulator.first_hour_covered day h -> 0 <= Time.minutes a)
       /\ (tail = []
           \/ exists second drop,
                tail = [Simulator.meal_break] ++ second ++ drop
                /\ 0 <= Time.minutes a
                /\ (second = []
                    \/ exists b,
                         second = [Simulator.drive b]
                         /\ 0 <= Time.minutes b <= 180 * Time.us_per_minute)
                /\ (drop = [] \/ drop = [Simulator.dropoff trip])).
Proof.
  unfold Simulator.day_segments.
  set (rem := py_min 11 (h - inject_Z day * 11)).
  destruct (Qgtb rem 0) eqn:C1; [right | left; reflexivity].
  apply Qgtb_gt in C1.
  set (rem1 := if day =? 0 then (rem - 1)%Q else rem).
  set (maxd := (if day >? 0 then 8 else 7)%Q).
  set (dt := py_min maxd rem1).
  set (rem2 := (rem1 - dt)%Q).
  exists (dt * 60)%Q.
  match goal with
  | |- context [if Qgtb rem2 0 then ?x else ?y] =>
      exists (if Qgtb rem2 0 then x else y)
  end.
  split; [rewrite <- !app_assoc; reflexivity|].
  assert (Hmax : (7 <= maxd <= 8)%Q)
    by (unfold maxd; destruct (day >? 0); split; discriminate).
  assert (Hmax0 : day = 0 -> (maxd == 7)%Q)
    by (intros ->; reflexivity).
  destruct (py_min_spec maxd rem1) as (Hdt1 & Hdt2 & Hdt3).
  fold dt in Hdt1, Hdt2, Hdt3.
  assert (Hrem1 : (rem - 1 <= rem1)%Q /\ (day <> 0 -> (rem1 == rem)%Q)).
  { unfold rem1. destruct (Z.eqb_spec day 0); split; intros;
      try lra; try contradiction; reflexivity. }
  destruct Hrem1 as [Hrem1 Hrem1'].
  assert (Hrem : Simulator.first_hour_covered day h -> day = 0 ->
                 (1 <= rem)%Q).
  { intros FH D. unfold rem.
    destruct (py_min_spec 11 (h - inject_Z day * 11)) as (_ & R2 & R3).
    fold rem in R2, R3. subst day. change (inject_Z 0) with 0%Q in *.
    assert (0 < h)%Q by lra. specialize (FH eq_refl H).
    fold rem. destruct R3; lra. }
  assert (Hrem2 : (rem2 == rem1 - dt)%Q) by reflexivity.
  clearbody rem2 dt rem1 maxd rem.
  split; [|split; [|split]].
  - destruct (Z.eqb_spec day 0) as [D|D].
    + apply (minutes_le_Z _ 420). specialize (Hmax0 D).
      change (inject_Z 420) with 420%Q. lra.
    + apply (minutes_le_Z _ 480). change (inject_Z 480) with 480%Q. lra.
  - destruct (Z.eqb_spec day 0) as [D|D].
    + apply (minutes_ge_Z _ (-60)). change (inject_Z (-60)) with (-60)%Q.
      destruct Hdt3; lra.
    + apply (minutes_ge_Z _ 0). change (inject_Z 0) with 0%Q.
      specialize (Hrem1' D). destruct Hdt3; lra.
  - intro FH. apply (minutes_ge_Z _ 0). change (inject_Z 0) with 0%Q.
    destruct (Z.eq_dec day 0) as [D|D].
    + specialize (Hrem FH D). destruct Hdt3; lra.
    + specialize (Hrem1' D). destruct Hdt3; lra.
  - destruct (Qgtb rem2 0) eqn:C3; [right | left; reflexivity].
    apply Qgtb_gt in C3.
    eexists _, _. split; [reflexivity|]. split; [|split].
    + apply (minutes_ge_Z _ 0). change (inject_Z 0) with 0%Q.
      destruct Hdt3; lra.
    + match goal with
      | |- context [Qgtb ?m 0] => set (madd := m)
      end.
      assert (Hm : (madd <= 3)%Q) by apply py_min_le_l.
      clearbody madd.
      destruct (Qgtb madd 0) eqn:C4; [right | left; reflexivity].
      apply Qgtb_gt in C4. eexists. split; [reflexivity|]. split.
      * apply (minutes_ge_Z _ 0). change (inject_Z 0) with 0%Q. lra.
      * apply (minutes_le_Z _ 180). change (inject_Z 180) with 180%Q. lra.
    + destruct (day =? py_int (h / 11)); [right | left]; reflexivity.
Qed.

Lemma minutes_15 : Time.minutes 15 = 900000000.
Proof. vm_compute. reflexivity. Qed.

Lemma minutes_30 : Time.minutes 30 = 1800000000.
Proof. vm_compute. reflexivity. Qed.

Lemma minutes_60 : Time.minutes 60 = 3600000000.
Proof. vm_compute. reflexivity. Qed.

(** Splits a day into the forms of [day_segments_shape]. *)
Ltac shape_cases trip day h :=
  let E := fresh "E" in
  let a := fresh "a" in
  let b := fresh "b" in
  let Ale := fresh "Ale" in
  let Age := fresh "Age" in
  let Anon := fresh "Anon" in
  let A0 := fresh "A0" in
  let B0 := fresh "B0" in
  let tail := fresh "tail" in
  let second := fresh "second" in
  let drop := fresh "drop" in
  destruct (day_segments_shape trip day h)
    as [E | (a & tail & E & Ale & Age & Anon
             & [-> | (second & drop & -> & A0
                      & [-> | (b & -> & B0)] & [-> | ->])])];
  rewrite E; clear E;
  try (destruct (day =? 0) eqn:?);
  cbn [app Simulator.seg_minutes Simulator.seg_status Simulator.pre_trip
       Simulator.pickup Simulator.drive Simulator.meal_break
       Simulator.dropoff Simulator.post_trip] in *;
  unfold Time.us_per_minute in *.

Ltac seg_cbn :=
  cbn [app Simulator.seg_minutes Simulator.seg_status Simulator.pre_trip
       Simulator.pickup Simulator.drive Simulator.meal_break
       Simulator.dropoff Simulator.post_trip Simulator.within
       Simulator.minutes_of filter map Spec.Zsum fold_right
       Spec.driving Spec.on_duty String.eqb Ascii.eqb Bool.eqb andb orb]
    in *;
  rewrite ?minutes_15, ?minutes_30, ?minutes_60 in *.

(** Every segment before the closing rest lies within thirteen hours of
    the day's start. *)
Lemma day_segments_within (trip : Trip.t) (day : Z) (h : Q) :
  Simulator.within (780 * Time.us_per_minute) 0
    (Simulator.day_segments trip day h).
Proof.
  shape_cases trip day h;
    seg_cbn; repeat split; lia.
Qed.

(** No segment has a negative length, except on day 0 of a trip of less
    than an hour. *)
Lemma day_segments_nonneg (trip : Trip.t) (day : Z) (h : Q) :
  Simulator.first_hour_covered day h ->
  Forall (fun s => 0 <= Time.minutes (Simulator.seg_minutes s))
         (Simulator.day_segments trip day h).
Proof.
  intro FH. shape_cases trip day h;
    try specialize (Anon FH);
    repeat (constructor; [seg_cbn; lia|]);
    constructor.
Qed.

(** At most eleven hours of driving are scheduled on a day. *)
Lemma day_segments_driving (trip : Trip.t) (day : Z) (h : Q) :
  Simulator.minutes_of Spec.driving (Simulator.day_segments trip day h)
  <= 660 * Time.us_per_minute.
Proof.
  shape_cases trip day h;
    seg_cbn; lia.
Qed.

(** At most twelve and a half hours of duty are scheduled on a day. *)
Lemma day_segments_on_duty (trip : Trip.t) (day : Z) (h : Q) :
  Simulator.minutes_of Spec.on_duty (Simulator.day_segments trip day h)
  <= 750 * Time.us_per_minute.
Proof.
  shape_cases trip day h;
    seg_cbn; lia.
Qed.

Lemma end_of_within hi acc t segs :
  Simulator.within hi acc segs -> acc <= hi ->
  Simulator.end_of (t + acc) segs <= t + hi.
Proof.
  revert acc. induction segs as [|s segs IH]; intros acc W H.
  - unfold Simulator.end_of. simpl. lia.
  - cbn [Simulator.within] in W. destruct W as (W0 & W1 & W2).
    unfold Simulator.end_of. cbn [fold_left].
    fold (Simulator.end_of (t + acc + Time.minutes (Simulator.seg_minutes s))
            segs).
    rewrite <- Z.add_assoc. apply (IH _ W2 W1).
Qed.

(* ================================================================== *)
(** * Coverage of a simulated day *)

Lemma combine_next_day (d : Time.date) :
  Time.combine (d + 1) 0 = Time.combine d 6 + 1080 * Time.us_per_minute.
Proof.
  unfold Time.combine, Time.us_per_day, Time.us_per_hour,
    Time.us_per_minute. lia.
Qed.

(** The day's segments end before midnight, so the closing rest is added
    and runs to midnight exactly. *)
Lemma full_day_fill (log : ELDLog.t) (trip : Trip.t) (day : Z) (h : Q) :
  let t0 := Time.combine (ELDLog.log_date log) 6 in
  let eod := Time.combine (ELDLog.log_date log + 1) 0 in
  let segs := Simulator.day_segments trip day h in
  exists left,
    Simulator.full_day log trip day h
    = segs ++ [Simulator.seg "off_duty" left "Off duty rest" "Truck stop"]
    /\ Time.minutes left = eod - Simulator.end_of t0 segs
    /\ 0 < Time.minutes left.
Proof.
  intros t0 eod segs.
  pose proof (end_of_within _ 0 t0 segs (day_segments_within trip day h)) as B.
  rewrite Z.add_0_r in B.
  assert (L : Simulator.end_of t0 segs < eod).
  { unfold eod. rewrite combine_next_day. fold t0.
    unfold Time.us_per_minute in *. lia. }
  unfold Simulator.full_day, Simulator.fill. fold t0 eod segs.
  apply Z.ltb_lt in L. rewrite L. apply Z.ltb_lt in L.
  eexists. split; [reflexivity|].
  rewrite minutes_total_seconds. lia.
Qed.

Lemma full_day_tiles (log : ELDLog.t) (trip : Trip.t) (day : Z) (h : Q)
    (id0 : Z) :
  Simulator.first_hour_covered day h ->
  Spec.tiles (Time.combine (ELDLog.log_date log) 6)
    (Time.combine (ELDLog.log_date log + 1) 0)
    (Simulator.layout id0 (ELDLog.id log)
       (Time.combine (ELDLog.log_date log) 6)
       (Simulator.full_day log trip day h)).
Proof.
  intro FH.
  destruct (full_day_fill log trip day h) as (left & E & M & P).
  assert (T := layout_tiles id0 (ELDLog.id log)
                 (Time.combine (ELDLog.log_date log) 6)
                 (Simulator.full_day log trip day h)).
  rewrite E in *. rewrite end_of_app in T.
  unfold Simulator.end_of at 1 in T. cbn [fold_left Simulator.seg_minutes] in T.
  rewrite M in T.
  replace (_ + (_ - _)) with (Time.combine (ELDLog.log_date log + 1) 0)
    in T by lia.
  apply T. apply Forall_app. split.
  - apply day_segments_nonneg, FH.
  - constructor; [|constructor]. cbn [Simulator.seg_minutes]. lia.
Qed.

Lemma intervals_fresh_day db log trip day h :
  Spec.intervals db log = [] ->
  Spec.intervals
    (with_records db (Simulator.day_records db log trip day h)) log
  = Simulator.day_records db log trip day h.
Proof.
  intro F. rewrite intervals_with_records, F. cbn [app].
  apply filter_all. intros r Hr.
  unfold Simulator.day_records in Hr.
  rewrite (layout_log _ _ _ _ _ Hr). apply Z.eqb_refl.
Qed.

Lemma tiles_closed s e rs :
  Spec.tiles s e rs -> Forall (fun r => Spec.is_closed r = true) rs.
Proof.
  revert s. induction rs as [|r rs IH]; intros s T; [constructor|].
  cbn [Spec.tiles] in T. destruct T as (_ & e' & E & _ & T).
  constructor; [|exact (IH _ T)].
  unfold Spec.is_closed, Spec.is_open. rewrite E. reflexivity.
Qed.


(* ================================================================== *)
(** * When the detector finds nothing *)

Lemma check_driving_none (l : ELDLog.t) (db : Store.DB) :
  Timeline.driving_seconds_up db l <= 39600 ->
  HOSService._check_daily_driving_limit l db = (Ok None, db).
Proof.
  intro H. destruct (check_driving_decides l db) as (o & E & D & _).
  destruct o as [v|].
  - exfalso. destruct D as [D _].
    specialize (D (ex_intro _ v eq_refl)).
    pose proof (driving_hours_float_le_11 db l H). lra.
  - rewrite E. simpl. rewrite with_violations_nil. reflexivity.
Qed.

Lemma check_duty_none (l : ELDLog.t) (db : Store.DB) (t0 : Time.datetime) :
  (forall r, In r (Spec.duties db l) ->
     exists e, DutyStatusRecord.end_time r = Some e
               /\ t0 <= DutyStatusRecord.start_time r
               /\ e <= t0 + 14 * Time.us_per_hour) ->
  HOSService._check_daily_duty_limit l db = (Ok None, db).
Proof.
  intro H. unfold HOSService._check_daily_duty_limit. run_monad.
  destruct (qs_first _) as [fd|] eqn:F; [|reflexivity].
  destruct (qs_last _) as [ld|] eqn:L; [|reflexivity].
  apply qs_first_In, order_by_In, In_duties_sorted in F.
  apply qs_last_In, order_by_In, In_duties_sorted in L.
  destruct (H fd F) as (e1 & _ & S1 & _).
  destruct (H ld L) as (e2 & E2 & _ & B2).
  rewrite E2.
  match goal with
  | |- context [Qgtb ?x ?y] => assert (Q : Qgtb x y = false)
  end.
  { apply Qgtb_le. unfold HOSService.DAILY_DUTY_LIMIT.
    change (Time.total_seconds ?d / 3600)%Q with (Time.hours d).
    apply (hours_le_iff _ 14). lia. }
  rewrite Q. reflexivity.
Qed.

Lemma check_cycle_none (l : ELDLog.t) (db : Store.DB) :
  Timeline.cycle_quarters_up db (ELDLog.driver l) (ELDLog.log_date l)
  <= 240 ->
  HOSService._check_cycle_limit l db = (Ok None, db).
Proof.
  intro H. unfold HOSService._check_cycle_limit. run_monad.
  rewrite cycle_hours_float_code.
  pose proof (cycle_hours_float_le db (ELDLog.driver l) (ELDLog.log_date l)
                ltac:(lia)) as L.
  set (q := Timeline.cycle_quarters_up db _ _) in *.
  assert (Q60 : (inject_Z q / 4 <= 60)%Q).
  { assert (inject_Z q <= inject_Z 240)%Q by (rewrite <- Zle_Qle; exact H).
    change (inject_Z 240) with 240%Q in H0. lra_div. }
  set (f := Timeline.cycle_hours_float db _ _) in *.
  destruct (String.eqb _ "70_8");
    match goal with
    | |- context [Qgtb ?x ?y] => assert (Q : Qgtb x y = false)
    end;
    try (apply Qgtb_le;
         unfold HOSService.CYCLE_70_8_LIMIT, HOSService.CYCLE_60_7_LIMIT;
         lra);
    rewrite Q; reflexivity.
Qed.

Lemma check_break_none (l : ELDLog.t) (db : Store.DB) :
  HOSService.break_loop
    (order_by Store.start_leb
       (filter (HOSService.has_status "driving")
               (Store.duty_records_of db l))) 0 None = None ->
  HOSService._check_break_requirement l db = (Ok None, db).
Proof.
  intro H. unfold HOSService._check_break_requirement. run_monad.
  rewrite H. reflexivity.
Qed.

Lemma check_rest_none (l : ELDLog.t) (db : Store.DB) :
  (forall g, Spec.rest_gap db l g -> 10 * Time.us_per_hour <= g) ->
  HOSService._check_daily_rest_requirement l db = (Ok None, db).
Proof.
  intro H. destruct (check_rest_decides l db) as (o & E & D & _).
  destruct o as [v|].
  - exfalso. destruct D as [D _].
    destruct (D (ex_intro _ v eq_refl)) as (g & G & Lt).
    specialize (H g G). apply (hours_lt_iff g 10) in Lt. lia.
  - rewrite E. simpl. rewrite with_violations_nil. reflexivity.
Qed.

(** Five conditions under which a run of the detector reports nothing
    and leaves the store as it is. *)
Lemma no_violations (l : ELDLog.t) (db : Store.DB) (t0 : Time.datetime) :
  Timeline.driving_seconds_up db l <= 39600 ->
  (forall r, In r (Spec.duties db l) ->
     exists e, DutyStatusRecord.end_time r = Some e
               /\ t0 <= DutyStatusRecord.start_time r
               /\ e <= t0 + 14 * Time.us_per_hour) ->
  Timeline.cycle_quarters_up db (ELDLog.driver l) (ELDLog.log_date l)
  <= 240 ->
  HOSService.break_loop
    (order_by Store.start_leb
       (filter (HOSService.has_status "driving")
               (Store.duty_records_of db l))) 0 None = None ->
  (forall g, Spec.rest_gap db l g -> 10 * Time.us_per_hour <= g) ->
  HOSService.check_hos_violations l db = (Ok [], db).
Proof.
  intros H1 H2 H3 H4 H5. unfold HOSService.check_hos_violations, Store.bind.
  rewrite (check_driving_none _ _ H1), (check_duty_none _ _ _ H2),
    (check_cycle_none _ _ H3), (check_break_none _ _ H4),
    (check_rest_none _ _ H5).
  reflexivity.
Qed.

(** The quarter hours of the cycle window are at most a bound per log
    times the number of the driver's logs. *)
Lemma cycle_quarters_bound db d as_of (bound : Z) :
  0 <= bound ->
  (forall l, In l (Store.eld_logs db) -> Store.same_driver d l = true ->
             Timeline.duty_quarters_up db l <= bound) ->
  Timeline.cycle_quarters_up db d as_of
  <= Z.of_nat (List.length (filter (Store.same_driver d)
                                   (Store.eld_logs db))) * bound.
Proof.
  intros B H. unfold Timeline.cycle_quarters_up.
  induction (Store.eld_logs db) as [|l logs IH].
  - cbn. lia.
  - cbn [filter]. destruct (Store.same_driver d l) eqn:SD.
    + cbn [andb List.length]. rewrite Nat2Z.inj_succ.
      assert (IH' := IH (fun l0 Hl0 => H l0 (or_intror Hl0))).
      assert (Hl := H l (or_introl eq_refl) SD).
      destruct (Spec.in_window d as_of (ELDLog.log_date l)).
      * cbn [map]. rewrite Zsum_cons. lia.
      * lia.
    + cbn [andb]. apply IH. intros l0 Hl0. apply H. now right.
Qed.

(* ================================================================== *)
(** * A generated day passes the per-day checks *)

Lemma generated_rows dbF l trip day h :
  Simulator.generated dbF l trip day h ->
  exists id0 left,
    Spec.intervals dbF l
    = Simulator.layout id0 (ELDLog.id l)
        (Time.combine (ELDLog.log_date l) 6)
        (Simulator.day_segments trip day h
         ++ [Simulator.seg "off_duty" left "Off duty rest" "Truck stop"]).
Proof.
  intros [id0 G]. destruct (full_day_fill l trip day h) as (left & E & _).
  exists id0, left. rewrite G, E. reflexivity.
Qed.

Lemma generated_driving dbF l trip day h :
  Simulator.generated dbF l trip day h ->
  (Spec.driving_hours dbF l <= 11)%Q.
Proof.
  intro G. destruct (generated_rows _ _ _ _ _ G) as (id0 & left & E).
  unfold Spec.driving_hours. rewrite E, closed_total_layout, minutes_of_app.
  pose proof (day_segments_driving trip day h) as B.
  apply (hours_le_iff _ 11).
  change (Simulator.minutes_of Spec.driving
            [Simulator.seg "off_duty" left "Off duty rest" "Truck stop"])
    with 0.
  unfold Time.us_per_hour, Time.us_per_minute in *. lia.
Qed.

Lemma generated_duty_hours dbF l trip day h :
  Simulator.generated dbF l trip day h ->
  (Spec.duty_hours dbF l <= 14)%Q.
Proof.
  intro G. destruct (generated_rows _ _ _ _ _ G) as (id0 & left & E).
  unfold Spec.duty_hours.
  rewrite duty_hours_closed_total, E, closed_total_layout, minutes_of_app.
  pose proof (day_segments_on_duty trip day h) as B.
  apply (hours_le_iff _ 14).
  change (Simulator.minutes_of Spec.on_duty
            [Simulator.seg "off_duty" left "Off duty rest" "Truck stop"])
    with 0.
  unfold Time.us_per_hour, Time.us_per_minute in *. lia.
Qed.

(** The rows of a layout, each rounded up to whole steps. *)
Lemma closed_total_up_layout unit p id0 log t segs :
  Timeline.closed_total_up unit p (Simulator.layout id0 log t segs)
  = Spec.Zsum
      (map (fun s => Timeline.steps_up unit
                       (Time.minutes (Simulator.seg_minutes s)))
           (filter (fun s => p (Simulator.seg_status s)) segs)).
Proof.
  unfold Timeline.closed_total_up.
  revert id0 t. induction segs as [|s segs IH]; intros id0 t.
  - reflexivity.
  - cbn [Simulator.layout flat_map filter].
    cbn [DutyStatusRecord.end_time DutyStatusRecord.duty_status
         DutyStatusRecord.start_time].
    rewrite Zsum_app, IH.
    replace (t + Time.minutes (Simulator.seg_minutes s) - t)
      with (Time.minutes (Simulator.seg_minutes s)) by lia.
    destruct (p (Simulator.seg_status s)); cbn [map];
      rewrite ?Zsum_cons; cbn [Spec.Zsum fold_right]; lia.
Qed.

(** Bounds a rounded-up duration by the first of the given numbers of
    steps that holds it, and forgets the duration. *)
Ltac cap_by u d k :=
  let H := fresh "Cap" in
  assert (H : Timeline.steps_up u d <= k)
    by (apply steps_up_le;
        [reflexivity | lia
         | unfold Timeline.us_per_second, Timeline.us_per_quarter; lia]);
  let z := fresh "z" in
  set (z := Timeline.steps_up u d) in *; clearbody z.

Ltac cap_steps :=
  repeat match goal with
    | |- context [Timeline.steps_up Timeline.us_per_quarter ?d] =>
        first [ cap_by Timeline.us_per_quarter d 1
              | cap_by Timeline.us_per_quarter d 4
              | cap_by Timeline.us_per_quarter d 12
              | cap_by Timeline.us_per_quarter d 28
              | cap_by Timeline.us_per_quarter d 32 ]
    | |- context [Timeline.steps_up Timeline.us_per_second ?d] =>
        first [ cap_by Timeline.us_per_second d 10800
              | cap_by Timeline.us_per_second d 25200
              | cap_by Timeline.us_per_second d 28800 ]
    end.

(** The driving of a day, rounded up to whole seconds block by block,
    is at most eleven hours. *)
Lemma day_segments_driving_up (trip : Trip.t) (day : Z) (h : Q) :
  Spec.Zsum
    (map (fun s => Timeline.steps_up Timeline.us_per_second
                     (Time.minutes (Simulator.seg_minutes s)))
         (filter (fun s => Spec.driving (Simulator.seg_status s))
                 (Simulator.day_segments trip day h)))
  <= 39600.
Proof.
  shape_cases trip day h;
    seg_cbn; cap_steps; lia.
Qed.

(** The duty of a day, rounded up to quarter hours interval by
    interval, is at most twelve and a half hours. *)
Lemma day_segments_duty_up (trip : Trip.t) (day : Z) (h : Q) :
  Spec.Zsum
    (map (fun s => Timeline.steps_up Timeline.us_per_quarter
                     (Time.minutes (Simulator.seg_minutes s)))
         (filter (fun s => Spec.on_duty (Simulator.seg_status s))
                 (Simulator.day_segments trip day h)))
  <= 50.
Proof.
  shape_cases trip day h;
    seg_cbn; cap_steps; lia.
Qed.

Lemma generated_driving_up dbF l trip day h :
  Simulator.generated dbF l trip day h ->
  Timeline.driving_seconds_up dbF l <= 39600.
Proof.
  intro G. destruct (generated_rows _ _ _ _ _ G) as (id0 & left & E).
  unfold Timeline.driving_seconds_up.
  rewrite E, closed_total_up_layout, filter_app, map_app, Zsum_app.
  pose proof (day_segments_driving_up trip day h) as B.
  cbn [filter Simulator.seg_status Spec.driving String.eqb Ascii.eqb
       Bool.eqb map Spec.Zsum fold_right].
  lia.
Qed.

Lemma generated_duty_up dbF l trip day h :
  Simulator.generated dbF l trip day h ->
  Timeline.duty_quarters_up dbF l <= 50.
Proof.
  intro G. destruct (generated_rows _ _ _ _ _ G) as (id0 & left & E).
  unfold Timeline.duty_quarters_up.
  rewrite E, closed_total_up_layout, filter_app, map_app, Zsum_app.
  pose proof (day_segments_duty_up trip day h) as B.
  cbn [filter Simulator.seg_status Spec.on_duty String.eqb Ascii.eqb
       Bool.eqb orb map Spec.Zsum fold_right].
  lia.
Qed.

(** The duty intervals of a generated day lie between 06:00 and 19:00. *)
Lemma generated_duties dbF l trip day h r :
  Simulator.generated dbF l trip day h ->
  In r (Spec.duties dbF l) ->
  exists e, DutyStatusRecord.end_time r = Some e
            /\ Time.combine (ELDLog.log_date l) 6
               <= DutyStatusRecord.start_time r
            /\ e <= Time.combine (ELDLog.log_date l) 6
                    + 13 * Time.us_per_hour.
Proof.
  intros G Hr. destruct (generated_rows _ _ _ _ _ G) as (id0 & left & E).
  unfold Spec.duties in Hr. apply filter_In in Hr. destruct Hr as [Hr D].
  rewrite E, layout_app in Hr. apply in_app_or in Hr.
  destruct Hr as [Hr|Hr].
  - rewrite <- (Z.add_0_r (Time.combine _ 6)) in Hr.
    destruct (layout_within _ _ _ _ _ _ _
                (day_segments_within trip day h) Hr) as (S0 & e & Ee & B).
    exists e. split; [exact Ee|]. split; [exact S0|].
    unfold Time.us_per_hour, Time.us_per_minute in *. lia.
  - cbn [Simulator.layout In] in Hr. destruct Hr as [<-|[]].
    discriminate D.
Qed.

Lemma driving_rows_of_day id0 log t0 trip day h left :
  Simulator.driving_rows_ok
    (filter (HOSService.has_status "driving")
       (Simulator.layout id0 log t0
          (Simulator.day_segments trip day h
           ++ [Simulator.seg "off_duty" left "Off duty rest" "Truck stop"]))).
Proof.
  unfold Simulator.driving_rows_ok.
  shape_cases trip day h;
    cbn [app Simulator.layout filter HOSService.has_status
         DutyStatusRecord.duty_status Simulator.seg_status
         Simulator.seg_minutes Simulator.seg_notes Simulator.seg_location
         Simulator.pre_trip Simulator.pickup Simulator.drive
         Simulator.meal_break Simulator.dropoff Simulator.post_trip
         String.eqb Ascii.eqb Bool.eqb andb];
    rewrite ?minutes_15, ?minutes_30, ?minutes_60;
    first
      [ left; reflexivity
      | right; left; eexists _, _;
        split; [reflexivity|]; split; [reflexivity|];
        cbn [DutyStatusRecord.start_time]; lia
      | right; right; eexists _, _, _, _;
        split; [reflexivity|]; split; [reflexivity|];
        split; [cbn [DutyStatusRecord.start_time]; lia|];
        split; [cbn [DutyStatusRecord.start_time]; lia|];
        split; [reflexivity|];
        cbn [DutyStatusRecord.start_time]; lia ].
Qed.

Lemma hours_not_over (d : Time.timedelta) (acc : Q) :
  (acc == 0)%Q -> d <= 480 * Time.us_per_minute ->
  Qgtb (Float64.add acc (Float64.div (Float64.total_seconds d) 3600))
       HOSService.BREAK_REQUIREMENT_HOURS
  = false.
Proof.
  intros A H. apply Qgtb_le.
  change (Float64.div (Float64.total_seconds d) 3600)
    with (Float64.hours d).
  unfold HOSService.BREAK_REQUIREMENT_HOURS, Float64.add.
  assert (L : (Float64.hours d <= inject_Z 8)%Q).
  { apply hours_le_int; [lia|].
    unfold Time.us_per_hour, Time.us_per_minute in *. lia. }
  change 8%Q with (inject_Z 8). apply round_le_int; [lia|].
  rewrite A. lra.
Qed.

(** The break check passes on such driving rows, in start order. *)
Lemma break_loop_rows_ok (sorted rows : list DutyStatusRecord.t) :
  Permutation sorted rows ->
  StronglySorted (fun x y => Store.start_leb x y = true) sorted ->
  Simulator.driving_rows_ok rows ->
  HOSService.break_loop sorted 0 None = None.
Proof.
  intros P S [->|[(d1 & e1 & -> & E1 & B1)
                 |(d1 & d2 & e1 & e2 & -> & E1 & B1 & S2 & E2 & B2)]].
  - apply Permutation_sym, Permutation_nil in P. subst. reflexivity.
  - apply Permutation_sym, Permutation_length_1_inv in P. subst.
    cbn [HOSService.break_loop]. rewrite E1.
    rewrite hours_not_over; [reflexivity | reflexivity | exact B1].
  - apply Permutation_sym, Permutation_length_2_inv in P.
    destruct P as [->| ->].
    + cbn [HOSService.break_loop]. rewrite E1.
      rewrite hours_not_over; [|reflexivity | lia].
      rewrite E2.
      assert (G : (Time.minutes 30
                   <=? DutyStatusRecord.start_time d2 - e1) = true).
      { apply Z.leb_le. rewrite minutes_30.
        unfold Time.us_per_minute in *. lia. }
      rewrite G.
      rewrite hours_not_over; [reflexivity | reflexivity|].
      unfold Time.us_per_minute in *. lia.
    + exfalso. inversion S as [|? ? _ F]; subst.
      inversion F as [|? ? L _]; subst.
      unfold Store.start_leb in L. apply Z.leb_le in L.
      unfold Time.us_per_minute in *. lia.
Qed.

Lemma filter_sorted {A} (R : A -> A -> Prop) (q : A -> bool) (l : list A) :
  StronglySorted R l -> StronglySorted R (filter q l).
Proof.
  induction 1 as [|x l S IH F]; simpl; [constructor|].
  destruct (q x); [|exact IH].
  constructor; [exact IH|].
  apply Forall_forall. intros y Hy. apply filter_In in Hy.
  rewrite Forall_forall in F. apply F, Hy.
Qed.

Lemma generated_break dbF l trip day h :
  Simulator.generated dbF l trip day h ->
  HOSService.break_loop
    (order_by Store.start_leb
       (filter (HOSService.has_status "driving")
               (Store.duty_records_of dbF l))) 0 None = None.
Proof.
  intro G. destruct (generated_rows _ _ _ _ _ G) as (id0 & left & E).
  apply (break_loop_rows_ok _
           (filter (HOSService.has_status "driving") (Spec.intervals dbF l))).
  - eapply perm_trans; [apply order_by_perm|].
    apply filter_perm. apply order_by_perm.
  - apply order_by_sorted; [apply start_leb_total | apply start_leb_trans].
  - rewrite E. apply driving_rows_of_day.
Qed.

(** Between the duty intervals of two consecutive generated days lie at
    least eleven hours. *)
Lemma generated_rest dbF prev l trip day h trip' day' h' :
  Simulator.generated dbF prev trip' day' h' ->
  Simulator.generated dbF l trip day h ->
  Store.get_log dbF (ELDLog.driver l) (ELDLog.log_date l - 1) = Some prev ->
  ELDLog.log_date prev = ELDLog.log_date l - 1 ->
  forall g, Spec.rest_gap dbF l g -> 10 * Time.us_per_hour <= g.
Proof.
  intros Gp Gl Get D g (prev0 & p & c & e & Get' & [Hp _] & Ep & [Hc _] & ->).
  assert (prev0 = prev) by congruence. subst prev0.
  destruct (generated_duties _ _ _ _ _ _ Gp Hp) as (e' & Ee & _ & Bp).
  destruct (generated_duties _ _ _ _ _ _ Gl Hc) as (_ & _ & Sc & _).
  assert (e' = e) by congruence. subst e'.
  rewrite D in Bp.
  unfold Time.combine, Time.us_per_day, Time.us_per_hour in *. lia.
Qed.

Lemma no_previous_log_no_gap dbF l :
  Store.get_log dbF (ELDLog.driver l) (ELDLog.log_date l - 1) = None ->
  forall g, Spec.rest_gap dbF l g -> 10 * Time.us_per_hour <= g.
Proof.
  intros N g (prev & _ & _ & _ & Get & _). congruence.
Qed.

(* ================================================================== *)
(** * The trip schedule simulator: the days of a trip *)

Lemma py_int_nonneg (x : Q) : (0 <= x)%Q -> py_int x = Qfloor x.
Proof.
  intro H. unfold py_int, Qfloor. destruct x as [n d].
  unfold Qle in H. simpl in *. apply Z.quot_div_nonneg; lia.
Qed.

Lemma py_int_unit (x : Q) : (0 <= x)%Q -> (x < 1)%Q -> py_int x = 0.
Proof.
  intros H0 H1. rewrite py_int_nonneg by exact H0.
  pose proof (Qfloor_le x) as L. pose proof (Qlt_floor x) as U.
  assert (A : (inject_Z (Qfloor x) < inject_Z 1)%Q)
    by (change (inject_Z 1) with 1%Q; lra).
  assert (B : (inject_Z (-1) < inject_Z (Qfloor x))%Q).
  { rewrite inject_Z_plus in U. change (inject_Z 1) with 1%Q in U.
    change (inject_Z (-1)) with (-1)%Q. lra. }
  rewrite <- Zlt_Qlt in A, B. lia.
Qed.

Lemma py_int_comp (x y : Q) :
  (0 <= x)%Q -> (x == y)%Q -> py_int x = py_int y.
Proof.
  intros H E. rewrite !py_int_nonneg by (try rewrite <- E; exact H).
  apply Qfloor_comp, E.
Qed.

Lemma find_app {A} (f : A -> bool) (a b : list A) :
  find f (a ++ b)
  = match find f a with Some x => Some x | None => find f b end.
Proof.
  induction a as [|x a IH]; simpl; [reflexivity|].
  destruct (f x); [reflexivity | exact IH].
Qed.

Lemma get_log_no_log_of db d day :
  Simulator.no_log_of db d -> Store.get_log db d day = None.
Proof.
  intro N. unfold Store.get_log.
  destruct (find _ (Store.eld_logs db)) as [l|] eqn:F; [|reflexivity].
  apply find_some in F. destruct F as [Hin Hf].
  rewrite (N l Hin) in Hf. discriminate.
Qed.

(** One iteration of the loop for a day that has no log yet. *)
Lemma generate_days_step trip h sd day rest logs db :
  Store.get_log db (Trip.driver trip) (sd + day) = None ->
  HOSService.generate_days trip h sd (day :: rest) logs db
  = HOSService.generate_days trip h sd rest
      (logs ++ [fst (Simulator.next_day db trip (sd + day) day h)])
      (snd (Simulator.next_day db trip (sd + day) day h)).
Proof.
  intro G. cbn [HOSService.generate_days]. unfold Store.bind at 1.
  unfold HOSService.get_or_create_log, Time.days. rewrite G.
  cbn [negb andb]. unfold Store.bind at 1. unfold Store.ret at 1.
  unfold Store.bind at 1.
  change (Store.mk (Store.eld_logs db ++ [_]) _ _ _ _)
    with (Simulator.with_log db (Simulator.new_log db trip (sd + day))).
  change (ELDLog.mk (Store.uuid4 db) _ _ _ _ _ _ _ _ _ _ _)
    with (Simulator.new_log db trip (sd + day)).
  rewrite generate_day_run
    by (rewrite uuid4_with_log by reflexivity; simpl; lia).
  reflexivity.
Qed.

Lemma intervals_new_log db trip date :
  Spec.intervals db (Simulator.new_log db trip date) = [].
Proof.
  unfold Spec.intervals. apply filter_none. intros r Hr.
  pose proof (uuid4_gt_record_log db r Hr).
  cbn [Simulator.new_log ELDLog.id]. lia.
Qed.

(** The new log's intervals are the rows of its day. *)
Lemma next_day_generated db trip date day h :
  Simulator.generated (snd (Simulator.next_day db trip date day h))
    (fst (Simulator.next_day db trip date day h)) trip day h.
Proof.
  unfold Simulator.next_day. cbn [fst snd].
  set (l := Simulator.new_log db trip date).
  exists (Store.uuid4 (Simulator.with_log db l)).
  rewrite intervals_fresh_day.
  - reflexivity.
  - exact (intervals_new_log db trip date).
Qed.

(** Generating a further day leaves the days of the logs in the store
    as they were. *)
Lemma next_day_keeps_generated db trip date day h l2 trip2 day2 h2 :
  In l2 (Store.eld_logs db) ->
  Simulator.generated db l2 trip2 day2 h2 ->
  Simulator.generated (snd (Simulator.next_day db trip date day h))
    l2 trip2 day2 h2.
Proof.
  intros Hin [id0 G]. exists id0. rewrite <- G.
  unfold Simulator.next_day. cbn [fst snd].
  rewrite intervals_with_records.
  rewrite (filter_none _ (Simulator.day_records _ _ _ _ _)).
  - rewrite app_nil_r. reflexivity.
  - intros r Hr. unfold Simulator.day_records in Hr.
    rewrite (layout_log _ _ _ _ _ Hr).
    pose proof (uuid4_gt_log db l2 Hin).
    cbn [Simulator.new_log ELDLog.id]. lia.
Qed.

Lemma next_day_logs db trip date day h :
  Store.eld_logs (snd (Simulator.next_day db trip date day h))
  = Store.eld_logs db ++ [fst (Simulator.next_day db trip date day h)].
Proof. reflexivity. Qed.

Lemma next_day_log_fields db trip date day h :
  let l := fst (Simulator.next_day db trip date day h) in
  ELDLog.driver l = Trip.driver trip /\ ELDLog.log_date l = date.
Proof. split; reflexivity. Qed.

Lemma filter_same_driver_none db d :
  Simulator.no_log_of db d ->
  filter (Store.same_driver d) (Store.eld_logs db) = [].
Proof. intro N. apply filter_none. exact N. Qed.

Lemma same_driver_refl (d : Driver.t) (l : ELDLog.t) :
  ELDLog.driver l = d -> Store.same_driver d l = true.
Proof. intros <-. unfold Store.same_driver. apply Z.eqb_refl. Qed.

Lemma get_log_next_day db trip date day h day' :
  Store.get_log (snd (Simulator.next_day db trip date day h))
    (Trip.driver trip) day'
  = match Store.get_log db (Trip.driver trip) day' with
    | Some found => Some found
    | None =>
        if date =? day'
        then Some (fst (Simulator.next_day db trip date day h)) else None
    end.
Proof.
  unfold Store.get_log in *.
  rewrite next_day_logs, find_app.
  destruct (find _ (Store.eld_logs db)); [reflexivity|].
  cbn [find].
  rewrite same_driver_refl by reflexivity.
  cbn [andb Simulator.next_day fst Simulator.new_log ELDLog.log_date].
  destruct (date =? day'); reflexivity.
Qed.

(** A generated day passes the detector when the driver has few logs,
    each with at most twelve and a half duty hours counted in quarter
    hours, and the rest before the day is long enough. *)
Lemma generated_no_violations dbF l trip day h :
  Simulator.generated dbF l trip day h ->
  (forall l', In l' (Store.eld_logs dbF) ->
     Store.same_driver (ELDLog.driver l) l' = true ->
     Timeline.duty_quarters_up dbF l' <= 50) ->
  (List.length (filter (Store.same_driver (ELDLog.driver l))
                       (Store.eld_logs dbF)) <= 4)%nat ->
  (forall g, Spec.rest_gap dbF l g -> 10 * Time.us_per_hour <= g) ->
  HOSService.check_hos_violations l dbF = (Ok [], dbF).
Proof.
  intros G B N Rg.
  apply (no_violations l dbF (Time.combine (ELDLog.log_date l) 6)).
  - exact (generated_driving_up _ _ _ _ _ G).
  - intros r Hr.
    destruct (generated_duties _ _ _ _ _ _ G Hr) as (e & E & S0 & S1).
    exists e. split; [exact E|]. split; [exact S0|].
    unfold Time.us_per_hour in *. lia.
  - pose proof (cycle_quarters_bound dbF (ELDLog.driver l)
                  (ELDLog.log_date l) 50 ltac:(lia) B) as C.
    nia.
  - exact (generated_break _ _ _ _ _ G).
  - exact Rg.
Qed.

Lemma end_of_total t segs :
  Simulator.end_of t segs
  = t + Simulator.minutes_of (fun _ => true) segs.
Proof.
  unfold Simulator.minutes_of, Simulator.end_of.
  revert t. induction segs as [|s segs IH]; intro t; simpl; [lia|].
  rewrite IH. lia.
Qed.

Lemma views_layout l id0 acc segs :
  map (Simulator.view l)
      (Simulator.layout id0 (ELDLog.id l)
         (Time.combine (ELDLog.log_date l) 6 + acc) segs)
  = Simulator.views acc segs.
Proof.
  revert id0 acc. induction segs as [|s segs IH]; intros id0 acc.
  - reflexivity.
  - cbn [Simulator.layout map Simulator.views].
    rewrite <- Z.add_assoc, IH. f_equal.
    unfold Simulator.view, DutyStatusRecord.duration. simpl.
    f_equal; [f_equal|]; lia.
Qed.

Lemma views_app acc a b :
  Simulator.views acc (a ++ b)
  = Simulator.views acc a
    ++ Simulator.views (acc + Simulator.minutes_of (fun _ => true) a) b.
Proof.
  revert acc. induction a as [|s a IH]; intro acc.
  - simpl. unfold Simulator.minutes_of. simpl. rewrite Z.add_0_r.
    reflexivity.
  - cbn [app Simulator.views]. rewrite IH. f_equal. f_equal. f_equal.
    unfold Simulator.minutes_of. simpl. lia.
Qed.

(** The schedule of a generated day, read from the store in the log's
    order: the day's segments, then the rest until midnight. *)
Lemma generated_views dbF l trip day h :
  Simulator.generated dbF l trip day h ->
  Simulator.first_hour_covered day h ->
  let segs := Simulator.day_segments trip day h in
  let total := Simulator.minutes_of (fun _ => true) segs in
  map (Simulator.view l) (Store.duty_records_of dbF l)
  = Simulator.views 0 segs
    ++ [("off_duty", total, 1080 * Time.us_per_minute - total)].
Proof.
  intros [id0 G] FH segs total.
  assert (T := full_day_tiles l trip day h id0 FH).
  change (Store.duty_records_of dbF l)
    with (order_by Store.start_leb (Spec.intervals dbF l)).
  rewrite G. rewrite (order_by_sorted_id _ _ (tiles_sorted _ _ _ T)).
  destruct (full_day_fill l trip day h) as (left & E & M & _).
  rewrite E.
  rewrite <- (Z.add_0_r (Time.combine (ELDLog.log_date l) 6)) at 1.
  rewrite views_layout, views_app. f_equal.
  cbn [Simulator.views Simulator.seg_status Simulator.seg_minutes].
  rewrite M, end_of_total, combine_next_day. fold segs. fold total.
  apply (f_equal2 cons); [|reflexivity].
  apply (f_equal2 pair); [apply (f_equal2 pair); [reflexivity|]|]; lia.
Qed.

Lemma hours_in_first_day (h : Q) :
  (0 < h)%Q -> (h < 11)%Q -> py_int (h / 11) = 0.
Proof.
  intros H0 H1. apply py_int_unit.
  - apply Qle_shift_div_l; [reflexivity | lra].
  - apply Qlt_shift_div_r; [reflexivity | lra].
Qed.

(* ================================================================== *)
(** * The [duration] property *)

Lemma total_duration_closed (rs : list DutyStatusRecord.t) :
  Spec.total_duration rs = Spec.total_duration (filter Spec.is_closed rs).
Proof.
  unfold Spec.total_duration.
  induction rs as [|r rs IH]; simpl; [reflexivity|].
  unfold Spec.is_closed, Spec.is_open, DutyStatusRecord.duration at 1.
  destruct (DutyStatusRecord.end_time r) eqn:E; simpl.
  - unfold DutyStatusRecord.duration at 2. rewrite E, IH. reflexivity.
  - exact IH.
Qed.

(** C10.  An open record (null [end_time]) has duration [timedelta(0)], a
    closed record has duration [end_time - start_time]; hence a total
    computed through the property counts the closed records only, and
    appending an open record leaves it unchanged. *)
Theorem duration_open_closed :
  (forall r : DutyStatusRecord.t,
      DutyStatusRecord.duration (DutyStatusRecord.with_end_time r None) = 0)
  /\ (forall (r : DutyStatusRecord.t) (e : Time.datetime),
         DutyStatusRecord.duration
           (DutyStatusRecord.with_end_time r (Some e))
         = e - DutyStatusRecord.start_time r)
  /\ (forall rs : list DutyStatusRecord.t,
         Spec.total_duration rs
         = Spec.total_duration (filter Spec.is_closed rs))
  /\ (forall (rs : list DutyStatusRecord.t) (r : DutyStatusRecord.t),
         Spec.total_duration
           (rs ++ [DutyStatusRecord.with_end_time r None])
         = Spec.total_duration rs).
Proof.
  split; [reflexivity|].
  split; [reflexivity|].
  split; [exact total_duration_closed|].
  intros rs r. unfold Spec.total_duration.
  induction rs as [|x rs IH]; simpl.
  - reflexivity.
  - rewrite IH. reflexivity.
Qed.

(* ================================================================== *)
(** * Appending through the mutator *)

(** C1, as stated, fails: the log's last interval starts at 08:00, the
    append starts at 07:00, and the mutator returns a record and adds a
    row instead of raising [InvalidTransition]. *)
Lemma out_of_order_append_is_accepted :
  let db := Examples.db_closed in
  let run :=
    HOSService.create_duty_status_record Examples.log_a "off_duty"
      (Examples.at_ 7 0) "" None None "" None db in
  (exists last,
      qs_last (Store.duty_records_of db Examples.log_a) = Some last
      /\ Examples.at_ 7 0 < DutyStatusRecord.start_time last)
  /\ fst run <> Raise InvalidTransition
  /\ (exists record log', fst run = Ok (record, log'))
  /\ List.length (Store.duty_records (snd run))
     = S (List.length (Store.duty_records db)).
Proof.
  cbv zeta. split.
  - eexists. split; [reflexivity|]. vm_compute. reflexivity.
  - split; [vm_compute; discriminate|].
    split; [|vm_compute; reflexivity].
    eexists _, _. vm_compute. reflexivity.
Qed.

(** C1, amended.  The mutator has no ordering check: for every log and
    every start time, before the last interval's start or not, the call
    returns the new open record, which is a row of the store afterwards. *)
Theorem append_never_rejected db log status start loc lat lng notes odo :
  exists record log' db',
    HOSService.create_duty_status_record log status start loc lat lng
      notes odo db = (Ok (record, log'), db')
    /\ In record (Spec.intervals db' log)
    /\ DutyStatusRecord.duty_status record = status
    /\ DutyStatusRecord.start_time record = start
    /\ DutyStatusRecord.end_time record = None.
Proof.
  destruct (create_duty_status_record_run db log status start loc lat lng
              notes odo) as (log' & db' & E & R & _).
  eexists _, log', db'. split; [exact E|].
  split; [|repeat split].
  unfold Spec.intervals. rewrite R. apply filter_In. split.
  - apply in_or_app. right. now left.
  - simpl. apply Z.eqb_refl.
Qed.

(** C5.  After a call of the mutator the stored log carries the four
    totals recomputed from its closed intervals: driving; driving and
    on-duty-not-driving; off-duty; sleeper berth.  Open intervals add
    nothing to any of them. *)
Theorem mutator_writes_through_totals
    db log status start loc lat lng notes odo :
  exists record log' db',
    HOSService.create_duty_status_record log status start loc lat lng
      notes odo db = (Ok (record, log'), db')
    /\ ELDLog.id log' = ELDLog.id log
    /\ Spec.stored db' log'
    /\ Spec.cache_consistent db' log'
    /\ forall p,
         Spec.closed_total p (Spec.intervals db' log')
         = Spec.closed_total p
             (filter Spec.is_closed (Spec.intervals db' log')).
Proof.
  destruct (create_duty_status_record_run db log status start loc lat lng
              notes odo) as (log' & db' & E & _ & I & S & C).
  eexists _, log', db'. repeat (split; [eassumption|]).
  intro p. generalize (Spec.intervals db' log'). intro rs.
  induction rs as [|r rs IH]; [reflexivity|].
  rewrite closed_total_cons, IH, closed_total_single. simpl.
  unfold Spec.is_closed, Spec.is_open.
  destruct (DutyStatusRecord.end_time r) eqn:Er; simpl.
  - rewrite (closed_total_cons p r), closed_total_single, Er. reflexivity.
  - reflexivity.
Qed.

(* ================================================================== *)
(** * The open-interval invariant *)

Lemma intervals_same_id db l l' :
  ELDLog.id l = ELDLog.id l' -> Spec.intervals db l = Spec.intervals db l'.
Proof. unfold Spec.intervals. intros ->. reflexivity. Qed.

Lemma open_intervals_same_id db l l' :
  ELDLog.id l = ELDLog.id l' ->
  Spec.open_intervals db l = Spec.open_intervals db l'.
Proof.
  intro H. unfold Spec.open_intervals.
  rewrite (intervals_same_id db l l' H). reflexivity.
Qed.

Lemma open_intervals_after_append db1 db' (record : DutyStatusRecord.t) l :
  Store.duty_records db' = Store.duty_records db1 ++ [record] ->
  DutyStatusRecord.end_time record = None ->
  Spec.open_intervals db' l
  = Spec.open_intervals db1 l
    ++ (if DutyStatusRecord.eld_log record =? ELDLog.id l
        then [record] else []).
Proof.
  intros R E. unfold Spec.open_intervals, Spec.intervals.
  rewrite R, !filter_app. f_equal. simpl.
  destruct (DutyStatusRecord.eld_log record =? ELDLog.id l);
    [|reflexivity].
  simpl. unfold Spec.is_open. rewrite E. reflexivity.
Qed.

(** C6.  Every operation keeps a log with at most one open interval in
    that state: the mutator (applied to this or to another log), the
    simulator's [_add_duty_record] and [generate_trip_eld_logs], and the
    detector.  When the mutator appends to the log, the open interval, if
    there is one, gets the new interval's start as its end; the log has
    no open interval left at that point, then the new row is added and is
    the log's only open interval. *)
Theorem open_interval_invariant (db : Store.DB) (log : ELDLog.t)
    (H : Spec.at_most_one_open db log) :
  (forall log2 status start loc lat lng notes odo,
      exists record log' db',
        HOSService.create_duty_status_record log2 status start loc lat lng
          notes odo db = (Ok (record, log'), db')
        /\ Spec.at_most_one_open db' log)
  /\ (forall status start loc lat lng notes odo,
         exists record log' db',
           HOSService.create_duty_status_record log status start loc lat lng
             notes odo db = (Ok (record, log'), db')
           /\ Spec.open_intervals (Mutator.close_open db log start) log = []
           /\ Store.duty_records db'
              = Store.duty_records (Mutator.close_open db log start)
                ++ [record]
           /\ DutyStatusRecord.start_time record = start
           /\ Spec.open_intervals db' log = [record]
           /\ forall p, In p (Spec.open_intervals db log) ->
                In (DutyStatusRecord.with_end_time p (Some start))
                   (Spec.intervals db' log))
  /\ (forall log2 status t m notes loc,
         exists t' db',
           HOSService._add_duty_record log2 status t m notes loc db
           = (Ok t', db')
           /\ Spec.at_most_one_open db' log)
  /\ (forall trip,
         exists out db',
           HOSService.generate_trip_eld_logs trip db = (out, db')
           /\ Spec.at_most_one_open db' log)
  /\ (forall log2,
         exists found db',
           HOSService.check_hos_violations log2 db = (Ok found, db')
           /\ Spec.at_most_one_open db' log).
Proof.
  split; [|split; [|split; [|split]]].
  - intros log2 status start loc lat lng notes odo.
    destruct (create_duty_status_record_run db log2 status start loc lat lng
                notes odo) as (log' & db' & E & R & _).
    eexists _, log', db'. split; [exact E|].
    unfold Spec.at_most_one_open.
    rewrite (open_intervals_after_append _ _ _ log R eq_refl).
    rewrite length_app. cbn [DutyStatusRecord.eld_log Mutator.new_record].
    destruct (Z.eqb_spec (ELDLog.id log2) (ELDLog.id log)) as [I|I].
    + rewrite <- (open_intervals_same_id _ log2 log I).
      assert (H2 : Spec.at_most_one_open db log2).
      { unfold Spec.at_most_one_open.
        rewrite (open_intervals_same_id _ log2 log I). exact H. }
      destruct (close_open_closes db log2 start H2) as [-> _]. simpl. lia.
    + pose proof (close_open_shrinks db log2 start log).
      unfold Spec.at_most_one_open in H. simpl. lia.
  - intros status start loc lat lng notes odo.
    destruct (create_duty_status_record_run db log status start loc lat lng
                notes odo) as (log' & db' & E & R & _).
    destruct (close_open_closes db log start H) as [C P].
    eexists _, log', db'. split; [exact E|]. split; [exact C|].
    split; [exact R|]. split; [reflexivity|]. split.
    + rewrite (open_intervals_after_append _ _ _ log R eq_refl), C.
      cbn [DutyStatusRecord.eld_log Mutator.new_record].
      rewrite Z.eqb_refl. reflexivity.
    + intros p Hp. unfold Spec.intervals. rewrite R, filter_app.
      apply in_or_app. left. exact (P p Hp).
  - intros log2 status t m notes loc. eexists _, _.
    split; [reflexivity|].
    unfold Spec.at_most_one_open, Spec.open_intervals, Spec.intervals.
    simpl. rewrite !filter_app. simpl.
    destruct (_ =? _); simpl; rewrite app_nil_r; exact H.
  - intro trip. destruct (Trip.route trip) as [route|] eqn:R.
    + destruct (generate_trip_frame trip route db R)
        as (logs & db' & E & _ & O).
      exists (Ok logs), db'. split; [exact E|].
      unfold Spec.at_most_one_open. rewrite O. exact H.
    + exists (Raise RelatedObjectDoesNotExist), db.
      unfold HOSService.generate_trip_eld_logs. rewrite R.
      split; [reflexivity | exact H].
  - intro log2.
    destruct (check_hos_violations_shape log2 db)
      as (o1 & o2 & o3 & o4 & o5 & E & _).
    eexists _, _. split; [exact E | exact H].
Qed.

Lemma open_interval_invariant_witness :
  Spec.at_most_one_open Examples.db_open Examples.log_a
  /\ exists record log' db',
       HOSService.create_duty_status_record Examples.log_a "driving"
         (Examples.at_ 10 0) "" None None "" None Examples.db_open
       = (Ok (record, log'), db')
       /\ Spec.open_intervals db' Examples.log_a = [record]
       /\ In (Examples.interval 12 10 "on_duty_not_driving"
                (Examples.at_ 9 0) (Some (Examples.at_ 10 0)))
             (Spec.intervals db' Examples.log_a).
Proof.
  assert (W : Spec.at_most_one_open Examples.db_open Examples.log_a).
  { unfold Spec.at_most_one_open. simpl. lia. }
  split; [exact W|].
  destruct (open_interval_invariant Examples.db_open Examples.log_a W)
    as (_ & M & _).
  destruct (M "driving" (Examples.at_ 10 0) "" None None "" None)
    as (record & log' & db' & E & _ & _ & _ & O & P).
  exists record, log', db'. split; [exact E|]. split; [exact O|].
  apply (P (Examples.interval 12 10 "on_duty_not_driving"
              (Examples.at_ 9 0) None)).
  simpl. now left.
Defined.

(* ================================================================== *)
(** * The simulator's days *)

(** C9, as stated, fails: the simulator starts every day at 06:00, so the
    first interval of a generated day starts at 06:00 and the intervals
    do not cover the day from 00:00. *)
Lemma generated_day_starts_at_six :
  let db := SimulatorExamples.db_fresh in
  let run :=
    HOSService._generate_daily_duty_records Examples.log_a
      (SimulatorExamples.trip_of 5) 0 5 db in
  let rs := Store.duty_records_of (snd run) Examples.log_a in
  fst run = Ok tt
  /\ (exists r rest,
        rs = r :: rest
        /\ DutyStatusRecord.start_time r = Time.combine 19000 6)
  /\ ~ Spec.tiles (Time.combine 19000 0) (Time.combine 19001 0) rs.
Proof.
  cbv zeta. split; [reflexivity|].
  assert (E : exists r rest,
             Store.duty_records_of
               (snd (HOSService._generate_daily_duty_records Examples.log_a
                       (SimulatorExamples.trip_of 5) 0 5
                       SimulatorExamples.db_fresh)) Examples.log_a
             = r :: rest
             /\ DutyStatusRecord.start_time r = Time.combine 19000 6).
  { eexists _, _. split; vm_compute; reflexivity. }
  split; [exact E|].
  destruct E as (r & rest & -> & S). intro T.
  cbn [Spec.tiles] in T. destruct T as [S0 _].
  rewrite S in S0. vm_compute in S0. discriminate.
Qed.

(** The case left out below: on day 0 of a half-hour trip the pickup hour
    exceeds the trip, the driving block runs from 07:15 back to 06:45, and
    the post-trip inspection overlaps the pickup. *)
Example short_first_day_overlaps :
  let run :=
    HOSService._generate_daily_duty_records Examples.log_a
      (SimulatorExamples.trip_of (1 # 2)) 0 (1 # 2)
      SimulatorExamples.db_fresh in
  map (Simulator.view Examples.log_a) (Spec.intervals (snd run) Examples.log_a)
  = [Simulator.entry "on_duty_not_driving" 0 15;
     Simulator.entry "on_duty_not_driving" 15 60;
     Simulator.entry "driving" 75 (-30);
     Simulator.entry "on_duty_not_driving" 45 15;
     Simulator.entry "off_duty" 60 1020].
Proof. vm_compute. reflexivity. Qed.

(** C9, amended.  For every generated day, other than day 0 of a trip of
    less than one hour, the log's intervals, in the log's order, are all
    closed, do not overlap, each starts where the one before ends, and
    they cover the day from 06:00, where the simulator starts it, to
    24:00 without a gap. *)
Theorem generated_day_tiles_from_six (db : Store.DB) (log : ELDLog.t)
    (trip : Trip.t) (day : Z) (h : Q)
    (Hlog : In log (Store.eld_logs db))
    (Hfresh : Spec.intervals db log = [])
    (Hfirst : Simulator.first_hour_covered day h) :
  exists db',
    HOSService._generate_daily_duty_records log trip day h db = (Ok tt, db')
    /\ Store.duty_records_of db' log = Spec.intervals db' log
    /\ Spec.tiles (Time.combine (ELDLog.log_date log) 6)
         (Time.combine (ELDLog.log_date log + 1) 0)
         (Store.duty_records_of db' log)
    /\ Spec.non_overlapping (Store.duty_records_of db' log)
    /\ Forall (fun r => Spec.is_closed r = true)
         (Store.duty_records_of db' log).
Proof.
  eexists. split; [apply generate_day_run, uuid4_gt_log, Hlog|].
  assert (T := full_day_tiles log trip day h (Store.uuid4 db) Hfirst).
  fold (Simulator.day_records db log trip day h) in T.
  assert (S : Store.duty_records_of
                (with_records db (Simulator.day_records db log trip day h))
                log
              = Simulator.day_records db log trip day h).
  { change (Store.duty_records_of ?d ?l)
      with (order_by Store.start_leb (Spec.intervals d l)).
    rewrite (intervals_fresh_day _ _ _ _ _ Hfresh).
    apply order_by_sorted_id. exact (tiles_sorted _ _ _ T). }
  rewrite S, (intervals_fresh_day _ _ _ _ _ Hfresh).
  split; [reflexivity|]. split; [exact T|].
  split; [exact (tiles_non_overlapping _ _ _ T) | exact (tiles_closed _ _ _ T)].
Qed.

Lemma generated_day_tiles_from_six_witness :
  In Examples.log_a (Store.eld_logs SimulatorExamples.db_fresh)
  /\ Spec.intervals SimulatorExamples.db_fresh Examples.log_a = []
  /\ Simulator.first_hour_covered 0 5
  /\ exists db',
       HOSService._generate_daily_duty_records Examples.log_a
         (SimulatorExamples.trip_of 5) 0 5 SimulatorExamples.db_fresh
       = (Ok tt, db')
       /\ Spec.tiles (Time.combine 19000 6) (Time.combine 19001 0)
            (Store.duty_records_of db' Examples.log_a).
Proof.
  assert (H1 : In Examples.log_a (Store.eld_logs SimulatorExamples.db_fresh))
    by (simpl; now left).
  assert (H2 : Spec.intervals SimulatorExamples.db_fresh Examples.log_a = [])
    by reflexivity.
  assert (H3 : Simulator.first_hour_covered 0 5)
    by (intros _ _; vm_compute; discriminate).
  split; [exact H1|]. split; [exact H2|]. split; [exact H3|].
  destruct (generated_day_tiles_from_six SimulatorExamples.db_fresh
              Examples.log_a (SimulatorExamples.trip_of 5) 0 5 H1 H2 H3)
    as (db' & E & _ & T & _).
  exists db'. split; [exact E | exact T].
Defined.

(* ================================================================== *)
(** * Trips of less than eleven hours, and the number of days *)

Lemma generate_trip_unfold trip route db :
  Trip.route trip = Some route ->
  HOSService.generate_trip_eld_logs trip db
  = HOSService.generate_days trip
      (RouteCalculation.estimated_duration_hours route)
      (Simulator.start_date db trip)
      (HOSService.py_range
         (Z.max 1
            (py_int (RouteCalculation.estimated_duration_hours route / 11)
             + 1))) [] db.
Proof.
  intro R. unfold HOSService.generate_trip_eld_logs. rewrite R. reflexivity.
Qed.

(** C2, as stated, fails at the upper end of the interval: a trip of
    exactly 11 hours gets [int(11 / 11) + 1 = 2] logs, not one. *)
Lemma eleven_hour_trip_takes_two_days :
  let run :=
    HOSService.generate_trip_eld_logs (SimulatorExamples.trip_of 11)
      SimulatorExamples.db_empty in
  exists logs, fst run = Ok logs /\ List.length logs = 2%nat.
Proof. cbv zeta. eexists. split; vm_compute; reflexivity. Qed.

(** C2, amended.  For every [total_trip_hours] in the open interval
    (0, 11) and a driver without logs in the store, the simulator
    produces exactly one log; the closed driving intervals of that day
    sum to at most 11 hours and the detector finds no violation on it.
    For every trip the number of logs is [max(1, int(h / 11) + 1)]: 3 logs
    for 25 hours, and 2 logs for exactly 11 hours. *)
Theorem short_trip_single_clean_day (db : Store.DB) (trip : Trip.t)
    (route : RouteCalculation.t)
    (Hroute : Trip.route trip = Some route)
    (Hpos : (0 < RouteCalculation.estimated_duration_hours route)%Q)
    (Hlt : (RouteCalculation.estimated_duration_hours route < 11)%Q)
    (Hnew : Simulator.no_log_of db (Trip.driver trip)) :
  (exists log db',
      HOSService.generate_trip_eld_logs trip db = (Ok [log], db')
      /\ (Spec.driving_hours db' log <= 11)%Q
      /\ HOSService.check_hos_violations log db' = (Ok [], db'))
  /\ (forall db2 trip2 route2,
         Trip.route trip2 = Some route2 ->
         exists logs db',
           HOSService.generate_trip_eld_logs trip2 db2 = (Ok logs, db')
           /\ Z.of_nat (List.length logs)
              = Z.max 1
                  (py_int
                     (RouteCalculation.estimated_duration_hours route2 / 11)
                   + 1))
  /\ (forall db2 trip2 route2,
         Trip.route trip2 = Some route2 ->
         (RouteCalculation.estimated_duration_hours route2 == 25)%Q ->
         exists logs db',
           HOSService.generate_trip_eld_logs trip2 db2 = (Ok logs, db')
           /\ List.length logs = 3%nat)
  /\ (forall db2 trip2 route2,
         Trip.route trip2 = Some route2 ->
         (RouteCalculation.estimated_duration_hours route2 == 11)%Q ->
         exists logs db',
           HOSService.generate_trip_eld_logs trip2 db2 = (Ok logs, db')
           /\ List.length logs = 2%nat).
Proof.
  set (h := RouteCalculation.estimated_duration_hours route) in *.
  split; [|split; [|split]].
  - rewrite (generate_trip_unfold _ _ _ Hroute). fold h.
    assert (D : py_int (h / 11) = 0)
      by (apply hours_in_first_day; assumption).
    rewrite D. change (HOSService.py_range (Z.max 1 (0 + 1))) with [0].
    set (sd := Simulator.start_date db trip).
    rewrite generate_days_step by (apply get_log_no_log_of, Hnew).
    cbn [HOSService.generate_days app]. unfold Store.ret.
    set (l := fst (Simulator.next_day db trip (sd + 0) 0 h)).
    set (dbF := snd (Simulator.next_day db trip (sd + 0) 0 h)).
    assert (G : Simulator.generated dbF l trip 0 h)
      by apply next_day_generated.
    exists l, dbF. split; [reflexivity|].
    split; [exact (generated_driving _ _ _ _ _ G)|].
    assert (Logs : filter (Store.same_driver (ELDLog.driver l))
                          (Store.eld_logs dbF) = [l]).
    { change (ELDLog.driver l) with (Trip.driver trip).
      unfold dbF. rewrite next_day_logs, filter_app.
      rewrite (filter_same_driver_none _ _ Hnew). cbn [app filter].
      fold l. rewrite same_driver_refl by reflexivity. reflexivity. }
    apply (generated_no_violations _ _ _ _ _ G).
    + intros l' Hin SD.
      assert (Hl : In l' (filter (Store.same_driver (ELDLog.driver l))
                                 (Store.eld_logs dbF)))
        by (apply filter_In; split; assumption).
      rewrite Logs in Hl. destruct Hl as [<-|[]].
      exact (generated_duty_up _ _ _ _ _ G).
    + rewrite Logs. simpl. lia.
    + apply no_previous_log_no_gap.
      change (ELDLog.driver l) with (Trip.driver trip).
      unfold dbF.
      rewrite get_log_next_day, (get_log_no_log_of _ _ _ Hnew).
      change (ELDLog.log_date l) with (sd + 0).
      destruct (Z.eqb_spec (sd + 0) (sd + 0 - 1)); [lia | reflexivity].
  - intros db2 trip2 route2 R2.
    destruct (generate_trip_frame trip2 route2 db2 R2)
      as (logs & db' & E & L & _).
    exists logs, db'. split; [exact E | exact L].
  - intros db2 trip2 route2 R2 H25.
    destruct (generate_trip_frame trip2 route2 db2 R2)
      as (logs & db' & E & L & _).
    exists logs, db'. split; [exact E|].
    cbv zeta in L.
    rewrite (py_int_comp _ (25 / 11)) in L;
      [|rewrite H25; discriminate | rewrite H25; reflexivity].
    change (Z.max 1 (py_int (25 / 11) + 1)) with 3 in L. lia.
  - intros db2 trip2 route2 R2 H11.
    destruct (generate_trip_frame trip2 route2 db2 R2)
      as (logs & db' & E & L & _).
    exists logs, db'. split; [exact E|].
    cbv zeta in L.
    rewrite (py_int_comp _ (11 / 11)) in L;
      [|rewrite H11; discriminate | rewrite H11; reflexivity].
    change (Z.max 1 (py_int (11 / 11) + 1)) with 2 in L. lia.
Qed.

Lemma short_trip_single_clean_day_witness :
  Trip.route (SimulatorExamples.trip_of 5)
  = Some (RouteCalculation.mk 275 5)
  /\ (0 < 5)%Q /\ (5 < 11)%Q
  /\ Simulator.no_log_of SimulatorExamples.db_empty
       (Trip.driver (SimulatorExamples.trip_of 5))
  /\ exists log db',
       HOSService.generate_trip_eld_logs (SimulatorExamples.trip_of 5)
         SimulatorExamples.db_empty = (Ok [log], db')
       /\ HOSService.check_hos_violations log db' = (Ok [], db').
Proof.
  assert (H1 : Trip.route (SimulatorExamples.trip_of 5)
               = Some (RouteCalculation.mk 275 5)) by reflexivity.
  assert (H2 : (0 < 5)%Q) by reflexivity.
  assert (H3 : (5 < 11)%Q) by reflexivity.
  assert (H4 : Simulator.no_log_of SimulatorExamples.db_empty
                 (Trip.driver (SimulatorExamples.trip_of 5)))
    by (intros l []).
  split; [exact H1|]. split; [exact H2|]. split; [exact H3|].
  split; [exact H4|].
  destruct (short_trip_single_clean_day SimulatorExamples.db_empty
              (SimulatorExamples.trip_of 5) (RouteCalculation.mk 275 5)
              H1 H2 H3 H4) as ((log & db' & E & _ & V) & _).
  exists log, db'. split; [exact E | exact V].
Defined.

(* ================================================================== *)
(** * A trip of twenty-two hours *)

(** C3, as stated, fails: [int(22 / 11) + 1 = 3], so the trip of 22 hours
    gets three logs, not two. *)
Lemma trip_of_22_hours_takes_three_days :
  let run :=
    HOSService.generate_trip_eld_logs (SimulatorExamples.trip_of 22)
      SimulatorExamples.db_empty in
  Driver.cycle_type (Trip.driver (SimulatorExamples.trip_of 22)) = "70_8"
  /\ exists logs, fst run = Ok logs /\ List.length logs = 3%nat.
Proof.
  cbv zeta. split; [reflexivity|].
  eexists. split; vm_compute; reflexivity.
Qed.

Ltac eqb_decide :=
  repeat match goal with
         | |- context [?a =? ?b] =>
             destruct (Z.eqb_spec a b); [try lia | try lia]
         end.

(** C3, amended.  For a driver on the 70/8 cycle without logs in the
    store, a trip of 22 hours produces three logs.  Day 0: inspection,
    pickup, a 7-hour driving block, a 30-minute off-duty break, a second
    driving block of 3 hours, inspection, rest.  Day 1: inspection, an
    8-hour driving block, the break, 3 hours of driving, inspection, rest.
    Day 2: the two inspections only.  The detector reports no violation on
    any of the three days. *)
Theorem trip_of_22_hours (db : Store.DB) (trip : Trip.t)
    (route : RouteCalculation.t)
    (Hroute : Trip.route trip = Some route)
    (H22 : RouteCalculation.estimated_duration_hours route = 22%Q)
    (Hcycle : Driver.cycle_type (Trip.driver trip) = "70_8")
    (Hnew : Simulator.no_log_of db (Trip.driver trip)) :
  exists day0 day1 day2 db',
    HOSService.generate_trip_eld_logs trip db
    = (Ok [day0; day1; day2], db')
    /\ map (Simulator.view day0) (Store.duty_records_of db' day0)
       = [Simulator.entry "on_duty_not_driving" 0 15;
          Simulator.entry "on_duty_not_driving" 15 60;
          Simulator.entry "driving" 75 420;
          Simulator.entry "off_duty" 495 30;
          Simulator.entry "driving" 525 180;
          Simulator.entry "on_duty_not_driving" 705 15;
          Simulator.entry "off_duty" 720 360]
    /\ map (Simulator.view day1) (Store.duty_records_of db' day1)
       = [Simulator.entry "on_duty_not_driving" 0 15;
          Simulator.entry "driving" 15 480;
          Simulator.entry "off_duty" 495 30;
          Simulator.entry "driving" 525 180;
          Simulator.entry "on_duty_not_driving" 705 15;
          Simulator.entry "off_duty" 720 360]
    /\ map (Simulator.view day2) (Store.duty_records_of db' day2)
       = [Simulator.entry "on_duty_not_driving" 0 15;
          Simulator.entry "on_duty_not_driving" 15 15;
          Simulator.entry "off_duty" 30 1050]
    /\ HOSService.check_hos_violations day0 db' = (Ok [], db')
    /\ HOSService.check_hos_violations day1 db' = (Ok [], db')
    /\ HOSService.check_hos_violations day2 db' = (Ok [], db').
Proof.
  rewrite (generate_trip_unfold _ _ _ Hroute), H22.
  change (HOSService.py_range (Z.max 1 (py_int (22 / 11) + 1)))
    with [0; 1; 2].
  set (sd := Simulator.start_date db trip).
  set (d := Trip.driver trip).
  pose proof (get_log_no_log_of db d) as G0.
  (* day 0 *)
  rewrite generate_days_step by (apply G0, Hnew).
  set (l0 := fst (Simulator.next_day db trip (sd + 0) 0 22)).
  set (dbA := snd (Simulator.next_day db trip (sd + 0) 0 22)).
  assert (GA : forall x, Store.get_log dbA d x
                         = if sd + 0 =? x then Some l0 else None).
  { intro x. unfold dbA, d. rewrite get_log_next_day.
    fold d. rewrite (G0 x Hnew). reflexivity. }
  (* day 1 *)
  rewrite generate_days_step by (rewrite GA; eqb_decide; reflexivity).
  set (l1 := fst (Simulator.next_day dbA trip (sd + 1) 1 22)).
  set (dbB := snd (Simulator.next_day dbA trip (sd + 1) 1 22)).
  assert (GB : forall x, Store.get_log dbB d x
                         = if sd + 0 =? x then Some l0
                           else if sd + 1 =? x then Some l1 else None).
  { intro x. unfold dbB, d. rewrite get_log_next_day.
    fold d. rewrite (GA x). destruct (sd + 0 =? x); reflexivity. }
  (* day 2 *)
  rewrite generate_days_step by (rewrite GB; eqb_decide; reflexivity).
  set (l2 := fst (Simulator.next_day dbB trip (sd + 2) 2 22)).
  set (dbC := snd (Simulator.next_day dbB trip (sd + 2) 2 22)).
  assert (GC : forall x, Store.get_log dbC d x
                         = if sd + 0 =? x then Some l0
                           else if sd + 1 =? x then Some l1
                           else if sd + 2 =? x then Some l2 else None).
  { intro x. unfold dbC, d. rewrite get_log_next_day.
    fold d. rewrite (GB x).
    destruct (sd + 0 =? x); [|destruct (sd + 1 =? x)]; reflexivity. }
  cbn [HOSService.generate_days app]. unfold Store.ret.
  exists l0, l1, l2, dbC. split; [reflexivity|].
  (* the three days in the final store *)
  assert (In0A : In l0 (Store.eld_logs dbA))
    by (unfold dbA; rewrite next_day_logs; apply in_or_app; right; now left).
  assert (In0B : In l0 (Store.eld_logs dbB))
    by (unfold dbB; rewrite next_day_logs; apply in_or_app; now left).
  assert (In1B : In l1 (Store.eld_logs dbB))
    by (unfold dbB; rewrite next_day_logs; apply in_or_app; right; now left).
  assert (Gen0 : Simulator.generated dbC l0 trip 0 22).
  { apply next_day_keeps_generated; [exact In0B|].
    apply next_day_keeps_generated; [exact In0A|].
    apply next_day_generated. }
  assert (Gen1 : Simulator.generated dbC l1 trip 1 22).
  { apply next_day_keeps_generated; [exact In1B|].
    apply next_day_generated. }
  assert (Gen2 : Simulator.generated dbC l2 trip 2 22)
    by apply next_day_generated.
  assert (Logs : filter (Store.same_driver d) (Store.eld_logs dbC)
                 = [l0; l1; l2]).
  { unfold d, dbC. rewrite next_day_logs. unfold dbB. rewrite next_day_logs.
    unfold dbA. rewrite next_day_logs. rewrite !filter_app.
    rewrite (filter_same_driver_none _ _ Hnew). cbn [app filter].
    rewrite !same_driver_refl by reflexivity. reflexivity. }
  assert (Duty : forall l', In l' (Store.eld_logs dbC) ->
                            Store.same_driver d l' = true ->
                            Timeline.duty_quarters_up dbC l' <= 50).
  { intros l' Hin SD.
    assert (Hl : In l' (filter (Store.same_driver d) (Store.eld_logs dbC)))
      by (apply filter_In; split; assumption).
    rewrite Logs in Hl.
    destruct Hl as [<-|[<-|[<-|[]]]];
      eapply generated_duty_up; eassumption. }
  assert (Count : (List.length (filter (Store.same_driver d)
                                       (Store.eld_logs dbC)) <= 4)%nat)
    by (rewrite Logs; simpl; lia).
  split; [|split; [|split; [|split; [|split]]]].
  - rewrite (generated_views _ _ _ _ _ Gen0)
      by (intros _ _; discriminate).
    vm_compute. reflexivity.
  - rewrite (generated_views _ _ _ _ _ Gen1)
      by (intro; discriminate).
    vm_compute. reflexivity.
  - rewrite (generated_views _ _ _ _ _ Gen2)
      by (intro; discriminate).
    vm_compute. reflexivity.
  - apply (generated_no_violations _ _ _ _ _ Gen0); auto.
    apply no_previous_log_no_gap.
    change (ELDLog.driver l0) with d. change (ELDLog.log_date l0) with (sd + 0).
    rewrite GC. eqb_decide. reflexivity.
  - apply (generated_no_violations _ _ _ _ _ Gen1); auto.
    apply (generated_rest dbC l0 l1 trip 1 22 trip 0 22 Gen0 Gen1).
    + change (ELDLog.driver l1) with d.
      change (ELDLog.log_date l1) with (sd + 1).
      rewrite GC. eqb_decide. reflexivity.
    + change (ELDLog.log_date l1) with (sd + 1).
      change (ELDLog.log_date l0) with (sd + 0). lia.
  - apply (generated_no_violations _ _ _ _ _ Gen2); auto.
    apply (generated_rest dbC l1 l2 trip 2 22 trip 1 22 Gen1 Gen2).
    + change (ELDLog.driver l2) with d.
      change (ELDLog.log_date l2) with (sd + 2).
      rewrite GC. eqb_decide. reflexivity.
    + change (ELDLog.log_date l2) with (sd + 2).
      change (ELDLog.log_date l1) with (sd + 1). lia.
Qed.

Lemma trip_of_22_hours_witness :
  Trip.route (SimulatorExamples.trip_of 22)
  = Some (RouteCalculation.mk 275 22)
  /\ Driver.cycle_type (Trip.driver (SimulatorExamples.trip_of 22)) = "70_8"
  /\ Simulator.no_log_of SimulatorExamples.db_empty
       (Trip.driver (SimulatorExamples.trip_of 22))
  /\ exists day0 day1 day2 db',
       HOSService.generate_trip_eld_logs (SimulatorExamples.trip_of 22)
         SimulatorExamples.db_empty = (Ok [day0; day1; day2], db')
       /\ HOSService.check_hos_violations day0 db' = (Ok [], db')
       /\ HOSService.check_hos_violations day1 db' = (Ok [], db')
       /\ HOSService.check_hos_violations day2 db' = (Ok [], db').
Proof.
  assert (H1 : Trip.route (SimulatorExamples.trip_of 22)
               = Some (RouteCalculation.mk 275 22)) by reflexivity.
  assert (H2 : Driver.cycle_type (Trip.driver (SimulatorExamples.trip_of 22))
               = "70_8") by reflexivity.
  assert (H3 : Simulator.no_log_of SimulatorExamples.db_empty
                 (Trip.driver (SimulatorExamples.trip_of 22)))
    by (intros l []).
  split; [exact H1|]. split; [exact H2|]. split; [exact H3|].
  destruct (trip_of_22_hours SimulatorExamples.db_empty
              (SimulatorExamples.trip_of 22) (RouteCalculation.mk 275 22)
              H1 eq_refl H2 H3)
    as (day0 & day1 & day2 & db' & E & _ & _ & _ & V0 & V1 & V2).
  exists day0, day1, day2, db'. auto.
Defined.

(* ================================================================== *)
(** * The other checks of the detector *)

Lemma code_latest_start db l p :
  qs_last (order_by Store.start_leb
             (filter HOSService.is_duty (Store.duty_records_of db l)))
  = Some p ->
  Timeline.latest_start db l p.
Proof.
  intro H. apply qs_last_order_by in H.
  - destruct H as [I M]. split.
    + apply In_duties_sorted. exact I.
    + intros q Hq. apply In_duties_sorted in Hq.
      specialize (M q Hq). unfold Store.start_leb in M. lia.
  - exact start_leb_total.
  - exact start_leb_trans.
Qed.

Lemma duties_nil_sorted
    (leb : DutyStatusRecord.t -> DutyStatusRecord.t -> bool) db l :
  Spec.duties db l = [] ->
  order_by leb (filter HOSService.is_duty (Store.duty_records_of db l)) = [].
Proof.
  intro H.
  destruct (order_by leb _) as [|x xs] eqn:E; [reflexivity|].
  exfalso.
  assert (I : In x (order_by leb
                      (filter HOSService.is_duty
                              (Store.duty_records_of db l)))).
  { rewrite E. left. reflexivity. }
  apply order_by_In, In_duties_sorted in I. rewrite H in I. exact I.
Qed.

Ltac no_violation :=
  exists None; split;
  [simpl; rewrite with_violations_nil; reflexivity|].

(** X1.  [_check_daily_duty_limit] measures the duty window from the
    earliest start of a driving/on-duty interval to the end of the one
    that starts last.  A [duty_14h] violation carries that window in
    hours, which is above 14, and the end as its time; it is created
    whenever every latest-starting interval is closed with a window
    above 14 hours, and never when the latest-starting interval is open
    or the log has no driving/on-duty interval. *)
Theorem duty_14h_window (db : Store.DB) (l : ELDLog.t) :
  exists o,
    HOSService._check_daily_duty_limit l db
    = (Ok o, with_violations db (opt_list o))
    /\ (forall v, o = Some v ->
          exists c p e,
            Spec.first_duty db l c
            /\ Timeline.latest_start db l p
            /\ DutyStatusRecord.end_time p = Some e
            /\ HOSViolation.violation_type v = "duty_14h"
            /\ HOSViolation.actual_value v
               = Time.hours (e - DutyStatusRecord.start_time c)
            /\ (14 < HOSViolation.actual_value v)%Q
            /\ HOSViolation.limit_value v = 14%Q
            /\ HOSViolation.violation_time v = e)
    /\ ((exists c, Spec.first_duty db l c
                   /\ forall p, Timeline.latest_start db l p ->
                        exists e,
                          DutyStatusRecord.end_time p = Some e
                          /\ 14 * Time.us_per_hour
                             < e - DutyStatusRecord.start_time c) ->
        exists v, o = Some v)
    /\ ((forall p, Timeline.latest_start db l p ->
                   DutyStatusRecord.end_time p = None) ->
        o = None)
    /\ (Spec.duties db l = [] -> o = None).
Proof.
  unfold HOSService._check_daily_duty_limit. run_monad.
  destruct (qs_first _) as [fd|] eqn:F.
  2:{ no_violation. split; [discriminate|]. split.
      - intros (c & [Ic _] & _). exfalso.
        apply no_duty_no_first in F. rewrite F in Ic. exact Ic.
      - split; reflexivity. }
  destruct (qs_last _) as [ld|] eqn:L.
  2:{ exfalso. apply qs_last_none in L.
      apply qs_first_In in F. rewrite L in F. exact F. }
  pose proof (code_first_duty _ _ _ F) as HF.
  pose proof (code_latest_start _ _ _ L) as HL.
  assert (NE : Spec.duties db l <> []).
  { intro N. destruct HF as [I _]. rewrite N in I. exact I. }
  destruct (DutyStatusRecord.end_time ld) as [e|] eqn:E.
  2:{ no_violation. split; [discriminate|]. split.
      - intros (c & _ & P). destruct (P ld HL) as (e & Ee & _). congruence.
      - split; [reflexivity|]. intro N. contradiction. }
  change (Time.total_seconds ?d / 3600)%Q with (Time.hours d).
  destruct (Qgtb _ HOSService.DAILY_DUTY_LIMIT) eqn:G.
  - eexists (Some _). split; [reflexivity|]. split.
    + intros v Hv. injection Hv as <-. exists fd, ld, e. simpl.
      apply Qgtb_gt in G. unfold HOSService.DAILY_DUTY_LIMIT in G.
      repeat split; try assumption; try apply HF; try apply HL.
    + split; [intros _; eexists; reflexivity|].
      split.
      * intro P. specialize (P ld HL). congruence.
      * intro N. contradiction.
  - no_violation. apply Qgtb_le in G.
    unfold HOSService.DAILY_DUTY_LIMIT in G.
    split; [discriminate|]. split.
    + intros (c & Hc & P). exfalso.
      destruct (P ld HL) as (e' & Ee & W).
      assert (e' = e) as -> by congruence.
      rewrite (first_duty_start_unique _ _ _ _ HF Hc) in G.
      pose proof (proj1 (hours_le_iff _ 14) G). lia.
    + split; [reflexivity|]. intro N. contradiction.
Qed.

(** X2.  [_check_cycle_limit] creates a violation exactly when the hours
    of the driver's cycle window, as of the log's date, exceed the limit
    of the driver's cycle (70 hours on the 70/8 cycle, 60 otherwise),
    where the hours are the float that the loops of
    [get_current_cycle_hours] add up: the logs of the window latest
    first, the closed driving and on-duty intervals of each in start
    order, every addition rounded to a double.  The violation is
    critical, of type [cycle_70h] or [cycle_60h] by the cycle, reports
    that float and the limit, and is dated now.  When every such interval
    lasts a whole number of quarter hours, none backwards and fewer than
    [2^43] in all, the float is the exact sum of the hours and the
    violation is created exactly when that sum exceeds the limit; and no
    violation is created when the intervals, each rounded up to the
    quarter hour and a backward one counted as none, stay within the
    limit.  Off the
    quarter hours the exact sum does not decide: seven days on duty for
    whole seconds, 70 hours in all, add up to more than 70 and get the
    violation. *)
Theorem cycle_limit_iff_float_over (db : Store.DB) (l : ELDLog.t) :
  let d := ELDLog.driver l in
  let as_of := ELDLog.log_date l in
  let used := Timeline.cycle_hours_float db d as_of in
  exists o,
    HOSService._check_cycle_limit l db
    = (Ok o, with_violations db (opt_list o))
    /\ ((exists v, o = Some v) <-> (Timeline.cycle_limit d < used)%Q)
    /\ (forall v, o = Some v ->
          HOSViolation.violation_type v = Timeline.cycle_violation_type d
          /\ HOSViolation.severity v = "critical"
          /\ HOSViolation.actual_value v = used
          /\ HOSViolation.limit_value v = Timeline.cycle_limit d
          /\ HOSViolation.violation_time v = Store.now db
          /\ HOSViolation.eld_log v = ELDLog.id l)
    /\ (Timeline.cycle_on_quarters db d as_of ->
        (used == Spec.cycle_hours_used db d as_of)%Q
        /\ ((exists v, o = Some v)
            <-> (Timeline.cycle_limit d
                 < Spec.cycle_hours_used db d as_of)%Q))
    /\ ((inject_Z (Timeline.cycle_quarters_up db d as_of) / 4
         <= Timeline.cycle_limit d)%Q -> o = None)
    /\ (let db70 := RoundingExamples.db_seventy in
        (Spec.cycle_hours_used db70 Examples.ann 19000%Z == 70)%Q
        /\ exists v,
             fst (HOSService._check_cycle_limit
                    (RoundingExamples.log_back 0) db70) = Ok (Some v)
             /\ (70 < HOSViolation.actual_value v)%Q).
Proof.
  cbv zeta.
  set (d := ELDLog.driver l). set (as_of := ELDLog.log_date l).
  assert (Lim : (60 <= Timeline.cycle_limit d <= 70)%Q).
  { unfold Timeline.cycle_limit.
    destruct (String.eqb _ _); split; discriminate. }
  assert (A : exists o,
             HOSService._check_cycle_limit l db
             = (Ok o, with_violations db (opt_list o))
             /\ ((exists v, o = Some v)
                 <-> (Timeline.cycle_limit d
                      < Timeline.cycle_hours_float db d as_of)%Q)
             /\ (forall v, o = Some v ->
                   HOSViolation.violation_type v
                   = Timeline.cycle_violation_type d
                   /\ HOSViolation.severity v = "critical"
                   /\ HOSViolation.actual_value v
                      = Timeline.cycle_hours_float db d as_of
                   /\ HOSViolation.limit_value v = Timeline.cycle_limit d
                   /\ HOSViolation.violation_time v = Store.now db
                   /\ HOSViolation.eld_log v = ELDLog.id l)).
  { unfold HOSService._check_cycle_limit. run_monad.
    rewrite cycle_hours_float_code. fold d as_of.
    unfold Timeline.cycle_limit, Timeline.cycle_violation_type.
    set (hrs := Timeline.cycle_hours_float db d as_of).
    destruct (String.eqb (Driver.cycle_type d) "70_8");
      match goal with
      | |- context [Qgtb hrs ?lim] => destruct (Qgtb hrs lim) eqn:G
      end;
      unfold HOSService.CYCLE_70_8_LIMIT, HOSService.CYCLE_60_7_LIMIT in *.
    - apply Qgtb_gt in G. eexists (Some _). split; [reflexivity|].
      split; [split; [intros _; exact G | intros _; eexists; reflexivity]|].
      intros v Hv. injection Hv as <-. repeat split.
    - apply Qgtb_le in G. no_violation.
      split; [|discriminate].
      split; [intros [v Hv]; discriminate | intro; exfalso; lra].
    - apply Qgtb_gt in G. eexists (Some _). split; [reflexivity|].
      split; [split; [intros _; exact G | intros _; eexists; reflexivity]|].
      intros v Hv. injection Hv as <-. repeat split.
    - apply Qgtb_le in G. no_violation.
      split; [|discriminate].
      split; [intros [v Hv]; discriminate | intro; exfalso; lra]. }
  destruct A as (o & E & D & V).
  exists o. split; [exact E|]. split; [exact D|]. split; [exact V|].
  split; [|split].
  - intro G.
    pose proof (cycle_hours_float_exact db d as_of G) as F.
    pose proof (cycle_hours_used_on_quarters db d as_of G) as U.
    assert (FU : (Timeline.cycle_hours_float db d as_of
                  == Spec.cycle_hours_used db d as_of)%Q)
      by (rewrite F, U; reflexivity).
    split; [exact FU|].
    split; intro X.
    + rewrite <- FU. exact (proj1 D X).
    + apply (proj2 D). rewrite FU. exact X.
  - intro C.
    destruct o as [v|]; [exfalso | reflexivity].
    pose proof (proj1 D (ex_intro _ v eq_refl)) as G.
    assert (B : Timeline.cycle_quarters_up db d as_of < 2 ^ 43).
    { apply Z.lt_nge. intro N.
      assert (inject_Z (2 ^ 43)
              <= inject_Z (Timeline.cycle_quarters_up db d as_of))%Q
        by (rewrite <- Zle_Qle; exact N).
      assert (inject_Z (2 ^ 43) == 8796093022208)%Q by reflexivity.
      destruct Lim as [_ Lim]. revert C H H0 Lim.
      generalize (inject_Z (Timeline.cycle_quarters_up db d as_of)).
      generalize (inject_Z (2 ^ 43)).
      generalize (Timeline.cycle_limit d). intros. lra_div. }
    pose proof (cycle_hours_float_le db d as_of B) as L.
    revert C G L.
    generalize (inject_Z (Timeline.cycle_quarters_up db d as_of)).
    generalize (Timeline.cycle_hours_float db d as_of).
    generalize (Timeline.cycle_limit d). intros. lra_div.
  - clear. cbv zeta. split; [vm_compute; reflexivity|].
    eexists. split; [vm_compute; reflexivity|].
    vm_compute. reflexivity.
Qed.

(** ** The thirty-minute break *)

Lemma sorted_driving_as_filter (db : Store.DB) (l : ELDLog.t) :
  order_by Store.start_leb
    (filter (HOSService.has_status "driving") (Store.duty_records_of db l))
  = filter (fun r => Spec.driving (DutyStatusRecord.duty_status r))
           (Store.duty_records_of db l).
Proof.
  apply order_by_sorted_id. apply filter_sorted.
  unfold Store.duty_records_of. apply order_by_sorted.
  - exact start_leb_total.
  - exact start_leb_trans.
Qed.

Lemma sorted_driving_in (db : Store.DB) (l : ELDLog.t) (r : DutyStatusRecord.t) :
  In r (order_by Store.start_leb
          (filter (HOSService.has_status "driving")
                  (Store.duty_records_of db l))) ->
  In r (Spec.intervals db l)
  /\ DutyStatusRecord.duty_status r = "driving".
Proof.
  intro H. apply order_by_In, filter_In in H. destruct H as [I S].
  unfold Store.duty_records_of in I. apply order_by_In in I.
  split; [exact I|]. apply String.eqb_eq. exact S.
Qed.

Lemma break_loop_bound (rs : list DutyStatusRecord.t) :
  forall (acc : Q) (lb : option Time.datetime) (c : Q) (t : Time.datetime),
    HOSService.break_loop rs acc lb = Some (c, t) ->
    (8 < c)%Q
    /\ (exists r, In r rs /\ DutyStatusRecord.end_time r = Some t)
    /\ forall C : Z,
         (acc <= inject_Z C / 4)%Q -> 0 <= C ->
         C + Spec.Zsum
               (map (fun r => Timeline.steps_up Timeline.us_per_quarter
                                (DutyStatusRecord.duration r))
                    (filter Spec.is_closed rs)) < 2 ^ 43 ->
         (c <= inject_Z
                 (C + Spec.Zsum
                        (map (fun r =>
                                Timeline.steps_up Timeline.us_per_quarter
                                  (DutyStatusRecord.duration r))
                             (filter Spec.is_closed rs))) / 4)%Q.
Proof.
  induction rs as [|r rs IH]; intros acc lb c t H; [discriminate|].
  cbn [HOSService.break_loop] in H.
  assert (N : 0 <= Spec.Zsum
                     (map (fun r => Timeline.steps_up Timeline.us_per_quarter
                                      (DutyStatusRecord.duration r))
                          (filter Spec.is_closed rs))).
  { apply Zsum_nonneg, Forall_forall. intros z Hz.
    apply in_map_iff in Hz. destruct Hz as (r' & <- & _).
    apply steps_up_nonneg. }
  destruct (DutyStatusRecord.end_time r) as [e|] eqn:E.
  - assert (Cl : Spec.is_closed r = true)
      by (unfold Spec.is_closed, Spec.is_open; rewrite E; reflexivity).
    cbn [filter]. rewrite Cl. cbn [map]. rewrite Zsum_cons.
    set (rest := Spec.Zsum _) in *.
    set (acc' := match lb with
                 | Some lb0 =>
                     if Time.minutes 30
                        <=? DutyStatusRecord.start_time r - lb0
                     then 0%Q else acc
                 | None => acc
                 end) in *.
    assert (Dr : DutyStatusRecord.duration r
                 = e - DutyStatusRecord.start_time r)
      by (unfold DutyStatusRecord.duration; rewrite E; reflexivity).
    change (Float64.div (Float64.total_seconds ?d) 3600)
      with (Float64.hours d) in H.
    rewrite <- Dr in H.
    set (q := Timeline.steps_up Timeline.us_per_quarter
                (DutyStatusRecord.duration r)).
    pose proof (steps_up_nonneg Timeline.us_per_quarter
                  (DutyStatusRecord.duration r)) as Nq. fold q in Nq.
    assert (Step : forall C : Z,
               (acc <= inject_Z C / 4)%Q -> 0 <= C -> C + q < 2 ^ 43 ->
               (Float64.add acc' (Float64.hours (DutyStatusRecord.duration r))
                <= inject_Z (C + q) / 4)%Q).
    { intros C A C0 B.
      assert (A' : (acc' <= inject_Z C / 4)%Q).
      { assert (Z0 : (0 <= inject_Z C / 4)%Q).
        { assert (inject_Z 0 <= inject_Z C)%Q by (rewrite <- Zle_Qle; lia).
          change (inject_Z 0) with 0%Q in H0. lra_div. }
        unfold acc'. destruct lb as [lb0|]; [|exact A].
        destruct (_ <=? _); [exact Z0 | exact A]. }
      pose proof (hours_term_le (DutyStatusRecord.duration r)
                    ltac:(fold q; lia)) as Hq. fold q in Hq.
      unfold Float64.add.
      rewrite <- (round_quarters (C + q)) by lia.
      apply round_mono. rewrite inject_Z_plus. lra_div. }
    fold q.
    destruct (Qgtb _ HOSService.BREAK_REQUIREMENT_HOURS) eqn:G.
    + injection H as <- <-. apply Qgtb_gt in G.
      unfold HOSService.BREAK_REQUIREMENT_HOURS in G.
      split; [exact G|].
      split; [exists r; split; [left; reflexivity | exact E]|].
      intros C A C0 B.
      pose proof (Step C A C0 ltac:(lia)) as S.
      assert (inject_Z (C + q) <= inject_Z (C + (q + rest)))%Q
        by (rewrite <- Zle_Qle; lia).
      revert S H.
      generalize (inject_Z (C + q)), (inject_Z (C + (q + rest))).
      generalize (Float64.add acc'
                    (Float64.hours (DutyStatusRecord.duration r))).
      clear. intros. lra_div.
    + destruct (IH _ _ _ _ H) as (I1 & (r' & I2 & I3) & I4).
      split; [exact I1|].
      split; [exists r'; split; [right; exact I2 | exact I3]|].
      intros C A C0 B. fold rest in I4.
      replace (C + (q + rest)) with ((C + q) + rest) by lia.
      apply I4; [apply (Step C A C0); lia | lia | lia].
  - assert (Cl : Spec.is_closed r = false)
      by (unfold Spec.is_closed, Spec.is_open; rewrite E; reflexivity).
    cbn [filter]. rewrite Cl.
    destruct (IH _ _ _ _ H) as (I1 & (r' & I2 & I3) & I4).
    split; [exact I1|].
    split; [exists r'; split; [right; exact I2 | exact I3]|].
    exact I4.
Qed.

(** The quarter hours of the sorted closed driving rows are those of the
    log. *)
Lemma sorted_driving_quarters (db : Store.DB) (l : ELDLog.t) :
  Spec.Zsum
    (map (fun r => Timeline.steps_up Timeline.us_per_quarter
                     (DutyStatusRecord.duration r))
         (filter Spec.is_closed
            (order_by Store.start_leb
               (filter (HOSService.has_status "driving")
                       (Store.duty_records_of db l)))))
  = Timeline.driving_quarters_up db l.
Proof.
  rewrite sorted_driving_as_filter.
  unfold Timeline.driving_quarters_up. rewrite driving_up_blocks.
  reflexivity.
Qed.

(** X3.  A [rest_break] violation of [_check_break_requirement] reports
    more than 8 hours against the limit of 8 and is dated at the end of a
    driving interval of the log.  The hours reported are a float sum of
    the hours of driving intervals; they are at most the day's closed
    driving intervals counted in quarter hours, each rounded up and a
    backward one counted as none (for fewer than [2^43] quarter hours in
    all), so a day with at most 8 hours of driving counted that way never
    gets the violation.  The exact sum of the durations does not decide: driving
    16386.4 s, 5400.9 s and 7012.7 s without a gap is eight hours, adds
    up to more than 8 and gets the violation. *)
Theorem rest_break_reports_over_8h (db : Store.DB) (l : ELDLog.t) :
  exists o,
    HOSService._check_break_requirement l db
    = (Ok o, with_violations db (opt_list o))
    /\ (forall v, o = Some v ->
          HOSViolation.violation_type v = "rest_break"
          /\ HOSViolation.limit_value v = 8%Q
          /\ (8 < HOSViolation.actual_value v)%Q
          /\ exists r,
               In r (Spec.intervals db l)
               /\ DutyStatusRecord.duty_status r = "driving"
               /\ DutyStatusRecord.end_time r
                  = Some (HOSViolation.violation_time v))
    /\ (Timeline.driving_quarters_up db l < 2 ^ 43 ->
        forall v, o = Some v ->
          (HOSViolation.actual_value v
           <= inject_Z (Timeline.driving_quarters_up db l) / 4)%Q)
    /\ (Timeline.driving_quarters_up db l <= 32 -> o = None)
    /\ (let db8 := RoundingExamples.db_eight in
        (Spec.driving_hours db8 Examples.log_a == 8)%Q
        /\ exists v,
             fst (HOSService._check_break_requirement Examples.log_a db8)
             = Ok (Some v)
             /\ (8 < HOSViolation.actual_value v)%Q).
Proof.
  assert (Ex : let db8 := RoundingExamples.db_eight in
               (Spec.driving_hours db8 Examples.log_a == 8)%Q
               /\ exists v,
                    fst (HOSService._check_break_requirement
                           Examples.log_a db8) = Ok (Some v)
                    /\ (8 < HOSViolation.actual_value v)%Q).
  { clear. cbv zeta. split; [vm_compute; reflexivity|].
    eexists. split; [vm_compute; reflexivity|].
    vm_compute. reflexivity. }
  unfold HOSService._check_break_requirement. run_monad.
  set (rs := order_by Store.start_leb _).
  destruct (HOSService.break_loop rs 0 None) as [[c t]|] eqn:B.
  - destruct (break_loop_bound _ _ _ _ _ B) as (B1 & (r & B2 & B3) & B4).
    specialize (B4 0 ltac:(discriminate) ltac:(lia)).
    unfold rs in B4. rewrite sorted_driving_quarters in B4.
    cbn [Z.add] in B4.
    eexists (Some _). split; [reflexivity|]. split; [|split; [|split]].
    + intros v Hv. injection Hv as <-. simpl.
      repeat split; try exact B1.
      exists r. destruct (sorted_driving_in _ _ _ B2) as [I S].
      repeat split; assumption.
    + intros Q v Hv. injection Hv as <-. simpl. exact (B4 Q).
    + intro Q. exfalso. specialize (B4 ltac:(lia)).
      assert (inject_Z (Timeline.driving_quarters_up db l) <= inject_Z 32)%Q
        by (rewrite <- Zle_Qle; exact Q).
      change (inject_Z 32) with 32%Q in H.
      revert B1 B4 H.
      generalize (inject_Z (Timeline.driving_quarters_up db l)).
      intros. lra_div.
    + exact Ex.
  - no_violation. split; [discriminate|]. split; [discriminate|].
    split; [reflexivity | exact Ex].
Qed.

Lemma break_loop_closed (rs : list DutyStatusRecord.t) :
  forall acc lb,
    HOSService.break_loop rs acc lb
    = HOSService.break_loop (filter Spec.is_closed rs) acc lb.
Proof.
  induction rs as [|r rs IH]; intros acc lb; [reflexivity|].
  cbn [HOSService.break_loop filter]. unfold Spec.is_closed, Spec.is_open.
  destruct (DutyStatusRecord.end_time r) as [e|] eqn:E; cbn [negb].
  - cbn [HOSService.break_loop]. rewrite E.
    destruct (Qgtb _ _); [reflexivity|]. apply IH.
  - apply IH.
Qed.

Lemma break_loop_rested (cs : list DutyStatusRecord.t) :
  forall acc lb,
    Forall (fun r => DutyStatusRecord.duration r <= 8 * Time.us_per_hour) cs ->
    Forall (fun r => Spec.is_closed r = true) cs ->
    Timeline.rested cs ->
    match cs with
    | r :: _ =>
        (acc == 0)%Q
        \/ exists p, lb = Some p
                     /\ p + 30 * Time.us_per_minute
                        <= DutyStatusRecord.start_time r
    | [] => True
    end ->
    HOSService.break_loop cs acc lb = None.
Proof.
  induction cs as [|r cs IH]; intros acc lb Hs Hc Hr H0; [reflexivity|].
  inversion Hs as [|? ? S1 S2]; subst. inversion Hc as [|? ? C1 C2]; subst.
  cbn [HOSService.break_loop].
  unfold Spec.is_closed, Spec.is_open in C1.
  unfold DutyStatusRecord.duration in S1.
  destruct (DutyStatusRecord.end_time r) as [e|] eqn:E; [|discriminate].
  set (acc' := match lb with
               | Some lb0 =>
                   if Time.minutes 30 <=? DutyStatusRecord.start_time r - lb0
                   then 0%Q else acc
               | None => acc
               end).
  assert (A : (acc' == 0)%Q).
  { unfold acc'. destruct H0 as [Z0 | (p & -> & G)].
    - destruct lb; [destruct (_ <=? _)|]; (reflexivity || exact Z0).
    - rewrite minutes_30. unfold Time.us_per_minute in G.
      destruct (Z.leb_spec 1800000000 (DutyStatusRecord.start_time r - p));
        [reflexivity | lia]. }
  rewrite hours_not_over; [|exact A | unfold Time.us_per_hour, Time.us_per_minute in *; lia].
  apply IH; try assumption.
  - destruct cs as [|b cs']; [exact I|]. apply Hr.
  - destruct cs as [|b cs']; [exact I|]. right.
    destruct Hr as [(ea & Ea & G) _]. exists e. split; [reflexivity|].
    assert (ea = e) as -> by congruence. exact G.
Qed.

(** X4.  [_check_break_requirement] counts any gap of thirty minutes
    between two driving intervals as the break, whatever the driver's
    status in the gap: when no closed driving interval of the log is
    longer than 8 hours and each starts at least thirty minutes after the
    one before it ended, no violation is created and the store is left as
    it was. *)
Theorem spaced_driving_needs_no_break (db : Store.DB) (l : ELDLog.t)
    (Hshort : Forall (fun r => DutyStatusRecord.duration r
                               <= 8 * Time.us_per_hour)
                     (Timeline.driving_blocks db l))
    (Hrest : Timeline.rested (Timeline.driving_blocks db l)) :
  HOSService._check_break_requirement l db = (Ok None, db).
Proof.
  apply check_break_none.
  rewrite sorted_driving_as_filter, break_loop_closed.
  apply break_loop_rested.
  - exact Hshort.
  - apply Forall_forall. intros r I. apply filter_In in I. apply I.
  - exact Hrest.
  - destruct (filter Spec.is_closed _); [exact I | left; reflexivity].
Qed.

Lemma spaced_driving_needs_no_break_witness :
  let db := BreakExamples.db_loading in
  (Spec.driving_hours db Examples.log_a == 10)%Q
  /\ Spec.closed_total Spec.off_duty (Spec.intervals db Examples.log_a) = 0
  /\ HOSService._check_break_requirement Examples.log_a db = (Ok None, db).
Proof.
  split; [vm_compute; reflexivity|]. split; [vm_compute; reflexivity|].
  assert (E : Timeline.driving_blocks BreakExamples.db_loading
                Examples.log_a
              = [Examples.interval 11 10 "driving" (Examples.at_ 6 0)
                   (Some (Examples.at_ 11 0));
                 Examples.interval 13 10 "driving" (Examples.at_ 12 0)
                   (Some (Examples.at_ 17 0))])
    by (vm_compute; reflexivity).
  apply (spaced_driving_needs_no_break BreakExamples.db_loading
           Examples.log_a); rewrite E.
  - repeat constructor; vm_compute; discriminate.
  - cbn [Timeline.rested]. split; [|exact I].
    eexists. split; [reflexivity|]. vm_compute. discriminate.
Defined.

(* ================================================================== *)
(** * Running the detector again *)

Ltac stable_ok :=
  eexists (Some _), (Some _);
  split; [reflexivity|]; split; [reflexivity|]; reflexivity.

Ltac stable_none :=
  exists None, None;
  split; [simpl; rewrite with_violations_nil; reflexivity|];
  split; [simpl; rewrite with_violations_nil; reflexivity|]; reflexivity.

Lemma check_driving_stable (l : ELDLog.t) (db : Store.DB) vs t' :
  exists o o',
    HOSService._check_daily_driving_limit l db
    = (Ok o, with_violations db (opt_list o))
    /\ HOSService._check_daily_driving_limit l (at_clock (with_violations db vs) t')
       = (Ok o', with_violations (at_clock (with_violations db vs) t') (opt_list o'))
    /\ Timeline.finding_of o = Timeline.finding_of o'.
Proof.
  unfold HOSService._check_daily_driving_limit. run_monad.
  change (Store.duty_records_of (at_clock (with_violations db vs) t') l)
    with (Store.duty_records_of db l).
  set (recs := filter (HOSService.has_status "driving")
                      (Store.duty_records_of db l)).
  destruct (Qgtb _ HOSService.DAILY_DRIVING_LIMIT) eqn:E.
  - destruct (qs_last recs) as [lr|] eqn:L.
    + stable_ok.
    + apply qs_last_none in L. rewrite L in E. cbn [flat_map] in E.
      rewrite float_nil_not_gt in E; [discriminate|].
      unfold HOSService.DAILY_DRIVING_LIMIT. lra.
  - stable_none.
Qed.

Lemma check_duty_stable (l : ELDLog.t) (db : Store.DB) vs t' :
  exists o o',
    HOSService._check_daily_duty_limit l db
    = (Ok o, with_violations db (opt_list o))
    /\ HOSService._check_daily_duty_limit l (at_clock (with_violations db vs) t')
       = (Ok o', with_violations (at_clock (with_violations db vs) t') (opt_list o'))
    /\ Timeline.finding_of o = Timeline.finding_of o'.
Proof.
  unfold HOSService._check_daily_duty_limit. run_monad.
  change (Store.duty_records_of (at_clock (with_violations db vs) t') l)
    with (Store.duty_records_of db l).
  destruct (qs_first _) as [fd|]; [destruct (qs_last _) as [ld|]|];
    try stable_none.
  destruct (DutyStatusRecord.end_time ld) as [e|]; [|stable_none].
  destruct (Qgtb _ _); [stable_ok | stable_none].
Qed.

Lemma check_cycle_stable (l : ELDLog.t) (db : Store.DB) vs t' :
  exists o o',
    HOSService._check_cycle_limit l db
    = (Ok o, with_violations db (opt_list o))
    /\ HOSService._check_cycle_limit l (at_clock (with_violations db vs) t')
       = (Ok o', with_violations (at_clock (with_violations db vs) t') (opt_list o'))
    /\ Timeline.finding_of o = Timeline.finding_of o'.
Proof.
  unfold HOSService._check_cycle_limit. run_monad.
  change (HOSService.get_current_cycle_hours_float
            (at_clock (with_violations db vs) t') (ELDLog.driver l)
            (Some (ELDLog.log_date l)))
    with (HOSService.get_current_cycle_hours_float db (ELDLog.driver l)
            (Some (ELDLog.log_date l))).
  destruct (String.eqb _ "70_8"); destruct (Qgtb _ _);
    (stable_ok || stable_none).
Qed.

Lemma check_break_stable (l : ELDLog.t) (db : Store.DB) vs t' :
  exists o o',
    HOSService._check_break_requirement l db
    = (Ok o, with_violations db (opt_list o))
    /\ HOSService._check_break_requirement l (at_clock (with_violations db vs) t')
       = (Ok o', with_violations (at_clock (with_violations db vs) t') (opt_list o'))
    /\ Timeline.finding_of o = Timeline.finding_of o'.
Proof.
  unfold HOSService._check_break_requirement. run_monad.
  change (Store.duty_records_of (at_clock (with_violations db vs) t') l)
    with (Store.duty_records_of db l).
  destruct (HOSService.break_loop _ _ _) as [[c t]|];
    [stable_ok | stable_none].
Qed.

Lemma check_rest_stable (l : ELDLog.t) (db : Store.DB) vs t' :
  exists o o',
    HOSService._check_daily_rest_requirement l db
    = (Ok o, with_violations db (opt_list o))
    /\ HOSService._check_daily_rest_requirement l (at_clock (with_violations db vs) t')
       = (Ok o', with_violations (at_clock (with_violations db vs) t') (opt_list o'))
    /\ Timeline.finding_of o = Timeline.finding_of o'.
Proof.
  unfold HOSService._check_daily_rest_requirement. run_monad.
  change (Store.get_log (at_clock (with_violations db vs) t')) with (Store.get_log db).
  destruct (Store.get_log db _ _) as [prev|]; [|stable_none].
  change (Store.duty_records_of (at_clock (with_violations db vs) t'))
    with (Store.duty_records_of db).
  change (Store.nulls_high (at_clock (with_violations db vs) t'))
    with (Store.nulls_high db).
  destruct (qs_first _) as [lp|]; [|stable_none].
  destruct (qs_first _) as [fc|]; [|stable_none].
  destruct (DutyStatusRecord.end_time lp) as [e|]; [|stable_none].
  destruct (Qltb _ _); [stable_ok | stable_none].
Qed.

Lemma findings_opt_list (o o' : option HOSViolation.t) :
  Timeline.finding_of o = Timeline.finding_of o' ->
  map Timeline.finding (opt_list o) = map Timeline.finding (opt_list o').
Proof.
  unfold Timeline.finding_of.
  destruct o, o'; cbn [opt_list map option_map]; intro H;
    try discriminate; [|reflexivity].
  assert (E : Timeline.finding t = Timeline.finding t0) by congruence.
  rewrite E. reflexivity.
Qed.

Lemma with_violations_at_clock db t vs :
  with_violations (at_clock db t) vs = at_clock (with_violations db vs) t.
Proof. reflexivity. Qed.

(** The five checks in a row on a store whose clock has moved on, each
    compared with its run on the store before any of them. *)
Lemma check_hos_violations_findings (l : ELDLog.t) (db : Store.DB) vs t' :
  exists o1 o2 o3 o4 o5 r1 r2 r3 r4 r5,
    HOSService._check_daily_driving_limit l db
    = (Ok o1, with_violations db (opt_list o1))
    /\ HOSService._check_daily_duty_limit l db
       = (Ok o2, with_violations db (opt_list o2))
    /\ HOSService._check_cycle_limit l db
       = (Ok o3, with_violations db (opt_list o3))
    /\ HOSService._check_break_requirement l db
       = (Ok o4, with_violations db (opt_list o4))
    /\ HOSService._check_daily_rest_requirement l db
       = (Ok o5, with_violations db (opt_list o5))
    /\ HOSService.check_hos_violations l
         (at_clock (with_violations db vs) t')
       = (Ok (opt_list r1 ++ opt_list r2 ++ opt_list r3 ++ opt_list r4
              ++ opt_list r5),
          at_clock
            (with_violations db
               (vs ++ opt_list r1 ++ opt_list r2 ++ opt_list r3
                ++ opt_list r4 ++ opt_list r5)) t')
    /\ Timeline.finding_of o1 = Timeline.finding_of r1
    /\ Timeline.finding_of o2 = Timeline.finding_of r2
    /\ Timeline.finding_of o3 = Timeline.finding_of r3
    /\ Timeline.finding_of o4 = Timeline.finding_of r4
    /\ Timeline.finding_of o5 = Timeline.finding_of r5.
Proof.
  destruct (check_driving_stable l db vs t') as (o1 & r1 & A1 & B1 & F1).
  rewrite with_violations_at_clock, with_violations_app in B1.
  destruct (check_duty_stable l db (vs ++ opt_list r1) t')
    as (o2 & r2 & A2 & B2 & F2).
  rewrite with_violations_at_clock, with_violations_app in B2.
  destruct (check_cycle_stable l db ((vs ++ opt_list r1) ++ opt_list r2) t')
    as (o3 & r3 & A3 & B3 & F3).
  rewrite with_violations_at_clock, with_violations_app in B3.
  destruct (check_break_stable l db
              (((vs ++ opt_list r1) ++ opt_list r2) ++ opt_list r3) t')
    as (o4 & r4 & A4 & B4 & F4).
  rewrite with_violations_at_clock, with_violations_app in B4.
  destruct (check_rest_stable l db
              ((((vs ++ opt_list r1) ++ opt_list r2) ++ opt_list r3)
               ++ opt_list r4) t')
    as (o5 & r5 & A5 & B5 & F5).
  rewrite with_violations_at_clock, with_violations_app in B5.
  exists o1, o2, o3, o4, o5, r1, r2, r3, r4, r5.
  repeat (split; [assumption|]).
  split; [|repeat split; assumption].
  unfold HOSService.check_hos_violations, Store.bind.
  rewrite B1, B2, B3, B4, B5. unfold Store.ret.
  rewrite <- !app_assoc.
  destruct r1, r2, r3, r4, r5; reflexivity.
Qed.

(** The same on the store as it is. *)
Lemma check_hos_violations_found (l : ELDLog.t) (db : Store.DB) :
  exists o1 o2 o3 o4 o5,
    HOSService._check_daily_driving_limit l db
    = (Ok o1, with_violations db (opt_list o1))
    /\ HOSService._check_daily_duty_limit l db
       = (Ok o2, with_violations db (opt_list o2))
    /\ HOSService._check_cycle_limit l db
       = (Ok o3, with_violations db (opt_list o3))
    /\ HOSService._check_break_requirement l db
       = (Ok o4, with_violations db (opt_list o4))
    /\ HOSService._check_daily_rest_requirement l db
       = (Ok o5, with_violations db (opt_list o5))
    /\ exists r1 r2 r3 r4 r5,
         HOSService.check_hos_violations l db
         = (Ok (opt_list r1 ++ opt_list r2 ++ opt_list r3 ++ opt_list r4
                ++ opt_list r5),
            with_violations db
              (opt_list r1 ++ opt_list r2 ++ opt_list r3 ++ opt_list r4
               ++ opt_list r5))
         /\ Timeline.finding_of o1 = Timeline.finding_of r1
         /\ Timeline.finding_of o2 = Timeline.finding_of r2
         /\ Timeline.finding_of o3 = Timeline.finding_of r3
         /\ Timeline.finding_of o4 = Timeline.finding_of r4
         /\ Timeline.finding_of o5 = Timeline.finding_of r5.
Proof.
  destruct (check_hos_violations_findings l db [] (Store.now db))
    as (o1 & o2 & o3 & o4 & o5 & r1 & r2 & r3 & r4 & r5
        & A1 & A2 & A3 & A4 & A5 & R & F).
  exists o1, o2, o3, o4, o5. repeat (split; [assumption|]).
  exists r1, r2, r3, r4, r5. split; [|exact F].
  rewrite with_violations_nil in R.
  assert (C : forall x, at_clock x (Store.now x) = x)
    by (intros []; reflexivity).
  rewrite C in R. rewrite R. cbn [app].
  destruct db; reflexivity.
Qed.

(** X5.  [check_hos_violations] never raises and never touches a log or
    a duty record: it appends the violations it returns, at most one per
    check, to the violations table.  Nothing is looked up there, so a
    second run on the same log, whatever the clock reads by then, reports
    the same findings again (log, type, severity, hours and limit) and
    stores them a second time; only a time stamp taken from the clock can
    differ. *)
Theorem detector_appends_and_repeats (db : Store.DB) (l : ELDLog.t)
    (t' : Time.datetime) :
  exists vs vs' db1 db2,
    HOSService.check_hos_violations l db = (Ok vs, db1)
    /\ HOSService.check_hos_violations l (at_clock db1 t') = (Ok vs', db2)
    /\ (List.length vs <= 5)%nat
    /\ map Timeline.finding vs' = map Timeline.finding vs
    /\ Store.violations db1 = Store.violations db ++ vs
    /\ Store.violations db2 = Store.violations db ++ vs ++ vs'
    /\ Store.eld_logs db2 = Store.eld_logs db
    /\ Store.duty_records db2 = Store.duty_records db.
Proof.
  destruct (check_hos_violations_found l db)
    as (o1 & o2 & o3 & o4 & o5 & A1 & A2 & A3 & A4 & A5
        & r1 & r2 & r3 & r4 & r5 & R & F1 & F2 & F3 & F4 & F5).
  set (vs := opt_list r1 ++ opt_list r2 ++ opt_list r3 ++ opt_list r4
             ++ opt_list r5) in *.
  destruct (check_hos_violations_findings l db vs t')
    as (p1 & p2 & p3 & p4 & p5 & s1 & s2 & s3 & s4 & s5
        & C1 & C2 & C3 & C4 & C5 & S & G1 & G2 & G3 & G4 & G5).
  assert (p1 = o1) as -> by congruence.
  assert (p2 = o2) as -> by congruence.
  assert (p3 = o3) as -> by congruence.
  assert (p4 = o4) as -> by congruence.
  assert (p5 = o5) as -> by congruence.
  eexists vs, _, _, _. split; [exact R|]. split; [exact S|].
  split.
  { unfold vs. rewrite !length_app.
    destruct r1, r2, r3, r4, r5; simpl; lia. }
  split.
  { unfold vs. rewrite !map_app.
    rewrite (findings_opt_list s1 r1), (findings_opt_list s2 r2),
      (findings_opt_list s3 r3), (findings_opt_list s4 r4),
      (findings_opt_list s5 r5); congruence. }
  repeat split; reflexivity.
Qed.

(* ================================================================== *)
(** * Available hours *)

Lemma py_max_0_nonneg (x : Q) : (0 <= py_max 0 x)%Q.
Proof.
  unfold py_max. destruct (Qltb 0 x) eqn:E; [|lra].
  apply Qltb_lt in E. lra.
Qed.

Lemma py_max_0_spec (x : Q) :
  ((0 <= x)%Q -> (py_max 0 x == x)%Q)
  /\ ((x <= 0)%Q -> (py_max 0 x == 0)%Q).
Proof.
  unfold py_max. destruct (Qltb 0 x) eqn:E.
  - apply Qltb_lt in E. split; intro; lra.
  - apply Qltb_ge in E. split; intro; lra.
Qed.

Lemma Qsum_nonneg (l : list Q) :
  Forall (fun x => (0 <= x)%Q) l -> (0 <= Qsum l)%Q.
Proof.
  induction 1 as [|x l Hx Hl IH]; [unfold Qsum; simpl; lra|].
  rewrite Qsum_cons. lra.
Qed.

Lemma hours_le_iff_neg (d : Time.timedelta) :
  0 <= d -> (0 <= Time.hours d)%Q.
Proof. intro H. hours_arith. Qed.

Lemma closed_total_nonneg p (rs : list DutyStatusRecord.t) :
  (forall r e, In r rs -> DutyStatusRecord.end_time r = Some e ->
               DutyStatusRecord.start_time r <= e) ->
  0 <= Spec.closed_total p rs.
Proof.
  induction rs as [|r rs IH]; intro H; [cbn; lia|].
  rewrite closed_total_cons, closed_total_single.
  assert (0 <= Spec.closed_total p rs).
  { apply IH. intros r' e' I. apply H. right. exact I. }
  destruct (DutyStatusRecord.end_time r) as [e|] eqn:E; [|lia].
  pose proof (H r e (or_introl eq_refl) E).
  destruct (p _); lia.
Qed.

(** The driving hours reported are the hours of the closed driving
    intervals added as floats. *)
Lemma available_driving_used db d t l :
  Store.get_log db d
    (Time.date_of (match t with Some x => x | None => Store.now db end))
  = Some l ->
  HOSStatus.daily_driving_used (HOSService.calculate_available_hours db d t)
  = Timeline.driving_hours_added db l.
Proof.
  intro H. unfold HOSService.calculate_available_hours. rewrite H.
  cbv beta iota zeta. cbn [HOSStatus.daily_driving_used].
  apply driving_hours_added_code.
Qed.

Lemma available_duty_used db d t l :
  Store.get_log db d
    (Time.date_of (match t with Some x => x | None => Store.now db end))
  = Some l ->
  let ds := filter HOSService.is_duty (Store.duty_records_of db l) in
  HOSStatus.daily_duty_used (HOSService.calculate_available_hours db d t)
  = match qs_first (order_by Store.start_leb ds),
          qs_first (order_by (Store.end_desc_leb (Store.nulls_high db)) ds)
    with
    | Some first_duty, Some last_duty =>
        match DutyStatusRecord.end_time last_duty with
        | Some last_end =>
            Time.hours (last_end - DutyStatusRecord.start_time first_duty)
        | None => 0%Q
        end
    | _, _ => 0%Q
    end.
Proof.
  intros H ds. unfold HOSService.calculate_available_hours. rewrite H.
  cbv beta iota zeta. cbn [HOSStatus.daily_duty_used]. fold ds.
  destruct ds as [|x xs]; reflexivity.
Qed.

Lemma available_shape db d t :
  let s := HOSService.calculate_available_hours db d t in
  HOSStatus.daily_driving_available s
  = py_max 0 (Float64.sub 11 (HOSStatus.daily_driving_used s))
  /\ HOSStatus.daily_duty_available s
     = py_max 0 (Float64.sub 14 (HOSStatus.daily_duty_used s))
  /\ HOSStatus.cycle_available s
     = py_max 0 (Float64.sub (HOSStatus.cycle_limit s)
                             (HOSStatus.cycle_used s))
  /\ HOSStatus.cycle_limit s = Timeline.cycle_limit d
  /\ HOSStatus.cycle_used s
     = HOSService.get_current_cycle_hours db d
         (Some (Time.date_of
                  (match t with Some x => x | None => Store.now db end)))
  /\ HOSStatus.needs_break_soon s
     = Qgeb (HOSStatus.daily_driving_used s) (8 - 1)
  /\ HOSStatus.needs_daily_rest s
     = Qgeb (HOSStatus.daily_duty_used s) (14 - 1).
Proof.
  unfold HOSService.calculate_available_hours.
  destruct (Store.get_log db d _) as [l|];
    cbv beta iota zeta;
    match goal with
    | |- context [let '(a, b) := ?p in _] => destruct p as [a b]
    | _ => idtac
    end;
    repeat split.
Qed.



Lemma Qgeb_ge (a b : Q) : Qgeb a b = true <-> (b <= a)%Q.
Proof.
  unfold Qgeb. destruct (Qltb a b) eqn:E; cbn [negb].
  - apply Qltb_lt in E. split; [discriminate | intro; lra].
  - apply Qltb_ge in E. split; [intros _; exact E | reflexivity].
Qed.

Lemma py_max_0_pos (x : Q) : (0 < x)%Q -> py_max 0 x = x.
Proof.
  intro H. unfold py_max. apply Qltb_lt in H. rewrite H. reflexivity.
Qed.

(** X7.  The driving hours that [calculate_available_hours] reports for
    the day's log are the hours of its closed driving intervals added up
    as floats, interval by interval in start order.  The break warning is
    raised exactly when they reach 7; no driving hours are available
    once they reach 11, and some are while they are below.  When every
    closed driving interval lasts a whole number of quarter hours, none
    backwards and fewer than [2^43] in all, the reported hours are the
    exact driving hours of the log,
    [_check_daily_driving_limit] creates a violation for that log
    exactly when they exceed 11, and up to the limit used and available
    hours add up to 11.  Off the quarter hours the report and the
    detector, which adds seconds and divides once, can disagree: driving
    35866.887430 s, 2512.874165 s and 1220.238405 s (eleven hours) is
    reported as more than 11 hours with none available, and the detector
    finds no violation. *)
Theorem driving_used_and_detector (db : Store.DB) (d : Driver.t)
    (t : option Time.datetime) (l : ELDLog.t)
    (H : Store.get_log db d
           (Time.date_of
              (match t with Some x => x | None => Store.now db end))
         = Some l) :
  let s := HOSService.calculate_available_hours db d t in
  HOSStatus.daily_driving_used s = Timeline.driving_hours_added db l
  /\ (HOSStatus.needs_break_soon s = true
      <-> (7 <= HOSStatus.daily_driving_used s)%Q)
  /\ ((11 <= HOSStatus.daily_driving_used s)%Q ->
      (HOSStatus.daily_driving_available s == 0)%Q)
  /\ ((HOSStatus.daily_driving_used s < 11)%Q ->
      (0 < HOSStatus.daily_driving_available s)%Q)
  /\ (Timeline.driving_on_quarters db l ->
      (HOSStatus.daily_driving_used s == Spec.driving_hours db l)%Q
      /\ ((exists v,
             fst (HOSService._check_daily_driving_limit l db)
             = Ok (Some v))
          <-> (11 < HOSStatus.daily_driving_used s)%Q)
      /\ ((HOSStatus.daily_driving_used s <= 11)%Q ->
          (HOSStatus.daily_driving_used s
           + HOSStatus.daily_driving_available s == 11)%Q))
  /\ (let db11 := RoundingExamples.db_eleven_added in
      let s11 :=
        HOSService.calculate_available_hours db11 Examples.ann None in
      (Spec.driving_hours db11 Examples.log_a == 11)%Q
      /\ (11 < HOSStatus.daily_driving_used s11)%Q
      /\ (HOSStatus.daily_driving_available s11 == 0)%Q
      /\ fst (HOSService._check_daily_driving_limit Examples.log_a db11)
         = Ok None).
Proof.
  assert (Ex : let db11 := RoundingExamples.db_eleven_added in
               let s11 :=
                 HOSService.calculate_available_hours db11 Examples.ann
                   None in
               (Spec.driving_hours db11 Examples.log_a == 11)%Q
               /\ (11 < HOSStatus.daily_driving_used s11)%Q
               /\ (HOSStatus.daily_driving_available s11 == 0)%Q
               /\ fst (HOSService._check_daily_driving_limit
                         Examples.log_a db11) = Ok None).
  { clear. cbv zeta. repeat split; vm_compute; reflexivity. }
  cbv zeta.
  pose proof (available_driving_used db d t l H) as U.
  destruct (available_shape db d t) as (A1 & _ & _ & _ & _ & A6 & _).
  cbv zeta in A1, A6.
  set (used := HOSStatus.daily_driving_used
                 (HOSService.calculate_available_hours db d t)) in *.
  set (avail := HOSStatus.daily_driving_available
                  (HOSService.calculate_available_hours db d t)) in *.
  split; [exact U|]. split; [|split; [|split; [|split; [|exact Ex]]]].
  - rewrite A6, Qgeb_ge.
    assert (E7 : (8 - 1 == 7)%Q) by reflexivity. rewrite E7. reflexivity.
  - intro G. rewrite A1. apply py_max_0_spec.
    apply (round_sign (11 - used)). lra.
  - intro G. rewrite A1.
    assert (P : (0 < Float64.sub 11 used)%Q)
      by (apply (round_sign (11 - used)); lra).
    rewrite (py_max_0_pos _ P). exact P.
  - intro G.
    pose proof (driving_hours_added_exact db l G) as XA.
    pose proof (driving_hours_on_quarters db l G) as XS.
    pose proof (driving_hours_float_on_quarters db l G) as XF.
    rewrite <- U in XA.
    destruct (check_driving_decides l db) as (o & E & D & _).
    set (q := Timeline.driving_quarters_up db l) in *.
    assert (Nq : 0 <= q /\ q < 2 ^ 43).
    { destruct G as [_ B]. split; [|exact B].
      unfold q, Timeline.driving_quarters_up. rewrite driving_up_blocks.
      apply Zsum_nonneg, Forall_forall. intros c Hc.
      apply in_map_iff in Hc. destruct Hc as (r & <- & _).
      apply steps_up_nonneg. }
    split; [rewrite XA, XS; reflexivity|]. split.
    + rewrite E. cbn [fst]. rewrite XA, <- XF. rewrite <- D.
      split; intros [v Hv]; exists v; congruence.
    + intro L. rewrite A1.
      assert (S : (Float64.sub 11 used == inject_Z (44 - q) / 4)%Q).
      { unfold Float64.sub.
        transitivity (Float64.round (inject_Z (44 - q) / 4)).
        - apply round_comp. rewrite XA.
          unfold Zminus. rewrite inject_Z_plus, inject_Z_opp.
          change (inject_Z 44) with 44%Q. field.
        - apply round_quarters. lia. }
      assert (Q44 : (inject_Z q / 4 <= 11)%Q) by (rewrite <- XA; exact L).
      assert (P : (0 <= Float64.sub 11 used)%Q).
      { rewrite S. unfold Zminus. rewrite inject_Z_plus, inject_Z_opp.
        change (inject_Z 44) with 44%Q.
        revert Q44. generalize (inject_Z q). intros. lra_div. }
      rewrite (proj1 (py_max_0_spec _) P), S, XA.
      unfold Zminus. rewrite inject_Z_plus, inject_Z_opp.
      change (inject_Z 44) with 44%Q. field.
Qed.

Lemma driving_used_and_detector_witness :
  let db := DetectorExamples.db_long_drive in
  let s := HOSService.calculate_available_hours db Examples.ann None in
  Store.get_log db Examples.ann (Time.date_of (Store.now db))
  = Some Examples.log_a
  /\ (HOSStatus.daily_driving_used s == 23 # 2)%Q
  /\ (HOSStatus.daily_driving_available s == 0)%Q.
Proof.
  split; [reflexivity|].
  destruct (driving_used_and_detector DetectorExamples.db_long_drive
              Examples.ann None Examples.log_a eq_refl)
    as (A & _ & B & _).
  split.
  - rewrite A. vm_compute. reflexivity.
  - apply B. rewrite A. vm_compute. discriminate.
Defined.

Lemma duty_hours_nonneg db l :
  Timeline.forward db l -> (0 <= Spec.duty_hours db l)%Q.
Proof.
  intro F. unfold Spec.duty_hours. rewrite duty_hours_closed_total.
  apply hours_le_iff_neg. apply closed_total_nonneg. exact F.
Qed.

Lemma cycle_hours_nonneg db d as_of :
  (forall l, In l (Store.eld_logs db) -> Timeline.forward db l) ->
  (0 <= Spec.cycle_hours_used db d as_of)%Q.
Proof.
  intro F. unfold Spec.cycle_hours_used. apply Qsum_nonneg.
  apply Forall_forall. intros x I. apply in_map_iff in I.
  destruct I as (l & <- & I). apply filter_In in I.
  apply duty_hours_nonneg, F, I.
Qed.

Lemma duty_window_nonneg db l :
  Timeline.forward db l ->
  let ds := filter HOSService.is_duty (Store.duty_records_of db l) in
  (0 <= match qs_first (order_by Store.start_leb ds),
              qs_first (order_by (Store.end_desc_leb (Store.nulls_high db))
                          ds)
        with
        | Some first_duty, Some last_duty =>
            match DutyStatusRecord.end_time last_duty with
            | Some last_end =>
                Time.hours
                  (last_end - DutyStatusRecord.start_time first_duty)%Z
            | None => 0%Q
            end
        | _, _ => 0%Q
        end)%Q.
Proof.
  intros F ds.
  destruct (qs_first (order_by Store.start_leb ds)) as [fd|] eqn:A;
    [|apply Qle_refl].
  destruct (qs_first (order_by (Store.end_desc_leb _) ds)) as [ld|] eqn:B;
    [|apply Qle_refl].
  destruct (DutyStatusRecord.end_time ld) as [e|] eqn:E; [|apply Qle_refl].
  apply hours_le_iff_neg.
  apply code_first_duty in A. apply code_last_duty in B.
  destruct A as [_ A]. destruct B as [B _].
  specialize (A ld B).
  assert (I : In ld (Spec.intervals db l)).
  { unfold Spec.duties in B. apply filter_In in B. apply B. }
  specialize (F ld e I E). lia.
Qed.

Lemma driving_hours_added_nonneg db l :
  Timeline.forward db l -> (0 <= Timeline.driving_hours_added db l)%Q.
Proof.
  intro F. unfold Timeline.driving_hours_added. apply sum_nonneg.
  apply Forall_forall. intros x I. apply in_map_iff in I.
  destruct I as (r & <- & I). apply hours_nonneg.
  unfold Timeline.driving_blocks in I.
  apply filter_In in I. destruct I as [I C].
  apply filter_In in I. destruct I as [I _].
  unfold Store.duty_records_of in I. apply order_by_In in I.
  unfold Spec.is_closed, Spec.is_open in C.
  unfold DutyStatusRecord.duration.
  destruct (DutyStatusRecord.end_time r) as [e|] eqn:E; [|discriminate].
  specialize (F r e I E). lia.
Qed.

Lemma available_within (n : Z) (x : Q) :
  0 <= n < 2 ^ 53 -> (0 <= x)%Q ->
  (0 <= py_max 0 (Float64.sub (inject_Z n) x) <= inject_Z n)%Q.
Proof.
  intros N X. split; [apply py_max_0_nonneg|].
  assert (L : (Float64.sub (inject_Z n) x <= inject_Z n)%Q)
    by (apply round_le_int; [lia | lra]).
  assert (N0 : (0 <= inject_Z n)%Q).
  { change 0%Q with (inject_Z 0). rewrite <- Zle_Qle. lia. }
  unfold py_max. destruct (Qltb 0 _); [exact L | exact N0].
Qed.

(** X8.  In a store where no closed interval ends before it starts, the
    figures of [calculate_available_hours] stay within their limits: the
    hours used are not negative, and the hours available lie between 0
    and the limit (11 of driving, 14 of duty, the cycle limit). *)
Theorem available_hours_within_limits (db : Store.DB) (d : Driver.t)
    (t : option Time.datetime)
    (Hfw : forall l, In l (Store.eld_logs db) -> Timeline.forward db l) :
  let s := HOSService.calculate_available_hours db d t in
  (0 <= HOSStatus.daily_driving_used s)%Q
  /\ (0 <= HOSStatus.daily_duty_used s)%Q
  /\ (0 <= HOSStatus.cycle_used s)%Q
  /\ (0 <= HOSStatus.daily_driving_available s <= 11)%Q
  /\ (0 <= HOSStatus.daily_duty_available s <= 14)%Q
  /\ (0 <= HOSStatus.cycle_available s <= HOSStatus.cycle_limit s)%Q.
Proof.
  intro s.
  destruct (available_shape db d t) as (A1 & A2 & A3 & A4 & A5 & _).
  fold s in A1, A2, A3, A4, A5.
  set (day := Time.date_of
                (match t with Some x => x | None => Store.now db end)) in *.
  assert (U1 : (0 <= HOSStatus.daily_driving_used s)%Q).
  { destruct (Store.get_log db d day) as [l|] eqn:G.
    - pose proof (available_driving_used db d t l G) as E.
      fold s in E. rewrite E.
      apply driving_hours_added_nonneg. apply Hfw.
      apply find_some in G. apply G.
    - unfold s, HOSService.calculate_available_hours. fold day.
      rewrite G. cbn. lra. }
  assert (U2 : (0 <= HOSStatus.daily_duty_used s)%Q).
  { destruct (Store.get_log db d day) as [l|] eqn:G.
    - unfold s. rewrite (available_duty_used db d t l G).
      apply duty_window_nonneg. apply Hfw.
      apply find_some in G. apply G.
    - unfold s, HOSService.calculate_available_hours. fold day.
      rewrite G. cbn. lra. }
  assert (U3 : (0 <= HOSStatus.cycle_used s)%Q).
  { rewrite A5, get_current_cycle_hours_sum.
    apply cycle_hours_nonneg. exact Hfw. }
  split; [exact U1|]. split; [exact U2|]. split; [exact U3|].
  rewrite A1, A2, A3, A4.
  split; [apply (available_within 11); [lia | exact U1]|].
  split; [apply (available_within 14); [lia | exact U2]|].
  unfold Timeline.cycle_limit.
  destruct (String.eqb _ _);
    [apply (available_within 70) | apply (available_within 60)];
    (lia || exact U3).
Qed.

Lemma forward_long_drive :
  forall l, In l (Store.eld_logs DetectorExamples.db_long_drive) ->
            Timeline.forward DetectorExamples.db_long_drive l.
Proof.
  intros l [<- | []] r e I E.
  vm_compute in I.
  destruct I as [<- | [<- | [<- | []]]];
    injection E as <-; vm_compute; discriminate.
Qed.

Lemma available_hours_within_limits_witness :
  let db := DetectorExamples.db_long_drive in
  let s := HOSService.calculate_available_hours db Examples.ann None in
  (forall l, In l (Store.eld_logs db) -> Timeline.forward db l)
  /\ (0 <= HOSStatus.daily_duty_available s <= 14)%Q
  /\ (0 <= HOSStatus.cycle_available s <= HOSStatus.cycle_limit s)%Q.
Proof.
  split; [exact forward_long_drive|].
  destruct (available_hours_within_limits DetectorExamples.db_long_drive
              Examples.ann None forward_long_drive)
    as (_ & _ & _ & _ & A & B).
  split; [exact A | exact B].
Defined.

(** X9.  The duty window of [calculate_available_hours] ends at the
    first row of [order_by('-end_time')], so it depends on where the
    backend puts a null [end_time].  While a driving/on-duty interval of
    the day is open, a backend that orders nulls above every value
    reports 0 duty hours used, all 14 available and no rest warning; a
    backend that orders them below reports the window from the earliest
    start to the latest end of a closed driving/on-duty interval. *)
Theorem open_interval_and_duty_window (db : Store.DB) (d : Driver.t)
    (t : option Time.datetime) (l : ELDLog.t) (r : DutyStatusRecord.t)
    (H : Store.get_log db d
           (Time.date_of
              (match t with Some x => x | None => Store.now db end))
         = Some l)
    (Hr : In r (Spec.duties db l))
    (Ho : DutyStatusRecord.end_time r = None) :
  let s := HOSService.calculate_available_hours db d t in
  (Store.nulls_high db = true ->
   HOSStatus.daily_duty_used s = 0%Q
   /\ (HOSStatus.daily_duty_available s == 14)%Q
   /\ HOSStatus.needs_daily_rest s = false)
  /\ (Store.nulls_high db = false ->
      forall c p e,
        Spec.first_duty db l c ->
        In p (Spec.duties db l) ->
        DutyStatusRecord.end_time p = Some e ->
        (forall q e', In q (Spec.duties db l) ->
                      DutyStatusRecord.end_time q = Some e' -> e' <= e) ->
        HOSStatus.daily_duty_used s
        = Time.hours (e - DutyStatusRecord.start_time c)).
Proof.
  intro s.
  destruct (available_shape db d t) as (_ & A2 & _ & _ & _ & _ & A7).
  fold s in A2, A7.
  pose proof (available_duty_used db d t l H) as U. fold s in U.
  cbv zeta in U.
  set (ds := filter HOSService.is_duty (Store.duty_records_of db l)) in *.
  destruct (qs_first (order_by Store.start_leb ds)) as [fd|] eqn:A.
  2:{ exfalso. apply no_duty_no_first in A. rewrite A in Hr. exact Hr. }
  destruct (qs_first (order_by (Store.end_desc_leb _) ds)) as [ld|] eqn:B.
  2:{ exfalso. apply no_duty_no_first in B. rewrite B in Hr. exact Hr. }
  apply code_first_duty in A. apply code_last_duty in B.
  destruct B as [B1 B2].
  split.
  - intro N. specialize (B2 r Hr). rewrite Ho, N in B2.
    destruct (DutyStatusRecord.end_time ld) as [e|]; [discriminate|].
    rewrite A2, A7, U. repeat split; reflexivity.
  - intros N c p e Hc Hp Ep Hmax.
    rewrite U. rewrite (first_duty_start_unique _ _ _ _ A Hc).
    specialize (B2 p Hp). rewrite Ep, N in B2.
    destruct (DutyStatusRecord.end_time ld) as [e2|] eqn:E2;
      [|discriminate].
    cbn [Store.null_leb] in B2.
    specialize (Hmax ld e2 B1 E2).
    assert (e2 = e) as -> by lia. reflexivity.
Qed.

Lemma open_interval_and_duty_window_witness :
  let db := Store.mk [Examples.log_a]
              [Examples.interval 11 10 "on_duty_not_driving"
                 (Examples.at_ 6 0) (Some (Examples.at_ 7 0));
               Examples.interval 12 10 "driving" (Examples.at_ 7 0) None]
              [] (Examples.at_ 12 0) true in
  let s := HOSService.calculate_available_hours db Examples.ann None in
  HOSStatus.daily_duty_used s = 0%Q
  /\ (HOSStatus.daily_duty_available s == 14)%Q.
Proof.
  intros db s.
  assert (G : Store.get_log db Examples.ann
                (Time.date_of
                   (match @None Time.datetime with
                    | Some x => x
                    | None => Store.now db
                    end)) = Some Examples.log_a) by reflexivity.
  assert (I : In (Examples.interval 12 10 "driving" (Examples.at_ 7 0) None)
                 (Spec.duties db Examples.log_a)).
  { vm_compute. right. left. reflexivity. }
  destruct (open_interval_and_duty_window db Examples.ann None
              Examples.log_a _ G I eq_refl) as [A _].
  destruct (A eq_refl) as (A1 & A2 & _).
  split; [exact A1 | exact A2].
Defined.

(* ================================================================== *)
(** * The violation flags the mutator sets *)

Lemma close_open_violations db log start :
  Store.violations (Mutator.close_open db log start) = Store.violations db.
Proof.
  unfold Mutator.close_open. destruct (qs_last _); reflexivity.
Qed.

Lemma drive_11h_found (l : ELDLog.t) (db : Store.DB) :
  exists vs o,
    HOSService.check_hos_violations l db = (Ok vs, with_violations db vs)
    /\ (existsb (fun v => String.eqb (HOSViolation.violation_type v)
                                      "drive_11h") vs = true
        <-> (11 < Timeline.driving_hours_float db l)%Q)
    /\ HOSService._check_daily_duty_limit l db
       = (Ok o, with_violations db (opt_list o))
    /\ (existsb (fun v => String.eqb (HOSViolation.violation_type v)
                                      "duty_14h") vs = true
        <-> exists v, o = Some v).
Proof.
  destruct (check_hos_violations_found l db)
    as (o1 & o2 & o3 & o4 & o5 & A1 & A2 & A3 & A4 & A5
        & r1 & r2 & r3 & r4 & r5 & R & F1 & F2 & F3 & F4 & F5).
  destruct (check_driving_decides l db) as (o & E & D & V).
  assert (o = o1) as -> by congruence.
  destruct (check_duty_shape l db) as (p2 & E2 & V2).
  assert (p2 = o2) as -> by congruence.
  destruct (check_cycle_shape l db) as (p3 & E3 & V3).
  assert (p3 = o3) as -> by congruence.
  destruct (check_break_shape l db) as (p4 & E4 & V4).
  assert (p4 = o4) as -> by congruence.
  destruct (check_rest_shape l db) as (p5 & E5 & V5).
  assert (p5 = o5) as -> by congruence.
  assert (T : forall (o r : option HOSViolation.t) v,
             Timeline.finding_of o = Timeline.finding_of r -> r = Some v ->
             exists w, o = Some w
                       /\ HOSViolation.violation_type v
                          = HOSViolation.violation_type w).
  { intros o r v F ->. destruct o as [w|]; [|discriminate].
    exists w. split; [reflexivity|].
    unfold Timeline.finding_of, option_map, Timeline.finding in F.
    congruence. }
  assert (N : forall (o r : option HOSViolation.t),
             Timeline.finding_of o = Timeline.finding_of r ->
             ((exists v, o = Some v) <-> (exists v, r = Some v))).
  { intros o r F. destruct o, r; try discriminate;
      split; intros [v Hv]; try discriminate; eexists; reflexivity. }
  eexists _, o2. split; [exact R|].
  rewrite !existsb_app.
  assert (K : forall (r : option HOSViolation.t) (s : string),
             existsb (fun v => String.eqb (HOSViolation.violation_type v) s)
                     (opt_list r) = true
             <-> exists v, r = Some v /\ HOSViolation.violation_type v = s).
  { intros r s. destruct r as [v|]; cbn [opt_list existsb].
    - rewrite orb_false_r, String.eqb_eq.
      split; [intro; exists v; auto | intros (w & Hw & <-); congruence].
    - split; [discriminate | intros (w & Hw & _); discriminate]. }
  rewrite !orb_true_iff, !K.
  split; [|split; [exact A2|]].
  - rewrite <- D. rewrite (N _ _ F1). split.
    + intros [(v & Hv & S) | [(v & Hv & S) | [(v & Hv & S)
             | [(v & Hv & S) | (v & Hv & S)]]]].
      * exists v. exact Hv.
      * destruct (T _ _ _ F2 Hv) as (w & Hw & Ty).
        rewrite (proj1 (V2 w Hw)) in Ty. congruence.
      * destruct (T _ _ _ F3 Hv) as (w & Hw & Ty).
        destruct (proj1 (V3 w Hw)) as [X | X]; rewrite X in Ty; congruence.
      * destruct (T _ _ _ F4 Hv) as (w & Hw & Ty).
        rewrite (proj1 (V4 w Hw)) in Ty. congruence.
      * destruct (T _ _ _ F5 Hv) as (w & Hw & Ty).
        rewrite (proj1 (V5 w Hw)) in Ty. congruence.
    + intros [v Hv]. left. exists v. split; [exact Hv|].
      destruct (T _ _ _ F1 Hv) as (w & Hw & Ty). rewrite Ty.
      apply (V w Hw).
  - rewrite (N _ _ F2). split.
    + intros [(v & Hv & S) | [(v & Hv & S) | [(v & Hv & S)
             | [(v & Hv & S) | (v & Hv & S)]]]].
      * destruct (T _ _ _ F1 Hv) as (w & Hw & Ty).
        rewrite (proj1 (V w Hw)) in Ty. congruence.
      * exists v. exact Hv.
      * destruct (T _ _ _ F3 Hv) as (w & Hw & Ty).
        destruct (proj1 (V3 w Hw)) as [X | X]; rewrite X in Ty; congruence.
      * destruct (T _ _ _ F4 Hv) as (w & Hw & Ty).
        rewrite (proj1 (V4 w Hw)) in Ty. congruence.
      * destruct (T _ _ _ F5 Hv) as (w & Hw & Ty).
        rewrite (proj1 (V5 w Hw)) in Ty. congruence.
    + intros [v Hv]. right. left. exists v. split; [exact Hv|].
      destruct (T _ _ _ F2 Hv) as (w & Hw & Ty). rewrite Ty.
      apply (V2 w Hw).
Qed.

Lemma driving_hours_same_rows db db' l l' :
  Store.duty_records db' = Store.duty_records db ->
  ELDLog.id l' = ELDLog.id l ->
  Timeline.driving_hours_float db' l' = Timeline.driving_hours_float db l.
Proof.
  intros R I.
  unfold Timeline.driving_hours_float, Timeline.driving_blocks,
    Store.duty_records_of.
  rewrite R, I. reflexivity.
Qed.

(** The run of the mutator with the violations its check finds. *)
Lemma create_duty_status_record_found
    db log status start loc lat lng notes odo :
  exists record log' db' vs,
    HOSService.create_duty_status_record log status start loc lat lng
      notes odo db = (Ok (record, log'), db')
    /\ Store.violations db' = Store.violations db ++ vs
    /\ (vs = [] ->
        ELDLog.has_driving_violation log' = ELDLog.has_driving_violation log
        /\ ELDLog.has_duty_violation log' = ELDLog.has_duty_violation log)
    /\ (vs <> [] ->
        ELDLog.has_driving_violation log'
        = existsb (fun v => String.eqb (HOSViolation.violation_type v)
                                       "drive_11h") vs
        /\ ELDLog.has_duty_violation log'
           = existsb (fun v => String.eqb (HOSViolation.violation_type v)
                                          "duty_14h") vs)
    /\ (existsb (fun v => String.eqb (HOSViolation.violation_type v)
                                      "drive_11h") vs = true
        <-> (11 < Timeline.driving_hours_float db' log')%Q).
Proof.
  set (db1 := Mutator.close_open db log start).
  set (record := Mutator.new_record db log status start loc lat lng
                   notes odo).
  unfold HOSService.create_duty_status_record.
  unfold Store.bind at 1. unfold Store.gets at 1.
  unfold Store.bind at 1.
  assert (E1 : (match qs_last
                        (filter
                           (fun r => match DutyStatusRecord.end_time r with
                                     | Some _ => false
                                     | None => true
                                     end) (Store.duty_records_of db log)) with
                | Some p =>
                    Store.save_record
                      (DutyStatusRecord.with_end_time p (Some start))
                | None => Store.ret tt
                end) db = (Ok tt, db1)).
  { unfold db1, Mutator.close_open.
    change (fun r => match DutyStatusRecord.end_time r with
                     | Some _ => false
                     | None => true
                     end) with Spec.is_open.
    destruct (qs_last _); reflexivity. }
  rewrite E1. clear E1.
  unfold Store.bind at 1.
  change (Store.create_record log status start None loc lat lng odo notes
            false db1) with (Ok record, with_records db1 [record]).
  cbv beta iota.
  set (db2 := with_records db1 [record]).
  unfold Store.bind at 1.
  unfold HOSService._update_eld_log_totals.
  unfold Store.bind at 1. unfold Store.gets at 1.
  destruct (fold_left HOSService.add_to_totals _ _) as [[[td tu] tf] ts].
  set (log1 := ELDLog.with_totals log td tu tf ts).
  unfold Store.bind at 1.
  destruct (Store.save_log log1 db2) as [u db3] eqn:E3.
  unfold Store.save_log, Store.modify in E3.
  injection E3 as <- <-.
  set (db3 := Store.mk _ _ _ _ _).
  assert (R3 : Store.duty_records db3 = Store.duty_records db2)
    by reflexivity.
  assert (V3 : Store.violations db3 = Store.violations db).
  { unfold db3, db2. cbn [Store.violations with_records].
    apply close_open_violations. }
  unfold Store.ret at 1. unfold Store.bind at 1.
  destruct (drive_11h_found log1 db3) as (vs & o & EV & D & _).
  rewrite EV.
  assert (DH : forall dbx logx,
             Store.duty_records dbx = Store.duty_records db3 ->
             ELDLog.id logx = ELDLog.id log1 ->
             (existsb (fun v => String.eqb (HOSViolation.violation_type v)
                                           "drive_11h") vs = true
              <-> (11 < Timeline.driving_hours_float dbx logx)%Q)).
  { intros dbx logx Hr Hi.
    rewrite (driving_hours_same_rows db3 dbx log1 logx Hr Hi). exact D. }
  unfold Store.bind at 1.
  destruct vs as [|v vs'] eqn:EVS.
  - unfold Store.ret. exists record, log1, (with_violations db3 []), [].
    split; [reflexivity|]. split.
    { rewrite <- V3. reflexivity. }
    split; [intros _; split; reflexivity|].
    split; [intro N; contradiction|].
    apply DH; reflexivity.
  - set (log2 := ELDLog.with_flags log1 _ _).
    unfold Store.bind at 1.
    destruct (Store.save_log log2 (with_violations db3 (v :: vs')))
      as [u db4] eqn:E4.
    unfold Store.save_log, Store.modify in E4.
    injection E4 as <- <-. unfold Store.ret.
    eexists record, log2, _, (v :: vs').
    split; [reflexivity|]. split.
    { rewrite <- V3. reflexivity. }
    split; [discriminate|].
    split; [intros _; split; reflexivity|].
    apply DH; reflexivity.
Qed.

(** X10.  What [create_duty_status_record] does to the two violation
    flags of the log object.  When its check finds no violation (no row
    is added to the violations table) both flags stay as the caller
    passed them, so a flag is not cleared once the hours are back in
    bounds.  When it finds any, [has_driving_violation] becomes true
    exactly if the log's driving total now exceeds 11, and false
    otherwise; the total is the float of the driving check, the seconds
    of the closed driving intervals added in start order and divided by
    3600.  In every case the flag is raised when that total exceeds
    11. *)
Theorem mutator_violation_flags
    db log status start loc lat lng notes odo :
  exists record log' db' vs,
    HOSService.create_duty_status_record log status start loc lat lng
      notes odo db = (Ok (record, log'), db')
    /\ Store.violations db' = Store.violations db ++ vs
    /\ (vs = [] ->
        ELDLog.has_driving_violation log' = ELDLog.has_driving_violation log
        /\ ELDLog.has_duty_violation log' = ELDLog.has_duty_violation log)
    /\ (vs <> [] ->
        (ELDLog.has_driving_violation log' = true
         <-> (11 < Timeline.driving_hours_float db' log')%Q)
        /\ (ELDLog.has_duty_violation log' = true
            <-> exists v, In v vs
                          /\ HOSViolation.violation_type v = "duty_14h"))
    /\ ((11 < Timeline.driving_hours_float db' log')%Q ->
        ELDLog.has_driving_violation log' = true).
Proof.
  destruct (create_duty_status_record_found db log status start loc lat lng
              notes odo)
    as (record & log' & db' & vs & R & V & F0 & F1 & D).
  exists record, log', db', vs.
  split; [exact R|]. split; [exact V|]. split; [exact F0|]. split.
  - intro N. destruct (F1 N) as [A B]. rewrite A, B. split; [exact D|].
    rewrite existsb_exists. split.
    + intros (v & I & S). exists v. split; [exact I|].
      apply String.eqb_eq. exact S.
    + intros (v & I & S). exists v. split; [exact I|].
      apply String.eqb_eq. exact S.
  - intro G. apply D in G.
    destruct vs as [|v vs']; [discriminate|].
    destruct (F1 ltac:(discriminate)) as [A _]. rewrite A. exact G.
Qed.

(* ================================================================== *)
(** * The simulator on any store *)

(** The loop of [generate_trip_eld_logs], one step at a time. *)
Lemma generate_days_cons trip h sd day rest logs db :
  HOSService.generate_days trip h sd (day :: rest) logs db
  = HOSService.generate_days trip h sd rest
      (logs ++ [fst (Simulator.day_step db trip sd day h)])
      (snd (Simulator.day_step db trip sd day h)).
Proof.
  unfold Simulator.day_step.
  destruct (Store.get_log db (Trip.driver trip) (sd + day)) as [l|] eqn:G.
  - cbn [HOSService.generate_days]. unfold Store.bind at 1.
    unfold HOSService.get_or_create_log, Time.days. rewrite G.
    cbn [negb andb]. unfold Store.bind at 1.
    destruct (HOSService.fk_eqb (ELDLog.trip l) (Some (Trip.id trip)));
      cbn [negb fst snd].
    + unfold Store.ret at 1. unfold Store.bind at 1. unfold Store.ret at 1.
      reflexivity.
    + unfold Store.bind at 1. unfold Store.save_log, Store.modify.
      unfold Store.ret at 1. unfold Store.bind at 1. unfold Store.ret at 1.
      reflexivity.
  - apply generate_days_step. exact G.
Qed.

Lemma generate_days_nil trip h sd logs db :
  HOSService.generate_days trip h sd [] logs db = (Ok logs, db).
Proof. reflexivity. Qed.

Lemma generate_days_run trip h sd days logs db :
  HOSService.generate_days trip h sd days logs db
  = (Ok (logs ++ fst (Simulator.run_days db trip sd h days)),
     snd (Simulator.run_days db trip sd h days)).
Proof.
  revert logs db. induction days as [|day rest IH]; intros logs db.
  - cbn [Simulator.run_days fst snd]. rewrite app_nil_r. reflexivity.
  - rewrite generate_days_cons, IH. cbn [Simulator.run_days fst snd].
    rewrite <- app_assoc. reflexivity.
Qed.

Lemma generate_trip_run trip route db :
  Trip.route trip = Some route ->
  let h := RouteCalculation.estimated_duration_hours route in
  let days := HOSService.py_range (Z.max 1 (py_int (h / 11) + 1)) in
  HOSService.generate_trip_eld_logs trip db
  = (Ok (fst (Simulator.run_days db trip (Simulator.start_date db trip)
                h days)),
     snd (Simulator.run_days db trip (Simulator.start_date db trip)
            h days)).
Proof.
  intros R h days. rewrite (generate_trip_unfold trip route db R).
  rewrite generate_days_run. reflexivity.
Qed.

(** ** What a step returns *)

Lemma fk_eqb_eq (a : option Z) (b : Z) :
  HOSService.fk_eqb a (Some b) = true -> a = Some b.
Proof.
  destruct a as [x|]; cbn; [|discriminate].
  intro H. apply Z.eqb_eq in H. congruence.
Qed.

Lemma get_log_found db d day l :
  Store.get_log db d day = Some l ->
  In l (Store.eld_logs db)
  /\ Store.same_driver d l = true /\ ELDLog.log_date l = day.
Proof.
  intro G. apply find_some in G. destruct G as [I P].
  apply andb_true_iff in P. destruct P as [P1 P2].
  apply Z.eqb_eq in P2. auto.
Qed.

Lemma day_step_log db trip sd day h :
  let l := fst (Simulator.day_step db trip sd day h) in
  ELDLog.log_date l = sd + day
  /\ Store.same_driver (Trip.driver trip) l = true
  /\ ELDLog.trip l = Some (Trip.id trip).
Proof.
  unfold Simulator.day_step.
  destruct (Store.get_log db (Trip.driver trip) (sd + day)) as [l|] eqn:G.
  - destruct (get_log_found _ _ _ _ G) as (_ & D & E).
    destruct (HOSService.fk_eqb _ _) eqn:F; cbn [fst].
    + repeat split; try assumption. apply fk_eqb_eq. exact F.
    + repeat split; assumption.
  - cbn. repeat split. apply same_driver_refl. reflexivity.
Qed.

Lemma run_days_logs db trip sd h days :
  let out := fst (Simulator.run_days db trip sd h days) in
  map ELDLog.log_date out = map (fun day => sd + day) days
  /\ Forall (fun l => Store.same_driver (Trip.driver trip) l = true
                      /\ ELDLog.trip l = Some (Trip.id trip)) out.
Proof.
  revert db. induction days as [|day rest IH]; intro db.
  - split; [reflexivity | constructor].
  - cbn [Simulator.run_days fst map].
    destruct (day_step_log db trip sd day h) as (A & B & C).
    destruct (IH (snd (Simulator.day_step db trip sd day h))) as [I1 I2].
    split; [rewrite A, I1; reflexivity|].
    constructor; [split; assumption | exact I2].
Qed.

(** X11.  For a trip with a route, on any store,
    [generate_trip_eld_logs] returns one log per day counted from the
    start date (the planned start, or today without one), in order:
    consecutive dates, each log of the trip's driver and referring to
    this trip, also when the log was in the store before. *)
Theorem trip_logs_cover_consecutive_dates (db : Store.DB) (trip : Trip.t)
    (route : RouteCalculation.t) (Hroute : Trip.route trip = Some route) :
  let h := RouteCalculation.estimated_duration_hours route in
  let n := Z.max 1 (py_int (h / 11) + 1) in
  exists logs db',
    HOSService.generate_trip_eld_logs trip db = (Ok logs, db')
    /\ map ELDLog.log_date logs
       = map (fun day => Simulator.start_date db trip + day)
             (HOSService.py_range n)
    /\ Forall (fun l => Store.same_driver (Trip.driver trip) l = true
                        /\ ELDLog.trip l = Some (Trip.id trip)) logs.
Proof.
  intros h n. rewrite (generate_trip_run trip route db Hroute).
  eexists _, _. split; [reflexivity|].
  apply run_days_logs.
Qed.

Lemma trip_logs_cover_consecutive_dates_witness :
  exists logs db',
    HOSService.generate_trip_eld_logs (SimulatorExamples.trip_of 25)
      SimulatorExamples.db_fresh = (Ok logs, db')
    /\ map ELDLog.log_date logs = [19000; 19001; 19002].
Proof.
  destruct (trip_logs_cover_consecutive_dates SimulatorExamples.db_fresh
              (SimulatorExamples.trip_of 25) (RouteCalculation.mk 275 25)
              eq_refl) as (logs & db' & R & D & _).
  exists logs, db'. split; [exact R|]. rewrite D. reflexivity.
Defined.

(** ** What a step leaves of the store *)

Lemma save_log_ids (l : ELDLog.t) (db : Store.DB) :
  In (ELDLog.id l) (map ELDLog.id (Store.eld_logs db)) ->
  map ELDLog.id (Store.eld_logs (snd (Store.save_log l db)))
  = map ELDLog.id (Store.eld_logs db).
Proof.
  intro I. unfold Store.save_log, Store.modify. cbn [snd Store.eld_logs].
  destruct (existsb _ (Store.eld_logs db)) eqn:E.
  - rewrite map_map. apply map_ext. intro x.
    destruct (Z.eqb_spec (ELDLog.id x) (ELDLog.id l)); congruence.
  - exfalso. apply in_map_iff in I. destruct I as (x & Hx & Ix).
    assert (existsb (fun x0 => ELDLog.id x0 =? ELDLog.id l)
                    (Store.eld_logs db) = true).
    { apply existsb_exists. exists x. split; [exact Ix|].
      apply Z.eqb_eq. exact Hx. }
    congruence.
Qed.

Lemma save_log_rows (l : ELDLog.t) (db : Store.DB) :
  Store.duty_records (snd (Store.save_log l db)) = Store.duty_records db
  /\ Store.violations (snd (Store.save_log l db)) = Store.violations db
  /\ Store.now (snd (Store.save_log l db)) = Store.now db
  /\ Store.nulls_high (snd (Store.save_log l db)) = Store.nulls_high db.
Proof. repeat split. Qed.

Lemma uuid4_same_keys (db db' : Store.DB) :
  map ELDLog.id (Store.eld_logs db') = map ELDLog.id (Store.eld_logs db) ->
  Store.duty_records db' = Store.duty_records db ->
  Store.violations db' = Store.violations db ->
  Store.uuid4 db' = Store.uuid4 db.
Proof. intros A B C. unfold Store.uuid4. rewrite A, B, C. reflexivity. Qed.

Lemma max_id_le_app_l (a b : list Z) :
  Store.max_id a <= Store.max_id (a ++ b).
Proof. rewrite max_id_app. lia. Qed.

Lemma uuid4_with_log_le (db : Store.DB) (l : ELDLog.t) :
  Store.uuid4 db <= Store.uuid4 (Simulator.with_log db l).
Proof.
  unfold Store.uuid4, Simulator.with_log.
  cbn [Store.eld_logs Store.duty_records Store.violations].
  rewrite map_app, !max_id_app. lia.
Qed.

Lemma uuid4_with_records_le (db : Store.DB) rs :
  Store.uuid4 db <= Store.uuid4 (with_records db rs).
Proof.
  unfold Store.uuid4, with_records.
  cbn [Store.eld_logs Store.duty_records Store.violations].
  rewrite !map_app, !max_id_app. lia.
Qed.

Lemma day_step_frame db trip sd day h :
  let db' := snd (Simulator.day_step db trip sd day h) in
  Store.uuid4 db <= Store.uuid4 db'
  /\ Store.violations db' = Store.violations db
  /\ Store.now db' = Store.now db
  /\ Store.nulls_high db' = Store.nulls_high db
  /\ (exists added, Store.duty_records db' = Store.duty_records db ++ added)
  /\ forall l0, ELDLog.id l0 < Store.uuid4 db ->
                Spec.intervals db' l0 = Spec.intervals db l0.
Proof.
  unfold Simulator.day_step.
  destruct (Store.get_log db (Trip.driver trip) (sd + day)) as [l|] eqn:G.
  - destruct (HOSService.fk_eqb _ _); cbn [snd].
    + repeat split; try lia. exists []. rewrite app_nil_r. reflexivity.
    + destruct (get_log_found _ _ _ _ G) as (I & _).
      split.
      { match goal with
        | |- _ <= Store.uuid4 ?d =>
            assert (E : Store.uuid4 d = Store.uuid4 db)
        end.
        { apply uuid4_same_keys; try reflexivity.
          apply save_log_ids. cbn [ELDLog.with_trip ELDLog.id].
          apply in_map. exact I. }
        lia. }
      repeat split. exists []. rewrite app_nil_r. reflexivity.
  - unfold Simulator.next_day. cbn [snd].
    set (l := Simulator.new_log db trip (sd + day)).
    split.
    { pose proof (uuid4_with_log_le db l).
      pose proof (uuid4_with_records_le (Simulator.with_log db l)
                    (Simulator.day_records (Simulator.with_log db l) l
                       trip day h)).
      lia. }
    repeat split.
    + eexists. reflexivity.
    + intros l0 H0. rewrite intervals_with_records.
      rewrite (filter_none _ (Simulator.day_records _ _ _ _ _)).
      * rewrite app_nil_r. reflexivity.
      * intros r Hr. unfold Simulator.day_records in Hr.
        rewrite (layout_log _ _ _ _ _ Hr).
        cbn [Simulator.new_log ELDLog.id l]. lia.
Qed.

Lemma run_days_frame db trip sd h days :
  let db' := snd (Simulator.run_days db trip sd h days) in
  Store.uuid4 db <= Store.uuid4 db'
  /\ Store.violations db' = Store.violations db
  /\ Store.now db' = Store.now db
  /\ Store.nulls_high db' = Store.nulls_high db
  /\ (exists added, Store.duty_records db' = Store.duty_records db ++ added)
  /\ forall l0, ELDLog.id l0 < Store.uuid4 db ->
                Spec.intervals db' l0 = Spec.intervals db l0.
Proof.
  revert db. induction days as [|day rest IH]; intro db.
  - cbn [Simulator.run_days snd]. repeat split; try lia.
    exists []. rewrite app_nil_r. reflexivity.
  - cbn [Simulator.run_days snd].
    destruct (day_step_frame db trip sd day h)
      as (A1 & A2 & A3 & A4 & (ad1 & A5) & A6).
    destruct (IH (snd (Simulator.day_step db trip sd day h)))
      as (B1 & B2 & B3 & B4 & (ad2 & B5) & B6).
    split; [lia|]. split; [congruence|]. split; [congruence|].
    split; [congruence|]. split.
    + exists (ad1 ++ ad2). rewrite B5, A5, app_assoc. reflexivity.
    + intros l0 H0. rewrite B6 by lia. apply A6. exact H0.
Qed.

(** X12.  [generate_trip_eld_logs] only generates duty records for the
    logs it creates: the intervals of every log that was in the store
    before are the same afterwards, rows are only added to the duty
    record table, and the violations table is not touched (the simulator
    does not run the detector). *)
Theorem simulator_keeps_existing_days (db : Store.DB) (trip : Trip.t)
    (l : ELDLog.t) (Hin : In l (Store.eld_logs db)) :
  exists out db',
    HOSService.generate_trip_eld_logs trip db = (out, db')
    /\ Spec.intervals db' l = Spec.intervals db l
    /\ (exists added,
          Store.duty_records db' = Store.duty_records db ++ added)
    /\ Store.violations db' = Store.violations db.
Proof.
  destruct (Trip.route trip) as [route|] eqn:R.
  - rewrite (generate_trip_run trip route db R).
    eexists _, _. split; [reflexivity|].
    destruct (run_days_frame db trip (Simulator.start_date db trip)
                (RouteCalculation.estimated_duration_hours route)
                (HOSService.py_range
                   (Z.max 1
                      (py_int
                         (RouteCalculation.estimated_duration_hours route
                          / 11) + 1))))
      as (_ & V & _ & _ & A & I).
    split; [|split; [exact A | exact V]].
    apply I. apply uuid4_gt_log. exact Hin.
  - unfold HOSService.generate_trip_eld_logs. rewrite R.
    eexists _, _. split; [reflexivity|].
    split; [reflexivity|]. split; [|reflexivity].
    exists []. rewrite app_nil_r. reflexivity.
Qed.

Lemma simulator_keeps_existing_days_witness :
  exists logs db',
    HOSService.generate_trip_eld_logs (SimulatorExamples.trip_of 25)
      DetectorExamples.db_long_drive = (Ok logs, db')
    /\ List.length logs = 3%nat
    /\ Spec.intervals db' Examples.log_a
       = Spec.intervals DetectorExamples.db_long_drive Examples.log_a.
Proof.
  destruct (simulator_keeps_existing_days DetectorExamples.db_long_drive
              (SimulatorExamples.trip_of 25) Examples.log_a
              (or_introl eq_refl)) as (out & db' & R & I & _).
  destruct (generate_trip_frame (SimulatorExamples.trip_of 25)
              (RouteCalculation.mk 275 25) DetectorExamples.db_long_drive
              eq_refl) as (logs & db2 & R2 & L & _).
  exists logs, db'. rewrite R in R2. injection R2 as -> ->.
  split; [exact R|]. split; [|exact I].
  apply Nat2Z.inj. rewrite L. reflexivity.
Defined.

(** ** Planning the same trip again *)

Lemma find_map_replace {A} (p same : A -> bool) (l l' : A) (xs : list A) :
  find p xs = Some l -> same l = true -> p l' = true ->
  find p (map (fun x => if same x then l' else x) xs) = Some l'.
Proof.
  intros F S P. induction xs as [|x xs IH]; [discriminate|].
  cbn [find map] in *.
  destruct (same x) eqn:Sx.
  - rewrite P. reflexivity.
  - destruct (p x) eqn:Px.
    + injection F as ->. congruence.
    + apply IH. exact F.
Qed.

Lemma find_map_same {A} (p : A -> bool) (f : A -> A) (xs : list A) :
  (forall x, In x xs -> p (f x) = p x /\ (p x = true -> f x = x)) ->
  find p (map f xs) = find p xs.
Proof.
  induction xs as [|x xs IH]; intro H; [reflexivity|].
  cbn [find map].
  destruct (H x (or_introl eq_refl)) as [H1 H2]. rewrite H1.
  destruct (p x) eqn:Px.
  - rewrite (H2 eq_refl). reflexivity.
  - apply IH. intros y Hy. apply H. right. exact Hy.
Qed.

Lemma unique_ids_same (db : Store.DB) (x l : ELDLog.t) :
  Simulator.unique_ids db ->
  In x (Store.eld_logs db) -> In l (Store.eld_logs db) ->
  ELDLog.id x = ELDLog.id l -> x = l.
Proof.
  unfold Simulator.unique_ids. induction (Store.eld_logs db) as [|y ys IH];
    intros N Ix Il E; [destruct Ix|].
  cbn [map] in N. inversion N as [|? ? N1 N2]; subst.
  destruct Ix as [<- | Ix], Il as [<- | Il].
  - reflexivity.
  - exfalso. apply N1. rewrite E. apply in_map. exact Il.
  - exfalso. apply N1. rewrite <- E. apply in_map. exact Ix.
  - apply IH; assumption.
Qed.

Lemma save_log_logs (l : ELDLog.t) (db : Store.DB) :
  In l (Store.eld_logs db) \/ In (ELDLog.id l) (map ELDLog.id (Store.eld_logs db)) ->
  Store.eld_logs (snd (Store.save_log l db))
  = map (fun x => if ELDLog.id x =? ELDLog.id l then l else x)
        (Store.eld_logs db).
Proof.
  intro I. unfold Store.save_log, Store.modify. cbn [snd Store.eld_logs].
  destruct (existsb _ (Store.eld_logs db)) eqn:E; [reflexivity|].
  exfalso.
  assert (J : In (ELDLog.id l) (map ELDLog.id (Store.eld_logs db))).
  { destruct I as [I | I]; [apply in_map; exact I | exact I]. }
  apply in_map_iff in J. destruct J as (x & Hx & Ix).
  assert (existsb (fun x0 => ELDLog.id x0 =? ELDLog.id l)
                  (Store.eld_logs db) = true).
  { apply existsb_exists. exists x. split; [exact Ix|].
    apply Z.eqb_eq. exact Hx. }
  congruence.
Qed.

Lemma day_step_get_same db trip sd day h :
  Store.get_log (snd (Simulator.day_step db trip sd day h))
    (Trip.driver trip) (sd + day)
  = Some (fst (Simulator.day_step db trip sd day h)).
Proof.
  unfold Simulator.day_step.
  destruct (Store.get_log db (Trip.driver trip) (sd + day)) as [l|] eqn:G.
  - destruct (HOSService.fk_eqb _ _); cbn [fst snd]; [exact G|].
    destruct (get_log_found _ _ _ _ G) as (I & D & E).
    unfold Store.get_log. rewrite save_log_logs.
    + apply (find_map_replace _ _ l).
      * exact G.
      * cbn [ELDLog.with_trip ELDLog.id]. apply Z.eqb_refl.
      * unfold Store.same_driver in *.
        cbn [ELDLog.with_trip ELDLog.driver ELDLog.log_date].
        rewrite D, E, Z.eqb_refl. reflexivity.
    + right. cbn [ELDLog.with_trip ELDLog.id]. apply in_map. exact I.
  - rewrite get_log_next_day, G, Z.eqb_refl. reflexivity.
Qed.

Lemma day_step_get_other db trip sd day h d l :
  Simulator.unique_ids db ->
  Store.get_log db (Trip.driver trip) d = Some l ->
  ELDLog.trip l = Some (Trip.id trip) ->
  Store.get_log (snd (Simulator.day_step db trip sd day h))
    (Trip.driver trip) d = Some l.
Proof.
  intros U Gd T. unfold Simulator.day_step.
  destruct (Store.get_log db (Trip.driver trip) (sd + day)) as [l0|] eqn:G.
  - destruct (HOSService.fk_eqb _ _) eqn:F; cbn [snd]; [exact Gd|].
    destruct (get_log_found _ _ _ _ G) as (I0 & D0 & E0).
    assert (Nd : d <> sd + day).
    { intros ->. rewrite G in Gd. injection Gd as ->.
      rewrite T in F. cbn in F. rewrite Z.eqb_refl in F. discriminate. }
    unfold Store.get_log. rewrite save_log_logs.
    2:{ right. cbn [ELDLog.with_trip ELDLog.id]. apply in_map. exact I0. }
    rewrite find_map_same; [exact Gd|].
    intros x Ix. cbn [ELDLog.with_trip ELDLog.id].
    destruct (Z.eqb_spec (ELDLog.id x) (ELDLog.id l0)) as [Ex|Ex].
    + rewrite (unique_ids_same db x l0 U Ix I0 Ex).
      cbn [ELDLog.with_trip ELDLog.driver ELDLog.log_date].
      unfold Store.same_driver.
      cbn [ELDLog.with_trip ELDLog.driver ELDLog.log_date].
      rewrite E0.
      destruct (Z.eqb_spec (sd + day) d); [congruence|].
      rewrite andb_false_r. split; [reflexivity | discriminate].
    + split; [reflexivity | reflexivity].
  - rewrite get_log_next_day, Gd. reflexivity.
Qed.

Lemma day_step_unique db trip sd day h :
  Simulator.unique_ids db ->
  Simulator.unique_ids (snd (Simulator.day_step db trip sd day h)).
Proof.
  intro U. unfold Simulator.day_step.
  destruct (Store.get_log db (Trip.driver trip) (sd + day)) as [l|] eqn:G.
  - destruct (HOSService.fk_eqb _ _); cbn [snd]; [exact U|].
    destruct (get_log_found _ _ _ _ G) as (I & _).
    unfold Simulator.unique_ids. rewrite save_log_ids; [exact U|].
    cbn [ELDLog.with_trip ELDLog.id]. apply in_map. exact I.
  - unfold Simulator.unique_ids. rewrite next_day_logs, map_app.
    cbn [map]. apply NoDup_app.
    + exact U.
    + repeat constructor. intros [].
    + intros x Ix [<- | []]. apply in_map_iff in Ix.
      destruct Ix as (y & Ey & Iy).
      pose proof (uuid4_gt_log db y Iy).
      cbn [Simulator.next_day fst Simulator.new_log ELDLog.id] in Ey. lia.
Qed.

Lemma run_days_settled db trip sd h days :
  Simulator.unique_ids db ->
  let out := fst (Simulator.run_days db trip sd h days) in
  let db' := snd (Simulator.run_days db trip sd h days) in
  Simulator.unique_ids db'
  /\ Forall2 (fun day l =>
                Store.get_log db' (Trip.driver trip) (sd + day) = Some l
                /\ ELDLog.trip l = Some (Trip.id trip)) days out
  /\ forall d l,
       Store.get_log db (Trip.driver trip) d = Some l ->
       ELDLog.trip l = Some (Trip.id trip) ->
       Store.get_log db' (Trip.driver trip) d = Some l.
Proof.
  revert db. induction days as [|day rest IH]; intros db U.
  - cbn [Simulator.run_days fst snd]. split; [exact U|].
    split; [constructor | auto].
  - cbn [Simulator.run_days fst snd].
    set (s := Simulator.day_step db trip sd day h).
    destruct (IH (snd s) (day_step_unique db trip sd day h U))
      as (U' & F & K).
    destruct (day_step_log db trip sd day h) as (_ & _ & T).
    fold s in T.
    split; [exact U'|]. split.
    + constructor; [|exact F]. split; [|exact T].
      apply K; [|exact T]. apply day_step_get_same.
    + intros d l G Tl. apply K; [|exact Tl].
      apply day_step_get_other; assumption.
Qed.

Lemma run_days_noop db trip sd h days out :
  Forall2 (fun day l =>
             Store.get_log db (Trip.driver trip) (sd + day) = Some l
             /\ ELDLog.trip l = Some (Trip.id trip)) days out ->
  Simulator.run_days db trip sd h days = (out, db).
Proof.
  induction 1 as [|day l days out [G T] _ IH]; [reflexivity|].
  cbn [Simulator.run_days].
  assert (S : Simulator.day_step db trip sd day h = (l, db)).
  { unfold Simulator.day_step. rewrite G, T. cbn [HOSService.fk_eqb].
    rewrite Z.eqb_refl. reflexivity. }
  rewrite S. cbn [fst snd]. rewrite IH. reflexivity.
Qed.

(** X13.  Planning is idempotent while the trip starts on the same
    day: on a store whose logs have distinct primary keys, a second call
    of [generate_trip_eld_logs] for the same trip, whatever the clock
    reads by then, returns the same logs as the first and leaves the
    store exactly as the first call left it; no day is generated twice.
    This needs the trip to have a planned start or the second call to
    fall on the same date as the first: a trip without a planned start
    that is planned again a day later gets a log for a further date. *)
Theorem planning_twice_changes_nothing (db : Store.DB) (trip : Trip.t)
    (t' : Time.datetime)
    (Hids : Simulator.unique_ids db)
    (Hday : Trip.planned_start_time trip = None ->
            Time.date_of t' = Time.date_of (Store.now db)) :
  (exists out db',
      HOSService.generate_trip_eld_logs trip db = (out, db')
      /\ HOSService.generate_trip_eld_logs trip (at_clock db' t')
         = (out, at_clock db' t'))
  /\ (let trip1 := SimulatorExamples.trip_unplanned 5 in
      exists logs1 db1 logs2 db2,
        HOSService.generate_trip_eld_logs trip1 SimulatorExamples.db_empty
        = (Ok logs1, db1)
        /\ HOSService.generate_trip_eld_logs trip1
             (at_clock db1 (Examples.at_ 25 0)) = (Ok logs2, db2)
        /\ map ELDLog.log_date logs1 = [19000]
        /\ map ELDLog.log_date logs2 = [19001]
        /\ map ELDLog.log_date (Store.eld_logs db2) = [19000; 19001]).
Proof.
  split.
  2:{ clear. cbv zeta. eexists _, _, _, _.
      split; [vm_compute; reflexivity|].
      split; [vm_compute; reflexivity|].
      repeat split. }
  destruct (Trip.route trip) as [route|] eqn:R.
  - rewrite (generate_trip_run trip route db R).
    eexists _, _. split; [reflexivity|].
    rewrite (generate_trip_run trip route _ R).
    set (h := RouteCalculation.estimated_duration_hours route).
    set (days := HOSService.py_range _).
    set (sd := Simulator.start_date db trip).
    destruct (run_days_frame db trip sd h days) as (_ & _ & N & _).
    set (db' := snd (Simulator.run_days db trip sd h days)) in *.
    assert (S : Simulator.start_date (at_clock db' t') trip = sd).
    { unfold sd, Simulator.start_date.
      destruct (Trip.planned_start_time trip); [reflexivity|].
      cbn [at_clock Store.now]. apply Hday. reflexivity. }
    rewrite S.
    destruct (run_days_settled db trip sd h days Hids) as (_ & F & _).
    fold db' in F.
    rewrite (run_days_noop (at_clock db' t') trip sd h days _ F).
    reflexivity.
  - unfold HOSService.generate_trip_eld_logs. rewrite R.
    eexists _, _. split; reflexivity.
Qed.

Lemma planning_twice_changes_nothing_witness :
  Simulator.unique_ids SimulatorExamples.db_fresh
  /\ exists logs db',
       HOSService.generate_trip_eld_logs (SimulatorExamples.trip_of 25)
         SimulatorExamples.db_fresh = (Ok logs, db')
       /\ HOSService.generate_trip_eld_logs (SimulatorExamples.trip_of 25)
            (at_clock db' (Examples.at_ 30 0))
          = (Ok logs, at_clock db' (Examples.at_ 30 0))
       /\ List.length logs = 3%nat.
Proof.
  assert (U : Simulator.unique_ids SimulatorExamples.db_fresh).
  { unfold Simulator.unique_ids. cbn. repeat constructor. intros []. }
  split; [exact U|].
  destruct (planning_twice_changes_nothing SimulatorExamples.db_fresh
              (SimulatorExamples.trip_of 25) (Examples.at_ 30 0) U
              ltac:(discriminate)) as ((out & db' & R1 & R2) & _).
  destruct (generate_trip_frame (SimulatorExamples.trip_of 25)
              (RouteCalculation.mk 275 25) SimulatorExamples.db_fresh
              eq_refl) as (logs & db2 & R & L & _).
  rewrite R1 in R. injection R as -> ->.
  exists logs, db2. split; [exact R1|]. split; [exact R2|].
  apply Nat2Z.inj. rewrite L. reflexivity.
Defined.

(* ================================================================== *)
(** * Whole trips of a driver without logs *)

Lemma py_range_NoDup (n : Z) : NoDup (HOSService.py_range n).
Proof.
  unfold HOSService.py_range. apply Finite.Injective_map_NoDup.
  - intros a b H. apply Nat2Z.inj. exact H.
  - apply seq_NoDup.
Qed.

Lemma py_range_nonneg (n d : Z) : In d (HOSService.py_range n) -> 0 <= d.
Proof.
  unfold HOSService.py_range. intro I. apply in_map_iff in I.
  destruct I as (k & <- & _). lia.
Qed.

Lemma day_step_fresh db trip sd day h :
  Store.get_log db (Trip.driver trip) (sd + day) = None ->
  Simulator.day_step db trip sd day h
  = Simulator.next_day db trip (sd + day) day h.
Proof. intro G. unfold Simulator.day_step. rewrite G. reflexivity. Qed.

Lemma run_days_fresh trip sd h days :
  forall db,
    NoDup days ->
    (forall d, In d days ->
               Store.get_log db (Trip.driver trip) (sd + d) = None) ->
    let out := fst (Simulator.run_days db trip sd h days) in
    let db' := snd (Simulator.run_days db trip sd h days) in
    Forall2 (Plan.fresh_day db' trip sd h) days out
    /\ Store.eld_logs db' = Store.eld_logs db ++ out
    /\ (forall l2 t2 d2 h2,
          In l2 (Store.eld_logs db) ->
          Simulator.generated db l2 t2 d2 h2 ->
          Simulator.generated db' l2 t2 d2 h2)
    /\ (forall d l, Store.get_log db (Trip.driver trip) d = Some l ->
                    Store.get_log db' (Trip.driver trip) d = Some l).
Proof.
  induction days as [|day rest IH]; intros db N F.
  - cbn [Simulator.run_days fst snd]. split; [constructor|].
    split; [rewrite app_nil_r; reflexivity|]. split; auto.
  - cbn [Simulator.run_days fst snd].
    inversion N as [|? ? N1 N2]; subst.
    rewrite (day_step_fresh db trip sd day h (F day (or_introl eq_refl))).
    set (s := Simulator.next_day db trip (sd + day) day h).
    assert (F' : forall d, In d rest ->
                   Store.get_log (snd s) (Trip.driver trip) (sd + d) = None).
    { intros d Hd. unfold s. rewrite get_log_next_day.
      rewrite (F d (or_intror Hd)).
      destruct (Z.eqb_spec (sd + day) (sd + d)); [|reflexivity].
      exfalso. apply N1. assert (day = d) as -> by lia. exact Hd. }
    destruct (IH (snd s) N2 F') as (I1 & I2 & I3 & I4).
    assert (Gs : Store.get_log (snd s) (Trip.driver trip) (sd + day)
                 = Some (fst s)).
    { unfold s. rewrite get_log_next_day.
      rewrite (F day (or_introl eq_refl)), Z.eqb_refl. reflexivity. }
    assert (Is : In (fst s) (Store.eld_logs (snd s))).
    { unfold s. rewrite next_day_logs. apply in_or_app. right. left.
      reflexivity. }
    split; [|split; [|split]].
    + constructor; [|exact I1].
      unfold Plan.fresh_day. split.
      { apply I3; [exact Is|]. apply next_day_generated. }
      split.
      { rewrite I2. apply in_or_app. left. exact Is. }
      split; [apply I4; exact Gs|].
      repeat split.
    + rewrite I2. unfold s at 1. rewrite next_day_logs.
      rewrite <- app_assoc. reflexivity.
    + intros l2 t2 d2 h2 In2 G2. apply I3.
      * unfold s. rewrite next_day_logs. apply in_or_app. left. exact In2.
      * apply next_day_keeps_generated; assumption.
    + intros d l G. apply I4. unfold s. rewrite get_log_next_day, G.
      reflexivity.
Qed.

Lemma fresh_driver_logs db trip out d l :
  Simulator.no_log_of db (Trip.driver trip) ->
  find (fun x => Store.same_driver (Trip.driver trip) x
                 && (ELDLog.log_date x =? d))
       (Store.eld_logs db ++ out) = Some l ->
  In l out.
Proof.
  intros N F. rewrite find_app in F.
  pose proof (get_log_no_log_of db (Trip.driver trip) d N) as G.
  unfold Store.get_log in G. rewrite G in F.
  apply find_some in F. apply F.
Qed.

Lemma Forall2_in_r {A B} (R : A -> B -> Prop) (xs : list A) (ys : list B)
    (y : B) :
  Forall2 R xs ys -> In y ys -> exists x, In x xs /\ R x y.
Proof.
  induction 1 as [|a b xs ys Rab _ IH]; intros I; [destruct I|].
  destruct I as [<- | I].
  - exists a. split; [left; reflexivity | exact Rab].
  - destruct (IH I) as (x & Ix & Rx). exists x. split; [right|]; assumption.
Qed.

Lemma fresh_day_passes db db' trip sd h days out :
  Simulator.no_log_of db (Trip.driver trip) ->
  Store.eld_logs db' = Store.eld_logs db ++ out ->
  Forall2 (Plan.fresh_day db' trip sd h) days out ->
  forall l, In l out -> Plan.passes_daily_checks db' l.
Proof.
  intros N E F l I.
  destruct (Forall2_in_r _ _ _ _ F I)
    as (day & _ & G & _ & _ & D & Dt & _).
  split; [|split; [|split]].
  - apply check_driving_none. exact (generated_driving_up _ _ _ _ _ G).
  - apply (check_duty_none _ _ (Time.combine (ELDLog.log_date l) 6)).
    intros r Hr.
    destruct (generated_duties _ _ _ _ _ r G Hr) as (e & E1 & E2 & E3).
    exists e. unfold Time.us_per_hour in *. repeat split; try assumption.
    lia.
  - apply check_break_none. exact (generated_break _ _ _ _ _ G).
  - apply check_rest_none.
    destruct (Store.get_log db' (ELDLog.driver l) (ELDLog.log_date l - 1))
      as [prev|] eqn:P.
    + destruct (get_log_found _ _ _ _ P) as (_ & _ & Pd).
      assert (Ip : In prev out).
      { apply (fresh_driver_logs db trip out (ELDLog.log_date l - 1));
          [exact N|].
        unfold Store.get_log in P. rewrite E, D in P. exact P. }
      destruct (Forall2_in_r _ _ _ _ F Ip) as (day' & _ & G' & _).
      exact (generated_rest _ _ _ _ _ _ _ _ _ G' G P Pd).
    + apply no_previous_log_no_gap. exact P.
Qed.

Lemma fresh_trip_days db trip route :
  Trip.route trip = Some route ->
  Simulator.no_log_of db (Trip.driver trip) ->
  let h := RouteCalculation.estimated_duration_hours route in
  let sd := Simulator.start_date db trip in
  let days := HOSService.py_range (Z.max 1 (py_int (h / 11) + 1)) in
  exists logs db',
    HOSService.generate_trip_eld_logs trip db = (Ok logs, db')
    /\ Forall2 (Plan.fresh_day db' trip sd h) days logs
    /\ Store.eld_logs db' = Store.eld_logs db ++ logs.
Proof.
  intros R N h sd days. rewrite (generate_trip_run trip route db R).
  eexists _, _. split; [reflexivity|].
  destruct (run_days_fresh trip sd h days db) as (A & B & _).
  - apply py_range_NoDup.
  - intros d _. apply get_log_no_log_of. exact N.
  - split; [exact A | exact B].
Qed.

(** X14.  For a driver without logs, every day that
    [generate_trip_eld_logs] generates, whatever the length of the trip,
    passes the four daily checks of the detector: at most 11 hours of
    driving, a duty window of at most 14 hours, no more than 8 hours of
    driving without a thirty-minute gap, and at least 10 hours of rest
    after the previous day. *)
Theorem simulated_days_pass_daily_checks (db : Store.DB) (trip : Trip.t)
    (route : RouteCalculation.t)
    (Hroute : Trip.route trip = Some route)
    (Hnew : Simulator.no_log_of db (Trip.driver trip)) :
  exists logs db',
    HOSService.generate_trip_eld_logs trip db = (Ok logs, db')
    /\ Forall (fun l => (Spec.driving_hours db' l <= 11)%Q
                        /\ Plan.passes_daily_checks db' l) logs.
Proof.
  destruct (fresh_trip_days db trip route Hroute Hnew)
    as (logs & db' & R & F & E).
  exists logs, db'. split; [exact R|].
  apply Forall_forall. intros l I. split.
  - destruct (Forall2_in_r _ _ _ _ F I) as (day & _ & G & _).
    exact (generated_driving _ _ _ _ _ G).
  - exact (fresh_day_passes db db' trip _ _ _ logs Hnew E F l I).
Qed.

Lemma simulated_days_pass_daily_checks_witness :
  exists logs db',
    HOSService.generate_trip_eld_logs (SimulatorExamples.trip_of 100)
      SimulatorExamples.db_empty = (Ok logs, db')
    /\ List.length logs = 10%nat
    /\ Forall (Plan.passes_daily_checks db') logs.
Proof.
  assert (N : Simulator.no_log_of SimulatorExamples.db_empty
                (Trip.driver (SimulatorExamples.trip_of 100))).
  { intros l []. }
  destruct (simulated_days_pass_daily_checks SimulatorExamples.db_empty
              (SimulatorExamples.trip_of 100) (RouteCalculation.mk 275 100)
              eq_refl N) as (logs & db' & R & F).
  destruct (generate_trip_frame (SimulatorExamples.trip_of 100)
              (RouteCalculation.mk 275 100) SimulatorExamples.db_empty
              eq_refl) as (logs2 & db2 & R2 & L & _).
  rewrite R in R2. injection R2 as <- <-.
  exists logs, db'. split; [exact R|]. split.
  - apply Nat2Z.inj. rewrite L. reflexivity.
  - apply Forall_forall. intros l I.
    apply (proj1 (Forall_forall _ _) F l I).
Defined.

Lemma day_segments_on_duty_min (trip : Trip.t) (day : Z) (h : Q) :
  30 * Time.us_per_minute
  <= Simulator.minutes_of Spec.on_duty (Simulator.day_segments trip day h).
Proof.
  shape_cases trip day h;
    seg_cbn; lia.
Qed.

Lemma generated_on_duty_min dbF l trip day h :
  Simulator.generated dbF l trip day h ->
  30 * Time.us_per_minute
  <= Spec.closed_total Spec.on_duty (Spec.intervals dbF l).
Proof.
  intro G. destruct (generated_rows _ _ _ _ _ G) as (id0 & left & E).
  rewrite E, closed_total_layout, minutes_of_app.
  pose proof (day_segments_on_duty_min trip day h) as B.
  change (Simulator.minutes_of Spec.on_duty
            [Simulator.seg "off_duty" left "Off duty rest" "Truck stop"])
    with 0.
  lia.
Qed.

(** X15.  The simulator writes its intervals without updating the
    cached totals: every log that [generate_trip_eld_logs] creates for a
    driver without logs is stored with all four totals at zero, although
    its closed on-duty intervals add up to at least thirty minutes, so
    the cached totals of a generated day do not agree with its
    intervals. *)
Theorem simulator_leaves_totals_at_zero (db : Store.DB) (trip : Trip.t)
    (route : RouteCalculation.t)
    (Hroute : Trip.route trip = Some route)
    (Hnew : Simulator.no_log_of db (Trip.driver trip)) :
  exists logs db',
    HOSService.generate_trip_eld_logs trip db = (Ok logs, db')
    /\ logs <> []
    /\ Forall (fun l =>
                 In l (Store.eld_logs db')
                 /\ ELDLog.total_drive_time l = 0
                 /\ ELDLog.total_duty_time l = 0
                 /\ ELDLog.total_off_duty_time l = 0
                 /\ ELDLog.total_sleeper_time l = 0
                 /\ 30 * Time.us_per_minute
                    <= Spec.closed_total Spec.on_duty (Spec.intervals db' l)
                 /\ ~ Spec.cache_consistent db' l) logs.
Proof.
  destruct (fresh_trip_days db trip route Hroute Hnew)
    as (logs & db' & R & F & E).
  exists logs, db'. split; [exact R|]. split.
  - destruct (generate_trip_frame trip route db Hroute)
      as (logs2 & db2 & R2 & L & _).
    rewrite R in R2. injection R2 as <- <-.
    intros ->. cbn in L. lia.
  - apply Forall_forall. intros l I.
    destruct (Forall2_in_r _ _ _ _ F I)
      as (day & _ & G & Il & _ & _ & _ & T1 & T2 & T3 & T4).
    pose proof (generated_on_duty_min _ _ _ _ _ G) as M.
    repeat split; try assumption.
    intros (_ & C & _). rewrite T2 in C.
    unfold Time.us_per_minute in M. lia.
Qed.

Lemma simulator_leaves_totals_at_zero_witness :
  exists log db',
    HOSService.generate_trip_eld_logs (SimulatorExamples.trip_of 5)
      SimulatorExamples.db_empty = (Ok [log], db')
    /\ ELDLog.total_duty_time log = 0
    /\ ~ Spec.cache_consistent db' log.
Proof.
  assert (N : Simulator.no_log_of SimulatorExamples.db_empty
                (Trip.driver (SimulatorExamples.trip_of 5))).
  { intros l []. }
  destruct (simulator_leaves_totals_at_zero SimulatorExamples.db_empty
              (SimulatorExamples.trip_of 5) (RouteCalculation.mk 275 5)
              eq_refl N) as (logs & db' & R & _ & F).
  destruct (generate_trip_frame (SimulatorExamples.trip_of 5)
              (RouteCalculation.mk 275 5) SimulatorExamples.db_empty
              eq_refl) as (logs2 & db2 & R2 & L & _).
  rewrite R in R2. injection R2 as <- <-.
  destruct logs as [|log [|log2 rest]]; try (cbn in L; lia).
  exists log, db'. split; [exact R|].
  inversion F as [|? ? (_ & _ & T & _ & _ & _ & C) _]; subst.
  split; [exact T | exact C].
Defined.

(* ================================================================== *)
(** * The first day of a trip of under an hour *)






